(* ===== verification/_CoqProject ===== *)
-Q . S2P
Prelude.v
Encoding.v
Query.v
Utils.v
Storage.v
Shards.v
WalRecord.v
FileSystem.v
ByteSize.v
Index.v
Segment.v
SegmentManager.v
Logs.v
LogReaders.v
Crash.v
Concurrency.v
Retry.v
Protocol.v
Wal.v
Replication.v
WalShutdown.v
Database.v
Sessions.v
Transport.v
ClientWal.v
SlaveSession.v
Init.v
Recovery.v
SlaveRestart.v
Programs.v
Server.v
ClientMain.v
LoadTest.v
