(* ===== verification/Prelude.v ===== *)
(** * laguna: a verified model of a replicated key-value store

    laguna is a server in Go that keeps strings under string keys.  Clients
    send lines ([SET k v], [GET k], [DEL k]) over TCP or on the standard
    input; writes go to a write-ahead log of segment files before they reach a
    sharded in-memory storage; a slave asks its master for the part of the log
    it does not have and applies it.  This library models the Go code as
    executable functions and step relations and proves what its parts promise
    each other, what the whole server promises a client, and the places where
    the code does less than it means to.

    ** The parts, in the order of the files

    - [Prelude]: bytes, Go strings, errors with [errors.Is], the effect monad
      [Go] (state, with three outcomes: a call returns, panics or blocks for
      ever), 64-, 32- and 16-bit wrap-around, the notations [let!], [do!] and
      [try!] (early return on an error), the hint databases and lemmas shared
      by all.
    - [Encoding]: big-endian integers of [encoding/binary] and reads of a
      fixed number of bytes.
    - [Query]: [internal/query], the parser, over a byte-level model of
      [strings.TrimSpace], [strings.Trim] and [strings.Fields].
    - [Utils]: [utils/id_generator] and [utils/ctx_utils].
    - [Storage]: [internal/database/storage]: FNV hash, shards, engine,
      storage.  The class [Engine] is the code's interface, [EngineLaws] what
      an engine promises; [KVStore] and [KVLaws] are the storage as its
      clients see it, with [kv_abs] the map it stands for.
    - [Shards]: the same map with its [sync.RWMutex] locks, any number of
      goroutines calling it, and every lock operation a step.
    - [WalRecord]: [wal_record.go], the binary form of a log row, and
      [replay], what a log does to a map.
    - [FileSystem]: the operating system the code runs on (a tree of files, a
      clock, and faults that a run may inject into any call) and
      [utils/fs/dir.go] on it.
    - [ByteSize]: [utils/data_type/size.go], sizes in the configuration, on
      the Standard Library's specification of binary64.
    - [Index]: [internal/segment/index.go], the three index managers behind
      the class [IndexManager].
    - [Segment], [SegmentManager]: [segment.go] and [segment_manager.go].  The
      mutex of the manager is a flag, and [Lock] on a taken one blocks; the
      goroutines that update the index are pending batches that run at any
      later time.
    - [Logs]: [internal/database/logs], the log reader and writer, against the
      class [SegmentManager] with its laws, which [manager_segment_laws]
      discharges.
    - [LogReaders]: reads of the log while it is written, in one step relation:
      the writer of the segment manager, whose bytes reach the disk in pieces,
      rotations, index updates and any number of [ReadFrom] calls.
    - [Crash]: a new process on the disk that the old one, or a machine that
      stops, leaves behind at any point of [LogReaders].
    - [Concurrency]: [utils/concurrency]: channels with blocking, closing and
      panics, futures, the stream future with the copies Go makes of it, the
      semaphore.
    - [Retry]: [utils/retry/with_retry.go].
    - [Protocol]: [replication/protocol.go].
    - [Wal]: [wal.go]; the calls of [Write] and the worker are processes of a
      step relation, one step per channel operation, lock section or flush.
      The class [LogTarget] says when its writer may be relied on, and
      [manager_log_target] discharges it for the segment manager.
    - [Replication]: the master and the slave of
      [internal/database/replication]; [own_log] is the log a slave keeps.
    - [WalShutdown]: the end of the worker, in the step relation of [Wal].
    - [Database]: [database.go], over any [KVStore] and any log with the class
      [WALOps].
    - [Sessions]: [database.go] with many callers: the log of [Wal], with its
      worker, and one storage, a call of [Execute] taken apart into the steps
      others can come between.
    - [Transport]: [internal/handlers] and [internal/transport].
    - [ClientWal]: the log of [Wal] behind the interface [WALOps]: the worker
      moves between the actions of a call as a schedule says, and the wait for
      a future may end with its deadline.  [worker_move_sound] and
      [worker_move_complete] relate the moves to the steps of [Wal].
    - [SlaveSession]: the loop of a slave on the TCP client, with time, the
      deadline of a connection and redialling.
    - [Init]: [internal/database/initialization.go] and
      [replication/initialization.go]; the database on the log of [ClientWal],
      on the segment manager, on the file system, in one state.
    - [Recovery]: the database of [Init], started again after a crash of [Crash].
    - [SlaveRestart]: a slave of [Init] on the disk of an earlier run.
    - [Programs]: [main.go], [slave_instance/main.go], [master.go]'s transport,
      the logger's settings and fields, and a listener from [Listen] to
      [Close].
    - [Server]: connection, handler, parser and database together.
    - [ClientMain]: [client/client.go], and a client connected to a server.
    - [LoadTest]: [system_load_testing/system_load_testing.go], and the server
      it is run against.

    ** What is proved

    - The whole: [server_refines_map] (the answers to the lines of a client
      are those of one map and of the log, whatever the log answers, however
      the bytes arrive and however many shards there are),
      [client_session_refines_map] (the same of what a user of the client
      program sees, down to the terminal), [replies_are_lines] (each answer is
      one line, which is what the client reads), [load_test_is_served] (what
      the load test sends in turn, when it can wait for ever, and what a master
      answers); [InitDB_restart] (the server started on a disk, used under any
      schedule of the log's worker, and started again: what is answered, what
      is restored, and that it is the same data when every answer was a
      success), [crash_keeps_answers] (the same when it does not stop but
      crashes, inside a write and with unsynced bytes lost, and what is left
      when the machine loses directory entries too).
    - The log on disk: [Manager_Write_layout] and [Manager_run_index] (where
      rows go, across rotations, and that the index finds them),
      [restart_restores_log], [crash_restores_log] (a crash at any point, inside
      a write too: no finished write is lost with the process, and when the
      machine stops none in a file whose directory entry is left),
      [readers_get_runs] (readers that take no lock get gap-free runs of the
      log), [calls_are_runs] (the code's calls are runs of those steps),
      [ReadFrom_index_suffix], [read_any_chunking], [Row_roundtrip] (a row is
      encoded exactly when its arguments are short enough, and is read back),
      [Unmarshal_strict].
    - The log in memory: [WAL_log_is_fifo], [WAL_numbers_unique],
      [WAL_futures_once]; these hold in every interleaving of any number of
      writers with the worker, the first for rows that the record format can
      hold.  [WAL_shutdown_drains]: with no call in progress the worker ends,
      for such rows with every one in the log and every future answered.
      [RestoreStream_continues] is about restarts.
    - Storage and database: [Storage_refines_map], [Execute_behaviour],
      [Execute_log_agrees], [NewDatabase_replays]; under concurrency
      [Shards_linearizable] (no data race, and calls that behave as if each
      were one step) and [Shards_calls_finish] (they all return);
      [single_writer_log_agrees] (the log of many connections, replayed, gives
      a key the value it has when one connection writes it).
    - Replication: [replica_catches_up], [slave_keeps_up] (the slave's loop on a
      living connection reaches the state of its master, round after round), [Request_roundtrip],
      [Response_roundtrip].
    - Parser, indexes, transport and helpers: [Parse_correct],
      [Parse_SET_roundtrip], [Array_agrees_with_Mutex],
      [connection_serves_lines], [listener_bounds_connections],
      [Send_success], [cli_serves_first_lines], [stream_delivers_values],
      [WithRetryValue_attempts], [UnmarshalText_sizes].
    - Programs: [listener_lifecycle] (what a listener does before and after
      [Close]) and [main_ends] (every way the server process ends).
    - Behaviour the code should not have: [Manager_error_wedges] (a failed
      write leaves the mutex locked), [WAL_poisoned] (after one oversized
      argument every flush fails), [torn_tail_hides_appends],
      [WAL_acks_before_durable], [WAL_ack_stranded], [WAL_late_write_lost] (the
      row of a write that meets the shutdown is not logged and its future never
      answered), [WAL_log_out_of_order]
      with its consequence [replica_refetches], [Parse_keeps_quotes] (against
      the example of the README),
      [concurrent_writes_diverge] (two writers of a key, logged in one order and
      executed in the other), [late_write_restored] (a write reported as failed
      that the next start executes), [slave_falls_silent] (after the deadline of
      its connection a slave never reaches its master again),
      [slave_restart_duplicates_log] (a slave asks for the whole log again and
      appends it to the one it has), [slave_logs_refused_writes],
      [COW_lost_update], [Marshal_count_wraps], [cancelled_connection_spins],
      [client_never_leaves] (the client does not end with its input),
      [load_test_rate_panics].

    A theorem with hypotheses has a witness beside it or in the module of
    examples of its file, which applies it to a concrete run; that of
    [Transport] is at the end of [Server].  Those of [Server], [ClientMain] and
    [LoadTest] run on the code's own log, with a write whose deadline passes;
    those of [Replication] and [SlaveSession] with a slave that keeps a log.

    ** Bounds and fuel

    Loops over data are structural.  Loops that are not take a number of
    iterations: [rows_loop] and [read] get one more than the bytes there are,
    and [read_any_chunking] shows that this always suffices; the searches get
    the length of the array; [handleConnection] gets a number of calls, and
    [connection_serves_lines] asks for one more than there are lines;
    [startReplication] and [cliListener.loop] get the number of rounds that is
    observed, and the client's loop takes the contexts of its iterations.  The
    step relations need no fuel; the two theorems of termination give their
    number of steps, six for each call of the map, and for the shutdown one
    for each row and future that is left and a few more.  [UnmarshalText_sizes]
    speaks of whole numbers below 2^53 before a unit, where binary64 is exact,
    and below 2^63 without one.  Theorems about segment files ask that the volume of the log
    stays below 2^63 bytes, as the code's [int64] offsets do, and that the
    clock, read in microseconds to name files, has not run backwards; those of
    [LogReaders] and [Crash] speak of runs of any number of steps, each of which
    reads the clock at most once.  What a call on the log answers is not
    assumed: the theorems of [Server], [ClientMain] and [LoadTest] take the
    answers of [log_answers], and [ClientWal] says what they can be.

    ** What is not modelled

    What zap writes of a message (it has no effect on the state; the package's
    [Build] and [NamedError] are parameters); the yaml package, a parameter of [NewConfig];
    Go's Unicode tables behind [strings.ToUpper] and [%q], and the result of a
    conversion from a float outside the integers' range, which Go leaves open:
    parameters of [ByteSize]; the generated mocks of the tests; sockets below
    reads and writes that may fail, and wait for ever only in [LoadTest]; time,
    other than that timers fire at some point, except in [SlaveSession].  The Go
    memory model enters as the granularity of the steps: an atomic or a
    critical section is one step, except in [Shards], where it is not.

    ** Plan

    Next: the worker of [Wal] on the writer of [LogReaders], for crashes between
    the calls of many clients; a slave that reads by [LogReaders] and loops by
    [SlaveSession] in one run with its master's writers; the shutdown of the
    whole process with connections open. *)

From Stdlib Require Export ZArith NArith Lia Strings.Byte.
From stdpp Require Export base sorting strings numbers gmap.
From stdpp Require Export list.

(** ** Bytes and Go strings

    A Go [string] and a Go [[]byte] are both finite sequences of bytes; the
    code converts between them freely ([string(in)], [[]byte(key)]) without
    changing the contents, so both are [list byte]. *)

Abbreviation byte := Init.Byte.byte.
Abbreviation bytes := (list byte).
Abbreviation gostring := (list byte).

#[export] Instance byte_eq_decision : EqDecision byte := Byte.byte_eq_dec.

#[export] Program Instance byte_countable : Countable byte :=
  inj_countable Byte.to_N Byte.of_N _.
Next Obligation. intros b. apply Byte.of_to_N. Qed.

#[export] Instance byte_inhabited : Inhabited byte := populate x00.

(** A Go string literal. *)
Definition str (s : String.string) : gostring := String.list_byte_of_string s.
Arguments str _%_string.

(** The byte holding [n] modulo 256, Go's conversion [byte(n)]. *)
Definition byte_of_N (n : N) : byte :=
  default x00 (Byte.of_N (n mod 256)).

(** ** Byte-wise lexicographic order, Go's [<=] on strings *)

Fixpoint gostr_leb (a b : gostring) : bool :=
  match a, b with
  | [], _ => true
  | _ :: _, [] => false
  | x :: a', y :: b' =>
      if (Byte.to_N x <? Byte.to_N y)%N then true
      else if (Byte.to_N y <? Byte.to_N x)%N then false
      else gostr_leb a' b'
  end.

(** Go's [a < b] on strings. *)
Definition gostr_ltb (a b : gostring) : bool := negb (gostr_leb b a).

Definition gostr_le (a b : gostring) : Prop := gostr_leb a b = true.

#[export] Instance gostr_le_dec a b : Decision (gostr_le a b) :=
  decide (gostr_leb a b = true).

(** ** Errors

    The sentinel errors of the packages are constructors of their own, since
    the code compares against them with [==] and [errors.Is]; [ErrorString]
    is [errors.New] of a message that nothing compares against, and
    [Wrapped pre e] is [fmt.Errorf("pre: %w", e)]. *)

Inductive error :=
| EOF
| ErrUnexpectedEOF
| ContextCanceled
| DeadlineExceeded
| ErrIndexNotFound
| ErrEngineNotFound
| ErrNoNewLogs
| ErrNonReadOpSlave
| ErrUnknowMethod
| ErrWrongQuery
| ErrWrongArgsLen
| OpError (msg : gostring)
| PathError (msg : gostring)
| NotExist (msg : gostring)
| ErrorString (msg : gostring)
| Wrapped (pre : gostring) (e : error).

#[export] Instance error_eq_decision : EqDecision error.
Proof. solve_decision. Defined.

(** The text [err.Error()] returns. *)
Fixpoint Error (e : error) : gostring :=
  match e with
  | EOF => str "EOF"
  | ErrUnexpectedEOF => str "unexpected EOF"
  | ContextCanceled => str "context canceled"
  | DeadlineExceeded => str "context deadline exceeded"
  | ErrIndexNotFound => str "index not found"
  | ErrEngineNotFound => str "not found"
  | ErrNoNewLogs => str "no new logs"
  | ErrNonReadOpSlave => str "non read operation on slave"
  | ErrUnknowMethod => str "unknow method"
  | ErrWrongQuery => str "wrong query"
  | ErrWrongArgsLen => str "wrong args length"
  | OpError msg | PathError msg | NotExist msg | ErrorString msg => msg
  | Wrapped pre e' => pre ++ str ": " ++ Error e'
  end.

(** [errors.Is(e, target)]: the error itself or one it wraps. *)
Fixpoint errors_Is (e target : error) : bool :=
  bool_decide (e = target) ||
  match e with Wrapped _ e' => errors_Is e' target | _ => false end.

(** A Go function of type [func(...) (T, error)] that returns a zero value
    with every error. *)
Inductive result (A : Type) :=
| Ok (a : A)
| Err (e : error).
Arguments Ok {A} a.
Arguments Err {A} e.

#[export] Instance result_eq_decision `{EqDecision A} : EqDecision (result A).
Proof. solve_decision. Defined.

Definition is_ok {A} (r : result A) : bool :=
  match r with Ok _ => true | Err _ => false end.

(** ** Effects: state, panics and blocking

    A call either returns, panics (a slice index out of range, a division by
    zero) or blocks forever (a second [Lock] of a mutex that nobody will
    unlock); in each case the state reached so far is kept. *)

Inductive outcome (A : Type) :=
| Ret (a : A)
| Panics
| Blocks.
Arguments Ret {A} a.
Arguments Panics {A}.
Arguments Blocks {A}.

#[export] Instance outcome_eq_decision `{EqDecision A} : EqDecision (outcome A).
Proof. solve_decision. Defined.

Definition Go (S A : Type) : Type := S -> outcome A * S.

Definition go_ret {S A} (a : A) : Go S A := fun s => (Ret a, s).

Definition go_bind {S A B} (c : Go S A) (k : A -> Go S B) : Go S B :=
  fun s =>
    match c s with
    | (Ret a, s') => k a s'
    | (Panics, s') => (Panics, s')
    | (Blocks, s') => (Blocks, s')
    end.

Definition go_panic {S A} : Go S A := fun s => (Panics, s).
Definition go_block {S A} : Go S A := fun s => (Blocks, s).
Definition go_get {S A} (f : S -> A) : Go S A := fun s => (Ret (f s), s).
Definition go_put {S} (f : S -> S) : Go S unit := fun s => (Ret tt, f s).

(** Run [c] on the part of the state that [get]/[put] designate. *)
Definition go_zoom {S T A} (get : T -> S) (put : S -> T -> T) (c : Go S A) : Go T A :=
  fun t => let '(o, s') := c (get t) in (o, put s' t).

Declare Scope go_scope.
Delimit Scope go_scope with go.
Notation "'let!' x := c 'in' k" := (go_bind c (fun x => k))
  (at level 10, x name, c at level 100, k at level 200) : go_scope.
Notation "'let!' ' p := c 'in' k" := (go_bind c (fun x => match x with p => k end))
  (at level 10, p pattern, c at level 100, k at level 200) : go_scope.
Notation "'do!' c 'in' k" := (go_bind c (fun _ => k))
  (at level 10, c at level 100, k at level 200) : go_scope.

(** Early return on a Go error: [v, err := c; if err != nil { return err }]. *)
Notation "'try!' x := c 'in' k" :=
  (go_bind c (fun r => match r with Ok x => k | Err e => go_ret (Err e) end))
  (at level 10, x name, c at level 100, k at level 200) : go_scope.

Open Scope go_scope.

(** ** Machine integers *)

(** Two's-complement wrap-around of an [int64] (and of Go's [int], 64 bits). *)
Definition i64 (z : Z) : Z := ((z + 2 ^ 63) mod 2 ^ 64 - 2 ^ 63)%Z.
Definition i32 (z : Z) : Z := ((z + 2 ^ 31) mod 2 ^ 32 - 2 ^ 31)%Z.
Definition u64 (n : N) : N := (n mod 2 ^ 64)%N.
Definition u16 (n : N) : N := (n mod 2 ^ 16)%N.

(** The length of a slice or string as the [int] that [len] returns. *)
Definition len {A} (l : list A) : Z := Z.of_nat (length l).

(** ** Automation *)

Create HintDb laguna discriminated.
Create Rewrite HintDb laguna.

(** Split every conjunction and existential among the hypotheses. *)
Ltac destr_all :=
  repeat match goal with
  | H : exists _, _ |- _ => destruct H
  | H : _ /\ _ |- _ => destruct H
  end.

(** Case on the [match] or [if] that blocks the goal, keeping the equation. *)
Ltac case_step :=
  match goal with
  | |- context [match ?x with _ => _ end] => destruct x eqn:?
  end.

(** ** Lemmas on bytes, orders and integers *)

Lemma to_N_lt (b : byte) : (Byte.to_N b < 256)%N.
Proof. pose proof (Byte.to_N_bounded b). lia. Qed.

Lemma to_N_inj (a b : byte) : Byte.to_N a = Byte.to_N b -> a = b.
Proof.
  intros E. pose proof (Byte.of_to_N a) as Ha. pose proof (Byte.of_to_N b) as Hb.
  rewrite E in Ha. congruence.
Qed.

Lemma to_N_byte_of_N (n : N) : Byte.to_N (byte_of_N n) = (n mod 256)%N.
Proof.
  unfold byte_of_N. destruct (Byte.of_N (n mod 256)) as [b|] eqn:E; simpl.
  - by apply Byte.to_of_N.
  - apply Byte.of_N_None_iff in E. pose proof (N.mod_lt n 256). lia.
Qed.

Lemma byte_of_N_to_N (b : byte) : byte_of_N (Byte.to_N b) = b.
Proof.
  apply to_N_inj. rewrite to_N_byte_of_N. apply N.mod_small, to_N_lt.
Qed.

Lemma gostr_leb_cons x y a b :
  gostr_leb (x :: a) (y :: b) = true <->
  (Byte.to_N x < Byte.to_N y)%N \/ x = y /\ gostr_leb a b = true.
Proof.
  simpl. destruct (N.ltb_spec (Byte.to_N x) (Byte.to_N y)).
  - split; [auto|done].
  - destruct (N.ltb_spec (Byte.to_N y) (Byte.to_N x)).
    + split; [done|]. intros [?|[-> _]]; lia.
    + split.
      * intros ?. right. split; [|done]. apply to_N_inj. lia.
      * intros [?|[_ ?]]; [lia|done].
Qed.

Lemma gostr_leb_refl a : gostr_leb a a = true.
Proof. induction a as [|x a IH]; [done|]. apply gostr_leb_cons. auto. Qed.

#[export] Instance gostr_le_reflexive : Reflexive gostr_le.
Proof. intros a. apply gostr_leb_refl. Qed.

#[export] Instance gostr_le_transitive : Transitive gostr_le.
Proof.
  unfold gostr_le. intros a. induction a as [|x a IH]; intros [|y b] [|z c]; try done.
  rewrite !gostr_leb_cons. intros [?|[-> ?]] [?|[-> ?]].
  - left. lia.
  - auto.
  - auto.
  - right. eauto.
Qed.

#[export] Instance gostr_le_antisymm : AntiSymm (=) gostr_le.
Proof.
  unfold gostr_le. intros a. induction a as [|x a IH]; intros [|y b]; try done.
  rewrite !gostr_leb_cons. intros [?|[-> ?]] [?|[? ?]]; simplify_eq; try lia.
  f_equal. auto.
Qed.

#[export] Instance gostr_le_total : Total gostr_le.
Proof.
  unfold gostr_le. intros a. induction a as [|x a IH]; intros [|y b]; try by auto.
  rewrite !gostr_leb_cons.
  destruct (N.lt_trichotomy (Byte.to_N x) (Byte.to_N y)) as [?|[E|?]]; [auto| |auto].
  apply to_N_inj in E as ->. destruct (IH b); auto.
Qed.

#[export] Instance gostr_le_partial_order : PartialOrder gostr_le.
Proof. repeat split; apply _. Qed.

Lemma gostr_ltb_spec a b : gostr_ltb a b = true <-> gostr_le a b /\ a <> b.
Proof.
  unfold gostr_ltb. rewrite negb_true_iff. split.
  - intros E. destruct (total gostr_le a b) as [H|H].
    + split; [done|]. intros ->. rewrite gostr_leb_refl in E. done.
    + unfold gostr_le in H. congruence.
  - intros [H Hne]. destruct (gostr_leb b a) eqn:E; [|done].
    destruct Hne. by apply (anti_symm gostr_le).
Qed.

Lemma i64_id (z : Z) : (- 2 ^ 63 <= z < 2 ^ 63)%Z -> i64 z = z.
Proof. intros H. unfold i64. rewrite Z.mod_small; lia. Qed.

Lemma i32_id (z : Z) : (- 2 ^ 31 <= z < 2 ^ 31)%Z -> i32 z = z.
Proof. intros H. unfold i32. rewrite Z.mod_small; lia. Qed.

Lemma len_nonneg {A} (l : list A) : (0 <= len l)%Z.
Proof. unfold len. lia. Qed.

Lemma len_app {A} (l k : list A) : len (l ++ k) = (len l + len k)%Z.
Proof. unfold len. rewrite length_app. lia. Qed.

Lemma len_nil {A} : len (@nil A) = 0%Z.
Proof. done. Qed.

#[export] Hint Rewrite @len_app @len_nil @length_app : laguna.
#[export] Hint Resolve len_nonneg gostr_leb_refl : laguna.

(** Arithmetic with lengths, which are not negative. *)
Ltac lens :=
  repeat match goal with
  | |- context [len ?x] => lazymatch goal with H : (0 <= len x)%Z |- _ => fail | _ => idtac end;
      pose proof (len_nonneg x)
  | _ : context [len ?x] |- _ => lazymatch goal with H : (0 <= len x)%Z |- _ => fail | _ => idtac end;
      pose proof (len_nonneg x)
  end; try lia.

(** Elements of a sorted list at two positions. *)
Lemma sorted_lookup {A} (R : relation A) `{!Reflexive R} (l : list A) i j x y :
  StronglySorted R l -> i <= j -> l !! i = Some x -> l !! j = Some y -> R x y.
Proof.
  intros Hs Hij Hi Hj. destruct (decide (i = j)) as [->|Hne]; [by simplify_eq|].
  apply (StronglySorted_app_1_elem_of R (take j l) (drop j l)).
  - by rewrite take_drop.
  - apply list_elem_of_lookup. exists i. by rewrite lookup_take_lt by lia.
  - apply list_elem_of_lookup. exists 0. by rewrite lookup_drop, Nat.add_0_r.
Qed.

(** Laws of the effect monad, used to reassociate sequenced calls. *)
Lemma go_bind_ret {S A B} (c : Go S A) (k : A -> Go S B) s a s' :
  c s = (Ret a, s') -> go_bind c k s = k a s'.
Proof. intros E. unfold go_bind. by rewrite E. Qed.

(** [l[i]]: panics when the index is out of range. *)
Definition go_index {S A} (l : list A) (i : nat) : Go S A :=
  match l !! i with Some a => go_ret a | None => go_panic end.

(** [l[i:]]: panics when [i > len(l)]. *)
Definition go_slice_from {S A} (l : list A) (i : nat) : Go S (list A) :=
  if bool_decide (i <= length l) then go_ret (drop i l) else go_panic.

Lemma go_index_Some {S A} (l : list A) i a :
  l !! i = Some a -> @go_index S A l i = go_ret a.
Proof. intros E. unfold go_index. by rewrite E. Qed.
