(* ===== verification/Encoding.v ===== *)
(** * Fixed-width integers on the wire

    What the code uses of [encoding/binary], [bytes.Reader] and
    [io.ReadFull]: fixed-width unsigned integers in both byte orders, and
    reading an exact number of bytes from a stream whose remaining contents
    are a byte list.  The round-trip lemmas here carry the codecs of the WAL
    records and of the replication protocol. *)

From S2P Require Import Prelude.

Local Open Scope N_scope.

(** [k] little-endian bytes of [v] (the high part of [v] is cut off, as the
    conversion to a [k]-byte unsigned integer does). *)
Fixpoint le_bytes (k : nat) (v : N) : bytes :=
  match k with
  | O => []
  | S k' => byte_of_N v :: le_bytes k' (v / 256)
  end.

Fixpoint le_value (bs : bytes) : N :=
  match bs with
  | [] => 0
  | b :: bs' => Byte.to_N b + 256 * le_value bs'
  end.

(** Big-endian bytes: [binary.Write(buf, binary.BigEndian, v)]. *)
Definition be_bytes (k : nat) (v : N) : bytes := reverse (le_bytes k v).
Definition be_value (bs : bytes) : N := le_value (reverse bs).

(** [io.ReadFull] of [k] bytes from a stream with the given remaining bytes:
    the bytes read and what remains, or [None] when the stream ends first. *)
Definition read_full (k : nat) (s : bytes) : option (bytes * bytes) :=
  if bool_decide (k <= length s)%nat then Some (take k s, drop k s) else None.

(** [binary.Read] of a [k]-byte unsigned integer in big-endian order. *)
Definition read_be (k : nat) (s : bytes) : option (N * bytes) :=
  '(bs, s') ← read_full k s; Some (be_value bs, s').

(** The error [io.ReadFull] reports when fewer than the (non-zero) number of
    bytes asked for are left. *)
Definition short_read_error (s : bytes) : error :=
  match s with [] => EOF | _ => ErrUnexpectedEOF end.

Arguments be_bytes : simpl never.
Arguments be_value : simpl never.

(** ** Lemmas *)

Lemma length_le_bytes k v : length (le_bytes k v) = k.
Proof. revert v. induction k as [|k IH]; intros v; simpl; auto. Qed.

Lemma length_be_bytes k v : length (be_bytes k v) = k.
Proof. unfold be_bytes. by rewrite length_reverse, length_le_bytes. Qed.

Lemma le_value_bound bs : le_value bs < 256 ^ N.of_nat (length bs).
Proof.
  induction bs as [|b bs IH]; [done|].
  cbn [le_value length]. rewrite Nat2N.inj_succ, N.pow_succ_r'.
  pose proof (to_N_lt b). lia.
Qed.

Lemma be_value_bound bs : be_value bs < 256 ^ N.of_nat (length bs).
Proof. unfold be_value. rewrite <-(length_reverse bs). apply le_value_bound. Qed.

Lemma le_value_bytes k v : le_value (le_bytes k v) = v mod 256 ^ N.of_nat k.
Proof.
  revert v. induction k as [|k IH]; intros v.
  - simpl. by rewrite N.mod_1_r.
  - cbn [le_bytes le_value]. rewrite to_N_byte_of_N, IH, Nat2N.inj_succ, N.pow_succ_r'.
    rewrite N.Div0.mod_mul_r by lia. lia.
Qed.

Lemma le_bytes_value bs : le_bytes (length bs) (le_value bs) = bs.
Proof.
  induction bs as [|b bs IH]; [done|].
  cbn [length le_bytes le_value]. pose proof (to_N_lt b). f_equal.
  - apply to_N_inj. rewrite to_N_byte_of_N.
    rewrite N.mul_comm, N.Div0.mod_add by lia. by apply N.mod_small.
  - rewrite N.mul_comm, N.div_add, N.div_small by lia. apply IH.
Qed.

Lemma be_value_bytes k v : be_value (be_bytes k v) = v mod 256 ^ N.of_nat k.
Proof. unfold be_value, be_bytes. by rewrite reverse_involutive, le_value_bytes. Qed.

Lemma be_value_bytes_id k v :
  v < 256 ^ N.of_nat k -> be_value (be_bytes k v) = v.
Proof. intros H. rewrite be_value_bytes. by apply N.mod_small. Qed.

Lemma le_value_bytes_id k v :
  v < 256 ^ N.of_nat k -> le_value (le_bytes k v) = v.
Proof. intros H. rewrite le_value_bytes. by apply N.mod_small. Qed.

Lemma be_bytes_value bs : be_bytes (length bs) (be_value bs) = bs.
Proof.
  unfold be_bytes, be_value. rewrite <-(length_reverse bs), le_bytes_value.
  apply reverse_involutive.
Qed.

Lemma be_bytes_value_len k bs : length bs = k -> be_bytes k (be_value bs) = bs.
Proof. intros <-. apply be_bytes_value. Qed.

Lemma read_full_app bs s k :
  length bs = k -> read_full k (bs ++ s) = Some (bs, s).
Proof.
  intros <-. unfold read_full. rewrite bool_decide_true by (rewrite length_app; lia).
  by rewrite take_app_length, drop_app_length.
Qed.

Lemma read_full_Some k s bs s' :
  read_full k s = Some (bs, s') <-> s = bs ++ s' /\ length bs = k.
Proof.
  split.
  - unfold read_full. case_bool_decide; [|done]. intros [= <- <-].
    split; [by rewrite take_drop|]. rewrite length_take. lia.
  - intros [-> H]. by apply read_full_app.
Qed.

Lemma read_full_None k s : read_full k s = None <-> (length s < k)%nat.
Proof. unfold read_full. case_bool_decide; split; try done; lia. Qed.

(** More input never changes what was already read in full. *)
Lemma read_full_mono k s bs s' t :
  read_full k s = Some (bs, s') -> read_full k (s ++ t) = Some (bs, s' ++ t).
Proof. rewrite !read_full_Some. intros [-> H]. by rewrite (assoc_L (++)). Qed.

Lemma read_be_app k v s :
  v < 256 ^ N.of_nat k -> read_be k (be_bytes k v ++ s) = Some (v, s).
Proof.
  intros H. unfold read_be. rewrite read_full_app by apply length_be_bytes.
  simpl. by rewrite be_value_bytes_id.
Qed.

Lemma read_be_mono k s v s' t :
  read_be k s = Some (v, s') -> read_be k (s ++ t) = Some (v, s' ++ t).
Proof.
  unfold read_be. destruct (read_full k s) as [[bs r]|] eqn:E; [|done].
  simpl. intros [= <- <-]. by rewrite (read_full_mono _ _ _ _ t E).
Qed.

Lemma read_be_Some k s v s' :
  read_be k s = Some (v, s') <->
  exists bs, s = bs ++ s' /\ length bs = k /\ v = be_value bs.
Proof.
  unfold read_be. split.
  - destruct (read_full k s) as [[bs r]|] eqn:E; [|done].
    apply read_full_Some in E as [-> ?]. simpl. intros [= <- <-]. eauto.
  - intros (bs & -> & Hl & ->). by rewrite read_full_app.
Qed.

Lemma read_be_length k s v s' :
  read_be k s = Some (v, s') -> length s = (k + length s')%nat.
Proof. rewrite read_be_Some. intros (bs & -> & <- & _). by rewrite length_app. Qed.

Lemma read_full_length k s bs s' :
  read_full k s = Some (bs, s') -> length s = (k + length s')%nat.
Proof. rewrite read_full_Some. intros [-> <-]. by rewrite length_app. Qed.

#[export] Hint Resolve length_be_bytes length_le_bytes : laguna.
