(* ===== verification/Query.v ===== *)
(** * The query language

    [internal/query]: the methods and their identifiers ([query.go]) and the
    parser of a command line ([builder.go]), together with the parts of Go's
    [strings] package the parser calls.  Whitespace is Unicode whitespace on
    the UTF-8 bytes of the input: an encoding of a space starts with a byte
    that is not a continuation byte, so it can be recognised byte by byte,
    also in input that is not valid UTF-8. *)

From S2P Require Import Prelude.

(** ** [strings] *)

(** The UTF-8 encodings of the runes [unicode.IsSpace] accepts. *)
Definition spaces : list bytes :=
  [ [x09]; [x0a]; [x0b]; [x0c]; [x0d]; [x20];
    [xc2; x85]; [xc2; xa0]; [xe1; x9a; x80];
    [xe2; x80; x80]; [xe2; x80; x81]; [xe2; x80; x82]; [xe2; x80; x83];
    [xe2; x80; x84]; [xe2; x80; x85]; [xe2; x80; x86]; [xe2; x80; x87];
    [xe2; x80; x88]; [xe2; x80; x89]; [xe2; x80; x8a];
    [xe2; x80; xa8]; [xe2; x80; xa9]; [xe2; x80; xaf]; [xe2; x81; x9f];
    [xe3; x80; x80] ].

(** The width of the space at the front of [s], 0 when there is none. *)
Definition space_width (s : bytes) : nat :=
  match List.find (fun p => bool_decide (p `prefix_of` s)) spaces with
  | Some p => length p
  | None => 0
  end.

Definition flush_field (cur : bytes) : list gostring :=
  match cur with [] => [] | _ => [cur] end.

(** [strings.Fields]: [skip] counts the bytes of a space still to be passed
    over, [cur] is the field being collected. *)
Fixpoint fields_go (s : bytes) (skip : nat) (cur : bytes) : list gostring :=
  match s with
  | [] => flush_field cur
  | b :: s' =>
      match skip with
      | S k => fields_go s' k cur
      | O =>
          match space_width s with
          | O => fields_go s' 0 (cur ++ [b])
          | S k => flush_field cur ++ fields_go s' k []
          end
      end
  end.

Definition Fields (s : gostring) : list gostring := fields_go s 0 [].

(** [strings.Trim(s, cutset)] for a cutset of ASCII bytes. *)
Fixpoint trim_left_bytes (cut : list byte) (s : bytes) : bytes :=
  match s with
  | [] => []
  | b :: s' => if bool_decide (b ∈ cut) then trim_left_bytes cut s' else s
  end.

Definition Trim (cut : list byte) (s : gostring) : gostring :=
  reverse (trim_left_bytes cut (reverse (trim_left_bytes cut s))).

(** [strings.TrimSpace]: leading spaces, then trailing ones. *)
Fixpoint trim_left_space (fuel : nat) (s : bytes) : bytes :=
  match fuel with
  | O => s
  | S n => match space_width s with O => s | w => trim_left_space n (drop w s) end
  end.

Fixpoint trim_right_space (fuel : nat) (s : bytes) : bytes :=
  match fuel with
  | O => s
  | S n =>
      match List.find (fun p => bool_decide (p `suffix_of` s)) spaces with
      | Some p => trim_right_space n (take (length s - length p) s)
      | None => s
      end
  end.

Definition TrimSpace (s : gostring) : gostring :=
  let s1 := trim_left_space (length s) s in trim_right_space (length s1) s1.

(** [strings.Join(l, sep)]. *)
Fixpoint Join (l : list gostring) (sep : gostring) : gostring :=
  match l with
  | [] => []
  | [a] => a
  | a :: l' => a ++ sep ++ Join l' sep
  end.

(** ** Methods and queries ([query.go]) *)

Definition SET : gostring := str "SET".
Definition GET : gostring := str "GET".
Definition DEL : gostring := str "DEL".

Definition Methods : gmap gostring unit :=
  {[ SET := tt; GET := tt; DEL := tt ]}.

(** [MethodID] is a [uint8]; the three constants are its only named values. *)
Definition SetMethodID : N := 0.
Definition GetMethodID : N := 1.
Definition DelMethodID : N := 2.

Definition MethodNames : gmap gostring N :=
  {[ SET := SetMethodID; GET := GetMethodID; DEL := DelMethodID ]}.

Definition SetArgsLen : nat := 2.
Definition GetArgsLen : nat := 1.
Definition DelArgsLen : nat := 1.

Definition MethodArgs : gmap N nat :=
  {[ SetMethodID := SetArgsLen; GetMethodID := GetArgsLen; DelMethodID := DelArgsLen ]}.

Definition SetKeyIdx : nat := 0.
Definition SetValueIdx : nat := 1.
Definition GetKeyIdx : nat := 0.
Definition DelKeyIdx : nat := 0.

Record Query := mkQuery {
  q_methodID : N;
  q_args : list gostring
}.

#[export] Instance Query_eq_decision : EqDecision Query.
Proof. solve_decision. Defined.

Definition NewQuery (methodID : N) (args : list gostring) : Query :=
  mkQuery methodID args.
Definition GetArgs (q : Query) : list gostring := q_args q.
Definition MethodID (q : Query) : N := q_methodID q.

(** ** The builder ([builder.go]) *)

Definition getMethodID (method : gostring) : result N :=
  match MethodNames !! method with
  | Some methodID => Ok methodID
  | None => Err ErrUnknowMethod
  end.

Definition validate {S} (tokens : list gostring) : Go S (result unit) :=
  if bool_decide (length tokens < 2) then go_ret (Err ErrWrongQuery)
  else
    let! t0 := go_index tokens 0 in
    match Methods !! t0 with
    | None => go_ret (Err ErrUnknowMethod)
    | Some _ =>
        match getMethodID t0 with
        | Err e => go_ret (Err e)
        | Ok methodID =>
            let! rest := go_slice_from tokens 1 in
            if bool_decide (length rest < default 0 (MethodArgs !! methodID))
            then go_ret (Err ErrWrongArgsLen)
            else go_ret (Ok tt)
        end
    end.

Definition getQuery {S} (method : gostring) (args : list gostring) : Go S (result Query) :=
  match getMethodID method with
  | Err e => go_ret (Err e)
  | Ok methodID =>
      if bool_decide (methodID = SetMethodID) then
        let! key := go_index args SetKeyIdx in
        let! rest := go_slice_from args SetValueIdx in
        let value := Join rest (str " ") in
        go_ret (Ok (mkQuery methodID [key; value]))
      else go_ret (Ok (mkQuery methodID args))
  end.

Definition Parse {S} (inp : bytes) : Go S (result Query) :=
  let inputStr := inp in
  let inputStr := Trim [x0d; x0a] inputStr in
  let inputStr := TrimSpace inputStr in
  let tokens := Fields inputStr in
  try! u := validate tokens in
  let! t0 := go_index tokens 0 in
  let! rest := go_slice_from tokens 1 in
  getQuery t0 rest.

(** ** What the parser computes, without the trimming and the lookups *)

Definition parse_spec (tokens : list gostring) : result Query :=
  match tokens with
  | m :: key :: rest =>
      if bool_decide (m = SET) then
        match rest with
        | [] => Err ErrWrongArgsLen
        | _ => Ok (mkQuery SetMethodID [key; Join rest (str " ")])
        end
      else if bool_decide (m = GET) then Ok (mkQuery GetMethodID (key :: rest))
      else if bool_decide (m = DEL) then Ok (mkQuery DelMethodID (key :: rest))
      else Err ErrUnknowMethod
  | _ => Err ErrWrongQuery
  end.

(** A query whose method is known and whose arguments are at least as many as
    the method needs: what [Database.exec] relies on. *)
Definition query_wf (q : Query) : Prop :=
  exists n, MethodArgs !! MethodID q = Some n /\ n <= length (GetArgs q).

(** ** Lemmas on spaces *)

(** Continuation bytes of UTF-8. *)
Definition is_cont (b : byte) : bool :=
  ((128 <=? Byte.to_N b) && (Byte.to_N b <? 192))%N.

Lemma spaces_shape :
  Forall (fun p => exists b p', p = b :: p' /\ is_cont b = false /\ forallb is_cont p' = true)
    spaces.
Proof. repeat (apply Forall_cons_2; [by eexists _, _|]). apply Forall_nil_2. Qed.

Lemma space_shape p :
  p ∈ spaces -> exists b p', p = b :: p' /\ is_cont b = false /\ forallb is_cont p' = true.
Proof. intros H. by apply (proj1 (Forall_forall _ _) spaces_shape). Qed.

Lemma spaces_prefix_free p q :
  p ∈ spaces -> q ∈ spaces -> p `prefix_of` q -> p = q.
Proof.
  intros Hp Hq.
  assert (Forall (fun p => Forall (fun q => p `prefix_of` q -> p = q) spaces) spaces) as F.
  { apply Forall_forall. intros x Hx. apply Forall_forall. intros y Hy.
    assert (forallb (fun x => forallb (fun y =>
      implb (bool_decide (x `prefix_of` y)) (bool_decide (x = y))) spaces) spaces = true) as B
      by (vm_compute; reflexivity).
    rewrite forallb_forall in B. specialize (B x (proj1 (list_elem_of_In _ _) Hx)).
    rewrite forallb_forall in B. specialize (B y (proj1 (list_elem_of_In _ _) Hy)).
    intros Hpre. rewrite bool_decide_true in B by done. by apply bool_decide_eq_true in B. }
  rewrite Forall_forall in F. specialize (F p Hp). rewrite Forall_forall in F. auto.
Qed.

Lemma find_space_Some {P : bytes -> Prop} `{!forall p, Decision (P p)} p :
  List.find (fun p => bool_decide (P p)) spaces = Some p -> p ∈ spaces /\ P p.
Proof.
  intros E. apply List.find_some in E as [Hin HP].
  split; [by apply list_elem_of_In|by apply bool_decide_eq_true in HP].
Qed.

Lemma space_width_app p b : p ∈ spaces -> space_width (p ++ b) = length p.
Proof.
  intros Hp. unfold space_width.
  destruct (List.find _ spaces) as [q|] eqn:E.
  - apply find_space_Some in E as [Hq Hpre].
    assert (q = p) as ->; [|done].
    destruct (prefix_weak_total q p (p ++ b)) as [H|H]; [done|by apply prefix_app_r| |].
    + by apply spaces_prefix_free.
    + symmetry. by apply spaces_prefix_free.
  - apply list_elem_of_In in Hp. apply List.find_none with (x := p) in E; [|done].
    apply bool_decide_eq_false in E. destruct E. by apply prefix_app_r.
Qed.

(** A space that starts inside [t] ends inside it when another space follows. *)
Lemma prefix_before_space q t p b :
  q ∈ spaces -> p ∈ spaces -> t <> [] ->
  q `prefix_of` t ++ p ++ b -> q `prefix_of` t.
Proof.
  intros Hq Hp Ht Hpre.
  apply space_shape in Hq as (x & q' & -> & _ & Hcont).
  apply space_shape in Hp as (y & p' & -> & Hy & _).
  destruct t as [|z t]; [done|]. clear Ht. simpl in Hpre.
  apply prefix_cons_inv_1 in Hpre as Hxz; subst.
  apply prefix_cons_inv_2 in Hpre. apply prefix_cons. clear z.
  revert t Hpre. induction q' as [|c q' IH]; intros t Hpre; [apply prefix_nil|].
  simpl in Hcont. apply andb_true_iff in Hcont as [Hc Hcont].
  destruct t as [|z t]; simpl in Hpre; apply prefix_cons_inv_1 in Hpre as E; subst.
  - congruence.
  - apply prefix_cons_inv_2 in Hpre. apply prefix_cons. auto.
Qed.

Lemma space_width_before_space t p b :
  p ∈ spaces -> t <> [] -> space_width (t ++ p ++ b) = space_width t.
Proof.
  intros Hp Ht. unfold space_width.
  destruct (List.find (fun q => bool_decide (q `prefix_of` t)) spaces) as [q|] eqn:E.
  - apply find_space_Some in E as [Hq [r ->]].
    change (space_width ((q ++ r) ++ p ++ b) = length q).
    rewrite <-(assoc_L (++)). by apply space_width_app.
  - destruct (List.find _ spaces) as [q|] eqn:E' in |- *; [|done].
    apply find_space_Some in E' as [Hq Hpre].
    apply prefix_before_space in Hpre; [|done..].
    apply list_elem_of_In in Hq. apply List.find_none with (x := q) in E; [|done].
    by apply bool_decide_eq_false in E.
Qed.

Lemma space_width_le t : space_width t <= length t.
Proof.
  unfold space_width. destruct (List.find _ spaces) as [q|] eqn:E; [|lia].
  apply find_space_Some in E as [_ Hpre]. by apply prefix_length.
Qed.

(** ** Lemmas on [Fields] *)

Lemma fields_go_skip p b cur :
  fields_go (p ++ b) (length p) cur = fields_go b 0 cur.
Proof. induction p as [|x p IH]; simpl; [done|apply IH]. Qed.

Lemma fields_go_split a p b skip cur :
  p ∈ spaces -> skip <= length a ->
  fields_go (a ++ p ++ b) skip cur = fields_go a skip cur ++ fields_go b 0 [].
Proof.
  intros Hp. revert skip cur. induction a as [|x a IH]; intros skip cur Hskip.
  - assert (skip = 0) as -> by (simpl in Hskip; lia). simpl ([] ++ _).
    pose proof (space_shape p Hp) as (y & p' & -> & _). cbn [app fields_go].
    change (y :: p' ++ b) with ((y :: p') ++ b). rewrite space_width_app by done.
    cbn [length]. by rewrite fields_go_skip.
  - cbn [app fields_go]. destruct skip as [|skip].
    + change (x :: a ++ p ++ b) with ((x :: a) ++ p ++ b).
      rewrite space_width_before_space by done.
      pose proof (space_width_le (x :: a)) as Hw.
      destruct (space_width (x :: a)) as [|k]; simpl in Hw, Hskip.
      * apply IH. lia.
      * rewrite IH by lia. by rewrite (assoc_L (++)).
    + apply IH. simpl in Hskip. lia.
Qed.

Lemma Fields_split a p b :
  p ∈ spaces -> Fields (a ++ p ++ b) = Fields a ++ Fields b.
Proof. intros Hp. apply fields_go_split; [done|lia]. Qed.

Lemma Fields_space_l p b : p ∈ spaces -> Fields (p ++ b) = Fields b.
Proof. intros Hp. apply (Fields_split [] p b Hp). Qed.

Lemma Fields_space_r a p : p ∈ spaces -> Fields (a ++ p) = Fields a.
Proof.
  intros Hp. pose proof (Fields_split a p [] Hp) as E.
  change (Fields []) with (@nil gostring) in E.
  by rewrite !(right_id_L [] (++)) in E.
Qed.

(** No field holds a byte that is a space of its own. *)
Lemma fields_go_no_space x s skip cur :
  [x] ∈ spaces -> (x ∉ cur) -> Forall (fun w => x ∉ w) (fields_go s skip cur).
Proof.
  intros Hx. assert (forall cur, (x ∉ cur) -> Forall (fun w => x ∉ w) (flush_field cur)) as Hf
    by (intros [|y c] ?; by repeat constructor).
  revert skip cur. induction s as [|b s IH]; intros [|k] cur Hc; cbn [fields_go]; auto.
  destruct (space_width (b :: s)) as [|w] eqn:E.
  - apply IH. rewrite elem_of_app, list_elem_of_singleton. intros [?|<-]; [done|].
    rewrite (space_width_app [x] s Hx : space_width (x :: s) = 1) in E. done.
  - apply Forall_app. split; [auto|]. apply IH, not_elem_of_nil.
Qed.

Lemma Fields_no_space x s : [x] ∈ spaces -> Forall (fun w => x ∉ w) (Fields s).
Proof. intros Hx. apply fields_go_no_space; [done|apply not_elem_of_nil]. Qed.

Lemma Join_no_byte (x : byte) ws sep :
  Forall (fun w => x ∉ w) ws -> (x ∉ sep) -> x ∉ Join ws sep.
Proof.
  intros Hw Hs. induction Hw as [|w ws Hw _ IH]; [apply not_elem_of_nil|].
  destruct ws; [done|]. cbn [Join] in *. rewrite !elem_of_app. tauto.
Qed.

Lemma Fields_trim_left_bytes cut s :
  Forall (fun b => [b] ∈ spaces) cut -> Fields (trim_left_bytes cut s) = Fields s.
Proof.
  intros Hcut. induction s as [|b s IH]; [done|]. simpl.
  case_bool_decide as Hb; [|done]. rewrite IH.
  rewrite Forall_forall in Hcut. symmetry. apply (Fields_space_l [b]). auto.
Qed.

Lemma Fields_reverse_trim cut s :
  Forall (fun b => [b] ∈ spaces) cut ->
  Fields (reverse (trim_left_bytes cut s)) = Fields (reverse s).
Proof.
  intros Hcut. induction s as [|b s IH]; [done|]. simpl.
  case_bool_decide as Hb; [|done]. rewrite IH, reverse_cons.
  rewrite Forall_forall in Hcut. symmetry. apply Fields_space_r. auto.
Qed.

Lemma Fields_Trim cut s :
  Forall (fun b => [b] ∈ spaces) cut -> Fields (Trim cut s) = Fields s.
Proof.
  intros Hcut. unfold Trim.
  by rewrite Fields_reverse_trim, reverse_involutive, Fields_trim_left_bytes.
Qed.

Lemma Fields_trim_left_space n s : Fields (trim_left_space n s) = Fields s.
Proof.
  revert s. induction n as [|n IH]; intros s; [done|]. simpl.
  destruct (space_width s) as [|w] eqn:Ew; [done|].
  unfold space_width in Ew. destruct (List.find _ spaces) as [q|] eqn:E; [|done].
  apply find_space_Some in E as [Hq [r ->]]. rewrite IH, <-Ew, drop_app_length.
  symmetry. by apply Fields_space_l.
Qed.

Lemma Fields_trim_right_space n s : Fields (trim_right_space n s) = Fields s.
Proof.
  revert s. induction n as [|n IH]; intros s; [done|]. cbn [trim_right_space].
  destruct (List.find _ spaces) as [q|] eqn:E; [|done].
  apply find_space_Some in E as [Hq [r ->]]. rewrite IH.
  rewrite length_app, Nat.add_sub, take_app_length. symmetry. by apply Fields_space_r.
Qed.

(** Trimming the input first does not change the fields. *)
Lemma Fields_TrimSpace_Trim s : Fields (TrimSpace (Trim [x0d; x0a] s)) = Fields s.
Proof.
  unfold TrimSpace. rewrite Fields_trim_right_space, Fields_trim_left_space.
  apply Fields_Trim. repeat constructor; by apply (bool_decide_unpack _); vm_compute.
Qed.

Lemma Fields_Join ws :
  Forall (fun w => Fields w = [w]) ws -> Fields (Join ws (str " ")) = ws.
Proof.
  induction 1 as [|w ws Hw Hws IH]; [done|].
  destruct ws as [|w' ws]; [done|].
  change (Join (w :: w' :: ws) (str " ")) with (w ++ [x20] ++ Join (w' :: ws) (str " ")).
  rewrite Fields_split, Hw, IH by (by apply (bool_decide_unpack _); vm_compute). done.
Qed.

(** ** The parser *)

Lemma getMethodID_spec m :
  getMethodID m =
  if bool_decide (m = SET) then Ok SetMethodID
  else if bool_decide (m = GET) then Ok GetMethodID
  else if bool_decide (m = DEL) then Ok DelMethodID
  else Err ErrUnknowMethod.
Proof.
  unfold getMethodID, MethodNames.
  repeat case_bool_decide; subst; try (vm_compute; reflexivity).
  by rewrite !lookup_insert_ne, lookup_singleton_ne by done.
Qed.

Lemma Methods_spec m :
  Methods !! m = None <-> (m <> SET /\ m <> GET /\ m <> DEL).
Proof.
  unfold Methods. rewrite !lookup_insert_None, lookup_singleton_None.
  split; intros ?; destruct_and!; repeat split; auto.
Qed.

Lemma Parse_fields {S} (inp : bytes) (s : S) :
  Parse inp s = (Ret (parse_spec (Fields inp)), s).
Proof.
  unfold Parse. rewrite Fields_TrimSpace_Trim.
  destruct (Fields inp) as [|m [|key rest]]; [done..|].
  destruct (decide (m = SET)) as [->|H1].
  { destruct rest as [|v rest]; vm_compute; reflexivity. }
  destruct (decide (m = GET)) as [->|H2]; [vm_compute; reflexivity|].
  destruct (decide (m = DEL)) as [->|H3]; [vm_compute; reflexivity|].
  unfold validate, go_bind, go_index. simpl.
  rewrite (proj2 (Methods_spec m)) by done. simpl.
  by rewrite !bool_decide_false by done.
Qed.

Lemma parse_spec_wf tokens q : parse_spec tokens = Ok q -> query_wf q.
Proof.
  destruct tokens as [|m [|key rest]]; [done..|]. simpl.
  repeat case_bool_decide.
  - destruct rest as [|v rest]; [done|]. intros [= <-]. exists 2. split; [done|simpl; lia].
  - intros [= <-]. exists 1. split; [done|simpl; lia].
  - intros [= <-]. exists 1. split; [done|simpl; lia].
  - done.
Qed.

(** A well-formed query is one of the three commands with its arguments. *)
(** The arguments of a parsed query hold no byte that is a space of its own,
    unless it is the one [Join] puts between them. *)
Lemma parse_spec_no_space x s q :
  [x] ∈ spaces -> x <> x20 -> parse_spec (Fields s) = Ok q -> Forall (fun a => x ∉ a) (GetArgs q).
Proof.
  intros Hx H20. pose proof (Fields_no_space x s Hx) as Hall. unfold parse_spec.
  destruct Hall as [|m ws _ Hall]; [done|]. destruct Hall as [|key rest Hk Hall]; [done|].
  case_bool_decide; [|do 2 (case_bool_decide; [intros [= <-]; by constructor|]); done].
  destruct rest as [|v rest]; [done|]. intros [= <-]. constructor; [done|]. constructor; [|constructor].
  apply (Join_no_byte x (v :: rest) (str " ")); [done|]. by intros ->%list_elem_of_singleton.
Qed.

Lemma query_wf_cases q :
  query_wf q ->
  (exists k v r, q = mkQuery SetMethodID (k :: v :: r)) \/
  (exists k r, q = mkQuery GetMethodID (k :: r)) \/
  (exists k r, q = mkQuery DelMethodID (k :: r)).
Proof.
  intros (n & Hn & Hlen). destruct q as [m args]. unfold MethodArgs in Hn. simpl in *.
  apply lookup_insert_Some in Hn as [[<- <-]|[_ Hn]].
  { left. destruct args as [|k [|v r]]; simpl in Hlen; unfold SetArgsLen in *; try lia; eauto. }
  right. apply lookup_insert_Some in Hn as [[<- <-]|[_ Hn]].
  { left. destruct args as [|k r]; simpl in Hlen; unfold GetArgsLen in *; try lia; eauto. }
  right. apply lookup_singleton_Some in Hn as [<- <-].
  destruct args as [|k r]; simpl in Hlen; unfold DelArgsLen in *; try lia; eauto.
Qed.

Lemma Fields_eol e a : Forall (fun b => [b] ∈ spaces) e -> Fields (a ++ e) = Fields a.
Proof.
  revert a. induction e as [|b e IH]; intros a He.
  - by rewrite (right_id_L [] (++)).
  - apply Forall_cons in He as [Hb He].
    rewrite (cons_middle b a e), (assoc_L (++)), IH by done. by apply Fields_space_r.
Qed.

Lemma Fields_word_split w b : Fields (w ++ str " " ++ b) = Fields w ++ Fields b.
Proof. apply Fields_split. by apply (bool_decide_unpack _); vm_compute. Qed.

(** ** Properties *)

(** C28: parsing a line never panics and is a function of the line's
    whitespace-separated fields alone: fewer than two fields are a wrong
    query, an unknown first field an unknown method, [SET] without a value a
    wrong argument count; otherwise the query holds the method's identifier
    and the arguments, the value of [SET] being the remaining fields joined
    by single spaces.  Every query returned has the arguments its method
    needs.  Quotation marks have no meaning: they stay in the words they are
    written in, against the example of the README ([Parse_keeps_quotes]). *)
Theorem Parse_correct {S} (inp : bytes) (s : S) :
  Parse inp s = (Ret (parse_spec (Fields inp)), s) /\
  (forall q, parse_spec (Fields inp) = Ok q -> query_wf q).
Proof. split; [apply Parse_fields|intros q; apply parse_spec_wf]. Qed.

(** The first command of the README: the value it sets begins and ends with
    the quotation marks that were typed. *)
Theorem Parse_keeps_quotes {S} (s : S) :
  Parse (str "SET user:1 " ++ [x22] ++ str "John Doe" ++ [x22]) s =
  (Ret (Ok (NewQuery SetMethodID [str "user:1"; [x22] ++ str "John Doe" ++ [x22]])), s).
Proof. rewrite Parse_fields. do 2 f_equal. Qed.

(** The command line a client sends for a key and a value of
    space-free words is parsed back to exactly that [SET] query, whatever
    line ending of carriage returns and newlines follows. *)
Theorem Parse_SET_roundtrip {S} (key : gostring) (words : list gostring) (eol : bytes) (s : S)
    (Hkey : Fields key = [key]) (Hwords : Forall (fun w => Fields w = [w]) words)
    (Hne : words <> []) (Heol : Forall (fun b => b ∈ [x0d; x0a]) eol) :
  Parse (Join [SET; key; Join words (str " ")] (str " ") ++ eol) s =
  (Ret (Ok (NewQuery SetMethodID [key; Join words (str " ")])), s).
Proof.
  assert (Forall (fun b => [b] ∈ spaces) eol) as Hsp.
  { eapply Forall_impl; [exact Heol|]. intros b Hb.
    assert (b = x0d \/ b = x0a) as [->| ->] by set_solver;
      by apply (bool_decide_unpack _); vm_compute. }
  rewrite Parse_fields, Fields_eol by done. unfold Join at 1.
  rewrite !Fields_word_split, Hkey, Fields_Join by done.
  change (Fields SET) with [SET]. destruct words; done.
Qed.

Lemma Parse_SET_roundtrip_witness :
  Parse (Join [SET; str "user"; Join [str "hello"; str "world"] (str " ")] (str " ") ++ [x0d; x0a]) tt
  = (Ret (Ok (NewQuery SetMethodID [str "user"; str "hello world"])), tt).
Proof.
  apply (Parse_SET_roundtrip (str "user") [str "hello"; str "world"] [x0d; x0a] tt).
  - vm_compute. reflexivity.
  - repeat constructor; vm_compute; reflexivity.
  - discriminate.
  - apply (bool_decide_unpack _). vm_compute. exact I.
Defined.
