(* ===== verification/Utils.v ===== *)
(** * Identifier generator and request context

    [utils/id_generator/generator.go] and [utils/ctx_utils/context.go].  The
    generator is one atomic [uint64]; every call of [NextID] is one atomic
    read-modify-write, so a history of concurrent calls is a sequence of
    them. *)

From S2P Require Import Prelude.

Module Generator.

Record t := mk { id : N }.

Definition NewIDGenerator : t := mk 0.

(** [g.id.Store(st)]: [st] is a [uint64]. *)
Definition NewIDGeneratorWithStart (st : N) : t := mk (u64 st).

(** [tx.id.Add(1)], which wraps at 64 bits and returns the new value. *)
Definition NextID : Go t N :=
  fun g => let v := u64 (id g + 1) in (Ret v, mk v).

Definition CurrValue (g : t) : N := id g.

(** [n] successive calls, the identifiers in the order they were handed out. *)
Fixpoint NextIDs (n : nat) : Go t (list N) :=
  match n with
  | O => go_ret []
  | S n' => let! i := NextID in let! rest := NextIDs n' in go_ret (i :: rest)
  end.

Lemma NextID_no_wrap g :
  (id g + 1 < 2 ^ 64)%N -> NextID g = (Ret (id g + 1)%N, mk (id g + 1)).
Proof. intros H. unfold NextID, u64. by rewrite N.mod_small. Qed.

Lemma NextIDs_no_wrap n g :
  (id g + N.of_nat n < 2 ^ 64)%N ->
  NextIDs n g =
  (Ret ((fun i => id g + 1 + N.of_nat i)%N <$> seq 0 n), mk (id g + N.of_nat n)).
Proof.
  revert g. induction n as [|n IH]; intros [g] H; simpl in H.
  - simpl. unfold go_ret. do 2 f_equal. simpl. lia.
  - cbn [NextIDs]. unfold go_bind at 1. rewrite NextID_no_wrap by (simpl; lia).
    unfold go_bind. rewrite IH by (simpl; lia). unfold go_ret.
    f_equal; [|f_equal; simpl; lia]. f_equal.
    rewrite <-cons_seq. cbn [fmap list_fmap]. f_equal; [simpl; lia|].
    rewrite <-(fmap_S_seq 0 n), <-list_fmap_compose. apply list_fmap_ext.
    intros _ i _. simpl. lia.
Qed.

End Generator.

Module Context.

(** A context as the code inspects it: the error [ctx.Err()] reports at the
    time of the call and the value stored under [txKey]. *)
Record t := mk {
  ctx_Err : option error;
  txKey : option N
}.

Definition Background : t := mk None None.

(** Contexts are passed as interface values; [None] is the nil interface. *)
Definition SetTxInContext (ctx : option t) (txID : N) : t :=
  let c := default Background ctx in mk (ctx_Err c) (Some txID).

Definition GetTxFromContext (ctx : option t) : N :=
  match ctx with
  | None => 0
  | Some c => default 0%N (txKey c)
  end.

Lemma GetTx_SetTx ctx txID :
  GetTxFromContext (Some (SetTxInContext ctx txID)) = txID.
Proof. by destruct ctx. Qed.

Lemma SetTx_Err c txID : ctx_Err (SetTxInContext (Some c) txID) = ctx_Err c.
Proof. done. Qed.

End Context.
