(* ===== verification/Storage.v ===== *)
(** * The storage engine

    [internal/database/storage]: the sharded in-memory map
    ([engine/inmemory/inmenory.go]), the engine around it
    ([engine/inmemory/engine.go]), and the storage that the database and the
    slave talk to ([storage.go]).  Each operation holds the shard's lock from
    its first to its last access of the shard, so an operation is one atomic
    step here; [Shards] takes the locks apart and shows that it may be.
    [Storage] only knows the [Engine] interface, here a type class;
    [EngineLaws] states what the implementation promises, and the storage's
    properties are proved from those laws. *)

From S2P Require Import Prelude Utils Query.

Local Open Scope N_scope.

(** ** FNV-1a, 64 bits ([hash/fnv]) *)

Definition fnv_offset64 : N := 14695981039346656037.
Definition fnv_prime64 : N := 1099511628211.

(** [hash.Write], whose error is always nil. *)
Definition fnv_Write (h : N) (data : bytes) : N * option error :=
  (foldl (fun h b => u64 (N.lxor h (Byte.to_N b) * fnv_prime64)) h data, None).

Module InMemory.

(** A shard is its map; the mutex only delimits the atomic steps. *)
Record t := mk { shards : list (gmap gostring gostring) }.

Definition NewInMemory (s : nat) : t := mk (replicate s ∅).

(** The index of the shard the key lives in; [%] by a zero length panics. *)
Definition getShard (key : gostring) : Go t (result nat) :=
  fun m =>
    match fnv_Write fnv_offset64 key with
    | (_, Some e) => (Ret (Err e), m)
    | (hash, None) =>
        if bool_decide (length (shards m) = 0%nat) then (Panics, m)
        else (Ret (Ok (N.to_nat (hash mod N.of_nat (length (shards m))))), m)
    end.

Definition Set_ (key value : gostring) : Go t (result unit) :=
  try! i := getShard key in
  do! go_put (fun m => mk (alter (insert key value) i (shards m))) in
  go_ret (Ok tt).

Definition Get (key : gostring) : Go t (gostring * bool) :=
  let! r := getShard key in
  match r with
  | Err _ => go_ret ([], false)
  | Ok i =>
      let! s := go_get (fun m => shards m !! i) in
      match s ≫= lookup key with
      | Some value => go_ret (value, true)
      | None => go_ret ([], false)
      end
  end.

Definition Del (key : gostring) : Go t (result unit) :=
  try! i := getShard key in
  do! go_put (fun m => mk (alter (delete key) i (shards m))) in
  go_ret (Ok tt).

End InMemory.

(** ** The engine interface *)

Class Engine (E : Type) := {
  en_Get : Context.t -> gostring -> Go E (result gostring);
  en_Set : Context.t -> gostring -> gostring -> Go E (result unit);
  en_Del : Context.t -> gostring -> Go E (result unit)
}.

(** What an engine promises: it behaves as one finite map. *)
Class EngineLaws (E : Type) `{!Engine E} := {
  en_wf : E -> Prop;
  en_abs : E -> gmap gostring gostring;
  en_Get_law c k e : en_wf e ->
    en_Get c k e =
    (Ret (match en_abs e !! k with Some v => Ok v | None => Err ErrEngineNotFound end), e);
  en_Set_law c k v e : en_wf e ->
    exists e', en_Set c k v e = (Ret (Ok tt), e') /\ en_wf e' /\ en_abs e' = <[k := v]> (en_abs e);
  en_Del_law c k e : en_wf e ->
    exists e', en_Del c k e = (Ret (Ok tt), e') /\ en_wf e' /\ en_abs e' = delete k (en_abs e)
}.

Module MemEngine.

Record t := mk { im : InMemory.t }.

Definition defaultShards : Z := 100.

Definition NewEngine (nshards : Z) : t :=
  let n := if (nshards <=? 0)%Z then defaultShards else nshards in
  mk (InMemory.NewInMemory (Z.to_nat n)).

Definition on_im {A} (c : Go InMemory.t A) : Go t A :=
  go_zoom im (fun m _ => mk m) c.

Definition Set_ (ctx : Context.t) (key value : gostring) : Go t (result unit) :=
  try! u := on_im (InMemory.Set_ key value) in
  go_ret (Ok tt).

Definition Get (ctx : Context.t) (key : gostring) : Go t (result gostring) :=
  let! ' (v, ok) := on_im (InMemory.Get key) in
  if (ok : bool) then go_ret (Ok v) else go_ret (Err ErrEngineNotFound).

Definition Del (ctx : Context.t) (key : gostring) : Go t (result unit) :=
  try! u := on_im (InMemory.Del key) in
  go_ret (Ok tt).

End MemEngine.

(** [engine.NewEngine]: every configured type is the in-memory engine. *)
Definition NewEngine (type : gostring) (shards : Z) : MemEngine.t :=
  if bool_decide (type = str "inmemory") then MemEngine.NewEngine shards
  else MemEngine.NewEngine shards.

#[export] Instance mem_engine : Engine MemEngine.t := {|
  en_Get := MemEngine.Get;
  en_Set := MemEngine.Set_;
  en_Del := MemEngine.Del
|}.

(** ** The storage ([storage.go]) *)

Module Storage.
Section storage.
Context {E : Type} `{!Engine E}.

Record t := mk { txGen : Generator.t; en : E }.

Definition New (e : E) : t := mk Generator.NewIDGenerator e.

Definition on_gen {A} (c : Go Generator.t A) : Go t A :=
  go_zoom txGen (fun g s => mk g (en s)) c.
Definition on_en {A} (c : Go E A) : Go t A :=
  go_zoom en (fun e s => mk (txGen s) e) c.

Definition Get (ctx : Context.t) (key : gostring) : Go t (result gostring) :=
  match Context.ctx_Err ctx with
  | Some e => go_ret (Err e)
  | None =>
      let! id := on_gen Generator.NextID in
      let ctx := Context.SetTxInContext (Some ctx) id in
      let! r := on_en (en_Get ctx key) in
      match r with
      | Err e => if errors_Is e ErrEngineNotFound then go_ret (Ok []) else go_ret (Err e)
      | Ok v => go_ret (Ok v)
      end
  end.

Definition Set_ (ctx : Context.t) (key value : gostring) : Go t (result unit) :=
  match Context.ctx_Err ctx with
  | Some e => go_ret (Err e)
  | None =>
      let! id := on_gen Generator.NextID in
      let ctx := Context.SetTxInContext (Some ctx) id in
      on_en (en_Set ctx key value)
  end.

Definition Delete (ctx : Context.t) (key : gostring) : Go t (result unit) :=
  match Context.ctx_Err ctx with
  | Some e => go_ret (Err e)
  | None =>
      let! id := on_gen Generator.NextID in
      let ctx := Context.SetTxInContext (Some ctx) id in
      on_en (en_Del ctx key)
  end.

End storage.
Arguments t : clear implicits.
End Storage.

(** ** The sharded map is one map *)

Module ShardFacts.
Import InMemory.

Definition shard_of (n : nat) (key : gostring) : nat :=
  N.to_nat (fst (fnv_Write fnv_offset64 key) mod N.of_nat n).

(** There is a shard, and every key is in the shard its hash selects. *)
Definition wf (m : t) : Prop :=
  length (shards m) <> 0%nat /\
  forall i sh k, shards m !! i = Some sh -> is_Some (sh !! k) ->
    shard_of (length (shards m)) k = i.

Definition abs (m : t) : gmap gostring gostring := foldr (∪) ∅ (shards m).

Lemma shard_of_lt n key : n <> 0%nat -> (shard_of n key < n)%nat.
Proof.
  intros Hn. unfold shard_of.
  pose proof (N.mod_lt (fst (fnv_Write fnv_offset64 key)) (N.of_nat n)). lia.
Qed.

Lemma getShard_spec key m :
  length (shards m) <> 0%nat ->
  getShard key m = (Ret (Ok (shard_of (length (shards m)) key)), m).
Proof. intros H. unfold getShard, shard_of. simpl. by rewrite bool_decide_false. Qed.

Lemma lookup_union_shards (l : list (gmap gostring gostring)) i k :
  (forall j sh, l !! j = Some sh -> j <> i -> sh !! k = None) ->
  foldr (∪) ∅ l !! k = l !! i ≫= lookup k.
Proof.
  revert i. induction l as [|sh l IH]; intros i H; simpl.
  - by rewrite lookup_empty.
  - rewrite lookup_union. destruct i as [|i]; simpl.
    + rewrite (IH (length l)).
      * rewrite lookup_ge_None_2 by lia. simpl. by destruct (sh !! k).
      * intros j sh' Hj _. by apply (H (S j)).
    + rewrite (H 0%nat sh) by done. rewrite (left_id_L None union). apply IH.
      intros j sh' Hj Hne. apply (H (S j)); [done|lia].
Qed.

Lemma lookup_abs m k :
  wf m -> abs m !! k = shards m !! shard_of (length (shards m)) k ≫= lookup k.
Proof.
  intros [_ Hwf]. apply lookup_union_shards. intros j sh Hj Hne.
  destruct (sh !! k) eqn:E; [|done]. destruct Hne. symmetry. eapply Hwf; eauto.
Qed.

(** An update of one key in the key's shard is that update of the whole map. *)
Lemma alter_shard (m : t) (key : gostring) (f : gmap gostring gostring -> gmap gostring gostring) :
  wf m ->
  (forall sh k, k <> key -> f sh !! k = sh !! k) ->
  (forall sh1 sh2, sh1 !! key = sh2 !! key -> f sh1 !! key = f sh2 !! key) ->
  let m' := mk (alter f (shard_of (length (shards m)) key) (shards m)) in
  wf m' /\ abs m' = f (abs m).
Proof.
  intros Hm Hother Hsame m'. destruct Hm as [Hlen Hin].
  set (i := shard_of (length (shards m)) key) in *.
  assert (length (shards m') = length (shards m)) as Hl by apply length_alter.
  assert (wf m') as Hwf'.
  { split; [by rewrite Hl|]. intros j sh k Hj Hk. rewrite Hl. simpl in Hj.
    destruct (decide (i = j)) as [<-|Hne].
    - rewrite list_lookup_alter_eq in Hj. apply fmap_Some in Hj as (sh0 & Hsh0 & ->).
      destruct (decide (k = key)) as [->|Hkk]; [done|].
      rewrite Hother in Hk by done. eauto.
    - rewrite list_lookup_alter_ne in Hj by done. eauto. }
  split; [done|]. apply map_eq. intros k.
  rewrite lookup_abs by done. rewrite Hl. simpl.
  destruct (decide (k = key)) as [->|Hkk].
  - fold i. rewrite list_lookup_alter_eq.
    destruct (lookup_lt_is_Some_2 (shards m) i) as [sh Hsh]; [by apply shard_of_lt|].
    rewrite Hsh. simpl. apply Hsame. rewrite lookup_abs by done. fold i. by rewrite Hsh.
  - rewrite Hother by done. rewrite lookup_abs by done.
    destruct (decide (i = shard_of (length (shards m)) k)) as [<-|Hne].
    + rewrite list_lookup_alter_eq. destruct (shards m !! i); simpl; [by apply Hother|done].
    + by rewrite list_lookup_alter_ne.
Qed.

Lemma Set_spec m key value :
  wf m -> exists m', Set_ key value m = (Ret (Ok tt), m') /\ wf m' /\
    abs m' = <[key := value]> (abs m).
Proof.
  intros Hm. unfold Set_, go_bind. rewrite getShard_spec by apply Hm. simpl.
  eexists. split; [done|]. apply (alter_shard m key (insert key value)); [done|..].
  - intros sh k Hk. by rewrite lookup_insert_ne.
  - intros sh1 sh2 _. by rewrite !lookup_insert_eq.
Qed.

Lemma Del_spec m key :
  wf m -> exists m', Del key m = (Ret (Ok tt), m') /\ wf m' /\
    abs m' = delete key (abs m).
Proof.
  intros Hm. unfold Del, go_bind. rewrite getShard_spec by apply Hm. simpl.
  eexists. split; [done|]. apply (alter_shard m key (delete key)); [done|..].
  - intros sh k Hk. by rewrite lookup_delete_ne.
  - intros sh1 sh2 _. by rewrite !lookup_delete_eq.
Qed.

Lemma Get_spec m key :
  wf m ->
  Get key m =
  (Ret (match abs m !! key with Some v => (v, true) | None => ([], false) end), m).
Proof.
  intros Hm. unfold Get, go_bind. rewrite getShard_spec by apply Hm. simpl.
  rewrite <-lookup_abs by done. by destruct (abs m !! key).
Qed.

Lemma NewInMemory_wf n : n <> 0%nat -> wf (NewInMemory n) /\ abs (NewInMemory n) = ∅.
Proof.
  intros Hn. split.
  - split; simpl; [by rewrite length_replicate|].
    intros i sh k Hi [v Hk]. apply lookup_replicate in Hi as [-> _].
    by rewrite lookup_empty in Hk.
  - unfold abs, NewInMemory. simpl. clear Hn. induction n as [|n IH]; simpl; [done|].
    by rewrite IH, (left_id_L ∅ (∪)).
Qed.

End ShardFacts.

#[export] Program Instance mem_engine_laws : EngineLaws MemEngine.t := {|
  en_wf e := ShardFacts.wf (MemEngine.im e);
  en_abs e := ShardFacts.abs (MemEngine.im e)
|}.
Next Obligation.
  intros c k e H. simpl. unfold MemEngine.Get, go_bind, MemEngine.on_im, go_zoom.
  rewrite ShardFacts.Get_spec by done. destruct e as [m]; simpl.
  by destruct (ShardFacts.abs m !! k).
Qed.
Next Obligation.
  intros c k v [m] H. simpl in *. destruct (ShardFacts.Set_spec m k v H) as (m' & E & ? & ?).
  exists (MemEngine.mk m'). unfold MemEngine.Set_, go_bind, MemEngine.on_im, go_zoom.
  simpl. by rewrite E.
Qed.
Next Obligation.
  intros c k [m] H. simpl in *. destruct (ShardFacts.Del_spec m k H) as (m' & E & ? & ?).
  exists (MemEngine.mk m'). unfold MemEngine.Del, go_bind, MemEngine.on_im, go_zoom.
  simpl. by rewrite E.
Qed.

Lemma NewEngine_wf n : en_wf (MemEngine.NewEngine n) /\ en_abs (MemEngine.NewEngine n) = ∅.
Proof.
  simpl. apply ShardFacts.NewInMemory_wf.
  destruct (Z.leb_spec n 0); unfold MemEngine.defaultShards; lia.
Qed.

(** ** The storage interface of the database and the slave

    [database.Storage] and [replication.Storage] are the same three methods.
    The laws give each call's result and its effect on the contents, a
    cancelled context leaving them alone. *)

Class KVStore (K : Type) := {
  kv_Get : Context.t -> gostring -> Go K (result gostring);
  kv_Set : Context.t -> gostring -> gostring -> Go K (result unit);
  kv_Delete : Context.t -> gostring -> Go K (result unit)
}.

(** The map after a write under [ctx], and the write's result. *)
Definition ctx_guard {A} (ctx : Context.t) (live dead : A) : A :=
  match Context.ctx_Err ctx with None => live | Some _ => dead end.

Definition ctx_result {A} (ctx : Context.t) (a : A) : result A :=
  match Context.ctx_Err ctx with None => Ok a | Some e => Err e end.

Class KVLaws (K : Type) `{!KVStore K} := {
  kv_wf : K -> Prop;
  kv_abs : K -> gmap gostring gostring;
  kv_Get_law ctx k s : kv_wf s ->
    exists s', kv_Get ctx k s = (Ret (ctx_result ctx (default [] (kv_abs s !! k))), s') /\
      kv_wf s' /\ kv_abs s' = kv_abs s;
  kv_Set_law ctx k v s : kv_wf s ->
    exists s', kv_Set ctx k v s = (Ret (ctx_result ctx tt), s') /\
      kv_wf s' /\ kv_abs s' = ctx_guard ctx (<[k := v]> (kv_abs s)) (kv_abs s);
  kv_Delete_law ctx k s : kv_wf s ->
    exists s', kv_Delete ctx k s = (Ret (ctx_result ctx tt), s') /\
      kv_wf s' /\ kv_abs s' = ctx_guard ctx (delete k (kv_abs s)) (kv_abs s)
}.

#[export] Instance storage_kv {E} `{!Engine E} : KVStore (Storage.t E) := {|
  kv_Get := Storage.Get;
  kv_Set := Storage.Set_;
  kv_Delete := Storage.Delete
|}.

#[export] Program Instance storage_kv_laws {E} `{!Engine E, !EngineLaws E} :
  KVLaws (Storage.t E) := {|
  kv_wf s := en_wf (Storage.en s);
  kv_abs s := en_abs (Storage.en s)
|}.
Next Obligation.
  intros E ? ? ctx k [g e] H. simpl in *. unfold Storage.Get, ctx_result.
  destruct (Context.ctx_Err ctx); [by eexists|].
  unfold go_bind, Storage.on_gen, Storage.on_en, go_zoom. simpl. rewrite en_Get_law by done.
  destruct (en_abs e !! k); by eexists.
Qed.
Next Obligation.
  intros E ? ? ctx k v [g e] H. simpl in *. unfold Storage.Set_, ctx_result, ctx_guard.
  destruct (Context.ctx_Err ctx); [by eexists|].
  unfold go_bind, Storage.on_gen, Storage.on_en, go_zoom. simpl.
  destruct (en_Set_law (Context.SetTxInContext (Some ctx) (u64 (Generator.id g + 1))) k v e H)
    as (e' & -> & ? & ?). by eexists.
Qed.
Next Obligation.
  intros E ? ? ctx k [g e] H. simpl in *. unfold Storage.Delete, ctx_result, ctx_guard.
  destruct (Context.ctx_Err ctx); [by eexists|].
  unfold go_bind, Storage.on_gen, Storage.on_en, go_zoom. simpl.
  destruct (en_Del_law (Context.SetTxInContext (Some ctx) (u64 (Generator.id g + 1))) k e H)
    as (e' & -> & ? & ?). by eexists.
Qed.

(** ** Refinement of a flat map *)

Inductive op :=
| OpGet (k : gostring)
| OpSet (k v : gostring)
| OpDelete (k : gostring).

Definition unit_result (r : result unit) : result gostring :=
  match r with Ok _ => Ok [] | Err e => Err e end.

Definition run_op {K} `{!KVStore K} (ctx : Context.t) (o : op) : Go K (result gostring) :=
  match o with
  | OpGet k => kv_Get ctx k
  | OpSet k v => let! r := kv_Set ctx k v in go_ret (unit_result r)
  | OpDelete k => let! r := kv_Delete ctx k in go_ret (unit_result r)
  end.

Fixpoint run_ops {K} `{!KVStore K} (l : list (Context.t * op)) : Go K (list (result gostring)) :=
  match l with
  | [] => go_ret []
  | (ctx, o) :: l' => let! r := run_op ctx o in let! rs := run_ops l' in go_ret (r :: rs)
  end.

(** The specification: the same operations on a single map. *)
Definition spec_op (ctx : Context.t) (o : op) (m : gmap gostring gostring)
  : result gostring * gmap gostring gostring :=
  match Context.ctx_Err ctx with
  | Some e => (Err e, m)
  | None =>
      match o with
      | OpGet k => (Ok (default [] (m !! k)), m)
      | OpSet k v => (Ok [], <[k := v]> m)
      | OpDelete k => (Ok [], delete k m)
      end
  end.

Fixpoint spec_ops (l : list (Context.t * op)) (m : gmap gostring gostring)
  : list (result gostring) * gmap gostring gostring :=
  match l with
  | [] => ([], m)
  | (ctx, o) :: l' =>
      let '(r, m') := spec_op ctx o m in
      let '(rs, m'') := spec_ops l' m' in (r :: rs, m'')
  end.

Section refinement.
Context {K : Type} `{!KVStore K, !KVLaws K}.

Lemma run_op_spec ctx o (s : K) :
  kv_wf s ->
  exists s', run_op ctx o s = (Ret (fst (spec_op ctx o (kv_abs s))), s') /\
    kv_wf s' /\ kv_abs s' = snd (spec_op ctx o (kv_abs s)).
Proof.
  intros H. destruct o as [k|k v|k]; simpl.
  - destruct (kv_Get_law ctx k s H) as (s' & E & ? & ?). exists s'. rewrite E.
    unfold spec_op, ctx_result. by destruct (Context.ctx_Err ctx).
  - destruct (kv_Set_law ctx k v s H) as (s' & E & ? & ?). exists s'.
    unfold go_bind. rewrite E. unfold spec_op, ctx_result, ctx_guard, go_ret in *.
    by destruct (Context.ctx_Err ctx).
  - destruct (kv_Delete_law ctx k s H) as (s' & E & ? & ?). exists s'.
    unfold go_bind. rewrite E. unfold spec_op, ctx_result, ctx_guard, go_ret in *.
    by destruct (Context.ctx_Err ctx).
Qed.

Lemma run_ops_spec l (s : K) :
  kv_wf s ->
  exists s', run_ops l s = (Ret (fst (spec_ops l (kv_abs s))), s') /\
    kv_wf s' /\ kv_abs s' = snd (spec_ops l (kv_abs s)).
Proof.
  revert s. induction l as [|[ctx o] l IH]; intros s H; [by eexists|]. simpl.
  destruct (run_op_spec ctx o s H) as (s1 & E1 & H1 & A1).
  destruct (IH s1 H1) as (s2 & E2 & H2 & A2). exists s2.
  unfold go_bind. rewrite E1, E2. rewrite A1 in *.
  destruct (spec_op ctx o (kv_abs s)) as [r m']. simpl in *.
  by destruct (spec_ops l m') as [rs m''].
Qed.

End refinement.

Lemma NewStorage_wf n :
  kv_wf (Storage.New (MemEngine.NewEngine n)) /\
  kv_abs (Storage.New (MemEngine.NewEngine n)) = ∅.
Proof. apply NewEngine_wf. Qed.

(** ** Commands

    What a logged command does to the contents of the store: the database
    replays its own log and a replica the master's with it. *)

Definition apply_cmd (method : N) (args : list gostring) (m : gmap gostring gostring)
  : gmap gostring gostring :=
  if (method =? SetMethodID)%N then
    match args with k :: v :: _ => <[k := v]> m | _ => m end
  else if (method =? DelMethodID)%N then
    match args with k :: _ => delete k m | _ => m end
  else m.

(** A write command with the arguments it needs. *)
Definition write_cmd (method : N) (args : list gostring) : Prop :=
  (exists k v rest, method = SetMethodID /\ args = k :: v :: rest) \/
  (exists k rest, method = DelMethodID /\ args = k :: rest).

(** ** Properties *)

(** C11: whatever number of shards is configured (the default replaces a
    number below one), every sequence of [Get], [Set] and [Delete] calls on a
    new storage, under live or cancelled contexts, returns and leaves exactly
    what it does on one flat map: hashing, sharding and the engine's
    not-found error are invisible, a missing key reads as the empty string
    and nothing panics. *)
Theorem Storage_refines_map (nshards : Z) (l : list (Context.t * op)) :
  exists s', run_ops l (Storage.New (MemEngine.NewEngine nshards)) =
      (Ret (fst (spec_ops l ∅)), s') /\
    kv_wf s' /\ kv_abs s' = snd (spec_ops l ∅).
Proof.
  destruct (NewStorage_wf nshards) as [Hwf Habs].
  destruct (run_ops_spec l _ Hwf) as (s' & E & H & A). rewrite Habs in E, A. eauto.
Qed.
