(* ===== verification/Shards.v ===== *)
(** * The in-memory map under concurrent calls

    [internal/database/storage/engine/inmemory/inmenory.go] with its locks.
    [Storage] runs each call of the map as one step; here any number of
    goroutines call it at once and every lock operation is a step of its own.
    A Go map must not be written while another goroutine reads or writes it,
    so an access has a beginning and an end, and two that overlap are a race.

    The theorems justify the steps of [Storage]: there are no races, the calls
    behave as if each happened at one moment between its start and its return,
    and they all return. *)

From S2P Require Import Prelude Utils Query Storage.

Module Shards.

(** [sync.RWMutex]: the readers that hold it, and the writer that holds it or
    has announced itself.  A writer announces itself first, which keeps new
    readers out, and goes on when the readers it found have left.  Which of the
    goroutines that wait is woken first is left open. *)
Record rwmutex := mkRW { writer : option nat; readers : gset nat }.

Definition unlocked : rwmutex := mkRW None ∅.

Record shard := mkShard { m : rwmutex; store : gmap gostring gostring }.

Inductive call :=
| CSet (key value : gostring)
| CGet (key : gostring)
| CDel (key : gostring).

Definition key_of (c : call) : gostring :=
  match c with CSet k _ | CGet k | CDel k => k end.

(** Which lock a call takes: [Lock], or [RLock]. *)
Definition is_write (c : call) : bool := match c with CGet _ => false | _ => true end.

(** What a call returns: an error, or a value and whether there is one. *)
Inductive answer :=
| Done (err : option error)
| Value (value : gostring) (ok : bool).

(** Where a goroutine is in a call: before its lock, announced as a writer, with
    the lock, inside the access of the map, after it with the answer. *)
Inductive pc :=
| Ready
| Waiting (c : call) (i : nat)
| Announced (c : call) (i : nat)
| Holding (c : call) (i : nat)
| Accessing (c : call) (i : nat)
| Accessed (c : call) (i : nat) (a : answer).

(** The calls a goroutine still makes, where it is, and what it was answered. *)
Record goroutine := mkGo { todo : list call; at_ : pc; answered : list (call * answer) }.

(** The shards and the goroutines.  [history] lists the accesses in the order
    in which they ended; the program does not see it. *)
Record state := mk {
  shards : list shard;
  gos : list goroutine;
  history : list (nat * call * answer)
}.

Definition stores (s : state) : InMemory.t := InMemory.mk (store <$> shards s).

Definition NewInMemory (n : nat) (programs : list (list call)) : state :=
  mk (replicate n (mkShard unlocked ∅)) ((fun p => mkGo p Ready []) <$> programs) [].

(** How a call begins to take its lock: [Lock] for a write, [RLock] for a read.
    Both wait for the writer before. *)
Definition lock (t : nat) (c : call) (l : rwmutex) : option rwmutex :=
  match writer l with
  | Some _ => None
  | None => Some (if is_write c then mkRW (Some t) (readers l) else mkRW None ({[t]} ∪ readers l))
  end.

Definition unlock (t : nat) (c : call) (l : rwmutex) : rwmutex :=
  if is_write c then mkRW None (readers l) else mkRW (writer l) (readers l ∖ {[t]}).

(** The statement between the locks. *)
Definition access (c : call) (st : gmap gostring gostring) : answer * gmap gostring gostring :=
  match c with
  | CSet k v => (Done None, <[k := v]> st)
  | CDel k => (Done None, delete k st)
  | CGet k => (match st !! k with Some v => Value v true | None => Value [] false end, st)
  end.

Inductive step : state -> state -> Prop :=
(** A call starts with [getShard]. *)
| step_call t c p l sh gs h i :
    gs !! t = Some (mkGo (c :: p) Ready l) ->
    InMemory.getShard (key_of c) (InMemory.mk (store <$> sh)) = (Ret (Ok i), InMemory.mk (store <$> sh)) ->
    step (mk sh gs h) (mk sh (<[t := mkGo p (Waiting c i) l]> gs) h)
| step_lock t c i p l sh gs h x rw :
    gs !! t = Some (mkGo p (Waiting c i) l) -> sh !! i = Some x -> lock t c (m x) = Some rw ->
    step (mk sh gs h)
      (mk (<[i := mkShard rw (store x)]> sh) (<[t := mkGo p (if is_write c then Announced c i else Holding c i) l]> gs) h)
(** The writer waits for the readers that were there. *)
| step_enter t c i p l sh gs h x :
    gs !! t = Some (mkGo p (Announced c i) l) -> sh !! i = Some x -> readers (m x) = ∅ ->
    step (mk sh gs h) (mk sh (<[t := mkGo p (Holding c i) l]> gs) h)
| step_begin t c i p l sh gs h :
    gs !! t = Some (mkGo p (Holding c i) l) ->
    step (mk sh gs h) (mk sh (<[t := mkGo p (Accessing c i) l]> gs) h)
| step_end t c i p l sh gs h x a st :
    gs !! t = Some (mkGo p (Accessing c i) l) -> sh !! i = Some x -> access c (store x) = (a, st) ->
    step (mk sh gs h)
      (mk (<[i := mkShard (m x) st]> sh) (<[t := mkGo p (Accessed c i a) l]> gs) (h ++ [(t, c, a)]))
| step_unlock t c i a p l sh gs h x :
    gs !! t = Some (mkGo p (Accessed c i a) l) -> sh !! i = Some x ->
    step (mk sh gs h)
      (mk (<[i := mkShard (unlock t c (m x)) (store x)]> sh)
        (<[t := mkGo p Ready (l ++ [(c, a)])]> gs) h).

(** The statement of a call changes the map. *)
Definition modifies (c : call) : bool :=
  match c with CSet _ _ | CDel _ => true | CGet _ => false end.

(** Two goroutines are inside the same map and one of them writes. *)
Definition race (s : state) : Prop :=
  exists t1 t2 g1 g2 c1 c2 i, t1 <> t2 /\ gos s !! t1 = Some g1 /\ gos s !! t2 = Some g2 /\
    at_ g1 = Accessing c1 i /\ at_ g2 = Accessing c2 i /\ modifies c1 = true.

(** A call as one step, the operations of [Storage]. *)
Definition atomic (c : call) : Go InMemory.t answer :=
  match c with
  | CSet k v => let! r := InMemory.Set_ k v in go_ret (Done (match r with Ok _ => None | Err e => Some e end))
  | CGet k => let! ' (v, ok) := InMemory.Get k in go_ret (Value v ok)
  | CDel k => let! r := InMemory.Del k in go_ret (Done (match r with Ok _ => None | Err e => Some e end))
  end.

(** The calls of a history one after the other, with the answers it claims. *)
Fixpoint legal (h : list (nat * call * answer)) (m m' : InMemory.t) : Prop :=
  match h with
  | [] => m = m'
  | (_, c, a) :: h' => exists m1, atomic c m = (Ret a, m1) /\ legal h' m1 m'
  end.

End Shards.

(** ** Invariants *)

Module ShardsFacts.
Import Shards.

(** The lock a goroutine has, and the one it has or is announced at. *)
Definition holds (g : goroutine) : option (call * nat) :=
  match at_ g with
  | Holding c i | Accessing c i | Accessed c i _ => Some (c, i)
  | _ => None
  end.

Definition claims (g : goroutine) : option (call * nat) :=
  match at_ g with Announced c i => Some (c, i) | _ => holds g end.

Lemma holds_claims g ci : holds g = Some ci -> claims g = Some ci.
Proof. unfold claims, holds. by destruct (at_ g). Qed.

(** *** Locks *)

(** A lock names the goroutines that have it or are announced at it, and a
    writer that has it is alone. *)
Record lock_inv (ls : list rwmutex) (gs : list goroutine) : Prop := mkLockInv {
  li_has t g c i : gs !! t = Some g -> claims g = Some (c, i) ->
    exists l, ls !! i = Some l /\ if is_write c then writer l = Some t else t ∈ readers l;
  li_writer i l t : ls !! i = Some l -> writer l = Some t ->
    exists g c, gs !! t = Some g /\ claims g = Some (c, i) /\ is_write c = true;
  li_reader i l t : ls !! i = Some l -> t ∈ readers l ->
    exists g c, gs !! t = Some g /\ holds g = Some (c, i) /\ is_write c = false;
  li_alone t g c i l : gs !! t = Some g -> holds g = Some (c, i) -> is_write c = true ->
    ls !! i = Some l -> readers l = ∅
}.

Lemma lookup_update {A} (l : list A) i j x y :
  l !! i = Some x -> <[i := y]> l !! j = if decide (i = j) then Some y else l !! j.
Proof.
  intros Hi. destruct (decide (i = j)) as [<-|Hne]; [|by apply list_lookup_insert_ne].
  apply list_lookup_insert_eq. by eapply lookup_lt_Some.
Qed.

(** A goroutine moves on without touching the locks; when that makes it a
    writer with the lock, the lock has no readers. *)
Lemma lock_inv_move ls gs t g g' :
  lock_inv ls gs -> gs !! t = Some g -> claims g' = claims g ->
  (forall ci, holds g = Some ci -> holds g' = Some ci) ->
  (forall c i l, holds g' = Some (c, i) -> is_write c = true -> ls !! i = Some l ->
     holds g = Some (c, i) \/ readers l = ∅) ->
  lock_inv ls (<[t := g']> gs).
Proof.
  intros [H1 H2 H3 H4] Hg Hh Hold Hnew.
  assert (forall t' g0 c i, gs !! t' = Some g0 -> claims g0 = Some (c, i) ->
    exists g1, <[t := g']> gs !! t' = Some g1 /\ claims g1 = Some (c, i)) as Hkeep.
  { intros t' g0 c i E Hc. rewrite (lookup_update _ _ _ _ _ Hg). case_decide as Ht; [|eauto].
    exists g'. split; [done|]. subst t'. congruence. }
  constructor.
  - intros t' g0 c i. rewrite (lookup_update _ _ _ _ _ Hg). case_decide as Ht; [|apply H1].
    subst t'. intros [= E] Hc. subst g0. rewrite Hh in Hc. by apply (H1 t g).
  - intros i l t' Hl Hw. destruct (H2 i l t' Hl Hw) as (g0 & c & E & Hc & Hcw).
    destruct (Hkeep _ _ _ _ E Hc) as (g1 & ? & ?). eauto.
  - intros i l t' Hl Hw. destruct (H3 i l t' Hl Hw) as (g0 & c & E & Hc & Hcw).
    setoid_rewrite (lookup_update _ _ _ _ _ Hg). case_decide as Ht; [|eauto].
    exists g', c. split; [done|]. subst t'. split; [|done]. apply Hold. congruence.
  - intros t' g0 c i l. rewrite (lookup_update _ _ _ _ _ Hg). case_decide as Ht; [|apply H4].
    subst t'. intros [= E] Hc Hw Hl. subst g0. destruct (Hnew _ _ _ Hc Hw Hl); [|done]. by eapply H4.
Qed.

Lemma lock_inv_lock ls gs t g g' c i l l' :
  lock_inv ls gs -> gs !! t = Some g -> claims g = None -> claims g' = Some (c, i) ->
  holds g' = (if is_write c then None else Some (c, i)) ->
  ls !! i = Some l -> lock t c l = Some l' -> lock_inv (<[i := l']> ls) (<[t := g']> gs).
Proof.
  intros [H1 H2 H3 H4] Hg Hh Hh' Hann Hl Hlock. unfold lock in Hlock.
  destruct (writer l) as [w|] eqn:Ew; [done|].
  assert (writer l' = (if is_write c then Some t else None) /\
    readers l' = (if is_write c then readers l else {[t]} ∪ readers l)) as (Hw' & Hr').
  { injection Hlock as <-. by destruct (is_write c). }
  clear Hlock.
  assert (forall t' g0 c0 i0, <[t := g']> gs !! t' = Some g0 -> claims g0 = Some (c0, i0) ->
    t' = t /\ g0 = g' /\ c0 = c /\ i0 = i \/ gs !! t' = Some g0) as Hcase.
  { intros t' g0 c0 i0. rewrite (lookup_update _ _ _ _ _ Hg). case_decide as Ht; [|auto].
    intros [= E] Hc. subst g0. rewrite Hh' in Hc. injection Hc as <- <-. auto. }
  assert (forall t', t' <> t -> <[t := g']> gs !! t' = gs !! t') as Hne
    by (intros t' Ht; by apply list_lookup_insert_ne).
  assert (<[t := g']> gs !! t = Some g') as Hg0.
  { apply list_lookup_insert_eq. by eapply lookup_lt_Some. }
  constructor.
  - intros t' g1 c1 i1 Hg1 Hh1. rewrite (lookup_update _ _ _ _ _ Hl).
    destruct (Hcase _ _ _ _ Hg1 Hh1) as [(-> & -> & -> & ->)|Hold].
    + rewrite decide_True by done. exists l'. split; [done|]. rewrite Hw', Hr'. destruct (is_write c); set_solver.
    + destruct (H1 _ _ _ _ Hold Hh1) as (l1 & Hl1 & Hx). case_decide as Hi; [|eauto]. subst i1.
      rewrite Hl in Hl1. injection Hl1 as <-. exists l'. split; [done|].
      destruct (is_write c1); [by rewrite Ew in Hx|]. rewrite Hr'. destruct (is_write c); set_solver.
  - intros i1 l1 t1. rewrite (lookup_update _ _ _ _ _ Hl). case_decide as Hi.
    + intros [= <-]. rewrite Hw'. destruct (is_write c) eqn:Ec; [|done]. intros [= <-]. subst i1. eauto.
    + intros Hl1 Hw1. destruct (H2 _ _ _ Hl1 Hw1) as (g1 & c1 & Hg1 & Hh1 & Hc1).
      exists g1, c1. rewrite Hne; [done|]. intros ->. congruence.
  - intros i1 l1 t1 Hl1 Hr1. assert (t1 = t /\ i1 = i /\ is_write c = false \/
      exists l0, ls !! i1 = Some l0 /\ t1 ∈ readers l0) as [(-> & -> & Ec)|(l0 & Hl0 & Hr0)].
    { rewrite (lookup_update _ _ _ _ _ Hl) in Hl1. case_decide as Hi; [|eauto]. injection Hl1 as <-.
      subst i1. rewrite Hr' in Hr1. destruct (is_write c) eqn:Ec; [eauto|].
      apply elem_of_union in Hr1 as [->%elem_of_singleton|]; eauto. }
    + exists g', c. by rewrite Hann, Ec.
    + destruct (H3 _ _ _ Hl0 Hr0) as (g1 & c1 & Hg1 & Hh1 & Hc1).
      exists g1, c1. rewrite Hne; [done|]. intros ->. apply holds_claims in Hh1. congruence.
  - intros t1 g1 c1 i1 l1 Hg1 Hh1 Hc1. pose proof (holds_claims _ _ Hh1) as Hcl.
    destruct (Hcase _ _ _ _ Hg1 Hcl) as [(-> & -> & -> & ->)|Hold].
    { by rewrite Hann, Hc1 in Hh1. }
    rewrite (lookup_update _ _ _ _ _ Hl). case_decide as Hi; [|by eapply H4].
    subst i1. destruct (H1 _ _ _ _ Hold Hcl) as (l2 & Hl2 & Hw2). rewrite Hc1 in Hw2. congruence.
Qed.

Lemma lock_inv_unlock ls gs t g g' c i l :
  lock_inv ls gs -> gs !! t = Some g -> holds g = Some (c, i) -> claims g' = None ->
  ls !! i = Some l -> lock_inv (<[i := unlock t c l]> ls) (<[t := g']> gs).
Proof.
  intros [H1 H2 H3 H4] Hg Hholds Hh' Hl. pose proof (holds_claims _ _ Hholds) as Hh.
  destruct (H1 _ _ _ _ Hg Hh) as (l0 & Hl0 & Hmine). rewrite Hl in Hl0. injection Hl0 as <-.
  assert (is_write c = true -> readers l = ∅) as Halone by (intros; by eapply H4).
  assert (forall t' g0 ci, <[t := g']> gs !! t' = Some g0 -> claims g0 = Some ci ->
    t' <> t /\ gs !! t' = Some g0) as Hcase.
  { intros t' g0 ci. rewrite (lookup_update _ _ _ _ _ Hg). case_decide as Ht; [|auto].
    intros [= E] Hc. subst g0. congruence. }
  assert (forall t', t' <> t -> <[t := g']> gs !! t' = gs !! t') as Hne
    by (intros t' Ht; by apply list_lookup_insert_ne).
  unfold unlock. constructor.
  - intros t1 g1 c1 i1 Hg1 Hh1. destruct (Hcase _ _ _ Hg1 Hh1) as [Hnt Hold].
    destruct (H1 _ _ _ _ Hold Hh1) as (l1 & Hl1 & Hx). rewrite (lookup_update _ _ _ _ _ Hl).
    case_decide as Hi; [|eauto]. subst i1. rewrite Hl in Hl1. injection Hl1 as <-.
    eexists. split; [reflexivity|]. destruct (is_write c) eqn:Ec, (is_write c1) eqn:Ec1; cbn.
    + congruence.
    + rewrite Halone in Hx by done. set_solver.
    + done.
    + set_solver.
  - intros i1 l1 t1. rewrite (lookup_update _ _ _ _ _ Hl). case_decide as Hi.
    + intros [= <-]. subst i1. destruct (is_write c) eqn:Ec; [done|]. cbn. intros Hw.
      destruct (H2 _ _ _ Hl Hw) as (g1 & c1 & Hg1 & Hh1 & Hc1).
      exists g1, c1. rewrite Hne; [done|]. intros ->. congruence.
    + intros Hl1 Hw1. destruct (H2 _ _ _ Hl1 Hw1) as (g1 & c1 & Hg1 & Hh1 & Hc1).
      exists g1, c1. rewrite Hne; [done|]. intros ->. congruence.
  - intros i1 l1 t1. rewrite (lookup_update _ _ _ _ _ Hl). case_decide as Hi.
    + intros [= <-]. subst i1. destruct (is_write c) eqn:Ec; cbn.
      * rewrite Halone by done. set_solver.
      * intros [Ht1 Hn]%elem_of_difference. destruct (H3 _ _ _ Hl Ht1) as (g1 & c1 & Hg1 & Hh1 & Hc1).
        exists g1, c1. rewrite Hne; [done|]. set_solver.
    + intros Hl1 Hr1. destruct (H3 _ _ _ Hl1 Hr1) as (g1 & c1 & Hg1 & Hh1 & Hc1).
      exists g1, c1. rewrite Hne; [done|]. intros ->. congruence.
  - intros t1 g1 c1 i1 l1 Hg1 Hh1 Hc1. destruct (Hcase _ _ _ Hg1 (holds_claims _ _ Hh1)) as [Hnt Hold].
    rewrite (lookup_update _ _ _ _ _ Hl). case_decide as Hi; [|by eapply H4].
    intros [= <-]. subst i1. pose proof (H4 _ _ _ _ _ Hold Hh1 Hc1 Hl) as E.
    destruct (is_write c); cbn; rewrite E; set_solver.
Qed.

(** *** The history *)

Lemma atomic_wf c m0 a m1 : ShardFacts.wf m0 -> atomic c m0 = (Ret a, m1) -> ShardFacts.wf m1.
Proof.
  intros Hwf. destruct c as [k v|k|k]; cbn [atomic]; unfold go_bind.
  - destruct (ShardFacts.Set_spec m0 k v Hwf) as (m' & -> & H & _). by intros [= _ <-].
  - rewrite ShardFacts.Get_spec by done. destruct (ShardFacts.abs m0 !! k); by intros [= _ <-].
  - destruct (ShardFacts.Del_spec m0 k Hwf) as (m' & -> & H & _). by intros [= _ <-].
Qed.

Lemma alter_insert {A} (f : A -> A) i (l : list A) x : l !! i = Some x -> alter f i l = <[i := f x]> l.
Proof.
  intros Hi. apply list_eq. intros j. destruct (decide (i = j)) as [<-|Hne].
  - rewrite list_lookup_alter_eq, Hi, list_lookup_insert_eq; [done|]. by eapply lookup_lt_Some.
  - by rewrite list_lookup_alter_ne, list_lookup_insert_ne.
Qed.

(** What happens between the locks is the call in one step. *)
Lemma access_atomic c sh i x a st :
  length sh <> 0%nat -> i = ShardFacts.shard_of (length sh) (key_of c) -> sh !! i = Some x ->
  access c (store x) = (a, st) ->
  atomic c (InMemory.mk (store <$> sh)) = (Ret a, InMemory.mk (store <$> <[i := mkShard (m x) st]> sh)).
Proof.
  intros Hlen Hi Hx Ha.
  assert ((store <$> sh) !! i = Some (store x)) as Hs by (by rewrite list_lookup_fmap, Hx).
  assert (forall k, key_of c = k -> InMemory.getShard k (InMemory.mk (store <$> sh)) =
    (Ret (Ok i), InMemory.mk (store <$> sh))) as Hg.
  { intros k <-. rewrite ShardFacts.getShard_spec; cbn [InMemory.shards]; rewrite length_fmap; [|done].
    by rewrite Hi. }
  rewrite list_fmap_insert. cbn [store].
  destruct c as [k v|k|k]; cbn [access] in Ha; injection Ha as <- <-; cbn [atomic].
  - unfold InMemory.Set_, go_bind. rewrite (Hg k) by done. cbn [go_put InMemory.shards].
    unfold go_put. cbn. by rewrite (alter_insert _ _ _ _ Hs).
  - unfold InMemory.Get, go_bind. rewrite (Hg k) by done. unfold go_get. cbn [InMemory.shards].
    rewrite Hs. cbn [mbind option_bind]. rewrite list_insert_id by done.
    by destruct (store x !! k).
  - unfold InMemory.Del, go_bind. rewrite (Hg k) by done. unfold go_put. cbn.
    by rewrite (alter_insert _ _ _ _ Hs).
Qed.

Lemma legal_snoc h m0 m1 m2 t c a :
  legal h m0 m1 -> atomic c m1 = (Ret a, m2) -> legal (h ++ [(t, c, a)]) m0 m2.
Proof.
  revert m0. induction h as [|[[t' c'] a'] h IH]; intros m0; cbn [legal app].
  - intros -> E. eauto.
  - intros (m' & E' & H) E. eauto.
Qed.

(** The accesses of one goroutine. *)
Definition of_go (t : nat) (h : list (nat * call * answer)) : list (call * answer) :=
  omap (fun '(t', c, a) => if bool_decide (t = t') then Some (c, a) else None) h.

Definition current (g : goroutine) : list (call * answer) :=
  match at_ g with Accessed c _ a => [(c, a)] | _ => [] end.

Lemma of_go_snoc t h t' c a :
  of_go t (h ++ [(t', c, a)]) = of_go t h ++ if bool_decide (t = t') then [(c, a)] else [].
Proof. unfold of_go. rewrite omap_app. cbn. by case_bool_decide. Qed.

(** The shard a goroutine works on. *)
Definition target (g : goroutine) : option (call * nat) :=
  match at_ g with Waiting c i => Some (c, i) | _ => claims g end.

Record inv (n : nat) (s : state) : Prop := mkInv {
  in_len : length (shards s) = n;
  in_pos : n <> 0%nat;
  in_lock : lock_inv (m <$> shards s) (gos s);
  in_target t g c i : gos s !! t = Some g -> target g = Some (c, i) -> i = ShardFacts.shard_of n (key_of c);
  in_legal : legal (history s) (InMemory.NewInMemory n) (stores s);
  in_history t g : gos s !! t = Some g -> of_go t (history s) = answered g ++ current g
}.

(** Changing one goroutine. *)
Lemma target_update n (gs : list goroutine) t g g' :
  (forall t g c i, gs !! t = Some g -> target g = Some (c, i) -> i = ShardFacts.shard_of n (key_of c)) ->
  gs !! t = Some g -> (forall c i, target g' = Some (c, i) -> i = ShardFacts.shard_of n (key_of c)) ->
  forall t0 g0 c i, <[t := g']> gs !! t0 = Some g0 -> target g0 = Some (c, i) ->
    i = ShardFacts.shard_of n (key_of c).
Proof.
  intros H Hg Hg' t0 g0 c i. rewrite (lookup_update _ _ _ _ _ Hg). case_decide; [|apply H].
  intros [= E]. subst g0. apply Hg'.
Qed.

Lemma history_update (gs : list goroutine) h t g g' :
  (forall t g, gs !! t = Some g -> of_go t h = answered g ++ current g) ->
  gs !! t = Some g -> answered g' ++ current g' = answered g ++ current g ->
  forall t0 g0, <[t := g']> gs !! t0 = Some g0 -> of_go t0 h = answered g0 ++ current g0.
Proof.
  intros H Hg Hg' t0 g0. rewrite (lookup_update _ _ _ _ _ Hg). case_decide as E; [|apply H].
  intros [= E']. subst g0 t0. rewrite Hg'. by apply H.
Qed.

Lemma shards_inv_start n programs : n <> 0%nat -> inv n (NewInMemory n programs).
Proof.
  intros Hn. assert (forall t g, gos (NewInMemory n programs) !! t = Some g -> at_ g = Ready /\ answered g = []) as Hg.
  { intros t g. cbn. rewrite list_lookup_fmap. destruct (programs !! t); [|done]. by intros [= <-]. }
  constructor; cbn [NewInMemory shards gos history].
  - apply length_replicate.
  - done.
  - rewrite fmap_replicate. constructor.
    + intros t g c i Hi Hh. destruct (Hg _ _ Hi) as [E _]. unfold claims, holds in Hh. by rewrite E in Hh.
    + intros i l t [-> _]%lookup_replicate. done.
    + intros i l t [-> _]%lookup_replicate. cbn. set_solver.
    + intros t g c i l Hi Hh. destruct (Hg _ _ Hi) as [E _]. unfold holds in Hh. by rewrite E in Hh.
  - intros t g c i Hi Ht. destruct (Hg _ _ Hi) as [E _]. unfold target, claims, holds in Ht. by rewrite E in Ht.
  - cbn. unfold InMemory.NewInMemory, stores. cbn. by rewrite fmap_replicate.
  - intros t g Hi. destruct (Hg _ _ Hi) as [E ->]. unfold current. by rewrite E.
Qed.

Lemma fmap_update {A B} (f : A -> B) (l : list A) i x y : l !! i = Some x -> f y = f x -> f <$> <[i := y]> l = f <$> l.
Proof. intros Hi E. rewrite list_fmap_insert, E. apply list_insert_id. by rewrite list_lookup_fmap, Hi. Qed.

Lemma shards_inv_step n s s' : inv n s -> step s s' -> inv n s'.
Proof.
  intros [Hlen Hpos Hlock Ht Hlegal Hh] Hs.
  destruct Hs as [t c p l sh gs h i Hg Hi|t c i p l sh gs h x rw Hg Hx Hl|t c i p l sh gs h x Hg Hx Hr|
    t c i p l sh gs h Hg|t c i p l sh gs h x a st Hg Hx Ha|t c i a p l sh gs h x Hg Hx];
    unfold stores in *; cbn [shards gos history] in *;
    (constructor; unfold stores; cbn [shards gos history]; [by rewrite ?length_insert|done|..]).
  - by eapply lock_inv_move.
  - eapply target_update; [done..|]. intros c0 i0 [= <- <-].
    rewrite ShardFacts.getShard_spec in Hi; cbn [InMemory.shards] in *; rewrite length_fmap in *; [|congruence].
    injection Hi as <-. congruence.
  - done.
  - by eapply history_update.
  - rewrite list_fmap_insert. cbn [m]. eapply lock_inv_lock; try done.
    + unfold claims, holds. cbn. by destruct (is_write c).
    + unfold holds. cbn. by destruct (is_write c).
    + by rewrite list_lookup_fmap, Hx.
  - eapply target_update; [done..|]. intros c0 i0 E. apply (Ht _ _ c0 i0 Hg). unfold target, claims, holds in *. cbn in *.
    by destruct (is_write c).
  - by rewrite (fmap_update store sh i x).
  - eapply history_update; [done..|]. unfold current. cbn. by destruct (is_write c).
  - eapply lock_inv_move; [done..|]. intros c0 i0 l0 [= <- <-] _. rewrite list_lookup_fmap, Hx.
    intros [= <-]. by right.
  - eapply target_update; [done..|]. intros c0 i0 [= <- <-]. by apply (Ht _ _ _ _ Hg).
  - done.
  - by eapply history_update.
  - eapply lock_inv_move; [done..|]. intros. by left.
  - eapply target_update; [done..|]. intros c0 i0 [= <- <-]. by apply (Ht _ _ _ _ Hg).
  - done.
  - by eapply history_update.
  - rewrite (fmap_update m sh i x) by done. eapply lock_inv_move; [done..|]. intros. by left.
  - eapply target_update; [done..|]. intros c0 i0 [= <- <-]. by apply (Ht _ _ _ _ Hg).
  - eapply legal_snoc; [done|]. apply access_atomic; try done; [congruence|].
    rewrite Hlen. by apply (Ht _ _ _ _ Hg).
  - intros t0 g0. rewrite of_go_snoc, (lookup_update _ _ _ _ _ Hg). case_decide as E.
    + subst t0. intros [= <-]. rewrite bool_decide_true by done. rewrite (Hh _ _ Hg). by rewrite app_nil_r.
    + intros Hg0. rewrite bool_decide_false by done. rewrite app_nil_r. by apply Hh.
  - rewrite list_fmap_insert. cbn [m]. eapply lock_inv_unlock; try done. by rewrite list_lookup_fmap, Hx.
  - eapply target_update; [done..|]. done.
  - by rewrite (fmap_update store sh i x).
  - eapply history_update; [done..|]. cbn. by rewrite app_nil_r.
Qed.

Lemma shards_inv_reach n s s' : inv n s -> rtc step s s' -> inv n s'.
Proof. intros Hi Hs. induction Hs as [|? ? ? Hs _ IH]; [done|]. by eapply IH, shards_inv_step. Qed.

Lemma inv_no_race n s : inv n s -> ~ race s.
Proof.
  intros Hi (t1 & t2 & g1 & g2 & c1 & c2 & i & Hne & Hg1 & Hg2 & H1 & H2 & Hm).
  assert (is_write c1 = true) as Hw by (by destruct c1).
  assert (holds g1 = Some (c1, i)) as Hh1 by (unfold holds; by rewrite H1).
  assert (holds g2 = Some (c2, i)) as Hh2 by (unfold holds; by rewrite H2).
  destruct (in_lock _ _ Hi) as [L1 _ _ L4].
  destruct (L1 _ _ _ _ Hg1 (holds_claims _ _ Hh1)) as (l & Hl & Hx).
  destruct (L1 _ _ _ _ Hg2 (holds_claims _ _ Hh2)) as (l' & Hl' & Hx'). rewrite Hl in Hl'. injection Hl' as <-.
  pose proof (L4 _ _ _ _ _ Hg1 Hh1 Hw Hl). rewrite Hw in Hx. destruct (is_write c2); [congruence|set_solver].
Qed.

Lemma history_grows s s' : rtc step s s' -> history s `prefix_of` history s'.
Proof.
  intros Hs. induction Hs as [|s s1 s2 Hs _ IH]; [done|]. etrans; [|exact IH].
  destruct Hs; cbn; try done. by apply prefix_app_r.
Qed.

(** *** Progress *)

(** The calls a goroutine was given: made, being made, still to make. *)
Definition program_of (g : goroutine) : list call :=
  (fst <$> answered g) ++
  (match at_ g with
   | Ready => []
   | Waiting c _ | Announced c _ | Holding c _ | Accessing c _ | Accessed c _ _ => [c]
   end) ++ todo g.

Lemma program_step s s' : step s s' -> program_of <$> gos s' = program_of <$> gos s.
Proof.
  intros Hs. destruct Hs; cbn [gos]; eapply fmap_update; try done; unfold program_of; cbn; try done.
  - by destruct (is_write c).
  - by rewrite fmap_app, <-app_assoc.
Qed.

Lemma program_reach s s' : rtc step s s' -> program_of <$> gos s' = program_of <$> gos s.
Proof. intros Hs. induction Hs as [|? ? ? Hs _ IH]; [done|]. rewrite IH. by apply program_step. Qed.

(** The steps a goroutine has left, at most. *)
Definition left_ (g : goroutine) : nat :=
  6 * length (todo g) +
  match at_ g with
  | Ready => 0 | Accessed _ _ _ => 1 | Accessing _ _ => 2 | Holding _ _ => 3
  | Announced _ _ => 4 | Waiting _ _ => 5
  end.

Definition work (s : state) : nat := sum_list_with left_ (gos s).

Lemma sum_update {A} (f : A -> nat) (l : list A) i x y :
  l !! i = Some x -> (f y < f x)%nat -> (sum_list_with f (<[i := y]> l) < sum_list_with f l)%nat.
Proof.
  intros Hi Hlt. rewrite insert_take_drop by (by eapply lookup_lt_Some).
  rewrite <-(take_drop_middle l i x Hi) at 3. rewrite !sum_list_with_app. cbn [sum_list_with]. lia.
Qed.

Lemma work_step s s' : step s s' -> (work s' < work s)%nat.
Proof.
  intros Hs. destruct Hs; unfold work; cbn [gos]; eapply sum_update; try done; unfold left_; cbn; try lia.
  destruct (is_write c); lia.
Qed.

Lemma work_steps k s s' : nsteps step k s s' -> (k + work s' <= work s)%nat.
Proof. induction 1 as [|k s s1 s' Hs _ IH]; [lia|]. apply work_step in Hs. lia. Qed.

Lemma work_programs n programs :
  work (NewInMemory n programs) = (6 * sum_list_with length programs)%nat.
Proof.
  unfold work, NewInMemory. cbn [gos]. induction programs as [|p programs IH]; [done|].
  rewrite fmap_cons. cbn [sum_list_with]. rewrite IH. unfold left_. cbn [todo at_]. lia.
Qed.

(** A goroutine that has a lock, or is between two calls, can move. *)
Lemma step_free n s t g :
  inv n s -> gos s !! t = Some g -> ~ red step s ->
  holds g = None /\ (at_ g = Ready -> todo g = []).
Proof.
  intros Hi Hg Hstuck. destruct s as [sh gs h]. destruct g as [p pc l].
  destruct (holds (mkGo p pc l)) as [[c i]|] eqn:E.
  - exfalso. apply Hstuck. destruct (li_has _ _ (in_lock _ _ Hi) _ _ _ _ Hg (holds_claims _ _ E)) as (rw & Hx & _).
    cbn [shards] in Hx. rewrite list_lookup_fmap in Hx. destruct (sh !! i) as [x|] eqn:Ex; [|done].
    destruct pc; try done; injection E as -> ->.
    + eexists. by eapply step_begin.
    + destruct (access c (store x)) as [a st] eqn:Ea. eexists. by eapply step_end.
    + eexists. by eapply step_unlock.
  - split; [done|]. cbn [at_ todo]. intros ->. destruct p as [|c p]; [done|]. exfalso. apply Hstuck.
    eexists. eapply step_call; [done|]. rewrite ShardFacts.getShard_spec; [done|].
    cbn. rewrite length_fmap. pose proof (in_len _ _ Hi). pose proof (in_pos _ _ Hi). cbn in *. congruence.
Qed.

(** When nobody can move, everybody is done: a writer that waits is let in when
    no reader is left, and a goroutine that waits for a writer is held up by
    one that is itself waiting. *)
Lemma stuck_done n s :
  inv n s -> ~ red step s -> forall t g, gos s !! t = Some g -> at_ g = Ready /\ todo g = [].
Proof.
  intros Hi Hstuck t g Hg.
  assert (forall t g, gos s !! t = Some g -> holds g = None) as Hnone
    by (intros t' g' Hg'; by apply (step_free n s t' g')).
  assert (forall i x, shards s !! i = Some x -> readers (m x) = ∅) as Hread.
  { intros i x Hx. apply set_eq. intros r. split; [|set_solver]. intros Hr.
    destruct (li_reader _ _ (in_lock _ _ Hi) i (m x) r) as (g' & c & Hg' & Hh & _);
      [by rewrite list_lookup_fmap, Hx|done|]. rewrite (Hnone _ _ Hg') in Hh. done. }
  assert (forall t g c i x, gos s !! t = Some g -> at_ g = Announced c i -> shards s !! i = Some x -> False) as Hann.
  { intros t' [p pc l] c i x Hg' Hpc Hx. apply Hstuck. destruct s as [sh gs h]. cbn in Hpc. subst pc.
    eexists. by eapply step_enter, Hread. }
  destruct (at_ g) as [|c i|c i|c i|c i|c i a] eqn:Epc;
    try (pose proof (Hnone _ _ Hg) as E; unfold holds in E; by rewrite Epc in E).
  - split; [done|]. by apply (step_free n s t g).
  - exfalso. assert (target g = Some (c, i)) as Ht by (unfold target; by rewrite Epc).
    destruct (lookup_lt_is_Some_2 (shards s) i) as [x Hx].
    { rewrite (in_len _ _ Hi), (in_target _ _ Hi _ _ _ _ Hg Ht). apply ShardFacts.shard_of_lt, (in_pos _ _ Hi). }
    destruct (writer (m x)) as [w|] eqn:Ew.
    + destruct (li_writer _ _ (in_lock _ _ Hi) i (m x) w) as (g' & c' & Hg' & Hh & _);
        [by rewrite list_lookup_fmap, Hx|done|].
      pose proof (Hnone _ _ Hg') as E. unfold claims in Hh.
      destruct (at_ g') eqn:Epc'; try (by rewrite E in Hh). injection Hh as -> ->. by eapply Hann.
    + apply Hstuck. destruct s as [sh gs h], g as [p pc l]. cbn in *. subst pc.
      eexists. eapply step_lock; [done..|]. unfold lock. by rewrite Ew.
  - exfalso. assert (claims g = Some (c, i)) as Hc by (unfold claims; by rewrite Epc).
    destruct (li_has _ _ (in_lock _ _ Hi) _ _ _ _ Hg Hc) as (rw & Hx & _).
    rewrite list_lookup_fmap in Hx. destruct (shards s !! i) as [x|] eqn:Ex; [|done]. by eapply Hann.
Qed.

(** What a goroutine looks like when its calls are over. *)
Definition summary (g : goroutine) : list call * pc * list call := (fst <$> answered g, at_ g, todo g).

Lemma stuck_summary n programs s :
  n <> 0%nat -> rtc step (NewInMemory n programs) s -> ~ red step s ->
  summary <$> gos s = (fun p => (p, Ready, [])) <$> programs.
Proof.
  intros Hn Hr Hstuck. pose proof (shards_inv_reach _ _ _ (shards_inv_start n programs Hn) Hr) as Hi.
  pose proof (program_reach _ _ Hr) as Hp. apply list_eq. intros t.
  assert ((program_of <$> gos s) !! t = (program_of <$> gos (NewInMemory n programs)) !! t) as Ht by (by rewrite Hp).
  clear Hp. cbn [NewInMemory gos] in Ht. rewrite !list_lookup_fmap in *.
  destruct (gos s !! t) as [g|] eqn:Hg, (programs !! t) as [p|]; try done.
  destruct (stuck_done _ _ Hi Hstuck _ _ Hg) as [Epc Etd]. cbn in *. unfold summary. f_equal.
  injection Ht as Ht. unfold program_of in Ht. rewrite Epc, Etd in Ht. cbn in Ht.
  rewrite !app_nil_r in Ht. by rewrite Ht, Epc, Etd.
Qed.

End ShardsFacts.

(** ** Properties *)

Import Shards ShardsFacts.

(** C12: any number of goroutines calling [Set], [Get] and [Del] at once, under
    every schedule: no two of them are inside a map while one writes it; the
    calls, in the order in which they left the maps, behave exactly like the
    same calls run one after the other on the map without locks, with the same
    answers and the same contents; every goroutine has got the answers of its
    own calls in its own order; and the order is fixed as calls leave, so a
    call that returned before another began comes first. *)
Theorem Shards_linearizable (n : nat) (programs : list (list call)) (s1 s2 : state) :
  n <> 0%nat -> rtc step (NewInMemory n programs) s1 -> rtc step s1 s2 ->
  ~ race s1 /\ legal (history s1) (InMemory.NewInMemory n) (stores s1) /\
  (forall t g, gos s1 !! t = Some g -> of_go t (history s1) = answered g ++ current g) /\
  history s1 `prefix_of` history s2.
Proof.
  intros Hn H1 H2. pose proof (shards_inv_reach _ _ _ (shards_inv_start n programs Hn) H1) as Hi.
  split; [by eapply inv_no_race|]. split; [by apply in_legal|].
  split; [by apply (in_history _ _ Hi)|by apply history_grows].
Qed.

(** C21: every run of concurrent calls ends, after at most six steps for each
    call, and where no goroutine can move none is left waiting for a lock:
    each has made exactly the calls of its program, in order, and got an
    answer to every one of them. *)
Theorem Shards_calls_finish (n : nat) (programs : list (list call)) (s : state) (k : nat) :
  n <> 0%nat -> nsteps step k (NewInMemory n programs) s ->
  (k <= 6 * sum_list_with length programs)%nat /\
  (~ red step s -> summary <$> gos s = (fun p => (p, Ready, [])) <$> programs).
Proof.
  intros Hn Hk. split.
  - pose proof (work_steps _ _ _ Hk). rewrite work_programs in *. lia.
  - apply (stuck_summary n); [done|]. eapply rtc_nsteps_2, Hk.
Qed.

Module ShardsWitnesses.

Definition k1 : gostring := str "k".
Definition v1 : gostring := str "v".

(** A writer and a reader of the same key on one shard. *)
Definition programs : list (list call) := [[CSet k1 v1]; [CGet k1]].

Definition one (rw : rwmutex) (st : gmap gostring gostring) : list shard := [mkShard rw st].

(** The reader has the lock, the writer is announced and waits for it. *)
Definition blocked : state :=
  mk (one (mkRW (Some 0) {[1]}) ∅) [mkGo [] (Announced (CSet k1 v1) 0) []; mkGo [] (Accessing (CGet k1) 0) []] [].

Lemma getShard_one k rw st :
  InMemory.getShard k (InMemory.mk (store <$> one rw st)) = (Ret (Ok 0%nat), InMemory.mk (store <$> one rw st)).
Proof.
  rewrite ShardFacts.getShard_spec by done. cbn [InMemory.shards one fmap list_fmap length].
  pose proof (ShardFacts.shard_of_lt 1 k). do 3 f_equal. lia.
Qed.

Lemma reaches_blocked : nsteps step 5 (NewInMemory 1 programs) blocked.
Proof.
  eapply nsteps_l; [eapply (step_call 1); [reflexivity|apply (getShard_one _ unlocked ∅)]|].
  eapply nsteps_l; [eapply (step_lock 1); reflexivity|].
  eapply nsteps_l; [eapply (step_begin 1); reflexivity|].
  eapply nsteps_l; [eapply (step_call 0); [reflexivity|apply (getShard_one _ _ ∅)]|].
  eapply nsteps_l; [eapply (step_lock 0); reflexivity|].
  cbn. rewrite (union_empty_r_L {[1%nat]}). apply nsteps_O.
Qed.

(** Both have returned. *)
Definition finished : state :=
  mk (one (mkRW None ({[1]} ∖ {[1]})) (<[k1 := v1]> ∅))
    [mkGo [] Ready [(CSet k1 v1, Done None)]; mkGo [] Ready [(CGet k1, Value [] false)]]
    [(1, CGet k1, Value [] false); (0, CSet k1 v1, Done None)].

Lemma reaches_finished : nsteps step 6 blocked finished.
Proof.
  eapply nsteps_l; [eapply (step_end 1); [reflexivity|reflexivity|by cbn; rewrite lookup_empty]|].
  eapply nsteps_l; [eapply (step_unlock 1); reflexivity|].
  eapply nsteps_l; [eapply (step_enter 0); [reflexivity|reflexivity|cbn; by rewrite difference_diag_L]|].
  eapply nsteps_l; [eapply (step_begin 0); reflexivity|].
  eapply nsteps_l; [eapply (step_end 0); reflexivity|].
  eapply nsteps_l; [eapply (step_unlock 0); reflexivity|]. apply nsteps_O.
Qed.

Lemma finished_stuck : ~ red step finished.
Proof.
  intros [s Hs]. inversion Hs as
    [t ? ? ? ? ? ? ? Hg|t ? ? ? ? ? ? ? ? ? Hg|t ? ? ? ? ? ? ? ? Hg|t ? ? ? ? ? ? ? Hg|t ? ? ? ? ? ? ? ? ? ? Hg|t ? ? ? ? ? ? ? ? ? Hg];
    subst; destruct t as [|[|t]]; discriminate Hg.
Qed.

(** The writer waits while the reader is inside the map; then it has its turn,
    after the reader in the history. *)
Lemma Shards_linearizable_witness :
  ~ race blocked /\ legal (history blocked) (InMemory.NewInMemory 1) (stores blocked) /\
  history blocked `prefix_of` history finished /\
  legal [(1, CGet k1, Value [] false); (0, CSet k1 v1, Done None)] (InMemory.NewInMemory 1)
    (InMemory.mk [<[k1 := v1]> ∅]).
Proof.
  destruct (Shards_linearizable 1 programs blocked finished) as (H1 & H2 & _ & H4);
    [done|eapply rtc_nsteps_2, reaches_blocked|eapply rtc_nsteps_2, reaches_finished|].
  destruct (Shards_linearizable 1 programs finished finished) as (_ & H5 & _);
    [done|etrans; [eapply rtc_nsteps_2, reaches_blocked|eapply rtc_nsteps_2, reaches_finished]|done|].
  split; [exact H1|]. split; [exact H2|]. split; [exact H4|exact H5].
Defined.

Lemma Shards_calls_finish_witness :
  (11 <= 6 * sum_list_with length programs)%nat /\
  summary <$> gos finished = [([CSet k1 v1], Ready, []); ([CGet k1], Ready, [])].
Proof.
  destruct (Shards_calls_finish 1 programs finished 11) as [H1 H2].
  - done.
  - apply (nsteps_trans 5 6 _ blocked); [apply reaches_blocked|apply reaches_finished].
  - split; [exact H1|exact (H2 finished_stuck)].
Defined.

End ShardsWitnesses.
