(* ===== verification/WalRecord.v ===== *)
(** * The WAL record and its codec

    [internal/database/wal/wal_record.go].  A record is
    [8 bytes LSN][1 byte method][2 bytes argument count] and, for each
    argument, [2 bytes length][contents], integers in big-endian order.
    [Unmarshal] mutates its receiver while it reads; the receiver's state is
    returned with the result so that the partial row an error leaves behind
    is visible. *)

From S2P Require Import Prelude Encoding Query Storage.

Module Row.

Record t := mk {
  lsnID : N;
  methodID : N;
  args : list gostring
}.

#[export] Instance t_eq_decision : EqDecision t.
Proof. solve_decision. Defined.

Definition NewRow (lsnID methodID : N) (args : list gostring) : t :=
  mk lsnID methodID args.

Definition GetLsnID (r : t) : N := lsnID r.
Definition GetMethodID (r : t) : N := methodID r.
Definition GetArgs (r : t) : list gostring := args r.

(** The zero value, [&wal.Row{}]. *)
Definition zero : t := mk 0 0 [].

(** The argument loop of [Marshal]. *)
Fixpoint marshal_args (l : list gostring) (buf : bytes) : result bytes :=
  match l with
  | [] => Ok buf
  | b :: l' =>
      if bool_decide (65535 < len b)%Z then Err (ErrorString (str "argument too large"))
      else marshal_args l' (buf ++ be_bytes 2 (u16 (N.of_nat (length b))) ++ b)
  end.

Definition Marshal (r : t) : result bytes :=
  let buf := be_bytes 8 (lsnID r) in
  let buf := buf ++ [byte_of_N (methodID r)] in
  let argsCount := u16 (N.of_nat (length (args r))) in
  let buf := buf ++ be_bytes 2 argsCount in
  marshal_args (args r) buf.

(** The argument loop of [Unmarshal]: [n] arguments are still to be read from
    [buf]; the row and the remaining bytes, or [io.EOF]. *)
Fixpoint unmarshal_args (n : nat) (r : t) (buf : bytes) : t * result bytes :=
  match n with
  | O => (r, Ok buf)
  | S n' =>
      match read_be 2 buf with
      | None => (r, Err EOF)
      | Some (argLen, buf) =>
          match read_full (N.to_nat argLen) buf with
          | None => (r, Err EOF)
          | Some (argBytes, buf) =>
              unmarshal_args n' (mk (lsnID r) (methodID r) (args r ++ [argBytes])) buf
          end
      end
  end.

Definition Unmarshal (r : t) (data : bytes) : t * result nat :=
  let startLen := length data in
  match read_be 8 data with
  | None => (r, Err EOF)
  | Some (lsn, buf) =>
      let r := mk lsn (methodID r) (args r) in
      match buf with
      | [] => (r, Err EOF)
      | mID :: buf =>
          let r := mk (lsnID r) (Byte.to_N mID) (args r) in
          match read_be 2 buf with
          | None => (r, Err EOF)
          | Some (argsCount, buf) =>
              let r := mk (lsnID r) (methodID r) [] in
              match unmarshal_args (N.to_nat argsCount) r buf with
              | (r, Err e) => (r, Err e)
              | (r, Ok buf) => (r, Ok (startLen - length buf))
              end
          end
      end
  end.

(** ** Well-formed rows

    The Go types bound the first two fields; the last two bounds are what the
    16-bit count and lengths of the format can express. *)
Definition short_arg (a : gostring) : Prop := (len a < 65536)%Z.

#[export] Instance short_arg_dec a : Decision (short_arg a) := _.

Definition wf (r : t) : Prop :=
  (lsnID r < 2 ^ 64)%N /\ (methodID r < 256)%N /\
  (len (args r) < 65536)%Z /\ Forall short_arg (args r).

#[export] Instance wf_dec r : Decision (wf r) := _.

(** The bytes of an argument and of a row without the error path. *)
Definition encode_arg (a : gostring) : bytes := be_bytes 2 (u16 (N.of_nat (length a))) ++ a.
Definition encode (r : t) : bytes :=
  be_bytes 8 (lsnID r) ++ [byte_of_N (methodID r)] ++
  be_bytes 2 (u16 (N.of_nat (length (args r)))) ++ concat (encode_arg <$> args r).

Arguments encode : simpl never.
Arguments encode_arg : simpl never.

(** ** Lemmas *)

Lemma marshal_args_spec l buf :
  marshal_args l buf =
  if bool_decide (Forall short_arg l)
  then Ok (buf ++ concat (encode_arg <$> l))
  else Err (ErrorString (str "argument too large")).
Proof.
  revert buf. induction l as [|a l IH]; intros buf.
  { simpl. by rewrite (right_id_L [] (++)). }
  cbn [marshal_args]. destruct (decide (short_arg a)) as [Ha|Ha].
  - rewrite bool_decide_false by (unfold short_arg in *; lia). rewrite IH.
    rewrite (bool_decide_ext (Forall short_arg (a :: l)) (Forall short_arg l))
      by (rewrite Forall_cons; tauto).
    destruct (bool_decide _); [|done]. f_equal. simpl. unfold encode_arg at 2.
    by rewrite <-!(assoc_L (++)).
  - rewrite bool_decide_true by (unfold short_arg in *; lia).
    rewrite bool_decide_false; [done|]. by intros [? _]%Forall_cons.
Qed.

Lemma Marshal_spec r :
  Marshal r =
  if bool_decide (Forall short_arg (args r))
  then Ok (encode r) else Err (ErrorString (str "argument too large")).
Proof.
  unfold Marshal. rewrite marshal_args_spec. case_bool_decide; [|done].
  unfold encode. by rewrite <-!(assoc_L (++)).
Qed.

Lemma Marshal_wf r : wf r -> Marshal r = Ok (encode r).
Proof. intros (_&_&_&H). rewrite Marshal_spec. by rewrite bool_decide_true. Qed.

Lemma Marshal_Ok r bs : Marshal r = Ok bs -> bs = encode r.
Proof. rewrite Marshal_spec. case_bool_decide; [|done]. congruence. Qed.

Lemma u16_small {A} (l : list A) : (len l < 65536)%Z -> u16 (N.of_nat (length l)) = N.of_nat (length l).
Proof. unfold len. intros H. unfold u16. apply N.mod_small. lia. Qed.

Lemma read_be_u16 n s :
  read_be 2 (be_bytes 2 (u16 n) ++ s) = Some (u16 n, s).
Proof. apply read_be_app. unfold u16. apply N.mod_lt. lia. Qed.

Lemma unmarshal_args_encode l r s :
  Forall short_arg l ->
  unmarshal_args (length l) r (concat (encode_arg <$> l) ++ s) =
  (mk (lsnID r) (methodID r) (args r ++ l), Ok s).
Proof.
  intros F. revert r. induction F as [|a l Ha Hl IH]; intros r.
  - simpl. rewrite (right_id_L [] (++)). by destruct r.
  - cbn [length fmap list_fmap concat unmarshal_args]. unfold encode_arg at 1.
    rewrite <-!(assoc_L (++)), read_be_u16, u16_small, Nat2N.id, read_full_app by done.
    rewrite IH. simpl. by rewrite <-(assoc_L (++)).
Qed.

(** Decoding reads the whole encoding and nothing after it; the receiver's
    old contents do not matter. *)
Lemma Unmarshal_encode r0 r s :
  wf r -> Unmarshal r0 (encode r ++ s) = (r, Ok (length (encode r))).
Proof.
  intros (Hlsn & Hm & Hn & Hargs). unfold Unmarshal, encode at 1.
  rewrite <-!(assoc_L (++)), read_be_app by done. cbn [app].
  rewrite to_N_byte_of_N, N.mod_small by done.
  rewrite read_be_u16, u16_small, Nat2N.id, unmarshal_args_encode by done.
  cbn [lsnID methodID args app]. destruct r as [l m a]. f_equal. f_equal.
  rewrite length_app. lia.
Qed.

Lemma length_encode r : (11 <= length (encode r))%nat.
Proof. unfold encode. rewrite !length_app, !length_be_bytes. simpl. lia. Qed.

(** The bytes of a sequence of rows, as they follow one another in a file or
    a message. *)
Definition encode_rows (rs : list t) : bytes := concat (encode <$> rs).

Lemma encode_rows_app rs1 rs2 : encode_rows (rs1 ++ rs2) = encode_rows rs1 ++ encode_rows rs2.
Proof. unfold encode_rows. by rewrite fmap_app, concat_app. Qed.

Lemma encode_rows_cons r rs : encode_rows (r :: rs) = encode r ++ encode_rows rs.
Proof. done. Qed.

Lemma encode_rows_nil_inv rs : encode_rows rs = [] -> rs = [].
Proof.
  destruct rs as [|r rs]; [done|]. rewrite encode_rows_cons. intros H.
  apply (f_equal length) in H. rewrite length_app in H. pose proof (length_encode r). simpl in H. lia.
Qed.

Lemma len_encode_rows_app rs1 rs2 :
  len (encode_rows (rs1 ++ rs2)) = (len (encode_rows rs1) + len (encode_rows rs2))%Z.
Proof. by rewrite encode_rows_app, len_app. Qed.

Lemma len_encode_rows_cons r rs :
  len (encode_rows (r :: rs)) = (len (encode r) + len (encode_rows rs))%Z.
Proof. by rewrite encode_rows_cons, len_app. Qed.

Lemma len_encode_rows_one r : len (encode_rows [r]) = len (encode r).
Proof. unfold encode_rows. cbn [fmap list_fmap concat]. by rewrite (right_id_L [] (++)). Qed.

Arguments encode_rows : simpl never.

(** [io.EOF] is the only error. *)
Lemma unmarshal_args_EOF n r buf r' e : unmarshal_args n r buf = (r', Err e) -> e = EOF.
Proof.
  revert r buf. induction n as [|n IH]; intros r buf; [done|]. simpl.
  destruct (read_be 2 buf) as [[al b]|]; [|by intros [= _ <-]].
  destruct (read_full _ b) as [[ab b']|]; [|by intros [= _ <-]]. apply IH.
Qed.

Lemma Unmarshal_EOF r data r' e : Unmarshal r data = (r', Err e) -> e = EOF.
Proof.
  unfold Unmarshal. destruct (read_be 8 data) as [[lsn buf]|]; [|by intros [= _ <-]].
  destruct buf as [|m buf]; [by intros [= _ <-]|].
  destruct (read_be 2 buf) as [[c buf']|]; [|by intros [= _ <-]].
  destruct (unmarshal_args _ _ buf') as [r'' [|e']] eqn:E; [done|].
  intros [= _ <-]. by eapply unmarshal_args_EOF.
Qed.

(** Decoded rows are well formed and the bytes read are their encoding. *)
Lemma unmarshal_args_Ok n r buf r' s :
  unmarshal_args n r buf = (r', Ok s) ->
  exists l, length l = n /\ Forall short_arg l /\
    r' = mk (lsnID r) (methodID r) (args r ++ l) /\ buf = concat (encode_arg <$> l) ++ s.
Proof.
  revert r buf. induction n as [|n IH]; intros r buf.
  { intros [= <- <-]. exists []. rewrite (right_id_L [] (++)). by destruct r. }
  simpl. destruct (read_be 2 buf) as [[al b]|] eqn:E1; [|done].
  destruct (read_full _ b) as [[ab b']|] eqn:E2; [|done].
  intros (l & Hl & F & -> & ->)%IH. simpl.
  apply read_be_Some in E1 as (lb & -> & Hlb & ->).
  apply read_full_Some in E2 as [-> Hab].
  pose proof (be_value_bound lb) as Hbd. rewrite Hlb in Hbd.
  change (256 ^ N.of_nat 2)%N with 65536%N in Hbd.
  exists (ab :: l). split; [by simpl; f_equal|]. split; [constructor; [unfold short_arg, len; lia|done]|].
  split; [by rewrite <-(assoc_L (++))|].
  cbn [fmap list_fmap concat]. unfold encode_arg at 2.
  rewrite u16_small by (unfold len; lia). rewrite Hab, N2Nat.id, be_bytes_value_len by done.
  by rewrite <-!(assoc_L (++)).
Qed.

Lemma Unmarshal_Ok r0 data r n :
  Unmarshal r0 data = (r, Ok n) ->
  wf r /\ exists s, data = encode r ++ s /\ n = length (encode r).
Proof.
  unfold Unmarshal. destruct (read_be 8 data) as [[lsn buf]|] eqn:E1; [|done].
  destruct buf as [|m buf]; [done|].
  destruct (read_be 2 buf) as [[c buf']|] eqn:E2; [|done].
  destruct (unmarshal_args _ _ buf') as [r'' [s|e]] eqn:E3; [|done].
  intros [= <- <-].
  apply read_be_Some in E1 as (b1 & -> & H1 & ->).
  apply read_be_Some in E2 as (b2 & -> & H2 & ->).
  apply unmarshal_args_Ok in E3 as (l & Hl & F & -> & ->). cbn [lsnID methodID args app].
  pose proof (be_value_bound b1) as B1. rewrite H1 in B1.
  pose proof (be_value_bound b2) as B2. rewrite H2 in B2.
  change (256 ^ N.of_nat 2)%N with 65536%N in B2.
  assert (b1 ++ m :: b2 ++ concat (encode_arg <$> l) ++ s =
          encode (mk (be_value b1) (Byte.to_N m) l) ++ s) as E.
  { unfold encode. cbn [lsnID methodID args]. rewrite u16_small by (unfold len; lia).
    rewrite Hl, N2Nat.id, !be_bytes_value_len, byte_of_N_to_N by done.
    by rewrite <-!(assoc_L (++)). }
  split.
  - split; [done|]. split; [apply to_N_lt|]. simpl. split; [unfold len; lia|done].
  - exists s. split; [exact E|]. rewrite E, length_app. lia.
Qed.

(** Success does not depend on what follows the row. *)
Lemma Unmarshal_mono r0 data r n t' :
  Unmarshal r0 data = (r, Ok n) -> Unmarshal r0 (data ++ t') = (r, Ok n).
Proof.
  intros (Hwf & s & -> & ->)%Unmarshal_Ok. rewrite <-(assoc_L (++)).
  by apply Unmarshal_encode.
Qed.

Lemma Unmarshal_bounds r0 data r n :
  Unmarshal r0 data = (r, Ok n) -> (11 <= n <= length data)%nat.
Proof.
  intros (_ & s & -> & ->)%Unmarshal_Ok. rewrite length_app.
  pose proof (length_encode r). lia.
Qed.

Lemma Unmarshal_receiver r0 r1 data r n :
  Unmarshal r0 data = (r, Ok n) -> Unmarshal r1 data = (r, Ok n).
Proof. intros (Hwf & s & -> & ->)%Unmarshal_Ok. by apply Unmarshal_encode. Qed.

(** A record cut short anywhere is an end of file. *)
Lemma Unmarshal_torn r0 r k :
  wf r -> (k < length (encode r))%nat ->
  exists r', Unmarshal r0 (take k (encode r)) = (r', Err EOF).
Proof.
  intros Hwf Hk. destruct (Unmarshal r0 (take k (encode r))) as [r' [n|e]] eqn:E.
  - pose proof (Unmarshal_bounds _ _ _ _ E) as Hb. rewrite length_take in Hb.
    apply (Unmarshal_mono _ _ _ _ (drop k (encode r))) in E. rewrite take_drop in E.
    pose proof (Unmarshal_encode r0 r [] Hwf) as E'.
    rewrite (right_id_L [] (++)) in E'. rewrite E in E'.
    assert (n = length (encode r)) by congruence. lia.
  - apply Unmarshal_EOF in E as Ee. subst. eauto.
Qed.

(** The argument count is a [uint16]: 65536 arguments wrap it to zero. *)
Lemma Unmarshal_encode_wrap r0 r s :
  (lsnID r < 2 ^ 64)%N -> (methodID r < 256)%N -> len (args r) = 65536%Z ->
  Unmarshal r0 (encode r ++ s) = (mk (lsnID r) (methodID r) [], Ok 11).
Proof.
  intros Hlsn Hm Hn. unfold Unmarshal, encode.
  rewrite <-!(assoc_L (++)), read_be_app by done. cbn [app].
  rewrite to_N_byte_of_N, N.mod_small, read_be_u16 by done.
  assert (u16 (N.of_nat (length (args r))) = 0%N) as ->.
  { unfold len in Hn. replace (N.of_nat (length (args r))) with 65536%N by lia. done. }
  cbn [N.to_nat unmarshal_args]. f_equal. f_equal.
  rewrite !length_app. cbn [length]. rewrite !length_app, !length_be_bytes. lia.
Qed.

End Row.

(** ** Replaying rows *)

(** The contents of a store after the rows were applied to it. *)
Definition replay (rows : list Row.t) (m : gmap gostring gostring) : gmap gostring gostring :=
  foldl (fun m r => apply_cmd (Row.methodID r) (Row.args r) m) m rows.

Lemma replay_app rows1 rows2 m : replay (rows1 ++ rows2) m = replay rows2 (replay rows1 m).
Proof. unfold replay. by rewrite foldl_app. Qed.

(** *** Replaying twice *)

(** The key a command is about. *)
Definition row_keys (rows : list Row.t) : list gostring := omap (fun r => head (Row.args r)) rows.

(** A replay forgets what its commands write over. *)
Lemma replay_agree rows m1 m2 :
  Forall (fun r => write_cmd (Row.methodID r) (Row.args r)) rows ->
  (forall k, (k ∉ row_keys rows) -> m1 !! k = m2 !! k) -> replay rows m1 = replay rows m2.
Proof.
  intros Hrows. revert m1 m2. induction Hrows as [|r rows Hr _ IH]; intros m1 m2 Hm.
  { apply map_eq. intros k. apply Hm, not_elem_of_nil. }
  cbn [replay foldl]. apply IH. intros k Hk.
  assert (forall k0, head (Row.args r) = Some k0 -> k <> k0 -> m1 !! k = m2 !! k) as Hne.
  { intros k0 E Hk0. apply Hm. unfold row_keys. cbn [omap list_omap]. rewrite E. by apply not_elem_of_cons. }
  unfold apply_cmd. destruct Hr as [(k0 & v & rest & E & Ea)|(k0 & rest & E & Ea)]; rewrite Ea in *; rewrite E; cbn.
  - destruct (decide (k = k0)) as [->|Hk0]; [by rewrite !lookup_insert_eq|].
    rewrite !lookup_insert_ne by done. by eapply Hne.
  - destruct (decide (k = k0)) as [->|Hk0]; [by rewrite !lookup_delete_eq|].
    rewrite !lookup_delete_ne by done. by eapply Hne.
Qed.

(** A replay touches no other keys. *)
Lemma replay_other rows m k :
  Forall (fun r => write_cmd (Row.methodID r) (Row.args r)) rows ->
  (k ∉ row_keys rows) -> replay rows m !! k = m !! k.
Proof.
  intros Hrows. revert m. induction Hrows as [|r rows Hr _ IH]; intros m Hk; [done|].
  change (replay rows (apply_cmd (Row.methodID r) (Row.args r) m) !! k = m !! k).
  unfold row_keys in Hk. cbn [omap list_omap] in Hk.
  destruct Hr as [(k0 & v & rest & E & Ea)|(k0 & rest & E & Ea)]; rewrite Ea in *; cbn [head] in Hk;
    apply not_elem_of_cons in Hk as [Hne Hk]; fold (row_keys rows) in Hk; rewrite IH by done;
    unfold apply_cmd; rewrite E; cbn.
  - by rewrite lookup_insert_ne.
  - by rewrite lookup_delete_ne.
Qed.

(** Commands that come again before the end of a log change nothing. *)
Lemma replay_again rows1 rows2 m :
  Forall (fun r => write_cmd (Row.methodID r) (Row.args r)) (rows1 ++ rows2) ->
  replay (rows1 ++ rows1 ++ rows2) m = replay (rows1 ++ rows2) m.
Proof.
  intros [H1 H2]%Forall_app. rewrite (replay_app rows1). apply replay_agree; [by apply Forall_app|].
  intros k Hk. apply replay_other; [done|]. intros Hin. apply Hk.
  unfold row_keys. rewrite omap_app. apply elem_of_app. by left.
Qed.

(** ** Properties *)

(** C26: marshalling succeeds exactly when every argument is at most 65535
    bytes long, and has one error otherwise; decoding the bytes of a row with
    at most 65535 arguments, whatever bytes follow and whatever the receiver
    held before, gives back that row and the number of bytes it takes. *)
Theorem Row_roundtrip (r r0 : Row.t) (rest : bytes) :
  ((exists bs, Row.Marshal r = Ok bs) <-> Forall (fun a => len a <= 65535)%Z (Row.args r)) /\
  (forall e, Row.Marshal r = Err e -> e = ErrorString (str "argument too large")) /\
  (Row.wf r -> exists bs, Row.Marshal r = Ok bs /\ Row.Unmarshal r0 (bs ++ rest) = (r, Ok (length bs))).
Proof.
  split; [|split].
  - rewrite Row.Marshal_spec.
    assert (Forall (fun a => len a <= 65535)%Z (Row.args r) <-> Forall Row.short_arg (Row.args r)) as ->
      by (apply Forall_iff; intros a; unfold Row.short_arg; lia).
    case_bool_decide; split; try done; [by eexists|by intros [? ?]].
  - intros e. rewrite Row.Marshal_spec. case_bool_decide; congruence.
  - intros Hwf. exists (Row.encode r). split; [by apply Row.Marshal_wf|by apply Row.Unmarshal_encode].
Qed.

Lemma Row_roundtrip_witness :
  exists bs, Row.Marshal (Row.NewRow 7 0 [str "key"; str "value"]) = Ok bs /\
    Row.Unmarshal Row.zero (bs ++ str "tail") =
    (Row.NewRow 7 0 [str "key"; str "value"], Ok (length bs)).
Proof.
  destruct (Row_roundtrip (Row.NewRow 7 0 [str "key"; str "value"]) Row.zero (str "tail")) as (_ & _ & H).
  apply H. apply (bool_decide_unpack _). vm_compute. exact I.
Defined.

(** C27: decoding is strict.  Its only error is [io.EOF]; when it succeeds the
    row is well formed, between 11 bytes and all of the input were read, and
    those bytes are exactly what marshalling the row produces, so no two byte
    strings decode to the same row. *)
Theorem Unmarshal_strict (r0 : Row.t) (data : bytes) :
  match Row.Unmarshal r0 data with
  | (r, Ok n) =>
      Row.wf r /\ (11 <= n <= length data)%nat /\ Row.Marshal r = Ok (take n data)
  | (_, Err e) => e = EOF
  end.
Proof.
  destruct (Row.Unmarshal r0 data) as [r [n|e]] eqn:E.
  - pose proof (Row.Unmarshal_bounds _ _ _ _ E) as Hb.
    apply Row.Unmarshal_Ok in E as (Hwf & s & -> & ->).
    rewrite take_app_length. auto using Row.Marshal_wf.
  - by eapply Row.Unmarshal_EOF.
Qed.

(** The argument count is written as a [uint16] without a check.  A row
    with 65536 arguments marshals without an error, and its bytes decode as
    a row with no arguments that is 11 bytes long, whatever follows: the
    arguments' bytes are left in the stream as if they were records. *)
Theorem Marshal_count_wraps (r r0 : Row.t) (rest : bytes)
    (Hlsn : (Row.lsnID r < 2 ^ 64)%N) (Hm : (Row.methodID r < 256)%N)
    (Hcount : len (Row.args r) = 65536%Z) (Hargs : Forall Row.short_arg (Row.args r)) :
  exists bs, Row.Marshal r = Ok bs /\
    Row.Unmarshal r0 (bs ++ rest) = (Row.NewRow (Row.lsnID r) (Row.methodID r) [], Ok 11%nat).
Proof.
  exists (Row.encode r). split.
  - rewrite Row.Marshal_spec. by rewrite bool_decide_true.
  - by apply Row.Unmarshal_encode_wrap.
Qed.

Lemma Marshal_count_wraps_witness :
  exists bs, Row.Marshal (Row.NewRow 1 2 (replicate (Z.to_nat 65536) (str "k"))) = Ok bs /\
    Row.Unmarshal Row.zero (bs ++ []) = (Row.NewRow 1 2 [], Ok 11%nat).
Proof.
  apply (Marshal_count_wraps (Row.NewRow 1 2 (replicate (Z.to_nat 65536) (str "k")))).
  - reflexivity.
  - reflexivity.
  - unfold len. cbn [Row.args Row.NewRow]. rewrite length_replicate. reflexivity.
  - apply Forall_replicate. reflexivity.
Defined.
