(* ===== verification/FileSystem.v ===== *)
(** * The file system and [utils/fs]

    The part of [os], [path/filepath], [io], [time] and [strconv] the
    program uses, over an explicit world, and the helpers of
    [utils/fs/dir.go] on top of it.

    A world holds the tree of directories and regular files, the clock and
    the faults of the environment.  Each system call consults the fault
    oracle at its own index, so any call of a run may be made to fail; a
    failing write may have transferred part of its data.  [time.Now] reads
    the clock at the index of the call. *)

From S2P Require Import Prelude.

(** ** The world *)

(** An absolute or relative path as its cleaned components. *)
Abbreviation path := (bool * list gostring)%type.

Inductive node :=
| FileNode (contents : bytes)
| DirNode.

#[export] Instance node_eq_decision : EqDecision node.
Proof. solve_decision. Defined.

Record fault := mkFault {
  fault_err : error;
  fault_n : nat
}.

Record World := mkWorld {
  nodes : gmap path node;
  faults : nat -> option fault;
  syscalls : nat;
  clock : nat -> Z;
  now_calls : nat
}.

Definition set_nodes (n : gmap path node) (w : World) : World :=
  mkWorld n (faults w) (syscalls w) (clock w) (now_calls w).

(** The fault of the next system call, if it has one. *)
Definition sys_fault : Go World (option fault) :=
  fun w => (Ret (faults w (syscalls w)),
            mkWorld (nodes w) (faults w) (S (syscalls w)) (clock w) (now_calls w)).

(** [time.Now().UnixMicro()]. *)
Definition UnixMicro : Go World Z :=
  fun w => (Ret (clock w (now_calls w)),
            mkWorld (nodes w) (faults w) (syscalls w) (clock w) (S (now_calls w))).

(** ** Paths *)

Definition slash : byte := x2f.

Fixpoint split_slash (s : bytes) (cur : bytes) : list gostring :=
  match s with
  | [] => [cur]
  | b :: s' =>
      if bool_decide (b = slash) then cur :: split_slash s' [] else split_slash s' (cur ++ [b])
  end.

(** One component of a path applied to the components before it (kept in
    reverse), as [filepath.Clean] does. *)
Definition clean_step (abs : bool) (acc : list gostring) (c : gostring) : list gostring :=
  if bool_decide (c = [] \/ c = str ".") then acc
  else if bool_decide (c = str "..") then
    match acc with
    | [] => if abs then [] else [c]
    | d :: acc' => if bool_decide (d = str "..") then c :: acc else acc'
    end
  else c :: acc.

(** The directory or file a path string denotes; the empty string denotes
    nothing. *)
Definition resolve (p : gostring) : option path :=
  match p with
  | [] => None
  | b :: _ =>
      let abs := bool_decide (b = slash) in
      Some (abs, reverse (foldl (clean_step abs) [] (split_slash p [])))
  end.

(** [filepath.Base]. *)
Fixpoint drop_slashes (s : bytes) : bytes :=
  match s with
  | b :: s' => if bool_decide (b = slash) then drop_slashes s' else s
  | [] => []
  end.

Fixpoint take_to_slash (s : bytes) : bytes :=
  match s with
  | b :: s' => if bool_decide (b = slash) then [] else b :: take_to_slash s'
  | [] => []
  end.

Definition filepath_Base (p : gostring) : gostring :=
  match p with
  | [] => str "."
  | _ => match reverse (take_to_slash (drop_slashes (reverse p))) with
         | [] => str "/"
         | b => b
         end
  end.

(** [filepath.Dir]; the cleaning of its result is [resolve]'s. *)
Fixpoint drop_to_slash (s : bytes) : bytes :=
  match s with
  | b :: s' => if bool_decide (b = slash) then s else drop_to_slash s'
  | [] => []
  end.

Definition filepath_Dir (p : gostring) : gostring :=
  match reverse (drop_to_slash (reverse p)) with
  | [] => str "."
  | d => d
  end.

(** ** [strconv.FormatInt(n, 10)] *)

Fixpoint ndigits (fuel : nat) (n : N) : nat :=
  match fuel with
  | O => 1
  | S f => if (n <? 10)%N then 1 else S (ndigits f (n / 10))
  end.

(** The [k] low decimal digits of [n], the most significant first. *)
Fixpoint digits (k : nat) (n : N) : gostring :=
  match k with
  | O => []
  | S k' => byte_of_N (48 + n / 10 ^ N.of_nat k') :: digits k' (n mod 10 ^ N.of_nat k')
  end.

(** An [int64] has at most 19 digits. *)
Definition FormatInt (z : Z) : gostring :=
  let n := Z.abs_N z in
  (if (z <? 0)%Z then str "-" else []) ++ digits (ndigits 19 n) n.

(** ** System calls *)

Definition is_dir (w : World) (p : path) : bool :=
  match p.2 with
  | [] => true
  | _ => bool_decide (nodes w !! p = Some DirNode)
  end.

(** The name of [p] when it is an entry of the directory [d]. *)
Definition child_of (d p : path) : option gostring :=
  match last p.2 with
  | Some n => if bool_decide (p = (d.1, d.2 ++ [n])) then Some n else None
  | None => None
  end.

Definition entry_set (ns : gmap path node) (d : path)
  : gset gostring := set_omap (child_of d) (dom ns).

(** The names of a directory's entries, sorted. *)
Definition entries (ns : gmap path node) (d : path)
  : list gostring := merge_sort gostr_le (elements (entry_set ns d)).

Definition os_ReadDir (p : gostring) : Go World (result (list gostring)) :=
  let! f := sys_fault in
  match f with
  | Some f => go_ret (Err (fault_err f))
  | None =>
      fun w =>
        match resolve p with
        | None => (Ret (Err (NotExist (str "open : no such file or directory"))), w)
        | Some d =>
            if is_dir w d then (Ret (Ok (entries (nodes w) d)), w)
            else match nodes w !! d with
                 | Some _ => (Ret (Err (PathError (str "not a directory"))), w)
                 | None => (Ret (Err (NotExist (str "no such file or directory"))), w)
                 end
        end
  end.

(** The proper prefixes of [d] and [d] itself, as directories to create. *)
Fixpoint mkdirs (ns : gmap path node) (abs : bool) (pre todo : list gostring)
  : option (gmap path node) :=
  match todo with
  | [] => Some ns
  | c :: todo' =>
      let p := (abs, pre ++ [c]) in
      match ns !! p with
      | Some (FileNode _) => None
      | _ => mkdirs (<[p := DirNode]> ns) abs (pre ++ [c]) todo'
      end
  end.

Definition os_MkdirAll (p : gostring) : Go World (result unit) :=
  let! f := sys_fault in
  match f with
  | Some f => go_ret (Err (fault_err f))
  | None =>
      fun w =>
        match resolve p with
        | None => (Ret (Err (NotExist (str "mkdir : no such file or directory"))), w)
        | Some (abs, comps) =>
            match mkdirs (nodes w) abs [] comps with
            | None => (Ret (Err (PathError (str "not a directory"))), w)
            | Some ns => (Ret (Ok tt), set_nodes ns w)
            end
        end
  end.

(** An open file: the name it was opened with, the file, the read position. *)
Record File := mkFile {
  f_name : gostring;
  f_path : path;
  f_pos : nat;
  f_closed : bool
}.

Definition parent_exists (w : World) (p : path) : bool :=
  is_dir w (p.1, take (length p.2 - 1) p.2).

(** [os.OpenFile(p, O_RDWR|O_APPEND|O_CREATE, 0644)]. *)
Definition os_OpenFile (p : gostring) : Go World (result File) :=
  let! f := sys_fault in
  match f with
  | Some f => go_ret (Err (fault_err f))
  | None =>
      fun w =>
        match resolve p with
        | None => (Ret (Err (NotExist (str "open : no such file or directory"))), w)
        | Some d =>
            if is_dir w d then (Ret (Err (PathError (str "is a directory"))), w)
            else match nodes w !! d with
                 | Some _ => (Ret (Ok (mkFile p d 0 false)), w)
                 | None =>
                     if parent_exists w d
                     then (Ret (Ok (mkFile p d 0 false)),
                           set_nodes (<[d := FileNode []]> (nodes w)) w)
                     else (Ret (Err (NotExist (str "no such file or directory"))), w)
                 end
        end
  end.

(** [os.Open(p)]: read only. *)
Definition os_Open (p : gostring) : Go World (result File) :=
  let! f := sys_fault in
  match f with
  | Some f => go_ret (Err (fault_err f))
  | None =>
      fun w =>
        match resolve p with
        | None => (Ret (Err (NotExist (str "open : no such file or directory"))), w)
        | Some d =>
            if is_dir w d || bool_decide (is_Some (nodes w !! d))
            then (Ret (Ok (mkFile p d 0 false)), w)
            else (Ret (Err (NotExist (str "no such file or directory"))), w)
        end
  end.

(** The contents of an open file. *)
Definition file_contents (w : World) (f : File) : option bytes :=
  match nodes w !! f_path f with Some (FileNode b) => Some b | _ => None end.

(** [file.Write] in append mode: the data goes to the end of the file and the
    position moves behind it.  Returns the number of bytes written, the error
    and the file. *)
Definition file_Write (f : File) (data : bytes) : Go World (nat * option error * File) :=
  let! fl := sys_fault in
  fun w =>
    if f_closed f then (Ret (0, Some (PathError (str "file already closed")), f), w)
    else
      match file_contents w f with
      | None => (Ret (0, Some (PathError (str "is a directory")), f), w)
      | Some old =>
          let part := match fl with Some x => take (fault_n x) data | None => data end in
          let new := old ++ part in
          (Ret (length part, fault_err <$> fl, mkFile (f_name f) (f_path f) (length new) false),
           set_nodes (<[f_path f := FileNode new]> (nodes w)) w)
      end.

(** [file.Sync], [file.Close] and [file.Stat].  The returned error is a
    fault's, or the error of a closed file. *)
Definition file_op_err (f : File) (fl : option fault) : option error :=
  if f_closed f then Some (PathError (str "file already closed")) else fault_err <$> fl.

Definition file_Sync (f : File) : Go World (option error) :=
  let! fl := sys_fault in go_ret (file_op_err f fl).

Definition file_Close (f : File) : Go World (option error * File) :=
  let! fl := sys_fault in
  go_ret (file_op_err f fl, mkFile (f_name f) (f_path f) (f_pos f) true).

Definition file_Size (f : File) : Go World (result Z) :=
  let! fl := sys_fault in
  match file_op_err f fl with
  | Some e => go_ret (Err e)
  | None => go_get (fun w => Ok (len (default [] (file_contents w f))))
  end.

(** [io.ReadAll(file)]: from the current position to the end. *)
Definition io_ReadAll (f : File) : Go World (result bytes * File) :=
  let! fl := sys_fault in
  match file_op_err f fl with
  | Some e => go_ret (Err e, f)
  | None =>
      fun w =>
        match file_contents w f with
        | None => (Ret (Err (PathError (str "is a directory")), f), w)
        | Some b =>
            (Ret (Ok (drop (f_pos f) b), mkFile (f_name f) (f_path f) (length b `max` f_pos f) false), w)
        end
  end.

(** ** [utils/fs/dir.go] *)

Definition is_not_exist (e : error) : bool :=
  match e with NotExist _ => true | _ => false end.

Definition ReadDir (p : gostring) : Go World (result (list gostring)) :=
  let! r := os_ReadDir p in
  match r with
  | Err e =>
      if is_not_exist e then
        let! m := os_MkdirAll p in
        match m with
        | Err e' => go_ret (Err (Wrapped (str "failed to create directory") e'))
        | Ok _ => go_ret (Ok [])
        end
      else go_ret (Err e)
  | Ok names => go_ret (Ok names)
  end.

Definition OpenFile (p : gostring) : Go World (result File) :=
  let dir := filepath_Dir p in
  try! u := os_MkdirAll dir in
  os_OpenFile p.

Definition ReadFile (p : gostring) : Go World (result bytes) :=
  try! f := os_Open p in
  let! ' (r, f) := io_ReadAll f in
  do! file_Close f in
  go_ret r.

(** The loop of [binarySearch]; the array is indexed within its bounds or the
    call panics, and running out of fuel would be a loop that never ends. *)
Fixpoint binarySearch_loop (fuel : nat) (array : list gostring) (target : gostring)
    (low high : Z) : outcome Z :=
  match fuel with
  | O => Blocks
  | S f =>
      if (low <=? high)%Z then
        let mid := Z.quot (low + high) 2 in
        match (if (mid <? 0)%Z then None else array !! Z.to_nat mid) with
        | None => Panics
        | Some x =>
            if bool_decide (x = target) then Ret mid
            else if gostr_ltb x target then binarySearch_loop f array target (mid + 1) high
            else binarySearch_loop f array target low (mid - 1)
        end
      else Ret (-1)%Z
  end.

Definition binarySearch (array : list gostring) (target : gostring) : outcome Z :=
  binarySearch_loop (S (length array)) array target 0 (len array - 1).

Definition ReadDirsFrom (p fileFrom : gostring) : Go World (result (list gostring)) :=
  try! dirs := ReadDir p in
  if bool_decide (dirs = []) then go_ret (Ok [])
  else if bool_decide (fileFrom = []) then go_ret (Ok dirs)
  else
    match binarySearch dirs fileFrom with
    | Panics => go_panic
    | Blocks => go_block
    | Ret idx =>
        if (idx =? -1)%Z then go_ret (Ok [])
        else let! l := go_slice_from dirs (Z.to_nat idx) in go_ret (Ok l)
    end.

(** ** Worlds without faults *)

Definition fault_free (w : World) : Prop := forall n, faults w n = None.

(** The world after [k] system calls that changed no file. *)
Definition tick (k : nat) (w : World) : World :=
  mkWorld (nodes w) (faults w) (k + syscalls w) (clock w) (now_calls w).

Lemma sys_fault_free w : fault_free w -> sys_fault w = (Ret None, tick 1 w).
Proof. intros H. unfold sys_fault. by rewrite H. Qed.

Lemma tick_tick j k w : tick j (tick k w) = tick (j + k) w.
Proof. unfold tick. simpl. f_equal. lia. Qed.

Lemma tick_set_nodes k ns w : tick k (set_nodes ns w) = set_nodes ns (tick k w).
Proof. done. Qed.

Lemma set_nodes_set_nodes n1 n2 w : set_nodes n1 (set_nodes n2 w) = set_nodes n1 w.
Proof. done. Qed.

Lemma set_nodes_id w : set_nodes (nodes w) w = w.
Proof. by destruct w. Qed.

Lemma fault_free_tick k w : fault_free (tick k w) <-> fault_free w.
Proof. done. Qed.

Lemma fault_free_set_nodes ns w : fault_free (set_nodes ns w) <-> fault_free w.
Proof. done. Qed.

#[export] Hint Rewrite tick_tick tick_set_nodes set_nodes_set_nodes set_nodes_id : laguna.

(** ** Lemmas on paths *)

(** A name that can stand between slashes and is kept by cleaning. *)
Definition plain_name (n : gostring) : Prop :=
  (slash ∉ n) /\ n <> [] /\ n <> str "." /\ n <> str "..".

#[export] Instance plain_name_dec n : Decision (plain_name n) := _.

Definition join (dir name : gostring) : gostring := dir ++ [slash] ++ name.

Lemma split_slash_join a b cur :
  split_slash (a ++ [slash] ++ b) cur = split_slash a cur ++ split_slash b [].
Proof.
  revert cur. induction a as [|x a IH]; intros cur; cbn [app split_slash].
  - by rewrite bool_decide_true.
  - case_bool_decide; [|apply IH]. simpl. by rewrite IH.
Qed.

Lemma split_slash_plain n cur : slash ∉ n -> split_slash n cur = [cur ++ n].
Proof.
  revert cur. induction n as [|x n IH]; intros cur Hn; cbn [split_slash].
  - by rewrite (right_id_L [] (++)).
  - apply not_elem_of_cons in Hn as [Hx Hn]. rewrite bool_decide_false by done.
    rewrite IH by done. by rewrite <-(assoc_L (++)).
Qed.

Lemma clean_step_plain abs acc n : plain_name n -> clean_step abs acc n = n :: acc.
Proof.
  intros (_ & H1 & H2 & H3). unfold clean_step.
  rewrite bool_decide_false by (intros [?|?]; done). by rewrite bool_decide_false.
Qed.

Lemma resolve_join dir name abs comps :
  resolve dir = Some (abs, comps) -> plain_name name ->
  resolve (join dir name) = Some (abs, comps ++ [name]).
Proof.
  intros Hd Hn. destruct dir as [|b dir]; [done|]. cbn [resolve] in Hd. injection Hd as <- <-.
  unfold join. cbn [app resolve].
  change (b :: dir ++ slash :: name) with ((b :: dir) ++ [slash] ++ name).
  rewrite split_slash_join, foldl_app, (split_slash_plain name) by apply Hn.
  cbn [foldl app]. by rewrite clean_step_plain, reverse_cons.
Qed.

Lemma resolve_dir_slash dir d :
  resolve dir = Some d -> resolve (dir ++ [slash]) = Some d.
Proof.
  intros Hd. destruct dir as [|b dir]; [done|]. cbn [resolve app] in *. rewrite <-Hd.
  change (b :: dir ++ [slash]) with ((b :: dir) ++ [slash] ++ []).
  by rewrite split_slash_join, foldl_app.
Qed.

Lemma drop_to_slash_plain n s : slash ∉ n -> drop_to_slash (n ++ slash :: s) = slash :: s.
Proof.
  induction n as [|x n IH]; intros Hn; cbn [app drop_to_slash].
  - by rewrite bool_decide_true.
  - apply not_elem_of_cons in Hn as [Hx Hn]. rewrite bool_decide_false by done. auto.
Qed.

Lemma reverse_join dir name : reverse (join dir name) = reverse name ++ slash :: reverse dir.
Proof. unfold join. rewrite !reverse_app, reverse_singleton, <-(assoc_L (++)). done. Qed.

Lemma slash_not_in_reverse n : slash ∉ n -> slash ∉ reverse n.
Proof. by rewrite elem_of_reverse. Qed.

Lemma filepath_Dir_join dir name :
  plain_name name -> filepath_Dir (join dir name) = dir ++ [slash].
Proof.
  intros (Hs & _). unfold filepath_Dir.
  rewrite reverse_join, drop_to_slash_plain by (by apply slash_not_in_reverse).
  rewrite reverse_cons, reverse_involutive. by destruct dir.
Qed.

Lemma take_to_slash_plain n s : slash ∉ n -> take_to_slash (n ++ slash :: s) = n.
Proof.
  induction n as [|x n IH]; intros Hn; cbn [app take_to_slash].
  - by rewrite bool_decide_true.
  - apply not_elem_of_cons in Hn as [Hx Hn]. rewrite bool_decide_false by done. f_equal. auto.
Qed.

Lemma filepath_Base_join dir name :
  plain_name name -> filepath_Base (join dir name) = name.
Proof.
  intros (Hs & Hne & _). unfold filepath_Base.
  destruct (join dir name) as [|b l] eqn:E; [by destruct dir|]. rewrite <-E. clear E b l.
  rewrite reverse_join.
  apply slash_not_in_reverse in Hs.
  destruct (reverse name) as [|x n] eqn:En.
  { apply (f_equal reverse) in En. by rewrite reverse_involutive in En. }
  cbn [app drop_slashes]. apply not_elem_of_cons in Hs as Hx. destruct Hx as [Hx _].
  rewrite bool_decide_false by done.
  change (x :: n ++ slash :: reverse dir) with ((x :: n) ++ slash :: reverse dir).
  rewrite take_to_slash_plain by done. rewrite <-En, reverse_involutive. by destruct name.
Qed.

(** ** Lemmas on decimal names *)

Lemma length_digits k n : length (digits k n) = k.
Proof. revert n. induction k as [|k IH]; intros n; simpl; auto. Qed.

Lemma digits_lt k a b :
  (a < b)%N -> (b < 10 ^ N.of_nat k)%N ->
  gostr_ltb (digits k a) (digits k b) = true.
Proof.
  intros Hab Hb. apply gostr_ltb_spec. revert a b Hab Hb.
  induction k as [|k IH]; intros a b Hab Hb; [simpl in Hb; lia|].
  rewrite Nat2N.inj_succ, N.pow_succ_r' in Hb. cbn [digits].
  set (p := (10 ^ N.of_nat k)%N) in *. assert (p <> 0)%N as Hp by (apply N.pow_nonzero; lia).
  pose proof (N.div_mod a p Hp) as Ea. pose proof (N.div_mod b p Hp) as Eb.
  pose proof (N.mod_lt a p Hp). pose proof (N.mod_lt b p Hp).
  assert (b / p < 10)%N by (apply N.Div0.div_lt_upper_bound; lia).
  assert (a / p <= b / p)%N as Hle by (apply N.Div0.div_le_mono; lia).
  assert (forall d, d < 10 -> Byte.to_N (byte_of_N (48 + d)) = 48 + d)%N as Hd.
  { intros d ?. rewrite to_N_byte_of_N. apply N.mod_small. lia. }
  destruct (decide (a / p = b / p)%N) as [E|Hne].
  - rewrite E in *. destruct (IH (a mod p)%N (b mod p)%N) as [Hl Hn]; [lia|lia|].
    split; [apply gostr_leb_cons; auto|]. by intros [= ?].
  - assert (a / p < b / p)%N by lia. split.
    + apply gostr_leb_cons. left. rewrite !Hd by lia. lia.
    + intros [= Heq _]. apply (f_equal Byte.to_N) in Heq. rewrite !Hd in Heq by lia. lia.
Qed.

Lemma ndigits_spec f k n :
  (k <= f)%nat -> (10 ^ N.of_nat k <= n < 10 ^ N.of_nat (S k))%N -> ndigits f n = S k.
Proof.
  revert k n. induction f as [|f IH]; intros k n Hk Hn.
  - assert (k = 0)%nat as -> by lia. done.
  - cbn [ndigits]. destruct k as [|k].
    + destruct (N.ltb_spec n 10); [done|]. change (10 ^ N.of_nat 1)%N with 10%N in Hn. lia.
    + rewrite !Nat2N.inj_succ, !N.pow_succ_r' in Hn.
      pose proof (N.pow_nonzero 10 (N.of_nat k)).
      destruct (N.ltb_spec n 10); [lia|]. f_equal. apply IH; [lia|].
      rewrite Nat2N.inj_succ, N.pow_succ_r'. split.
      * apply N.div_le_lower_bound; lia.
      * apply N.Div0.div_lt_upper_bound. lia.
Qed.

(** Microseconds since the epoch with sixteen decimal digits: from the year
    2001 to the year 2286. *)
Definition valid_micro (z : Z) : Prop := (10 ^ 15 <= z < 10 ^ 16)%Z.

Lemma FormatInt_valid z : valid_micro z -> FormatInt z = digits 16 (Z.to_N z).
Proof.
  intros H. unfold valid_micro in H. unfold FormatInt.
  destruct (Z.ltb_spec z 0); [lia|]. cbn [app].
  replace (Z.abs_N z) with (Z.to_N z) by lia.
  rewrite (ndigits_spec 19 15); [reflexivity|lia|].
  change (10 ^ N.of_nat 15)%N with (Z.to_N (10 ^ 15)).
  change (10 ^ N.of_nat 16)%N with (Z.to_N (10 ^ 16)). lia.
Qed.

Lemma gostr_ltb_app a b s t :
  length a = length b -> gostr_ltb a b = true -> gostr_ltb (a ++ s) (b ++ t) = true.
Proof.
  rewrite !gostr_ltb_spec. revert b. induction a as [|x a IH]; intros [|y b] Hl [Hle Hne];
    try done. simpl in Hl. unfold gostr_le in *. rewrite <-!app_comm_cons.
  apply gostr_leb_cons in Hle as [Hlt|[-> Hle]].
  - split; [apply gostr_leb_cons; auto|]. intros [= -> _]. lia.
  - destruct (IH b) as [Hle' Hne']; [lia|split; [done|congruence]|].
    split; [apply gostr_leb_cons; auto|]. intros [= ?]. done.
Qed.

(** The file name [newFile] makes from a time. *)
Definition seg_name (z : Z) : gostring := FormatInt z ++ str ".bin".

Lemma seg_name_lt a b :
  valid_micro a -> valid_micro b -> (a < b)%Z -> gostr_ltb (seg_name a) (seg_name b) = true.
Proof.
  intros Ha Hb Hab. unfold seg_name. rewrite !FormatInt_valid by done.
  apply gostr_ltb_app; [by rewrite !length_digits|].
  unfold valid_micro in *. apply digits_lt; [lia|].
  change (10 ^ N.of_nat 16)%N with (Z.to_N (10 ^ 16)). lia.
Qed.

Lemma slash_not_in_digits k n : (n < 10 ^ N.of_nat k)%N -> slash ∉ digits k n.
Proof.
  revert n. induction k as [|k IH]; intros n Hn; [apply not_elem_of_nil|].
  rewrite Nat2N.inj_succ, N.pow_succ_r' in Hn. cbn [digits].
  set (p := (10 ^ N.of_nat k)%N) in *. assert (p <> 0)%N as Hp by (apply N.pow_nonzero; lia).
  apply not_elem_of_cons. split; [|by apply IH, N.mod_lt].
  intros E. apply (f_equal Byte.to_N) in E. rewrite to_N_byte_of_N in E.
  assert (n / p < 10)%N by (apply N.Div0.div_lt_upper_bound; lia).
  rewrite N.mod_small in E by lia.
  assert (Byte.to_N slash = 47%N) as Hs by reflexivity. rewrite Hs in E.
  revert E. generalize (n / p)%N. lia.
Qed.

Lemma seg_name_plain z : valid_micro z -> plain_name (seg_name z).
Proof.
  intros Hz. unfold seg_name. rewrite FormatInt_valid by done.
  assert (length (digits 16 (Z.to_N z) ++ str ".bin") = 20) as Hl
    by (by rewrite length_app, length_digits).
  split.
  - rewrite elem_of_app. intros [H|H].
    + revert H. apply slash_not_in_digits. unfold valid_micro in Hz.
      change (10 ^ N.of_nat 16)%N with (Z.to_N (10 ^ 16)). lia.
    + revert H. apply (bool_decide_unpack _). vm_compute. exact I.
  - repeat split; intros E; by rewrite E in Hl.
Qed.

(** ** Lemmas on directories *)

Lemma child_of_Some d p n : child_of d p = Some n <-> p = (d.1, d.2 ++ [n]).
Proof.
  unfold child_of. split.
  - destruct (last p.2) as [m|]; [|done]. case_bool_decide; [|done]. by intros [= <-].
  - intros ->. simpl. rewrite last_snoc. by rewrite bool_decide_true.
Qed.

Lemma elem_of_entry_set ns d n :
  n ∈ entry_set ns d <-> is_Some (ns !! (d.1, d.2 ++ [n])).
Proof.
  unfold entry_set. rewrite elem_of_set_omap. split.
  - intros (p & Hp & ->%child_of_Some). by apply elem_of_dom.
  - intros H. exists (d.1, d.2 ++ [n]). split; [by apply elem_of_dom|by apply child_of_Some].
Qed.

Lemma elem_of_entries ns d n : n ∈ entries ns d <-> is_Some (ns !! (d.1, d.2 ++ [n])).
Proof.
  unfold entries. rewrite merge_sort_Permutation, elem_of_elements. apply elem_of_entry_set.
Qed.

Lemma entries_sorted ns d : StronglySorted gostr_le (entries ns d).
Proof. apply (StronglySorted_merge_sort _). Qed.

Lemma entries_NoDup ns d : NoDup (entries ns d).
Proof. unfold entries. rewrite merge_sort_Permutation. apply NoDup_elements. Qed.

(** A sorted list of distinct names with the right members is the listing. *)
Lemma entries_unique ns d l :
  StronglySorted gostr_le l -> NoDup l ->
  (forall n, n ∈ l <-> is_Some (ns !! (d.1, d.2 ++ [n]))) -> entries ns d = l.
Proof.
  intros Hs Hnd Hin. apply (StronglySorted_unique gostr_le); [apply entries_sorted|done|].
  apply NoDup_Permutation; [apply entries_NoDup|done|].
  intros n. by rewrite elem_of_entries, Hin.
Qed.

(** A file written again keeps the listing. *)
Lemma entries_overwrite ns d p x y :
  ns !! p = Some y -> entries (<[p := x]> ns) d = entries ns d.
Proof.
  intros Hp. apply entries_unique; [apply entries_sorted|apply entries_NoDup|].
  intros n. rewrite elem_of_entries.
  destruct (decide (p = (d.1, d.2 ++ [n]))) as [->|Hne].
  - rewrite lookup_insert_eq, Hp. split; eauto.
  - by rewrite lookup_insert_ne.
Qed.

(** A new file whose name is above all others is listed last. *)
Lemma entries_snoc ns d n x :
  Forall (fun m => gostr_ltb m n = true) (entries ns d) ->
  entries (<[(d.1, d.2 ++ [n]) := x]> ns) d = entries ns d ++ [n].
Proof.
  intros Hlt. rewrite Forall_forall in Hlt. apply entries_unique.
  - apply StronglySorted_app_2; [|apply entries_sorted|repeat constructor].
    intros a b Ha ->%list_elem_of_singleton. by apply Hlt, gostr_ltb_spec in Ha as [? _].
  - apply NoDup_app. split; [apply entries_NoDup|]. split; [|apply NoDup_singleton].
    intros a Ha ->%list_elem_of_singleton. by apply Hlt, gostr_ltb_spec in Ha as [_ ?].
  - intros m. rewrite elem_of_app, list_elem_of_singleton, elem_of_entries.
    destruct (decide (m = n)) as [->|Hne].
    + rewrite lookup_insert_eq. split; eauto.
    + rewrite lookup_insert_ne.
      * split; [intros [?|?]; done|auto].
      * intros [= H]. by apply app_inv_head in H; injection H as ->.
Qed.

(** ** Calls on an existing directory *)

(** [d] and every directory above it exist. *)
Definition dir_exists (ns : gmap path node) (d : path) : Prop :=
  forall k, 0 < k <= length d.2 -> ns !! (d.1, take k d.2) = Some DirNode.

Lemma dir_exists_is_dir w d : dir_exists (nodes w) d -> is_dir w d = true.
Proof.
  intros H. unfold is_dir. destruct d as [abs [|c comps]]; [done|]. cbn [snd].
  apply bool_decide_eq_true. specialize (H (length (c :: comps))). cbn [fst snd] in H.
  rewrite firstn_all in H. apply H. simpl. lia.
Qed.

Lemma is_dir_child w d n :
  is_dir w (d.1, d.2 ++ [n]) = bool_decide (nodes w !! (d.1, d.2 ++ [n]) = Some DirNode).
Proof. unfold is_dir. cbn [snd]. by destruct (d.2 ++ [n]) eqn:E; [destruct d.2|]. Qed.

Lemma parent_exists_child w d n :
  dir_exists (nodes w) d -> parent_exists w (d.1, d.2 ++ [n]) = true.
Proof.
  intros H. unfold parent_exists. cbn [fst snd].
  rewrite length_app, Nat.add_sub, take_app_length. destruct d. by apply dir_exists_is_dir.
Qed.

Lemma dir_exists_insert ns d p b :
  dir_exists ns d -> length d.2 < length p.2 -> dir_exists (<[p := FileNode b]> ns) d.
Proof.
  intros H Hp k Hk. rewrite lookup_insert_ne; [by apply H|].
  intros ->. cbn [snd] in Hp. rewrite length_take in Hp. lia.
Qed.

Lemma mkdirs_existing ns abs pre todo :
  (forall k, length pre < k <= length (pre ++ todo) ->
    ns !! (abs, take k (pre ++ todo)) = Some DirNode) ->
  mkdirs ns abs pre todo = Some ns.
Proof.
  revert pre. induction todo as [|c todo IH]; intros pre H; [done|]. cbn [mkdirs].
  assert (ns !! (abs, pre ++ [c]) = Some DirNode) as E.
  { specialize (H (S (length pre))). rewrite cons_middle, (assoc_L (++)) in H.
    rewrite take_app_le in H by (rewrite length_app; simpl; lia).
    rewrite firstn_all2 in H by (rewrite length_app; simpl; lia).
    apply H. rewrite !length_app. simpl. lia. }
  rewrite E, (insert_id _ _ _ E). apply IH. intros k Hk.
  rewrite <-(assoc_L (++)) in *. apply H. rewrite !length_app in *. simpl in *. lia.
Qed.

Lemma os_MkdirAll_existing w p d :
  fault_free w -> resolve p = Some d -> dir_exists (nodes w) d ->
  os_MkdirAll p w = (Ret (Ok tt), tick 1 w).
Proof.
  intros Hff Hp Hd. unfold os_MkdirAll, go_bind. rewrite sys_fault_free by done.
  rewrite Hp. destruct d as [abs comps].
  rewrite (mkdirs_existing (nodes (tick 1 w)) abs [] comps); [done|].
  intros k Hk. simpl in Hk. by apply (Hd k).
Qed.

Section existing_dir.
Context (w : World) (dir : gostring) (d : path) (name : gostring).
Hypothesis Hff : fault_free w.
Hypothesis Hdir : resolve dir = Some d.
Hypothesis Hex : dir_exists (nodes w) d.
Hypothesis Hname : plain_name name.

Lemma ReadDir_dir : ReadDir dir w = (Ret (Ok (entries (nodes w) d)), tick 1 w).
Proof using Hff Hdir Hex.
  unfold ReadDir, os_ReadDir, go_bind. rewrite sys_fault_free by done. rewrite Hdir.
  by rewrite (dir_exists_is_dir (tick 1 w)).
Qed.

Let fpath : path := (d.1, d.2 ++ [name]).

Lemma resolve_file : resolve (join dir name) = Some fpath.
Proof using Hdir Hname.
  apply resolve_join; [|done]. by rewrite Hdir, <-surjective_pairing.
Qed.

Lemma OpenFile_existing b :
  nodes w !! fpath = Some (FileNode b) ->
  OpenFile (join dir name) w = (Ret (Ok (mkFile (join dir name) fpath 0 false)), tick 2 w).
Proof using Hff Hdir Hex Hname.
  intros Hf. unfold OpenFile. rewrite filepath_Dir_join by done.
  rewrite (go_bind_ret _ _ _ _ _ (os_MkdirAll_existing w _ d Hff (resolve_dir_slash _ _ Hdir) Hex)).
  unfold os_OpenFile, go_bind. rewrite sys_fault_free by done. rewrite resolve_file.
  unfold fpath in *. rewrite is_dir_child. cbn [tick nodes]. rewrite Hf.
  rewrite bool_decide_false by done. by rewrite tick_tick.
Qed.

Lemma OpenFile_new :
  nodes w !! fpath = None ->
  OpenFile (join dir name) w =
  (Ret (Ok (mkFile (join dir name) fpath 0 false)),
   tick 2 (set_nodes (<[fpath := FileNode []]> (nodes w)) w)).
Proof using Hff Hdir Hex Hname.
  intros Hf. unfold OpenFile. rewrite filepath_Dir_join by done.
  rewrite (go_bind_ret _ _ _ _ _ (os_MkdirAll_existing w _ d Hff (resolve_dir_slash _ _ Hdir) Hex)).
  unfold os_OpenFile, go_bind. rewrite sys_fault_free by done. rewrite resolve_file.
  unfold fpath in *. rewrite is_dir_child, parent_exists_child by done.
  cbn [tick nodes]. rewrite Hf. by rewrite bool_decide_false.
Qed.

Lemma ReadFile_existing b :
  nodes w !! fpath = Some (FileNode b) ->
  ReadFile (join dir name) w = (Ret (Ok b), tick 3 w).
Proof using Hff Hdir Hname.
  intros Hf. unfold ReadFile, os_Open, io_ReadAll, file_Close, go_bind.
  rewrite sys_fault_free by done. rewrite resolve_file. cbn [tick nodes].
  rewrite (bool_decide_true (is_Some _)) by (rewrite Hf; eauto).
  rewrite orb_true_r. cbv beta iota. rewrite sys_fault_free by done.
  unfold file_contents, file_op_err. cbn [f_path f_closed tick nodes fmap option_fmap option_map].
  rewrite Hf. cbv beta iota. by rewrite sys_fault_free.
Qed.

End existing_dir.

(** Appending to an open file. *)
Lemma file_Write_ok w f data old :
  fault_free w -> f_closed f = false -> nodes w !! f_path f = Some (FileNode old) ->
  file_Write f data w =
  (Ret (length data, None, mkFile (f_name f) (f_path f) (length (old ++ data)) false),
   set_nodes (<[f_path f := FileNode (old ++ data)]> (nodes w)) (tick 1 w)).
Proof.
  intros Hff Hc Hf. unfold file_Write, go_bind. rewrite sys_fault_free by done.
  rewrite Hc. unfold file_contents. cbn [tick nodes]. by rewrite Hf.
Qed.

Lemma file_Sync_ok w f :
  fault_free w -> f_closed f = false -> file_Sync f w = (Ret None, tick 1 w).
Proof.
  intros Hff Hc. unfold file_Sync, go_bind, file_op_err.
  rewrite sys_fault_free by done. by rewrite Hc.
Qed.

(** ** Binary search over a listing *)

Lemma binarySearch_loop_spec l target fuel low high :
  StronglySorted gostr_le l ->
  (0 <= low)%Z -> (high < len l)%Z -> (Z.max 0 (high - low + 1) < Z.of_nat fuel)%Z ->
  (forall i, l !! i = Some target -> (low <= Z.of_nat i <= high)%Z) ->
  exists r, binarySearch_loop fuel l target low high = Ret r /\
    ((r = -1)%Z /\ (target ∉ l) \/ (0 <= r)%Z /\ l !! Z.to_nat r = Some target).
Proof.
  intros Hs. unfold len. revert low high.
  induction fuel as [|fuel IH]; intros low high Hlow Hhigh Hfuel Hin; [lia|].
  cbn [binarySearch_loop]. destruct (Z.leb_spec low high) as [Hle|Hgt]; cycle 1.
  { eexists. split; [done|]. left. split; [done|].
    intros [i Hi]%list_elem_of_lookup. apply Hin in Hi. lia. }
  assert (low <= Z.quot (low + high) 2 <= high)%Z as Hmid
    by (rewrite Z.quot_div_nonneg by lia; split;
        [apply Z.div_le_lower_bound|apply Z.div_le_upper_bound]; lia).
  set (mid := Z.quot (low + high) 2) in *. clearbody mid.
  destruct (Z.ltb_spec mid 0); [lia|].
  destruct (lookup_lt_is_Some_2 l (Z.to_nat mid)) as [x Hx]; [lia|]. rewrite Hx.
  case_bool_decide as Hxt.
  { eexists. split; [done|]. right. subst. split; [lia|done]. }
  destruct (gostr_ltb x target) eqn:Hlt.
  - apply IH; [lia..|]. intros i Hi. specialize (Hin i Hi).
    destruct (decide (Z.of_nat i <= mid)%Z) as [Hc|]; [|lia].
    apply gostr_ltb_spec in Hlt as [H1 []]. apply (anti_symm gostr_le); [done|].
    apply (sorted_lookup gostr_le l i (Z.to_nat mid)); [done|lia|done..].
  - apply IH; [lia..|]. intros i Hi. specialize (Hin i Hi).
    destruct (decide (mid <= Z.of_nat i)%Z) as [Hc|]; [|lia].
    assert (gostr_ltb x target = true); [|congruence].
    apply gostr_ltb_spec. split; [|done].
    apply (sorted_lookup gostr_le l (Z.to_nat mid) i); [done|lia|done..].
Qed.

Lemma binarySearch_spec l target :
  StronglySorted gostr_le l ->
  exists r, binarySearch l target = Ret r /\
    ((r = -1)%Z /\ (target ∉ l) \/ (0 <= r)%Z /\ l !! Z.to_nat r = Some target).
Proof.
  intros Hs. unfold binarySearch. apply binarySearch_loop_spec; [done|lia|lia|unfold len; lia|].
  intros i Hi. apply lookup_lt_Some in Hi. unfold len. lia.
Qed.

Lemma ReadDirsFrom_dir w dir d from :
  fault_free w -> resolve dir = Some d -> dir_exists (nodes w) d -> from <> [] ->
  exists l, ReadDirsFrom dir from w = (Ret (Ok l), tick 1 w) /\
    ((from ∉ entries (nodes w) d) /\ l = [] \/
     exists pre, entries (nodes w) d = pre ++ l /\ head l = Some from).
Proof.
  intros Hff Hdir Hex Hfrom. unfold ReadDirsFrom.
  rewrite (go_bind_ret _ _ _ _ _ (ReadDir_dir w dir d Hff Hdir Hex)).
  set (es := entries (nodes w) d) in *. case_bool_decide as Hes.
  { exists []. split; [done|]. left. rewrite Hes. split; [apply not_elem_of_nil|done]. }
  rewrite bool_decide_false by done.
  destruct (binarySearch_spec es from) as (r & Hr & Hspec); [apply entries_sorted|].
  rewrite Hr. destruct Hspec as [[-> Hni]|[Hpos Hl]].
  - exists []. split; [done|]. auto.
  - destruct (Z.eqb_spec r (-1)); [lia|].
    exists (drop (Z.to_nat r) es). apply lookup_lt_Some in Hl as Hlt.
    unfold go_slice_from, go_bind. rewrite bool_decide_true by lia. split; [done|].
    right. exists (take (Z.to_nat r) es). rewrite take_drop. split; [done|].
    by rewrite (drop_S _ _ _ Hl).
Qed.
