(* ===== verification/ByteSize.v ===== *)
(** * Sizes in the configuration

    [utils/data_type/size.go]: [ByteSize.UnmarshalText] reads a size with a
    unit or a plain number of bytes.  A number with a unit goes through
    [strconv.ParseFloat] and a 64-bit floating point product; the floating
    point numbers are those of the Standard Library's specification of IEEE
    754, with 53 bits and the exponents of binary64. *)

From S2P Require Import Prelude Query FileSystem.
From Stdlib Require Import Floats.SpecFloat.

(** ** [strconv] *)

(** The decimal digits, and with [hex] the hexadecimal ones. *)
Definition dec_digit (c : byte) : option N :=
  let n := Byte.to_N c in if (48 <=? n)%N && (n <=? 57)%N then Some (n - 48)%N else None.

Definition lower (c : byte) : N := N.lor (Byte.to_N c) 32.

Definition digit_of (hex : bool) (c : byte) : option N :=
  match dec_digit c with
  | Some d => Some d
  | None => if hex && (97 <=? lower c)%N && (lower c <=? 102)%N then Some (lower c - 87)%N else None
  end.

Definition ErrSyntax : error := ErrorString (str "invalid syntax").
Definition ErrRange : error := ErrorString (str "value out of range").

(** The digits of a number up to the first byte that is none: their value, how
    many stand after the point, whether there are any, whether there is an
    underscore, and the rest. *)
Fixpoint scan_mantissa (hex : bool) (s : bytes) (mant frac : N) (sawdot sawdigits under : bool)
  : N * N * bool * bool * bytes :=
  match s with
  | [] => (mant, frac, sawdigits, under, [])
  | c :: s' =>
      if bool_decide (c = x5f) then scan_mantissa hex s' mant frac sawdot sawdigits true
      else if bool_decide (c = x2e) then
        if sawdot then (mant, frac, sawdigits, under, s)
        else scan_mantissa hex s' mant frac true sawdigits under
      else
        match digit_of hex c with
        | Some d => scan_mantissa hex s' (mant * (if hex then 16 else 10) + d)%N
            (if sawdot then frac + 1 else frac)%N sawdot true under
        | None => (mant, frac, sawdigits, under, s)
        end
  end.

(** The digits of an exponent; beyond five they do not count. *)
Fixpoint scan_exponent (s : bytes) (e : N) (under : bool) : N * bool * bytes :=
  match s with
  | [] => (e, under, [])
  | c :: s' =>
      match dec_digit c with
      | Some d => scan_exponent s' (if (e <? 10000)%N then e * 10 + d else e)%N under
      | None => if bool_decide (c = x5f) then scan_exponent s' e true else (e, under, s)
      end
  end.

(** An optional sign: whether it is a minus, and the rest. *)
Definition scan_sign (s : bytes) : bool * bytes :=
  match s with
  | c :: s' =>
      if bool_decide (c = x2d) then (true, s') else if bool_decide (c = x2b) then (false, s') else (false, s)
  | [] => (false, [])
  end.

(** [underscoreOK]: underscores stand between digits, or after a prefix. *)
Inductive saw := SawBegin | SawDigit | SawUnderscore | SawOther.

Fixpoint underscore_loop (hex : bool) (s : bytes) (i : saw) : bool :=
  match s with
  | [] => match i with SawUnderscore => false | _ => true end
  | c :: s' =>
      match digit_of hex c with
      | Some _ => underscore_loop hex s' SawDigit
      | None =>
          if bool_decide (c = x5f) then match i with SawDigit => underscore_loop hex s' SawUnderscore | _ => false end
          else match i with SawUnderscore => false | _ => underscore_loop hex s' SawOther end
      end
  end.

Definition underscoreOK (s : bytes) : bool :=
  let s := snd (scan_sign s) in
  match s with
  | z :: c :: s' =>
      if bool_decide (z = x30) && ((lower c =? 98)%N || (lower c =? 111)%N || (lower c =? 120)%N)
      then underscore_loop (lower c =? 120)%N s' SawDigit
      else underscore_loop false s SawBegin
  | _ => underscore_loop false s SawBegin
  end.

(** [readFloat] on a string it consumes as a whole: the sign, whether it is
    hexadecimal, the mantissa and the exponent of ten or of two. *)
Definition readFloat (s : bytes) : option (bool * bool * N * Z) :=
  let '(neg, s1) := scan_sign s in
  let '(hex, s2) := match s1 with
    | z :: x :: c :: s' => if bool_decide (z = x30) && (lower x =? 120)%N then (true, c :: s') else (false, s1)
    | _ => (false, s1)
    end in
  let '(mant, frac, sawdigits, under, s3) := scan_mantissa hex s2 0 0 false false false in
  if negb sawdigits then None
  else
    let shift := ((if hex then 4 else 1) * Z.of_N frac)%Z in
    match s3 with
    | [] => if hex || under && negb (underscoreOK s) then None else Some (neg, hex, mant, - shift)%Z
    | x :: s4 =>
        if (lower x =? (if hex then 112 else 101))%N then
          let '(eneg, s5) := scan_sign s4 in
          match s5 with
          | [] => None
          | d :: _ =>
              match dec_digit d with
              | None => None
              | Some _ =>
                  let '(e, under', s6) := scan_exponent s5 0 under in
                  if bool_decide (s6 = []) && negb (under' && negb (underscoreOK s))
                  then Some (neg, hex, mant, (if eneg then - Z.of_N e else Z.of_N e) - shift)%Z
                  else None
              end
          end
        else None
    end.

(** [special]: the names of the infinities and of the number that is none, in
    any case. *)
Definition special (s : bytes) : option spec_float :=
  let fold_eq a b := bool_decide (map lower a = map lower b) in
  match s with
  | [] => None
  | c :: _ =>
      let '(neg, s1) := scan_sign s in
      if fold_eq s1 (str "inf") || fold_eq s1 (str "infinity") then Some (S754_infinity neg)
      else if fold_eq s (str "nan") then Some S754_nan
      else None
  end.

Abbreviation prec64 := 53%Z.
Abbreviation emax64 := 1024%Z.

(** The number nearest to [mant * 10 ^ e], or to [mant * 2 ^ e]. *)
Definition nearest (neg hex : bool) (mant : N) (e : Z) : spec_float :=
  match mant with
  | N0 => S754_zero neg
  | Npos m =>
      if hex then binary_round prec64 emax64 neg m e
      else
        match e with
        | Zneg k =>
            let '(q, e', l) := SFdiv_core_binary prec64 emax64 (Zpos m) 0 (10 ^ Zpos k)%Z 0 in
            binary_round_aux prec64 emax64 neg q e' l
        | Zpos k => binary_round prec64 emax64 neg (m * 10 ^ k)%positive 0
        | Z0 => binary_round prec64 emax64 neg m 0
        end
  end.

(** A product, and the conversion of an integer. *)
Definition float_mul : spec_float -> spec_float -> spec_float := SFmul prec64 emax64.
Definition float64 (z : Z) : spec_float := binary_normalize prec64 emax64 z 0 false.

(** The part of a finite number before the point. *)
Definition truncate (neg : bool) (m : positive) (e : Z) : Z :=
  let z := if (0 <=? e)%Z then (Zpos m * 2 ^ e)%Z else (Zpos m / 2 ^ (- e))%Z in
  if neg then (- z)%Z else z.

Section size.

(** What the tables of [unicode] decide: [strings.ToUpper] of a string that is
    not ASCII, and the quotation marks and escapes of [%q]. *)
Context (ToUpper_unicode Quote : gostring -> gostring).

(** The conversion of a floating point number to an integer type that cannot
    hold it depends on the implementation. *)
Context (unrepresentable : spec_float -> Z).

Definition int64_of (f : spec_float) : Z :=
  match f with
  | S754_zero _ => 0
  | S754_finite neg m e =>
      let z := truncate neg m e in
      if (- 2 ^ 63 <=? z)%Z && (z <? 2 ^ 63)%Z then z else unrepresentable f
  | _ => unrepresentable f
  end.

Definition numError (fn num : gostring) (e : error) : error :=
  Wrapped (str "strconv." ++ fn ++ str ": parsing " ++ Quote num) e.

Definition ParseFloat (s : gostring) : result spec_float :=
  match special s with
  | Some f => Ok f
  | None =>
      match readFloat s with
      | None => Err (numError (str "ParseFloat") s ErrSyntax)
      | Some (neg, hex, mant, e) =>
          match nearest neg hex mant e with
          | S754_infinity _ => Err (numError (str "ParseFloat") s ErrRange)
          | f => Ok f
          end
      end
  end.

(** [ParseUint(s, 10, 64)] on the digits after a sign. *)
Fixpoint parse_digits (s : bytes) (n : N) : N + error :=
  match s with
  | [] => inl n
  | c :: s' =>
      match dec_digit c with
      | None => inr ErrSyntax
      | Some d => if (2 ^ 64 <=? n * 10 + d)%N then inr ErrRange else parse_digits s' (n * 10 + d)%N
      end
  end.

Definition ParseInt (s : gostring) : result Z :=
  let '(neg, s1) := scan_sign s in
  let fail := fun e => Err (numError (str "ParseInt") s e) in
  match s1 with
  | [] => fail ErrSyntax
  | _ =>
      match parse_digits s1 0 with
      | inr e => fail e
      | inl n =>
          if neg then (if (2 ^ 63 <? n)%N then fail ErrRange else Ok (- Z.of_N n)%Z)
          else if (2 ^ 63 <=? n)%N then fail ErrRange else Ok (Z.of_N n)
      end
  end.

(** ** [strings] *)

Definition upper (c : byte) : byte :=
  let n := Byte.to_N c in if (97 <=? n)%N && (n <=? 122)%N then byte_of_N (n - 32) else c.

Definition ToUpper (s : gostring) : gostring :=
  if forallb (fun c => (Byte.to_N c <? 128)%N) s then map upper s else ToUpper_unicode s.

Definition TrimSuffix (s suffix : gostring) : gostring :=
  if bool_decide (suffix `suffix_of` s) then take (length s - length suffix) s else s.

(** ** [ByteSize] *)

Definition multipliers : gmap gostring Z :=
  {[ str "B" := 1%Z; str "KB" := 1024%Z; str "MB" := (1024 * 1024)%Z; str "GB" := (1024 * 1024 * 1024)%Z ]}.

Definition suffixes : list gostring := [str "GB"; str "MB"; str "KB"; str "B"].

(** The loop over the suffixes; without one the size is a plain integer.  The
    state is the variable the size is read into. *)
Fixpoint suffix_loop (s : gostring) (sufs : list gostring) : Go Z (result unit) :=
  match sufs with
  | [] =>
      match ParseInt s with
      | Err e => go_ret (Err (Wrapped (str "invalid size " ++ Quote s) e))
      | Ok value => do! go_put (fun _ => value) in go_ret (Ok tt)
      end
  | suffix :: sufs' =>
      if bool_decide (suffix `suffix_of` s) then
        let numPart := TrimSuffix s suffix in
        match ParseFloat (TrimSpace numPart) with
        | Err e => go_ret (Err (Wrapped (str "invalid size value " ++ Quote s) e))
        | Ok value =>
            let product := float_mul value (float64 (default 0%Z (multipliers !! suffix))) in
            do! go_put (fun _ => int64_of product) in
            go_ret (Ok tt)
        end
      else suffix_loop s sufs'
  end.

Definition UnmarshalText (text : bytes) : Go Z (result unit) :=
  let s := TrimSpace text in
  if bool_decide (s = []) then do! go_put (fun _ => 0%Z) in go_ret (Ok tt)
  else suffix_loop (ToUpper s) suffixes.

End size.

(** ** The cases of [size_test.go] *)

Definition read_size (s : bytes) : option Z :=
  match UnmarshalText id id (fun _ => (- 2 ^ 63)%Z) s 0%Z with (Ret (Ok _), z) => Some z | _ => None end.

Lemma size_test_go :
  read_size <$> [str "1024B"; str "1KB"; str "1kb"; str "1.5KB"; str "2MB"; str "0.5MB"; str "1GB"; str "123";
    str "   2kb  "; str ""; str "abc"; str "1XB"] =
  [Some 1024; Some 1024; Some 1024; Some 1536; Some (2 * 1024 * 1024); Some 524288; Some (1024 * 1024 * 1024);
   Some 123; Some 2048; Some 0; None; None]%Z.
Proof. vm_compute. reflexivity. Qed.

(** ** Exact floating point numbers *)

Module FloatFacts.

(** [p] followed by [k] zero bits. *)
Definition zeros (k : nat) (p : positive) : positive := Nat.iter k xO p.

Lemma zeros_value k p : Zpos (zeros k p) = (Zpos p * 2 ^ Z.of_nat k)%Z.
Proof.
  induction k as [|k IH]; [cbn; lia|]. change (zeros (S k) p) with (xO (zeros k p)).
  rewrite Pos2Z.inj_xO, IH, Nat2Z.inj_succ, Z.pow_succ_r by lia. lia.
Qed.

Lemma digits2_zeros k p : Zpos (digits2_pos (zeros k p)) = (Zpos (digits2_pos p) + Z.of_nat k)%Z.
Proof.
  induction k as [|k IH]; [cbn; lia|]. change (zeros (S k) p) with (xO (zeros k p)).
  cbn [digits2_pos]. rewrite Pos2Z.inj_succ, IH. lia.
Qed.

(** A number has as many bits as its size asks for. *)
Lemma digits2_bound p : (2 ^ (Zpos (digits2_pos p) - 1) <= Zpos p < 2 ^ Zpos (digits2_pos p))%Z.
Proof.
  induction p as [p IH|p IH|]; cbn [digits2_pos]; [| |done];
    rewrite Pos2Z.inj_succ;
    replace (Z.succ (Zpos (digits2_pos p)) - 1)%Z with (Z.succ (Zpos (digits2_pos p) - 1)) by lia;
    rewrite !Z.pow_succ_r by lia; lia.
Qed.

Lemma iter_pos_nat {A} (f : A -> A) n x : iter_pos f n x = Nat.iter (Pos.to_nat n) f x.
Proof.
  revert x. induction n as [n IH|n IH|]; intros x; cbn [iter_pos]; [| |done].
  - rewrite !IH. rewrite Pos2Nat.inj_xI. replace (S (2 * Pos.to_nat n)) with (Pos.to_nat n + (Pos.to_nat n + 1)) by lia.
    rewrite !Nat.iter_add. done.
  - rewrite !IH. rewrite Pos2Nat.inj_xO. replace (2 * Pos.to_nat n) with (Pos.to_nat n + Pos.to_nat n) by lia.
    by rewrite Nat.iter_add.
Qed.

(** Shifting out zero bits loses nothing. *)
Lemma shr_zeros k p :
  Nat.iter k shr_1 (Build_shr_record (Zpos (zeros k p)) false false) = Build_shr_record (Zpos p) false false.
Proof.
  induction k as [|k IH]; [done|]. rewrite Nat.iter_succ_r. exact IH.
Qed.

Lemma shr_fexp_zeros k p e :
  (53 = Zpos (digits2_pos p))%Z -> (-1074 <= e + Z.of_nat k)%Z ->
  shr_fexp prec64 emax64 (Zpos (zeros k p)) e loc_Exact = (Build_shr_record (Zpos p) false false, e + Z.of_nat k)%Z.
Proof.
  intros Hp He. unfold shr_fexp, fexp, emin. cbn [Zdigits2 shr_record_of_loc]. rewrite digits2_zeros, <-Hp.
  replace (Z.max (53 + Z.of_nat k + e - 53) (3 - 1024 - 53) - e)%Z with (Z.of_nat k) by lia.
  destruct k as [|k]; [cbn; by rewrite Z.add_0_r|]. 
  change (Z.of_nat (S k)) with (Zpos (Pos.of_succ_nat k)). unfold shr.
  by rewrite iter_pos_nat, SuccNat2Pos.id_succ, shr_zeros.
Qed.

(** A number of 53 bits, with zero bits after them, is not rounded. *)
Lemma round_exact neg k p e :
  (53 = Zpos (digits2_pos p))%Z -> (-1074 <= e + Z.of_nat k <= 971)%Z ->
  binary_round_aux prec64 emax64 neg (Zpos (zeros k p)) e loc_Exact = S754_finite neg p (e + Z.of_nat k).
Proof.
  intros Hp He. unfold binary_round_aux. rewrite shr_fexp_zeros by (done || lia).
  cbn [shr_m loc_of_shr_record round_nearest_even].
  pose proof (shr_fexp_zeros 0 p (e + Z.of_nat k) Hp) as H. change (zeros 0 p) with p in H.
  rewrite H by lia. cbn [shr_m Z.of_nat]. rewrite Z.add_0_r.
  by destruct (Z.leb_spec (e + Z.of_nat k) (1024 - 53)); [|lia].
Qed.

(** Integers below 2^53. *)
Lemma round_integer neg p :
  (Zpos p < 2 ^ 53)%Z ->
  exists d m, (Z.of_nat d + Zpos (digits2_pos p) = 53)%Z /\ m = zeros d p /\
    binary_round prec64 emax64 neg p 0 = S754_finite neg m (- Z.of_nat d).
Proof.
  intros Hp. pose proof (digits2_bound p) as [Hlo _].
  assert (Zpos (digits2_pos p) - 1 < 53)%Z as Hd by (apply (Z.pow_lt_mono_r_iff 2); lia).
  assert (exists d, Z.of_nat d + Zpos (digits2_pos p) = 53)%Z as [d Hd'] by (exists (Z.to_nat (53 - Zpos (digits2_pos p))); lia).
  exists d, (zeros d p). split; [lia|]. split; [done|].
  unfold binary_round, shl_align, fexp, emin.
  replace (Z.max (Zpos (digits2_pos p) + 0 - 53) (3 - 1024 - 53) - 0)%Z with (- Z.of_nat d)%Z by lia.
  replace (Z.max (Zpos (digits2_pos p) + 0 - 53) (3 - 1024 - 53))%Z with (- Z.of_nat d)%Z by lia.
  assert (53 = Zpos (digits2_pos (zeros d p)))%Z as H53 by (rewrite digits2_zeros; lia).
  destruct d as [|d']; cbn [Z.of_nat Z.opp].
  - pose proof (round_exact neg 0 p 0 H53) as H. apply H. lia.
  - change (- Z.of_nat (S d'))%Z with (Zneg (Pos.of_succ_nat d')). cbv iota beta.
    assert (Pos.iter xO p (Pos.of_succ_nat d') = zeros (S d') p) as Hz
      by (by rewrite Pos2Nat.inj_iter, SuccNat2Pos.id_succ).
    change (PosDef.Pos.iter xO p (Pos.of_succ_nat d')) with (Pos.iter xO p (Pos.of_succ_nat d')). rewrite Hz.
    pose proof (round_exact neg 0 (zeros (S d') p) (Zneg (Pos.of_succ_nat d')) H53) as H.
    cbn [Z.of_nat] in H. rewrite Z.add_0_r in H. apply H. lia.
Qed.

(** Times a power of two. *)
Lemma mul_power neg d p j :
  (Z.of_nat d + Zpos (digits2_pos p) = 53)%Z -> (0 <= j <= 900)%Z ->
  float_mul (S754_finite neg (zeros d p) (- Z.of_nat d)) (S754_finite false (zeros 52 1) (j - 52)) =
  S754_finite neg (zeros d p) (j - Z.of_nat d).
Proof.
  intros Hd Hj. unfold float_mul, SFmul. rewrite xorb_false_r.
  assert (zeros d p * zeros 52 1 = zeros 52 (zeros d p))%positive as ->.
  { apply Pos2Z.inj. rewrite Pos2Z.inj_mul, !zeros_value. lia. }
  rewrite round_exact; [f_equal; lia| |lia]. rewrite digits2_zeros. lia.
Qed.

(** Back to an integer. *)
Lemma truncate_zeros d p j :
  (0 <= j)%Z -> truncate false (zeros d p) (j - Z.of_nat d) = (Zpos p * 2 ^ j)%Z.
Proof.
  intros Hj. unfold truncate. rewrite zeros_value. destruct (Z.leb_spec 0 (j - Z.of_nat d)).
  - rewrite <-Z.mul_assoc, <-Z.pow_add_r by lia. f_equal. f_equal. lia.
  - replace (Z.of_nat d) with (j + (- (j - Z.of_nat d)))%Z at 1 by lia.
    rewrite Z.pow_add_r, Z.mul_assoc by lia. apply Z.div_mul. lia.
Qed.

End FloatFacts.

(** ** Decimal numbers *)

Module DecimalFacts.

(** A string of decimal digits and the number it denotes. *)
Definition decimal (s : bytes) : Prop := Forall (fun c => is_Some (dec_digit c)) s.
Definition decimal_value (s : bytes) : N := foldl (fun n c => n * 10 + default 0 (dec_digit c))%N 0%N s.

(** What a digit is not. *)
Lemma digit_byte c :
  is_Some (dec_digit c) ->
  upper c = c /\ (Byte.to_N c < 128)%N /\ (lower c < 58)%N /\
  c <> x2d /\ c <> x2b /\ c <> x5f /\ c <> x2e /\ c <> x42 /\ c <> x47 /\ c <> x4b /\ c <> x4d.
Proof. destruct c; intros [d H]; try discriminate H; by repeat split. Qed.

(** Bytes no space begins or ends with. *)
Definition solid (c : byte) : Prop :=
  Forall (fun p => head p <> Some c /\ last p <> Some c) spaces.

Lemma digit_solid c : is_Some (dec_digit c) -> solid c.
Proof.
  intros Hc. apply Forall_forall. intros p Hp.
  assert (forallb (fun p => match head p, last p with
    | Some a, Some b => bool_decide (dec_digit a = None) && bool_decide (dec_digit b = None) | _, _ => false end) spaces = true) as B
    by (vm_compute; reflexivity).
  rewrite forallb_forall in B. specialize (B p (proj1 (list_elem_of_In _ _) Hp)).
  destruct (head p) as [a|], (last p) as [b|]; try done. apply andb_true_iff in B as [B1 B2].
  destruct Hc as [d Hc]. split; intros [= ->]; by rewrite Hc in *.
Qed.

(** Trimming leaves a string between two such bytes. *)
Lemma TrimSpace_tight s c e : head s = Some c -> last s = Some e -> solid c -> solid e -> TrimSpace s = s.
Proof.
  intros Hc He Sc Se. unfold TrimSpace.
  assert (forall n, trim_left_space n s = s) as Hl.
  { intros [|n]; [done|]. cbn [trim_left_space]. unfold space_width.
    destruct (List.find _ spaces) as [p|] eqn:E; [|done]. apply find_space_Some in E as [Hp [r Hr]].
    unfold solid in Sc. rewrite Forall_forall in Sc. destruct (Sc p Hp) as [H _]. destruct (space_shape p Hp) as (b & p' & -> & _).
    rewrite Hr in Hc. done. }
  rewrite Hl. destruct (length s) as [|n]; [done|]. cbn [trim_right_space].
  destruct (List.find _ spaces) as [p|] eqn:E; [|done]. apply find_space_Some in E as [Hp [r Hr]].
  unfold solid in Se. rewrite Forall_forall in Se. destruct (Se p Hp) as [_ H]. destruct (space_shape p Hp) as (b & p' & -> & _).
  rewrite Hr, last_app_cons in He. done.
Qed.

Lemma decimal_TrimSpace s : decimal s -> s <> [] -> TrimSpace s = s.
Proof.
  intros Hs Hne. destruct s as [|c s]; [done|].
  destruct (last (c :: s)) as [e|] eqn:He; [|by apply last_None in He].
  apply (TrimSpace_tight _ c e); [done|done| |].
  - apply digit_solid. by apply Forall_inv in Hs.
  - apply digit_solid. apply last_Some_elem_of in He. unfold decimal in Hs. rewrite Forall_forall in Hs. by apply Hs.
Qed.

Lemma scan_mantissa_decimal s m sd :
  decimal s ->
  scan_mantissa false s m 0 false sd false =
    (foldl (fun n c => n * 10 + default 0 (dec_digit c))%N m s, 0%N, match s with [] => sd | _ => true end, false, []).
Proof.
  intros Hs. revert m sd. induction Hs as [|c s Hc _ IH]; intros m sd; [done|].
  cbn [scan_mantissa]. destruct (digit_byte c Hc) as (_ & _ & _ & _ & _ & H1 & H2 & _).
  rewrite !bool_decide_false by done. unfold digit_of. destruct Hc as [d Hc]. rewrite Hc.
  rewrite IH. cbn [foldl]. rewrite Hc. by destruct s.
Qed.

Lemma scan_sign_decimal s : decimal s -> scan_sign s = (false, s).
Proof.
  intros Hs. destruct Hs as [|c s Hc _]; [done|]. destruct (digit_byte c Hc) as (_ & _ & _ & H1 & H2 & _).
  cbn [scan_sign]. by rewrite !bool_decide_false.
Qed.

Lemma readFloat_decimal s :
  decimal s -> s <> [] -> readFloat s = Some (false, false, decimal_value s, 0%Z).
Proof.
  intros Hs Hne. unfold readFloat. rewrite scan_sign_decimal by done.
  assert ((match s with
    | z :: x :: c :: s' => if bool_decide (z = x30) && (lower x =? 120)%N then (true, c :: s') else (false, s)
    | _ => (false, s) end) = (false, s)) as ->.
  { destruct s as [|z [|x [|c s]]]; try done. apply Forall_inv_tail, Forall_inv in Hs.
    destruct (digit_byte x Hs) as (_ & _ & H & _). destruct (N.eqb_spec (lower x) 120); [lia|]. by rewrite andb_false_r. }
  rewrite scan_mantissa_decimal by done. by destruct s.
Qed.

Lemma special_decimal s : decimal s -> s <> [] -> special s = None.
Proof.
  intros Hs Hne. pose proof (scan_sign_decimal s Hs) as E. destruct Hs as [|c s Hc Hs]; [done|]. unfold special. rewrite E.
  destruct (digit_byte c Hc) as (_ & _ & H & _). cbn [map].
  rewrite !bool_decide_false; [done|..]; intros E'; apply (f_equal (hd 0%N)) in E'; cbn [hd] in E';
    rewrite E' in H; by vm_compute in H.
Qed.

Lemma parse_digits_decimal s n :
  decimal s -> (foldl (fun n c => n * 10 + default 0 (dec_digit c)) n s < 2 ^ 64)%N ->
  parse_digits s n = inl (foldl (fun n c => n * 10 + default 0 (dec_digit c))%N n s).
Proof.
  intros Hs. revert n. induction Hs as [|c s Hc Hs IH]; intros n Hn; [done|]. cbn [parse_digits foldl] in *.
  destruct Hc as [d Hc]. rewrite Hc in *. cbn [default] in *.
  assert (forall l m, (m <= foldl (fun n c => n * 10 + default 0 (dec_digit c)) m l)%N) as Hmono.
  { intros l. induction l as [|y l IHl]; intros m; cbn [foldl]; [lia|]. specialize (IHl (m * 10 + default 0 (dec_digit y))%N). lia. }
  specialize (Hmono s (n * 10 + d)%N). destruct (N.leb_spec (2 ^ 64) (n * 10 + d)); [cbn in *; lia|]. by apply IH.
Qed.

End DecimalFacts.

(** ** Properties *)

Section size_properties.
Import FloatFacts DecimalFacts.
Context (ToUpper_unicode Quote : gostring -> gostring) (unrepresentable : spec_float -> Z).

(** The units and the powers of two they stand for. *)
Definition units : list (gostring * Z) := [(str "B", 0); (str "KB", 10); (str "MB", 20); (str "GB", 30)]%Z.

(** The parsed number with its unit, as an integer. *)
Lemma units_product s j :
  decimal s -> s <> [] -> (decimal_value s < 2 ^ 53)%N -> (0 <= j <= 30)%Z ->
  exists f, ParseFloat Quote s = Ok f /\
    float_mul f (S754_finite false (zeros 52 1) (j - 52)) =
      match decimal_value s with N0 => S754_zero false | Npos p =>
        let d := (53 - Pos.to_nat (digits2_pos p))%nat in S754_finite false (zeros d p) (j - Z.of_nat d) end.
Proof.
  intros Hs Hne Hv Hj. unfold ParseFloat. rewrite special_decimal, readFloat_decimal by done. unfold nearest.
  destruct (decimal_value s) as [|p]; [by eexists|].
  destruct (round_integer false p) as (d & m & Hd & -> & E); [lia|]. rewrite E. eexists. split; [reflexivity|].
  rewrite mul_power by lia. cbv zeta. by replace (53 - Pos.to_nat (digits2_pos p))%nat with d by lia.
Qed.

Lemma int64_of_product (n : N) j :
  (0 <= j)%Z ->
  let f := match n with N0 => S754_zero false | Npos p =>
    let d := (53 - Pos.to_nat (digits2_pos p))%nat in S754_finite false (zeros d p) (j - Z.of_nat d) end in
  int64_of unrepresentable f = if (Z.of_N n * 2 ^ j <? 2 ^ 63)%Z then (Z.of_N n * 2 ^ j)%Z else unrepresentable f.
Proof.
  intros Hj. destruct n as [|p]; [done|]. cbv zeta. cbn [int64_of]. rewrite truncate_zeros by done.
  assert (0 <= Zpos p * 2 ^ j)%Z by (apply Z.mul_nonneg_nonneg; lia).
  destruct (Z.leb_spec (- 2 ^ 63) (Zpos p * 2 ^ j)); [done|lia].
Qed.

Lemma not_suffix (a x b y : byte) l : a <> b -> ~ ([a; x] `suffix_of` l ++ [b; y]).
Proof.
  intros Hne H. change [a; x] with ([a] ++ [x]) in H. rewrite (assoc_L (++) l [b] [y] : l ++ [b; y] = (l ++ [b]) ++ [y]) in H.
  apply suffix_snoc_inv_2 in H. by apply (suffix_snoc_inv_1 a b [] l) in H.
Qed.

Lemma TrimSuffix_app s U : TrimSuffix (s ++ U) U = s.
Proof.
  unfold TrimSuffix. rewrite bool_decide_true by (by apply suffix_app_r).
  rewrite length_app, Nat.add_sub. apply take_app_length.
Qed.

(** A suffix that fits. *)
Lemma suffix_loop_unit s U j sufs b :
  decimal s -> s <> [] -> multipliers !! U = Some (2 ^ j)%Z ->
  float64 (2 ^ j) = S754_finite false (zeros 52 1) (j - 52) ->
  suffix_loop Quote unrepresentable (s ++ U) (U :: sufs) b =
  match ParseFloat Quote s with
  | Err e => (Ret (Err (Wrapped (str "invalid size value " ++ Quote (s ++ U)) e)), b)
  | Ok f => (Ret (Ok tt), int64_of unrepresentable (float_mul f (S754_finite false (zeros 52 1) (j - 52))))
  end.
Proof.
  intros Hs Hne HU Hf. cbn [suffix_loop]. rewrite bool_decide_true by (by apply suffix_app_r).
  rewrite TrimSuffix_app, decimal_TrimSpace, HU by done.
  change (default 0%Z (Some (2 ^ j)%Z)) with (2 ^ j)%Z. rewrite Hf.
  by destruct (ParseFloat Quote s).
Qed.

(** A suffix that does not. *)
Lemma suffix_loop_next s X sufs b :
  ~ (X `suffix_of` s) ->
  suffix_loop Quote unrepresentable s (X :: sufs) b = suffix_loop Quote unrepresentable s sufs b.
Proof. intros H. cbn [suffix_loop]. by rewrite bool_decide_false. Qed.

(** The unit is found. *)
Lemma unit_suffix s U j b :
  decimal s -> s <> [] -> (U, j) ∈ units ->
  suffix_loop Quote unrepresentable (s ++ U) suffixes b =
  match ParseFloat Quote s with
  | Err e => (Ret (Err (Wrapped (str "invalid size value " ++ Quote (s ++ U)) e)), b)
  | Ok f => (Ret (Ok tt), int64_of unrepresentable (float_mul f (S754_finite false (zeros 52 1) (j - 52))))
  end.
Proof.
  intros Hs Hne HU. unfold suffixes.
  repeat (apply elem_of_cons in HU as [[= -> ->]|HU]); [| | | |by apply not_elem_of_nil in HU].
  - destruct (exists_last Hne) as (s0 & d & Es).
    assert (is_Some (dec_digit d)) as Hd by (rewrite Es in Hs; by apply Forall_app in Hs as [_ Hs%Forall_inv]).
    destruct (digit_byte d Hd) as (_ & _ & _ & _ & _ & _ & _ & _ & HG & HK & HM).
    assert (s ++ str "B" = s0 ++ [d; x42]) as E by (rewrite Es; by rewrite <-(assoc_L (++))).
    rewrite E, !suffix_loop_next by (by apply not_suffix). rewrite <-E. by apply suffix_loop_unit.
  - rewrite !suffix_loop_next by (by apply not_suffix). by apply suffix_loop_unit.
  - rewrite !suffix_loop_next by (by apply not_suffix). by apply suffix_loop_unit.
  - by apply suffix_loop_unit.
Qed.

(** Upper case changes the unit only. *)
Lemma ToUpper_decimal s u U :
  decimal s -> map upper u = U -> Forall (fun c => (Byte.to_N c < 128)%N) U ->
  ToUpper ToUpper_unicode (s ++ u) = s ++ U.
Proof.
  intros Hs Hu HU. unfold ToUpper.
  assert (Forall (fun c => (Byte.to_N c < 128)%N) u) as Hascii.
  { rewrite <-Hu, Forall_map in HU. eapply Forall_impl; [exact HU|]. intros c. unfold upper. cbv zeta.
    destruct (N.leb_spec 97 (Byte.to_N c)), (N.leb_spec (Byte.to_N c) 122); cbn [andb]; [lia|done..]. }
  assert (forallb (fun c => (Byte.to_N c <? 128)%N) (s ++ u) = true) as ->.
  { apply forallb_forall. intros c Hc%list_elem_of_In. apply N.ltb_lt. apply elem_of_app in Hc as [Hc|Hc].
    - unfold decimal in Hs. rewrite Forall_forall in Hs. by apply digit_byte, Hs.
    - rewrite Forall_forall in Hascii. by apply Hascii. }
  rewrite map_app, Hu. f_equal. clear Hu HU Hascii. induction Hs as [|c s Hc _ IH]; [done|]. cbn [map].
  rewrite IH. f_equal. by apply digit_byte.
Qed.

Lemma ParseInt_decimal s :
  decimal s -> s <> [] -> (decimal_value s < 2 ^ 63)%N -> ParseInt Quote s = Ok (Z.of_N (decimal_value s)).
Proof.
  intros Hs Hne Hv. unfold ParseInt. rewrite scan_sign_decimal by done.
  destruct s as [|c s]; [done|]. unfold decimal_value in *. rewrite parse_digits_decimal by (done || lia).
  destruct (N.leb_spec (2 ^ 63) (foldl (fun n c => n * 10 + default 0 (dec_digit c)) 0 (c :: s))%N); [lia|done].
Qed.

(** Digits have no unit. *)
Lemma plain_suffix s b :
  decimal s -> s <> [] ->
  suffix_loop Quote unrepresentable s suffixes b = suffix_loop Quote unrepresentable s [] b.
Proof.
  intros Hs Hne. destruct (exists_last Hne) as (s0 & d & ->). apply Forall_app in Hs as [_ Hd%Forall_inv].
  destruct (digit_byte d Hd) as (_ & _ & _ & _ & _ & _ & _ & HB & _). unfold suffixes.
  rewrite !suffix_loop_next; [done|..]; intros H.
  - by apply (suffix_snoc_inv_1 x42 d [] s0) in H.
  - by apply (suffix_snoc_inv_1 x42 d [x4b] s0) in H.
  - by apply (suffix_snoc_inv_1 x42 d [x4d] s0) in H.
  - by apply (suffix_snoc_inv_1 x42 d [x47] s0) in H.
Qed.

(** C31: sizes are read exactly.  Surrounded by spaces or not, a number of bytes
    without a unit is read as it is, as long as it fits in an [int64]; a
    number below 2^53 with a unit in any case is multiplied by the unit
    without any loss in the floating point product.  A product that does not
    fit is not an error: the size becomes whatever the implementation makes of
    the conversion. *)
Theorem UnmarshalText_sizes (text s u U : gostring) (j b : Z)
    (Hs : decimal s) (Hne : s <> []) (HU : (U, j) ∈ units) (Hu : map upper u = U) :
  let z := (Z.of_N (decimal_value s) * 2 ^ j)%Z in
  (TrimSpace text = s -> (decimal_value s < 2 ^ 63)%N ->
   UnmarshalText ToUpper_unicode Quote unrepresentable text b = (Ret (Ok tt), Z.of_N (decimal_value s))) /\
  (TrimSpace text = s ++ u -> (decimal_value s < 2 ^ 53)%N ->
   exists f, UnmarshalText ToUpper_unicode Quote unrepresentable text b =
     (Ret (Ok tt), if (z <? 2 ^ 63)%Z then z else unrepresentable f)).
Proof.
  cbv zeta. split; intros Ht Hv; unfold UnmarshalText; rewrite Ht.
  - rewrite bool_decide_false by done. rewrite <-(app_nil_r s) at 1.
    rewrite (ToUpper_decimal s [] []), app_nil_r, plain_suffix by (done || constructor). cbn [suffix_loop].
    by rewrite ParseInt_decimal.
  - rewrite bool_decide_false by (intros [? _]%app_nil; done).
    assert (0 <= j <= 30)%Z as Hj.
    { repeat (apply elem_of_cons in HU as [[= -> ->]|HU]; [lia|]). by apply not_elem_of_nil in HU. }
    rewrite (ToUpper_decimal s u U); [|done|done|]; cycle 1.
    { repeat (apply elem_of_cons in HU as [[= -> ->]|HU]; [by repeat constructor|]). by apply not_elem_of_nil in HU. }
    rewrite (unit_suffix s U j) by done. destruct (units_product s j Hs Hne Hv Hj) as (f & -> & ->).
    eexists. rewrite int64_of_product by lia. reflexivity.
Qed.

End size_properties.

Lemma UnmarshalText_sizes_witness :
  UnmarshalText id id (fun _ => (- 2 ^ 63)%Z) (str "  12kB ") 7%Z = (Ret (Ok tt), 12288%Z) /\
  UnmarshalText id id (fun _ => (- 2 ^ 63)%Z) (str "8589934592Gb") 7%Z = (Ret (Ok tt), (- 2 ^ 63)%Z).
Proof.
  split.
  - destruct (UnmarshalText_sizes id id (fun _ => (- 2 ^ 63)%Z) (str "  12kB ") (str "12") (str "kB") (str "KB") 10 7)%Z
      as [_ H].
    + repeat (constructor; [by eexists|]). constructor.
    + discriminate.
    + right. by left.
    + reflexivity.
    + destruct H as [f H]; [vm_compute; reflexivity|vm_compute; reflexivity|]. exact H.
  - destruct (UnmarshalText_sizes id id (fun _ => (- 2 ^ 63)%Z) (str "8589934592Gb") (str "8589934592") (str "Gb") (str "GB") 30 7)%Z
      as [_ H].
    + repeat (constructor; [by eexists|]). constructor.
    + discriminate.
    + do 3 right. by left.
    + reflexivity.
    + destruct H as [f H]; [vm_compute; reflexivity|vm_compute; reflexivity|]. exact H.
Defined.
