(* ===== verification/Index.v ===== *)
(** * LSN indexes

    [internal/segment/index.go]: the three index managers, a mutex-protected
    map, a copy-on-write map and a sorted array.  An operation that holds
    the lock throughout is one atomic step; the copy-on-write manager takes
    no lock, so its load and its store are separate steps.  [IndexManager]
    is the interface [segment.Manager] uses, and [IndexLaws] what it may
    expect of an implementation. *)

From S2P Require Import Prelude.

Record IndexEntry := mkEntry {
  LSN : N;
  FileName : gostring;
  Offset : Z
}.

#[export] Instance IndexEntry_eq_decision : EqDecision IndexEntry.
Proof. solve_decision. Defined.

Definition zeroEntry : IndexEntry := mkEntry 0 [] 0.

(** [for lsn, entry := range entries { m[lsn] = entry }] over the entries in
    some order. *)
Definition copy_into (entries : list (N * IndexEntry)) (m : gmap N IndexEntry)
  : gmap N IndexEntry := foldl (fun m kv => <[kv.1 := kv.2]> m) m entries.

Definition map_GetIndex (m : gmap N IndexEntry) (lsn : N) : result IndexEntry :=
  match m !! lsn with Some entry => Ok entry | None => Err ErrIndexNotFound end.

(** ** Mutex-based manager *)

Module Mutex.

Record t := mk { index : gmap N IndexEntry }.

Definition NewIndexManagerMutex : t := mk ∅.

Definition Add (lsn : N) (fileName : gostring) (offset : Z) (im : t) : t :=
  mk (<[lsn := mkEntry 0 fileName offset]> (index im)).

Definition GetIndex (lsn : N) (im : t) : result IndexEntry := map_GetIndex (index im) lsn.

Definition AddBatch (entries : gmap N IndexEntry) (im : t) : t :=
  mk (copy_into (map_to_list entries) (index im)).

End Mutex.

(** ** Copy-on-write manager *)

Module COW.

(** The atomic value holds the current map. *)
Record t := mk { current : gmap N IndexEntry }.

Definition NewIndexManagerCOW : t := mk ∅.

(** What [Add] and [AddBatch] build from the map they loaded. *)
Definition Add_newMap (oldMap : gmap N IndexEntry) (lsn : N) (fileName : gostring) (offset : Z)
  : gmap N IndexEntry :=
  let newMap := copy_into (map_to_list oldMap) ∅ in
  <[lsn := mkEntry 0 fileName offset]> newMap.

Definition AddBatch_newMap (oldMap entries : gmap N IndexEntry) : gmap N IndexEntry :=
  let newMap := copy_into (map_to_list oldMap) ∅ in
  copy_into (map_to_list entries) newMap.

Definition Load (im : t) : gmap N IndexEntry := current im.
Definition Store (m : gmap N IndexEntry) (im : t) : t := mk m.

(** The operations when nothing runs between their load and their store. *)
Definition Add (lsn : N) (fileName : gostring) (offset : Z) (im : t) : t :=
  Store (Add_newMap (Load im) lsn fileName offset) im.

Definition AddBatch (entries : gmap N IndexEntry) (im : t) : t :=
  Store (AddBatch_newMap (Load im) entries) im.

Definition GetIndex (lsn : N) (im : t) : result IndexEntry := map_GetIndex (Load im) lsn.

End COW.

(** ** Sorted-array manager *)

(** The loop shared by [sort.Search] and [binarySearchIndex]: the least index
    in [[lo, hi)] at which [ge] holds, or [hi].  [Blocks] is running out of
    fuel, [Panics] an index out of range. *)
Fixpoint search_loop (fuel : nat) (ge : nat -> option bool) (lo hi : nat) : outcome nat :=
  match fuel with
  | O => Blocks
  | S f =>
      if bool_decide (lo < hi) then
        let mid := (lo + hi) / 2 in
        match ge mid with
        | None => Panics
        | Some false => search_loop f ge (mid + 1) hi
        | Some true => search_loop f ge lo mid
        end
      else Ret lo
  end.

Definition lsn_ge (entries : list IndexEntry) (lsn : N) (i : nat) : option bool :=
  e ← entries !! i; Some (lsn <=? LSN e)%N.

Module Array.

Record t := mk { entries : list IndexEntry }.

Definition NewIndexManagerArray : t := mk [].

Definition binarySearchIndex (es : list IndexEntry) (lsn : N) : outcome nat :=
  search_loop (S (length es)) (lsn_ge es lsn) 0 (length es).

(** [sort.Search(n, func(i int) bool { return es[i].LSN >= lsn })]. *)
Definition sort_Search (es : list IndexEntry) (lsn : N) : outcome nat :=
  search_loop (S (length es)) (lsn_ge es lsn) 0 (length es).

(** [append] of a zero entry, [copy(es[idx+1:], es[idx:])], and the store. *)
Definition insert_at (es : list IndexEntry) (idx : nat) (x : IndexEntry) : list IndexEntry :=
  let es1 := es ++ [zeroEntry] in
  let es2 := take (idx + 1) es1 ++ take (length es1 - (idx + 1)) (drop idx es1) in
  <[idx := x]> es2.

Definition Add (lsn : N) (fileName : gostring) (offset : Z) : Go t unit :=
  fun im =>
    let es := entries im in
    let x := mkEntry lsn fileName offset in
    if bool_decide (length es = 0) || bool_decide (LSN (List.last es zeroEntry) < lsn)%N
    then (Ret tt, mk (es ++ [x]))
    else
      match sort_Search es lsn with
      | Panics => (Panics, im)
      | Blocks => (Blocks, im)
      | Ret idx =>
          if bool_decide (LSN <$> es !! idx = Some lsn)
          then (Ret tt, mk (alter (fun e => mkEntry (LSN e) fileName offset) idx es))
          else (Ret tt, mk (insert_at es idx x))
      end.

Definition AddBatch (batch : list IndexEntry) (im : t) : t :=
  match batch with
  | [] => im
  | _ => mk (entries im ++ batch)
  end.

Definition GetIndex (lsn : N) : Go t (result IndexEntry) :=
  fun im =>
    match binarySearchIndex (entries im) lsn with
    | Panics => (Panics, im)
    | Blocks => (Blocks, im)
    | Ret idx =>
        match entries im !! idx with
        | Some e => if bool_decide (LSN e = lsn) then (Ret (Ok e), im)
                    else (Ret (Err ErrIndexNotFound), im)
        | None => (Ret (Err ErrIndexNotFound), im)
        end
    end.

End Array.

(** ** The interface of [segment.Manager] *)

Class IndexManager (I : Type) := {
  im_AddBatch : gmap N IndexEntry -> I -> I;
  im_GetIndex : N -> I -> result IndexEntry
}.

Class IndexLaws (I : Type) `{!IndexManager I} := {
  im_abs : I -> gmap N IndexEntry;
  im_AddBatch_law es i : im_abs (im_AddBatch es i) = es ∪ im_abs i;
  im_GetIndex_law lsn i : im_GetIndex lsn i = map_GetIndex (im_abs i) lsn
}.

#[export] Instance mutex_manager : IndexManager Mutex.t :=
  {| im_AddBatch := Mutex.AddBatch; im_GetIndex := Mutex.GetIndex |}.
#[export] Instance cow_manager : IndexManager COW.t :=
  {| im_AddBatch := COW.AddBatch; im_GetIndex := COW.GetIndex |}.

(** ** Lemmas on the maps *)

(** The order in which a Go map is ranged over does not matter. *)
Lemma copy_into_union l (es m : gmap N IndexEntry) :
  l ≡ₚ map_to_list es -> copy_into l m = es ∪ m.
Proof.
  revert es m. induction l as [|[k v] l IH]; intros es m Hl.
  - symmetry in Hl. apply Permutation_nil_r, map_to_list_empty_iff in Hl as ->.
    by rewrite (left_id_L ∅ (∪)).
  - symmetry in Hl. apply map_to_list_insert_inv in Hl as Hes.
    assert (delete k es = list_to_map l /\ es !! k = Some v) as [Hd Hk].
    { pose proof (NoDup_fst_map_to_list es) as Hnd. rewrite Hl in Hnd.
      cbn [fmap list_fmap fst] in Hnd. apply NoDup_cons in Hnd as [Hni Hnd].
      assert (list_to_map l !! k = (None : option IndexEntry)) as Hn
        by by apply not_elem_of_list_to_map_1.
      rewrite Hes. cbn [fst snd]. rewrite delete_insert_id by done. by rewrite lookup_insert_eq. }
    unfold copy_into. cbn [foldl fst snd]. fold (copy_into l (<[k := v]> m)).
    rewrite (IH (delete k es)).
    + rewrite <-insert_union_r by apply lookup_delete_eq. 
      rewrite insert_union_l, insert_delete_id by done. done.
    + rewrite Hd, map_to_list_to_map; [done|].
      pose proof (NoDup_fst_map_to_list es) as Hnd. rewrite Hl in Hnd.
      by apply NoDup_cons in Hnd as [_ ?].
Qed.

Lemma copy_into_map es m : copy_into (map_to_list es) m = es ∪ m.
Proof. by apply copy_into_union. Qed.

Lemma copy_map m : copy_into (map_to_list m) ∅ = m.
Proof. by rewrite copy_into_map, (right_id_L ∅ (∪)). Qed.

#[export] Program Instance mutex_laws : IndexLaws Mutex.t := {| im_abs := Mutex.index |}.
Next Obligation. intros es i. apply copy_into_map. Qed.
Next Obligation. done. Qed.

#[export] Program Instance cow_laws : IndexLaws COW.t := {| im_abs := COW.current |}.
Next Obligation.
  intros es i. simpl. unfold COW.AddBatch_newMap, COW.Load. by rewrite copy_map, copy_into_map.
Qed.
Next Obligation. done. Qed.

(** ** Lemmas on the search *)

(** The index found splits the range at the first position where [ge] holds. *)
Lemma search_loop_spec ge n fuel lo hi :
  (forall i, i < n -> is_Some (ge i)) ->
  (forall i j, i <= j -> j < n -> ge i = Some true -> ge j = Some true) ->
  lo <= hi -> hi <= n -> hi - lo < fuel ->
  (forall i, i < lo -> ge i = Some false) ->
  (forall i, hi <= i < n -> ge i = Some true) ->
  exists idx, search_loop fuel ge lo hi = Ret idx /\ idx <= n /\
    (forall i, i < idx -> ge i = Some false) /\ (forall i, idx <= i < n -> ge i = Some true).
Proof.
  intros Htot Hmono. revert lo hi.
  induction fuel as [|fuel IH]; intros lo hi Hle Hn Hf Hlo Hhi; [lia|].
  cbn [search_loop]. case_bool_decide as Hlt; cycle 1.
  { exists lo. assert (lo = hi) as -> by lia. eauto. }
  assert (lo <= (lo + hi) / 2 < hi) as Hmid.
  { split; [apply Nat.div_le_lower_bound|apply Nat.Div0.div_lt_upper_bound]; lia. }
  set (mid := (lo + hi) / 2) in *. clearbody mid.
  destruct (Htot mid) as [b Hb]; [lia|]. rewrite Hb. destruct b.
  - apply IH; [lia..|done|]. intros i Hi. destruct (decide (hi <= i)); [by apply Hhi; lia|].
    apply (Hmono mid); [lia..|done].
  - apply IH; [lia..| |done]. intros i Hi. destruct (decide (i < lo)); [auto|].
    destruct (Htot i) as [[] Hi']; [lia| |done].
    apply (Hmono i mid) in Hi'; [congruence|lia..].
Qed.

(** ** The sorted array *)

Definition lsn_lt (a b : IndexEntry) : Prop := (LSN a < LSN b)%N.

Definition sorted (es : list IndexEntry) : Prop := StronglySorted lsn_lt es.

Lemma sorted_lookup_lt es i j a b :
  sorted es -> i < j -> es !! i = Some a -> es !! j = Some b -> (LSN a < LSN b)%N.
Proof.
  intros Hs Hij Hi Hj.
  apply (StronglySorted_app_1_elem_of lsn_lt (take j es) (drop j es)).
  - by rewrite take_drop.
  - apply list_elem_of_lookup. exists i. by rewrite lookup_take_lt by lia.
  - apply list_elem_of_lookup. exists 0. by rewrite lookup_drop, Nat.add_0_r.
Qed.

Lemma lsn_ge_Some es lsn i b :
  lsn_ge es lsn i = Some b <-> exists e, es !! i = Some e /\ b = (lsn <=? LSN e)%N.
Proof.
  unfold lsn_ge. destruct (es !! i) as [e|]; simpl; split.
  - intros [= <-]. eauto.
  - intros (e' & [= <-] & ->). done.
  - done.
  - intros (e' & ? & _). done.
Qed.

(** In a sorted array the search returns the number of smaller LSNs. *)
Lemma search_sorted es lsn :
  sorted es ->
  exists idx, search_loop (S (length es)) (lsn_ge es lsn) 0 (length es) = Ret idx /\
    idx <= length es /\
    Forall (fun e => LSN e < lsn)%N (take idx es) /\
    Forall (fun e => lsn <= LSN e)%N (drop idx es).
Proof.
  intros Hs.
  destruct (search_loop_spec (lsn_ge es lsn) (length es) (S (length es)) 0 (length es))
    as (idx & E & Hidx & Hlo & Hhi); [..|lia|lia|lia|lia|lia|].
  - intros i Hi. destruct (lookup_lt_is_Some_2 es i Hi) as [e He]. exists (lsn <=? LSN e)%N.
    apply lsn_ge_Some. eauto.
  - intros i j Hij Hj Hi. apply lsn_ge_Some in Hi as (e & He & Hb).
    destruct (lookup_lt_is_Some_2 es j Hj) as [e' He']. apply lsn_ge_Some. exists e'.
    split; [done|]. symmetry in Hb |- *. apply N.leb_le in Hb. apply N.leb_le.
    destruct (decide (i = j)) as [->|]; [by simplify_eq|].
    pose proof (sorted_lookup_lt es i j e e' Hs). assert (i < j) by lia. naive_solver lia.
  - exists idx. split; [done|]. split; [done|]. split; apply Forall_lookup; intros i e He.
    + apply lookup_take_Some in He as [He Hi]. specialize (Hlo i Hi).
      apply lsn_ge_Some in Hlo as (e' & He' & Hb). simplify_eq.
      symmetry in Hb. apply N.leb_gt in Hb. done.
    + rewrite lookup_drop in He. apply lookup_lt_Some in He as Hlt.
      specialize (Hhi (idx + i)). apply lsn_ge_Some in Hhi as (e' & He' & Hb); [|lia].
      simplify_eq. symmetry in Hb. by apply N.leb_le in Hb.
Qed.

(** What an index maps an LSN to. *)
Definition view (e : IndexEntry) : gostring * Z := (FileName e, Offset e).

Definition array_abs (es : list IndexEntry) : gmap N (gostring * Z) :=
  list_to_map ((fun e => (LSN e, view e)) <$> es).

Lemma sorted_app es1 es2 :
  sorted (es1 ++ es2) <->
  (forall a b, a ∈ es1 -> b ∈ es2 -> (LSN a < LSN b)%N) /\ sorted es1 /\ sorted es2.
Proof. apply StronglySorted_app. Qed.

Lemma array_abs_app_lookup es1 es2 lsn :
  array_abs (es1 ++ es2) !! lsn = array_abs es1 !! lsn ∪ array_abs es2 !! lsn.
Proof.
  unfold array_abs. by rewrite fmap_app, list_to_map_app, lookup_union.
Qed.

Lemma array_abs_None es lsn :
  Forall (fun e => LSN e <> lsn) es -> array_abs es !! lsn = None.
Proof.
  intros H. unfold array_abs. apply not_elem_of_list_to_map_1. intros Hin.
  rewrite <-list_fmap_compose in Hin. apply list_elem_of_fmap in Hin as (e & -> & He).
  rewrite Forall_forall in H. by apply (H e).
Qed.

Lemma array_abs_cons e es lsn :
  array_abs (e :: es) !! lsn = if decide (LSN e = lsn) then Some (view e) else array_abs es !! lsn.
Proof.
  unfold array_abs. cbn [fmap list_fmap list_to_map foldr]. rewrite lookup_insert.
  by destruct (decide _).
Qed.

Lemma insert_at_spec es idx x :
  idx <= length es -> Array.insert_at es idx x = take idx es ++ x :: drop idx es.
Proof.
  intros Hidx. unfold Array.insert_at.
  assert (take (idx + 1) (es ++ [zeroEntry]) ++
          take (length (es ++ [zeroEntry]) - (idx + 1)) (drop idx (es ++ [zeroEntry])) =
          take idx es ++ (default zeroEntry ((es ++ [zeroEntry]) !! idx)) :: drop idx es) as ->.
  { rewrite drop_app_le by done.
    replace (length (es ++ [zeroEntry]) - (idx + 1)) with (length (drop idx es))
      by (rewrite length_app, length_drop; simpl; lia).
    rewrite take_app_length.
    destruct (lookup_lt_is_Some_2 (es ++ [zeroEntry]) idx) as [y Hy];
      [rewrite length_app; simpl; lia|].
    rewrite Nat.add_1_r, (take_S_r _ _ _ Hy), Hy, take_app_le by done.
    by rewrite <-(assoc_L (++)). }
  rewrite insert_app_r_alt by (rewrite length_take; lia).
  by rewrite length_take, Nat.min_l, Nat.sub_diag by lia.
Qed.

(** Putting an entry between the smaller and the greater ones, in place of
    those with the same LSN. *)
Lemma array_put l1 mid l2 x :
  sorted (l1 ++ mid ++ l2) ->
  Forall (fun e => LSN e < LSN x)%N l1 ->
  Forall (fun e => LSN e = LSN x) mid ->
  Forall (fun e => LSN x < LSN e)%N l2 ->
  sorted (l1 ++ x :: l2) /\
  array_abs (l1 ++ x :: l2) = <[LSN x := view x]> (array_abs (l1 ++ mid ++ l2)).
Proof.
  intros Hs H1 Hm H2. rewrite !sorted_app in Hs. destruct Hs as (Hord & Hs1 & _ & _ & Hs2).
  rewrite !Forall_forall in *. split.
  - change (x :: l2) with ([x] ++ l2). rewrite !sorted_app. repeat split; [|done|..|done].
    + intros a b Ha [->%list_elem_of_singleton|Hb]%elem_of_app; [auto|].
      apply (N.lt_trans _ (LSN x)); auto.
    + intros a b ->%list_elem_of_singleton Hb. auto.
    + repeat constructor.
  - apply map_eq. intros lsn.
    rewrite !array_abs_app_lookup, array_abs_cons, lookup_insert.
    destruct (decide (LSN x = lsn)) as [<-|Hne].
    + rewrite array_abs_None; [done|]. apply Forall_forall. intros e He Heq.
      specialize (H1 e He). lia.
    + rewrite !array_abs_app_lookup.
      rewrite (array_abs_None mid), (left_id_L None union); [done|].
      apply Forall_forall. intros e He. rewrite (Hm e He). done.
Qed.

Lemma sorted_below_last es lsn :
  sorted es -> length es = 0 \/ (LSN (List.last es zeroEntry) < lsn)%N ->
  Forall (fun e => LSN e < lsn)%N es.
Proof.
  intros Hs Hl. destruct es as [|y es _] using rev_ind; [done|].
  rewrite length_app in Hl. simpl in Hl. destruct Hl as [Hl|Hl]; [lia|].
  rewrite List.last_last in Hl. apply sorted_app in Hs as (Hord & _).
  apply Forall_app. split; [|by constructor].
  apply Forall_forall. intros e He. apply (N.lt_trans _ (LSN y)); [|done].
  apply Hord; [done|]. by apply list_elem_of_singleton.
Qed.

Lemma Array_Add_spec es lsn f o :
  sorted es ->
  exists es', Array.Add lsn f o (Array.mk es) = (Ret tt, Array.mk es') /\
    sorted es' /\ array_abs es' = <[lsn := (f, o)]> (array_abs es).
Proof.
  intros Hs. unfold Array.Add. cbn [Array.entries].
  destruct (bool_decide (length es = 0) || _) eqn:Hend.
  { assert (Forall (fun e => LSN e < lsn)%N es) as Hlt.
    { apply sorted_below_last; [done|]. apply orb_true_iff in Hend as [H|H].
      - left. apply bool_decide_eq_true in H. done.
      - right. by apply bool_decide_eq_true in H. }
    eexists. split; [done|].
    assert (array_abs es = array_abs (es ++ [] ++ [])) as -> by (by rewrite !(right_id_L [] (++))).
    rewrite <-(right_id_L [] (++) es) in Hs.
    apply (array_put es [] [] (mkEntry lsn f o)); done. }
  destruct (search_sorted es lsn Hs) as (idx & E & Hidx & Hlo & Hhi).
  unfold Array.sort_Search. rewrite E. clear Hend.
  case_bool_decide as Heq.
  - apply fmap_Some in Heq as (e & He & ->). eexists. split; [done|].
    pose proof (take_drop_middle es idx e He) as Hsplit.
    assert (array_abs es = array_abs (take idx es ++ [e] ++ drop (S idx) es)) as ->
      by (by rewrite <-Hsplit at 1).
    assert (alter (fun e => mkEntry (LSN e) f o) idx es =
            take idx es ++ mkEntry (LSN e) f o :: drop (S idx) es) as ->.
    { rewrite <-Hsplit at 1. rewrite alter_app_r_alt by (rewrite length_take; lia).
      by rewrite length_take, Nat.min_l, Nat.sub_diag by (apply lookup_lt_Some in He; lia). }
    rewrite <-Hsplit in Hs.
    apply (array_put (take idx es) [e] (drop (S idx) es) (mkEntry (LSN e) f o)); [done..|by constructor|].
    apply sorted_app in Hs as (_ & _ & Hs2). by apply StronglySorted_cons in Hs2 as [? _].
  - eexists. split; [done|]. rewrite insert_at_spec by done.
    assert (array_abs es = array_abs (take idx es ++ drop idx es)) as -> by (by rewrite take_drop).
    rewrite <-(take_drop idx es) in Hs.
    apply (array_put (take idx es) [] (drop idx es) (mkEntry lsn f o)); [done..|].
    destruct (drop idx es) as [|e rest] eqn:Ed; [done|].
    assert (es !! idx = Some e) as He.
    { rewrite <-(Nat.add_0_r idx), <-lookup_drop, Ed. done. }
    rewrite He in Heq. cbn [fmap option_fmap option_map] in Heq.
    apply sorted_app in Hs as (_ & _ & Hs2). apply StronglySorted_cons in Hs2 as [Hgt _].
    apply Forall_cons in Hhi as [Hge _]. cbn [LSN].
    assert (lsn < LSN e)%N by (destruct (decide (LSN e = lsn)); [congruence|lia]).
    constructor; [done|]. eapply Forall_impl; [exact Hgt|].
    intros b Hb. unfold lsn_lt in Hb. lia.
Qed.

Lemma Array_GetIndex_spec es lsn :
  sorted es ->
  exists r, Array.GetIndex lsn (Array.mk es) = (Ret r, Array.mk es) /\
    match array_abs es !! lsn with
    | Some v => exists e, r = Ok e /\ view e = v /\ LSN e = lsn
    | None => r = Err ErrIndexNotFound
    end.
Proof.
  intros Hs. unfold Array.GetIndex, Array.binarySearchIndex. cbn [Array.entries].
  destruct (search_sorted es lsn Hs) as (idx & -> & Hidx & Hlo & Hhi).
  assert (array_abs es !! lsn = array_abs (drop idx es) !! lsn) as ->.
  { rewrite <-(take_drop idx es) at 1. rewrite array_abs_app_lookup, array_abs_None.
    - by rewrite (left_id_L None union).
    - eapply Forall_impl; [exact Hlo|]. simpl. lia. }
  destruct (es !! idx) as [e|] eqn:He.
  - rewrite (drop_S _ _ _ He) in Hhi |- *. rewrite array_abs_cons.
    case_bool_decide as Heq; eexists; (split; [done|]).
    + rewrite decide_True by done. eauto.
    + rewrite decide_False by done. rewrite array_abs_None; [done|].
      rewrite <-(take_drop_middle es idx e He) in Hs.
      apply sorted_app in Hs as (_ & _ & Hs2). apply StronglySorted_cons in Hs2 as [Hgt _].
      apply Forall_cons in Hhi as [Hge _].
      eapply Forall_impl; [exact Hgt|]. unfold lsn_lt. simpl. lia.
  - apply lookup_ge_None in He. rewrite drop_ge by done. eexists. split; [done|]. done.
Qed.

(** ** Runs of the managers *)

Fixpoint Array_Adds (l : list (N * gostring * Z)) : Go Array.t unit :=
  match l with
  | [] => go_ret tt
  | (lsn, f, o) :: l' => do! Array.Add lsn f o in Array_Adds l'
  end.

Definition Mutex_Adds (l : list (N * gostring * Z)) (im : Mutex.t) : Mutex.t :=
  foldl (fun im '(lsn, f, o) => Mutex.Add lsn f o im) im l.

Lemma Array_Adds_spec l es im :
  sorted es -> array_abs es = view <$> Mutex.index im ->
  exists es', Array_Adds l (Array.mk es) = (Ret tt, Array.mk es') /\
    sorted es' /\ array_abs es' = view <$> Mutex.index (Mutex_Adds l im).
Proof.
  revert es im. induction l as [|[[lsn f] o] l IH]; intros es im Hs Habs; [by eexists|].
  cbn [Array_Adds]. destruct (Array_Add_spec es lsn f o Hs) as (es1 & E1 & Hs1 & A1).
  rewrite (go_bind_ret _ _ _ _ _ E1). apply (IH es1 (Mutex.Add lsn f o im)); [done|].
  rewrite A1, Habs. simpl. by rewrite fmap_insert.
Qed.

(** ** Properties *)

(** C29: after any sequence of [Add] calls, in any order of LSNs and with
    repetitions, the sorted array with its two binary searches answers every
    lookup as the mutex-protected map does (the same file and offset, or not
    found), its entries are strictly sorted by LSN and no call panics or
    fails to return. *)
Theorem Array_agrees_with_Mutex (l : list (N * gostring * Z)) :
  exists es, Array_Adds l Array.NewIndexManagerArray = (Ret tt, Array.mk es) /\ sorted es /\
    forall lsn, exists r, Array.GetIndex lsn (Array.mk es) = (Ret r, Array.mk es) /\
      match Mutex.GetIndex lsn (Mutex_Adds l Mutex.NewIndexManagerMutex) with
      | Ok e => exists e', r = Ok e' /\ view e' = view e /\ LSN e' = lsn
      | Err x => r = Err x
      end.
Proof.
  destruct (Array_Adds_spec l [] Mutex.NewIndexManagerMutex) as (es & E & Hs & Habs);
    [constructor|done|].
  exists es. split; [done|]. split; [done|]. intros lsn.
  destruct (Array_GetIndex_spec es lsn Hs) as (r & Er & Hr). exists r. split; [done|].
  rewrite Habs, lookup_fmap in Hr. unfold Mutex.GetIndex, map_GetIndex.
  destruct (Mutex.index _ !! lsn) as [e|]; [|done].
  destruct Hr as (e' & -> & Hv & Hl). eauto.
Qed.

(** The copy-on-write manager agrees with the mutex-protected one when
    its operations do not overlap, but two overlapping [Add] calls lose an
    entry: when both load before either stores, the LSN of the call that
    stores first is not found afterwards. *)
Theorem COW_lost_update (m : gmap N IndexEntry) (l1 l2 : N) (f1 f2 : gostring) (o1 o2 : Z)
    (Hne : l1 <> l2) (Hnew : m !! l1 = None) :
  let im := COW.mk m in
  (forall lsn, COW.GetIndex lsn (COW.Add l2 f2 o2 (COW.Add l1 f1 o1 im)) =
     Mutex.GetIndex lsn (Mutex.Add l2 f2 o2 (Mutex.Add l1 f1 o1 (Mutex.mk m)))) /\
  (let m1 := COW.Add_newMap (COW.Load im) l1 f1 o1 in
   let m2 := COW.Add_newMap (COW.Load im) l2 f2 o2 in
   COW.GetIndex l1 (COW.Store m2 (COW.Store m1 im)) = Err ErrIndexNotFound).
Proof.
  simpl. split.
  - intros lsn. unfold COW.GetIndex, Mutex.GetIndex, COW.Add, COW.Add_newMap, COW.Load. simpl.
    by rewrite !copy_map.
  - unfold COW.GetIndex, COW.Add_newMap, COW.Load, map_GetIndex. simpl.
    by rewrite copy_map, lookup_insert_ne, Hnew by done.
Qed.

Lemma COW_lost_update_witness :
  COW.GetIndex 1 (COW.Store (COW.Add_newMap ∅ 2 (str "b") 0)
    (COW.Store (COW.Add_newMap ∅ 1 (str "a") 0) (COW.mk ∅))) = Err ErrIndexNotFound.
Proof.
  refine (proj2 (COW_lost_update ∅ 1 2 (str "a") (str "b") 0 0 _ _)); [discriminate|reflexivity].
Defined.
