(* ===== verification/Segment.v ===== *)
(** * Segment files

    [internal/segment/segment.go]: one open file of the write-ahead log and
    its size.  A segment's methods run on the world and the segment; the
    file handle is owned by the segment alone. *)

From S2P Require Import Prelude FileSystem.

Module FileSegment.

Record t := mk {
  file : File;
  path : gostring;
  size : Z;
  maxSize : Z
}.

Definition set_file (f : File) (s : t) : t := mk f (path s) (size s) (maxSize s).

(** The state of a method: the world and the segment the receiver points to. *)
Abbreviation st := (World * t)%type.

Definition on_world {A} (c : Go World A) : Go st A :=
  go_zoom fst (fun w s => (w, snd s)) c.

Definition put_seg (f : t -> t) : Go st unit := go_put (fun s => (fst s, f (snd s))).

Definition newFile (p : gostring) : Go World (result File) :=
  let! id := UnixMicro in
  let name := p ++ [slash] ++ FormatInt id ++ str ".bin" in
  OpenFile name.

Definition initFileSegment (p : gostring) : Go World (result File) :=
  try! names := ReadDir p in
  if bool_decide (length names = 0) then newFile p
  else
    let! n := go_index names (length names - 1) in
    OpenFile (p ++ [slash] ++ n).

Definition NewFileSegment (p : gostring) (maxSize : Z) : Go World (result t) :=
  try! f := initFileSegment p in
  try! sz := file_Size f in
  go_ret (Ok (mk f p sz maxSize)).

(** An error of [Close] is only logged. *)
Definition Rotate : Go st (option error) :=
  let! seg := go_get snd in
  let! ' (err, f) := on_world (file_Close (file seg)) in
  do! put_seg (set_file f) in
  let! r := on_world (newFile (path seg)) in
  match r with
  | Err e => go_ret (Some e)
  | Ok f => do! put_seg (fun s => mk f (path s) 0 (maxSize s)) in go_ret None
  end.

(** The size grows only when both the write and the sync succeed. *)
Definition Write (data : bytes) : Go st (option error) :=
  let! seg := go_get snd in
  let! ' (n, err, f) := on_world (file_Write (file seg) data) in
  do! put_seg (set_file f) in
  match err with
  | Some e => go_ret (Some e)
  | None =>
      let! err := on_world (file_Sync f) in
      match err with
      | Some e => go_ret (Some e)
      | None =>
          do! put_seg (fun s => mk (file s) (path s) (i64 (size s + Z.of_nat n)) (maxSize s)) in
          go_ret None
      end
  end.

Definition Close : Go st (option error) :=
  let! seg := go_get snd in
  let! ' (err, f) := on_world (file_Close (file seg)) in
  do! put_seg (set_file f) in
  go_ret err.

Definition Fits (s : t) (fileSize : Z) : bool := (i64 (fileSize + size s) <=? maxSize s)%Z.

Definition GetName (s : t) : gostring := filepath_Base (f_name (file s)).

Definition CurrentOffset (s : t) : Z := size s.

Definition Read : Go st (result bytes) :=
  let! seg := go_get snd in
  let! ' (r, f) := on_world (io_ReadAll (file seg)) in
  do! put_seg (set_file f) in
  go_ret r.

End FileSegment.

(** ** Lemmas *)

Module SegmentFacts.
Import FileSegment.

Definition child (d : bool * list gostring) (n : gostring) : bool * list gostring :=
  (d.1, d.2 ++ [n]).

(** The segment is the open file [n] of the directory [d] and knows its
    size. *)
Record seg_on (w : World) (d : bool * list gostring) (n : gostring) (old : bytes) (s : t) : Prop := {
  so_dir : resolve (path s) = Some d;
  so_ex : dir_exists (nodes w) d;
  so_plain : plain_name n;
  so_name : f_name (file s) = join (path s) n;
  so_path : f_path (file s) = child d n;
  so_open : f_closed (file s) = false;
  so_file : nodes w !! child d n = Some (FileNode old);
  so_size : size s = len old
}.

Lemma seg_on_tick k w d n old s : seg_on (tick k w) d n old s <-> seg_on w d n old s.
Proof. split; intros []; by constructor. Qed.

Lemma GetName_on w d n old s : seg_on w d n old s -> GetName s = n.
Proof. intros H. unfold GetName. rewrite (so_name _ _ _ _ _ H). by apply filepath_Base_join, H. Qed.

Lemma dir_exists_child w d n b :
  dir_exists (nodes w) d -> dir_exists (<[child d n := FileNode b]> (nodes w)) d.
Proof. intros H. apply dir_exists_insert; [done|]. unfold child. cbn [snd]. rewrite length_app. simpl. lia. Qed.

(** A write appends its data to the file and moves the size along. *)
Lemma seg_Write_on w d n old s data :
  fault_free w -> seg_on w d n old s -> (len old + len data < 2 ^ 63)%Z ->
  exists w' s', Write data (w, s) = (Ret None, (w', s')) /\
    w' = tick 2 (set_nodes (<[child d n := FileNode (old ++ data)]> (nodes w)) w) /\
    seg_on w' d n (old ++ data) s' /\ path s' = path s /\ maxSize s' = maxSize s /\
    f_pos (file s') = length (old ++ data).
Proof.
  intros Hff Hs Hb. unfold Write, go_bind, go_get, on_world, go_zoom. cbn [fst snd].
  assert (nodes w !! f_path (file s) = Some (FileNode old)) as Hf
    by (rewrite (so_path _ _ _ _ _ Hs); apply Hs).
  rewrite (file_Write_ok w _ data old Hff (so_open _ _ _ _ _ Hs) Hf).
  cbn [fst snd put_seg go_put]. rewrite file_Sync_ok by done.
  eexists _, _. split; [reflexivity|]. cbn [fst snd].
  rewrite (so_path _ _ _ _ _ Hs). split; [done|]. split; [|done].
  destruct Hs. constructor; cbn [path file size set_file f_name f_path f_closed]; try done.
  - by apply dir_exists_child.
  - cbn [nodes tick set_nodes]. by rewrite lookup_insert_eq.
  - rewrite so_size0. unfold len in *. rewrite length_app, i64_id; lia.
Qed.

Lemma newFile_on w dir d :
  let n := seg_name (clock w (now_calls w)) in
  fault_free w -> resolve dir = Some d -> dir_exists (nodes w) d ->
  valid_micro (clock w (now_calls w)) -> nodes w !! child d n = None ->
  exists w' f, newFile dir w = (Ret (Ok f), w') /\
    nodes w' = <[child d n := FileNode []]> (nodes w) /\
    fault_free w' /\ clock w' = clock w /\ now_calls w' = S (now_calls w) /\
    forall max, seg_on w' d n [] (mk f dir 0 max).
Proof.
  intros n Hff Hdir Hex Hv Hnew. unfold newFile, go_bind, UnixMicro.
  set (w1 := mkWorld _ _ _ _ _).
  change (dir ++ [slash] ++ FormatInt (clock w (now_calls w)) ++ str ".bin") with (join dir n).
  rewrite (OpenFile_new w1 dir d n) by (done || by apply seg_name_plain).
  eexists _, _. split; [reflexivity|]. repeat (split; [reflexivity || done|]).
  intros max. constructor; cbn [path file size f_name f_path f_closed]; try done.
  - by apply dir_exists_child.
  - by apply seg_name_plain.
  - cbn [nodes tick set_nodes]. by rewrite lookup_insert_eq.
Qed.

(** A rotation opens a new, empty file named after the current time. *)
Lemma Rotate_on w d n old s :
  fault_free w -> seg_on w d n old s ->
  valid_micro (clock w (now_calls w)) ->
  nodes w !! child d (seg_name (clock w (now_calls w))) = None ->
  exists w' s', Rotate (w, s) = (Ret None, (w', s')) /\
    nodes w' = <[child d (seg_name (clock w (now_calls w))) := FileNode []]> (nodes w) /\
    fault_free w' /\ clock w' = clock w /\ now_calls w' = S (now_calls w) /\
    seg_on w' d (seg_name (clock w (now_calls w))) [] s' /\
    path s' = path s /\ maxSize s' = maxSize s.
Proof.
  intros Hff Hs Hv Hnew. unfold Rotate, go_bind, go_get, on_world, go_zoom. cbn [fst snd].
  unfold file_Close, go_bind. rewrite sys_fault_free by done. cbn [fst snd put_seg go_put go_ret].
  destruct (newFile_on (tick 1 w) (path s) d) as (w' & f & -> & Hn & Hff' & Hc & Hnc & Hso);
    [done|apply Hs|apply Hs|done|done|].
  eexists _, _. split; [reflexivity|]. cbn [fst snd set_file path maxSize].
  by repeat (split; [done|]).
Qed.

Lemma file_Size_on w f p b :
  fault_free w -> f_closed f = false -> f_path f = p -> nodes w !! p = Some (FileNode b) ->
  file_Size f w = (Ret (Ok (len b)), tick 1 w).
Proof.
  intros Hff Hc Hp Hf. unfold file_Size, go_bind. rewrite sys_fault_free by done.
  unfold file_op_err. rewrite Hc. unfold go_get, file_contents. subst p.
  cbn [fmap option_fmap option_map]. change (nodes (tick 1 w)) with (nodes w). by rewrite Hf.
Qed.

End SegmentFacts.
