(* ===== verification/SegmentManager.v ===== *)
(** * The segment manager

    [internal/segment/segment_manager.go]: writes batches of WAL rows into
    the current segment, rotating to a new file when a row no longer fits,
    and records in the index where every row starts.

    The state is the world, the mutex, the current segment, the index and
    the index updates of the goroutines that [writeBatch] has spawned and
    that have not run yet; [run_pending] lets one of them run.  [Lock] on a
    mutex that is held blocks forever, since in every path where the code
    returns without unlocking no other call can unlock it. *)

From S2P Require Import Prelude Encoding WalRecord FileSystem Index Segment.

Module Manager.
Section manager.
Context {I : Type} `{!IndexManager I}.

Record t := mk {
  locked : bool;
  curSeg : FileSegment.t;
  im : I;
  pending : list (gmap N IndexEntry)
}.

(** The state of a method. *)
Record st := mkSt { world : World; mgr : t }.

Definition NewSegmentManager (im : I) (segment : FileSegment.t) : t :=
  mk false segment im [].

Definition on_seg {A} (c : Go FileSegment.st A) : Go st A :=
  go_zoom (fun s => (world s, curSeg (mgr s)))
    (fun ws s => mkSt (fst ws) (mk (locked (mgr s)) (snd ws) (im (mgr s)) (pending (mgr s)))) c.

Definition on_world {A} (c : Go World A) : Go st A :=
  go_zoom world (fun w s => mkSt w (mgr s)) c.

Definition set_locked (b : bool) (s : st) : st :=
  mkSt (world s) (mk b (curSeg (mgr s)) (im (mgr s)) (pending (mgr s))).

(** [s.m.Lock()], [s.m.Unlock()] and [s.m.RLock()] (released at the end of
    the only method that takes it). *)
Definition Lock : Go st unit :=
  fun s => if locked (mgr s) then (Blocks, s) else (Ret tt, set_locked true s).
Definition Unlock : Go st unit := go_put (set_locked false).
Definition RLock : Go st unit :=
  fun s => if locked (mgr s) then (Blocks, s) else (Ret tt, s).

Definition GetIndex (lsn : N) : Go st (result IndexEntry) :=
  go_get (fun s => im_GetIndex lsn (im (mgr s))).

Definition AddBatchIndex (entries : gmap N IndexEntry) : Go st unit :=
  go_put (fun s => mkSt (world s)
    (mk (locked (mgr s)) (curSeg (mgr s)) (im_AddBatch entries (im (mgr s))) (pending (mgr s)))).

(** [go s.AddBatchIndex(entries)]. *)
Definition spawn_AddBatchIndex (entries : gmap N IndexEntry) : Go st unit :=
  go_put (fun s => mkSt (world s)
    (mk (locked (mgr s)) (curSeg (mgr s)) (im (mgr s)) (pending (mgr s) ++ [entries]))).

(** The [i]-th spawned goroutine runs. *)
Definition run_pending (i : nat) : Go st unit :=
  fun s =>
    match pending (mgr s) !! i with
    | None => (Ret tt, s)
    | Some entries =>
        AddBatchIndex entries
          (mkSt (world s) (mk (locked (mgr s)) (curSeg (mgr s)) (im (mgr s))
             (delete i (pending (mgr s)))))
    end.

Definition flatten (batch : list bytes) : bytes :=
  foldl (fun buf b => buf ++ b) [] batch.

Definition writeInSeg (data : bytes) : Go st (result unit) :=
  if bool_decide (length data = 0) then go_ret (Ok tt)
  else
    do! Lock in
    let! err := on_seg (FileSegment.Write data) in
    match err with
    | Some e => go_ret (Err e)
    | None => do! Unlock in go_ret (Ok tt)
    end.

(** The loop of [writeBatch] over the rows from index [i] on. *)
Fixpoint entries_loop (batch : list bytes) (name : gostring) (rows : list Row.t) (i : nat)
    (offset : Z) (entries : gmap N IndexEntry) : Go st (gmap N IndexEntry) :=
  match rows with
  | [] => go_ret entries
  | row :: rows' =>
      let entries := <[Row.GetLsnID row := mkEntry 0 name offset]> entries in
      let! b := go_index batch i in
      entries_loop batch name rows' (i + 1) (i64 (offset + len b)) entries
  end.

Definition writeBatch (batch : list bytes) (rows : list Row.t) : Go st (result unit) :=
  let! seg := go_get (fun s => curSeg (mgr s)) in
  let name := FileSegment.GetName seg in
  let offset := FileSegment.CurrentOffset seg in
  let! entries := entries_loop batch name rows 0 offset ∅ in
  let data := flatten batch in
  try! u := writeInSeg data in
  do! spawn_AddBatchIndex entries in
  go_ret (Ok tt).

(** [l[a:b]]. *)
Definition slice {A} (l : list A) (a b : nat) : list A := take (b - a) (drop a l).

(** The loop of [processBatches]: [rest] is [batch[i:]]. *)
Fixpoint batches_loop (batch : list bytes) (rows : list Row.t) (rest : list bytes) (i start : nat)
    (currentSize : Z) : Go st (result unit) :=
  match rest with
  | [] => writeBatch (drop start batch) (drop start rows)
  | b :: rest' =>
      let size := len b in
      let! seg := go_get (fun s => curSeg (mgr s)) in
      if negb (FileSegment.Fits seg (i64 (currentSize + size))) then
        try! u := writeBatch (slice batch start i) (slice rows start i) in
        do! Lock in
        let! err := on_seg FileSegment.Rotate in
        match err with
        | Some e => go_ret (Err e)
        | None =>
            do! Unlock in
            batches_loop batch rows rest' (i + 1) i (i64 (0 + size))
        end
      else batches_loop batch rows rest' (i + 1) start (i64 (currentSize + size))
  end.

Definition processBatches (batch : list bytes) (rows : list Row.t) : Go st (result unit) :=
  let batchSize := foldl (fun n b => i64 (n + (len b + 1))) 0%Z batch in
  let! seg := go_get (fun s => curSeg (mgr s)) in
  if FileSegment.Fits seg batchSize then writeBatch batch rows
  else batches_loop batch rows batch 0 0 0.

Fixpoint createBatch (rows : list Row.t) : result (list bytes) :=
  match rows with
  | [] => Ok []
  | row :: rows' =>
      match Row.Marshal row with
      | Err e => Err e
      | Ok rB => match createBatch rows' with Err e => Err e | Ok batch => Ok (rB :: batch) end
      end
  end.

Definition Write (rows : list Row.t) : Go st (result unit) :=
  match createBatch rows with
  | Err e => go_ret (Err e)
  | Ok batch => processBatches batch rows
  end.

Definition readCurrSegment : Go st (result bytes) :=
  do! RLock in on_seg FileSegment.Read.

Definition readFile (name : gostring) : Go st (result bytes) := on_world (ReadFile name).

Definition ReadSegment (name : gostring) : Go st (result bytes) :=
  let! seg := go_get (fun s => curSeg (mgr s)) in
  if bool_decide (FileSegment.GetName seg = name) then readCurrSegment else readFile name.

End manager.
Arguments t : clear implicits.
Arguments st : clear implicits.
End Manager.

(** ** What the files hold

    The log on disk is described by its layout: the segment files in the
    order of their names, each with the rows it holds; the last one is the
    current segment. *)

Abbreviation layout := (list (gostring * list Row.t)).

(** Where the rows go: [place max size rows] gives the rows appended to the
    current file of [size] bytes, then those of each new file.  A row that
    would take the file past [max] bytes starts a new one. *)
Definition cons_hd {A} (x : A) (l : list (list A)) : list (list A) :=
  match l with [] => [[x]] | g :: gs => (x :: g) :: gs end.

Fixpoint place (max size : Z) (rows : list Row.t) : list (list Row.t) :=
  match rows with
  | [] => [[]]
  | r :: rows' =>
      let n := len (Row.encode r) in
      if (size + n <=? max)%Z then cons_hd r (place max (size + n) rows')
      else [] :: cons_hd r (place max n rows')
  end.

(** The layout after the groups of [place] were written, the new files taking
    the names [names]. *)
Definition grow (L : layout) (names : list gostring) (gs : list (list Row.t)) : layout :=
  match last L, gs with
  | Some (n, rs), g :: gs' => take (length L - 1) L ++ (n, rs ++ g) :: zip names gs'
  | _, _ => L
  end.

(** The names the next [k] rotations take. *)
Definition new_names (w : World) (k : nat) : list gostring :=
  (fun i => seg_name (clock w (now_calls w + i))) <$> seq 0 k.

(** From now until its reading number [B], the clock ticks between two
    readings, shows microseconds that have sixteen digits, and is ahead of the
    names in use. *)
Definition fresh_clock (B : nat) (w : World) (names : list gostring) : Prop :=
  forall i, now_calls w <= i < B ->
    valid_micro (clock w i) /\ (forall j, i < j < B -> (clock w i < clock w j)%Z) /\
    Forall (fun m => gostr_ltb m (seg_name (clock w i)) = true) names.

(** [e] locates a row with the identifier [lsn] in the layout: its file and
    the offset at which its record starts. *)
Definition entry_ok (L : layout) (lsn : N) (e : IndexEntry) : Prop :=
  exists L1 rs1 r rs2 L2,
    L = L1 ++ (FileName e, rs1 ++ r :: rs2) :: L2 /\
    Row.lsnID r = lsn /\ Offset e = len (Row.encode_rows rs1).

Definition rows_of (L : layout) : list Row.t := concat L.*2.

Module ManagerFacts.
Import Manager SegmentFacts.

Section facts.
Context {I : Type} `{!IndexManager I} `{!IndexLaws I}.
Context (d : FileSystem.path) (B : nat).

(** The directory [d] holds exactly the layout [L]. *)
Record dir_on (L : layout) (w : World) : Prop := {
  do_ff : fault_free w;
  do_ex : dir_exists (nodes w) d;
  do_entries : entries (nodes w) d = L.*1;
  do_files : Forall (fun f =>
    nodes w !! child d f.1 = Some (FileNode (Row.encode_rows f.2))) L;
  do_wf : Forall Row.wf (rows_of L);
  do_plain : Forall plain_name L.*1;
  do_clock : fresh_clock B w L.*1
}.

(** A manager runs on it: nobody holds the lock and the current segment is
    the last file. *)
Record log_on (L : layout) (s : st I) : Prop := {
  lo_unlocked : locked (mgr s) = false;
  lo_dir : dir_on L (world s);
  lo_cur : exists L0 n rs, L = L0 ++ [(n, rs)] /\
    seg_on (world s) d n (Row.encode_rows rs) (curSeg (mgr s))
}.

(** An entry the index has, or that a spawned update will give it. *)
Definition knows (m : t I) (lsn : N) (e : IndexEntry) : Prop :=
  im_abs (im m) !! lsn = Some e \/ exists es, es ∈ pending m /\ es !! lsn = Some e.

(** The index locates rows of the layout only, and all of them. *)
Record idx_on (L : layout) (s : st I) : Prop := {
  io_sound : forall lsn e, knows (mgr s) lsn e -> entry_ok L lsn e;
  io_complete : forall r, r ∈ rows_of L -> exists e, knows (mgr s) (Row.lsnID r) e
}.

(** *** The entries of a batch *)

Fixpoint entries_of (name : gostring) (off : Z) (rows : list Row.t) (m : gmap N IndexEntry)
  : gmap N IndexEntry :=
  match rows with
  | [] => m
  | r :: rows' =>
      entries_of name (off + len (Row.encode r)) rows' (<[Row.lsnID r := mkEntry 0 name off]> m)
  end.

Lemma entries_loop_of name pre rows off m (s : st I) :
  (0 <= off)%Z -> (off + len (Row.encode_rows rows) < 2 ^ 63)%Z ->
  entries_loop (Row.encode <$> (pre ++ rows)) name rows (length pre) off m s =
  (Ret (entries_of name off rows m), s).
Proof.
  revert pre off m. induction rows as [|r rows IH]; intros pre off m H0 Hb; [done|].
  rewrite Row.len_encode_rows_cons in Hb.
  pose proof (len_nonneg (Row.encode r)). pose proof (len_nonneg (Row.encode_rows rows)).
  cbn [entries_loop entries_of]. rewrite (go_index_Some _ _ (Row.encode r)).
  - unfold go_bind, go_ret. rewrite i64_id by lia. unfold Row.GetLsnID.
    rewrite cons_middle, (assoc_L (++)). replace (length pre + 1) with (length (pre ++ [r]))
      by (rewrite length_app; simpl; lia). apply IH; lia.
  - rewrite list_lookup_fmap, list_lookup_middle by done. done.
Qed.

Lemma entries_of_sound name off rows m lsn e :
  entries_of name off rows m !! lsn = Some e ->
  m !! lsn = Some e \/
  exists rs1 r rs2, rows = rs1 ++ r :: rs2 /\ Row.lsnID r = lsn /\
    e = mkEntry 0 name (off + len (Row.encode_rows rs1)).
Proof.
  revert off m. induction rows as [|r rows IH]; intros off m H; [by left|].
  apply IH in H as [H|(rs1 & r' & rs2 & -> & Hl & ->)].
  - destruct (decide (Row.lsnID r = lsn)) as [<-|Hne].
    + rewrite lookup_insert_eq in H. right. exists [], r, rows. split; [done|]. split; [done|].
      change (len (Row.encode_rows [])) with 0%Z. rewrite Z.add_0_r. congruence.
    + rewrite lookup_insert_ne in H by done. by left.
  - right. exists (r :: rs1), r', rs2. split; [done|]. split; [done|].
    rewrite Row.len_encode_rows_cons. f_equal. lia.
Qed.

Lemma entries_of_mono name off rows m lsn :
  is_Some (m !! lsn) -> is_Some (entries_of name off rows m !! lsn).
Proof.
  revert off m. induction rows as [|r rows IH]; intros off m H; [done|].
  apply IH. destruct (decide (Row.lsnID r = lsn)) as [<-|Hne].
  - rewrite lookup_insert_eq. eauto.
  - by rewrite lookup_insert_ne.
Qed.

Lemma entries_of_complete name off rows m r :
  r ∈ rows -> is_Some (entries_of name off rows m !! Row.lsnID r).
Proof.
  revert off m. induction rows as [|r' rows IH]; intros off m; [by intros ?%not_elem_of_nil|].
  cbn [entries_of]. intros [->|H]%elem_of_cons; [|by apply IH].
  apply entries_of_mono. rewrite lookup_insert_eq. eauto.
Qed.

(** *** Layouts *)

Lemma rows_of_snoc L0 n rs : rows_of (L0 ++ [(n, rs)]) = rows_of L0 ++ rs.
Proof. unfold rows_of. rewrite fmap_app, concat_app. simpl. by rewrite (right_id_L [] (++)). Qed.

Lemma entry_ok_append L0 n rs g lsn e :
  entry_ok (L0 ++ [(n, rs)]) lsn e -> entry_ok (L0 ++ [(n, rs ++ g)]) lsn e.
Proof.
  intros (L1 & rs1 & r & rs2 & L2 & E & Hr & Ho).
  destruct L2 as [|x L2 _] using rev_ind.
  - apply app_inj_tail in E as [-> [= -> ->]].
    exists L1, rs1, r, (rs2 ++ g), []. by rewrite <-(assoc_L (++)).
  - rewrite app_comm_cons, (assoc_L (++)) in E. apply app_inj_tail in E as [-> <-].
    exists L1, rs1, r, rs2, (L2 ++ [(n, rs ++ g)]). by rewrite <-(assoc_L (++)), app_comm_cons.
Qed.

Lemma entry_ok_new_file L f lsn e : entry_ok L lsn e -> entry_ok (L ++ [f]) lsn e.
Proof.
  intros (L1 & rs1 & r & rs2 & L2 & -> & Hr & Ho).
  exists L1, rs1, r, rs2, (L2 ++ [f]). by rewrite <-(assoc_L (++)), app_comm_cons.
Qed.

Lemma entry_ok_last L0 n rs rs1 r rs2 :
  entry_ok (L0 ++ [(n, rs ++ rs1 ++ r :: rs2)]) (Row.lsnID r)
    (mkEntry 0 n (len (Row.encode_rows rs) + len (Row.encode_rows rs1))).
Proof.
  exists L0, (rs ++ rs1), r, rs2, []. cbn [FileName Offset].
  by rewrite Row.len_encode_rows_app, <-(assoc_L (++)).
Qed.

(** *** One group of rows *)

(** The parts of the manager's state no write changes. *)
Definition same_env (s s' : st I) : Prop :=
  clock (world s') = clock (world s) /\
  FileSegment.maxSize (curSeg (mgr s')) = FileSegment.maxSize (curSeg (mgr s)) /\
  FileSegment.path (curSeg (mgr s')) = FileSegment.path (curSeg (mgr s)).

Lemma flatten_concat batch : flatten batch = concat batch.
Proof.
  unfold flatten. enough (forall l buf, foldl (fun buf b => buf ++ b) buf l = buf ++ concat l) as H
    by (by rewrite H).
  induction l as [|b l IH]; intros buf; simpl; [by rewrite (right_id_L [] (++))|].
  by rewrite IH, (assoc_L (++)).
Qed.

Lemma dir_on_NoDup L w : dir_on L w -> NoDup L.*1.
Proof. intros H. rewrite <-(do_entries _ _ H). apply entries_NoDup. Qed.

Lemma child_inj n m : child d n = child d m -> n = m.
Proof. intros [= H]. by simplify_list_eq. Qed.

(** Appending to the last file leaves the others as they are. *)
Lemma files_append (ns : gmap FileSystem.path node) L0 n rs (b : node) :
  NoDup (L0 ++ [(n, rs)]).*1 ->
  Forall (fun f => ns !! child d f.1 = Some (FileNode (Row.encode_rows f.2))) (L0 ++ [(n, rs)]) ->
  Forall (fun f => <[child d n := b]> ns !! child d f.1 = Some (FileNode (Row.encode_rows f.2))) L0.
Proof.
  rewrite fmap_app, Forall_app. intros Hnd [H _]. apply NoDup_app in Hnd as (_ & Hnd & _).
  rewrite Forall_forall in *. intros [m rm] Hm. rewrite lookup_insert_ne; [by apply (H _ Hm)|].
  intros E%child_inj. simpl in E. subst m. apply (Hnd n); [|by apply list_elem_of_singleton].
  apply list_elem_of_fmap. by exists (n, rm).
Qed.

Lemma dir_on_append L0 n rs g w w' :
  dir_on (L0 ++ [(n, rs)]) w -> Forall Row.wf g -> fault_free w' ->
  nodes w' = <[child d n := FileNode (Row.encode_rows (rs ++ g))]> (nodes w) ->
  clock w' = clock w -> now_calls w' = now_calls w ->
  dir_on (L0 ++ [(n, rs ++ g)]) w'.
Proof.
  intros H Hg Hff Hn Hc Hnc.
  assert ((L0 ++ [(n, rs ++ g)]).*1 = (L0 ++ [(n, rs)]).*1) as Hnames by by rewrite !fmap_app.
  assert (nodes w !! child d n = Some (FileNode (Row.encode_rows rs))) as Hold.
  { pose proof (do_files _ _ H) as F. by apply Forall_app, proj2, Forall_inv in F. }
  constructor; rewrite ?Hnames; try done.
  - rewrite Hn. apply dir_exists_child, H.
  - rewrite Hn. rewrite (entries_overwrite _ _ _ _ _ Hold). apply H.
  - rewrite Hn. apply Forall_app. split.
    + eapply files_append; [by eapply dir_on_NoDup|apply H].
    + constructor; [|done]. by rewrite lookup_insert_eq.
  - pose proof (do_wf _ _ H) as F. rewrite rows_of_snoc in *.
    rewrite (assoc_L (++)). by apply Forall_app.
  - apply H.
  - unfold fresh_clock. rewrite Hc, Hnc. apply H.
Qed.

(** The name the clock gives next is not in use. *)
Lemma next_name_fresh L w :
  dir_on L w -> now_calls w < B -> let n := seg_name (clock w (now_calls w)) in
  (n ∉ L.*1) /\ nodes w !! child d n = None.
Proof.
  intros H HB n. destruct (do_clock _ _ H (now_calls w)) as (_ & _ & Hlt); [lia|].
  assert (n ∉ L.*1) as Hfresh.
  { intros Hin. rewrite Forall_forall in Hlt. by apply Hlt, gostr_ltb_spec in Hin as [_ ?]. }
  split; [done|]. destruct (nodes w !! child d n) eqn:E; [|done]. destruct Hfresh.
  rewrite <-(do_entries _ _ H). apply elem_of_entries. fold (child d n). rewrite E. eauto.
Qed.

(** Creating the file of that name. *)
Lemma dir_on_new_file L w w' :
  let n := seg_name (clock w (now_calls w)) in
  dir_on L w -> now_calls w < B ->
  fault_free w' -> nodes w' = <[child d n := FileNode []]> (nodes w) ->
  clock w' = clock w -> now_calls w' = S (now_calls w) ->
  dir_on (L ++ [(n, [])]) w'.
Proof.
  intros n H HB Hff Hn Hc Hnc. destruct (next_name_fresh L w H HB) as [Hfresh _]. fold n in Hfresh.
  destruct (do_clock _ _ H (now_calls w)) as (Hv & Hmono & Hlt); [lia|].
  constructor; try done.
  - rewrite Hn. apply dir_exists_child, H.
  - rewrite Hn. unfold child. rewrite entries_snoc; rewrite (do_entries _ _ H); [|done].
    by rewrite fmap_app.
  - rewrite Hn. apply Forall_app. split.
    + pose proof (do_files _ _ H) as F. rewrite Forall_forall in *. intros f Hf.
      rewrite lookup_insert_ne; [by apply F|]. intros E%child_inj. apply Hfresh.
      rewrite E. by apply list_elem_of_fmap_2.
    + constructor; [|done]. cbn [fst snd]. by rewrite lookup_insert_eq.
  - rewrite rows_of_snoc, (right_id_L [] (++)). apply H.
  - rewrite fmap_app. apply Forall_app. split; [apply H|]. constructor; [|done].
    by apply seg_name_plain.
  - intros i Hge. rewrite Hc. rewrite Hnc in Hge.
    destruct (do_clock _ _ H i) as (Hvi & Hmi & Hli); [lia|]. split; [done|]. split; [done|].
    rewrite fmap_app. apply Forall_app. split; [done|]. constructor; [|done].
    apply seg_name_lt; [done..|]. apply Hmono. lia.
Qed.

Lemma idx_on_append L0 n rs g es (s s' : st I) :
  idx_on (L0 ++ [(n, rs)]) s ->
  es = entries_of n (len (Row.encode_rows rs)) g ∅ ->
  im (mgr s') = im (mgr s) -> pending (mgr s') = pending (mgr s) ++ [es] ->
  idx_on (L0 ++ [(n, rs ++ g)]) s'.
Proof.
  intros [Hs Hc] -> Him Hp.
  assert (forall lsn e, knows (mgr s) lsn e -> knows (mgr s') lsn e) as Hk.
  { intros lsn e [H|(es & H & He)]; [left; by rewrite Him|right].
    exists es. rewrite Hp, elem_of_app. auto. }
  constructor.
  - intros lsn e [H|(es & H & He)].
    + apply entry_ok_append, Hs. left. by rewrite <-Him.
    + rewrite Hp, elem_of_app, list_elem_of_singleton in H. destruct H as [H| ->].
      * apply entry_ok_append, Hs. right. eauto.
      * apply entries_of_sound in He as [He|(rs1 & r & rs2 & -> & <- & ->)].
        -- by rewrite lookup_empty in He.
        -- apply entry_ok_last.
  - intros r. rewrite rows_of_snoc, (assoc_L (++)), <-(rows_of_snoc _ n), elem_of_app.
    intros [Hr|Hr].
    + destruct (Hc r Hr) as [e He]. eauto.
    + destruct (entries_of_complete n (len (Row.encode_rows rs)) g ∅ r Hr) as [e He].
      exists e. right. eexists. rewrite Hp, elem_of_app, list_elem_of_singleton. eauto.
Qed.

Lemma writeInSeg_on L0 n rs g (s : st I) :
  log_on (L0 ++ [(n, rs)]) s -> Forall Row.wf g ->
  (len (Row.encode_rows (rs ++ g)) < 2 ^ 63)%Z ->
  exists s', writeInSeg (Row.encode_rows g) s = (Ret (Ok tt), s') /\
    log_on (L0 ++ [(n, rs ++ g)]) s' /\ same_env s s' /\
    now_calls (world s') = now_calls (world s) /\
    im (mgr s') = im (mgr s) /\ pending (mgr s') = pending (mgr s).
Proof.
  intros H Hg Hb. unfold writeInSeg. case_bool_decide as Hz.
  { apply nil_length_inv, Row.encode_rows_nil_inv in Hz as ->. rewrite (right_id_L [] (++)).
    exists s. split; [done|]. split; [done|]. by repeat split. }
  destruct (lo_cur _ _ H) as (L0' & n' & rs' & E & Hso).
  apply app_inj_tail in E as [<- [= <- <-]].
  unfold Lock, go_bind. rewrite (lo_unlocked _ _ H). unfold on_seg, go_zoom.
  cbn [set_locked world mgr curSeg]. rewrite Row.encode_rows_app, len_app in Hb.
  destruct (seg_Write_on (world s) d n (Row.encode_rows rs) (curSeg (mgr s)) (Row.encode_rows g))
    as (w' & s' & -> & Ew & Hso' & Hp & Hm & _); [apply H|done|done|].
  cbn [fst snd]. unfold Unlock, go_put, go_ret. eexists. split; [reflexivity|].
  rewrite <-Row.encode_rows_app in *. pose proof (lo_dir _ _ H) as Hd.
  split; [|by subst w'; repeat split]. constructor; [done| |by eauto].
  eapply dir_on_append; [done|done|subst w'; apply Hd|by subst w'..].
Qed.

Lemma writeBatch_on L0 n rs g (s : st I) :
  log_on (L0 ++ [(n, rs)]) s -> idx_on (L0 ++ [(n, rs)]) s -> Forall Row.wf g ->
  (len (Row.encode_rows (rs ++ g)) < 2 ^ 63)%Z ->
  exists s', writeBatch (Row.encode <$> g) g s = (Ret (Ok tt), s') /\
    log_on (L0 ++ [(n, rs ++ g)]) s' /\ idx_on (L0 ++ [(n, rs ++ g)]) s' /\ same_env s s' /\
    now_calls (world s') = now_calls (world s).
Proof.
  intros H Hi Hg Hb. destruct (lo_cur _ _ H) as (L0' & n' & rs' & E & Hso).
  apply app_inj_tail in E as [<- [= <- <-]].
  unfold writeBatch, go_get. unfold go_bind at 1. unfold go_bind at 1.
  unfold FileSegment.CurrentOffset. rewrite (so_size _ _ _ _ _ Hso), (GetName_on _ _ _ _ _ Hso).
  rewrite (entries_loop_of n [] g); cycle 1.
  { apply len_nonneg. } { by rewrite <-Row.len_encode_rows_app. }
  rewrite flatten_concat. fold (Row.encode_rows g). destruct (writeInSeg_on L0 n rs g s H Hg Hb)
    as (s' & Hw & Hlo & He & Hnc & Him & Hp).
  unfold go_bind. rewrite Hw. unfold spawn_AddBatchIndex, go_put, go_ret.
  eexists. split; [reflexivity|]. split; [|split; [|split; [exact He|exact Hnc]]].
  - destruct Hlo. by constructor.
  - by eapply idx_on_append; [done|reflexivity|cbn [mgr im pending]; congruence..].
Qed.

(** *** A rotation *)

Definition rotate : Go (st I) (result unit) :=
  do! Lock in
  let! err := on_seg FileSegment.Rotate in
  match err with
  | Some e => go_ret (Err e)
  | None => do! Unlock in go_ret (Ok tt)
  end.

Lemma rotate_on L (s : st I) :
  log_on L s -> idx_on L s -> now_calls (world s) < B ->
  let n := seg_name (clock (world s) (now_calls (world s))) in
  exists s', rotate s = (Ret (Ok tt), s') /\
    log_on (L ++ [(n, [])]) s' /\ idx_on (L ++ [(n, [])]) s' /\ same_env s s' /\
    now_calls (world s') = S (now_calls (world s)).
Proof.
  intros H Hi HB n. destruct (lo_cur _ _ H) as (L0 & n0 & rs & HL & Hso).
  pose proof (lo_dir _ _ H) as Hd. destruct (next_name_fresh _ _ Hd HB) as [_ Hnew].
  destruct (do_clock _ _ Hd (now_calls (world s))) as (Hv & _ & _); [lia|].
  unfold rotate, Lock, go_bind. rewrite (lo_unlocked _ _ H). unfold on_seg, go_zoom.
  cbn [set_locked world mgr curSeg].
  destruct (Rotate_on (world s) d n0 (Row.encode_rows rs) (curSeg (mgr s)))
    as (w' & s' & -> & Hn & Hff & Hc & Hnc & Hso' & Hp & Hm); [apply Hd|done|done|done|].
  cbn [fst snd]. unfold Unlock, go_put, go_ret.
  eexists. split; [reflexivity|]. split; [|split; [|done]].
  - constructor; [done| |eauto]. by apply (dir_on_new_file L (world s) w').
  - destruct Hi as [Hs Hcm]. constructor.
    + intros lsn e Hk. by apply entry_ok_new_file, Hs.
    + intros r. rewrite rows_of_snoc, (right_id_L [] (++)). apply Hcm.
Qed.

Lemma rotate_inline {A} (k : Go (st I) (result A)) (s s' : st I) :
  rotate s = (Ret (Ok tt), s') ->
  (do! Lock in
   let! err := on_seg FileSegment.Rotate in
   match err with
   | Some e => go_ret (Err e)
   | None => do! Unlock in k
   end) s = k s'.
Proof.
  unfold rotate, go_bind, Lock, Unlock, go_put, go_ret. destruct (locked (mgr s)); [done|].
  destruct (on_seg FileSegment.Rotate _) as [[[e|]| |] s1]; intros [= <-]; done.
Qed.

(** *** The loop over a batch *)

Lemma place_cons max size rows : exists g gs, place max size rows = g :: gs.
Proof.
  destruct rows as [|r rows]; simpl; [eauto|]. destruct (_ <=? _)%Z; [|eauto].
  destruct (place max _ rows); simpl; eauto.
Qed.

Lemma cons_hd_place max size rows r g gs :
  cons_hd r (place max size rows) = g :: gs ->
  exists g', place max size rows = g' :: gs /\ g = r :: g'.
Proof. destruct (place_cons max size rows) as (g1 & gs1 & ->). intros [= <- <-]. eauto. Qed.

Lemma new_names_S (w w' : World) k :
  clock w' = clock w -> now_calls w' = S (now_calls w) ->
  new_names w (S k) = seg_name (clock w (now_calls w)) :: new_names w' k.
Proof.
  intros Hc Hn. unfold new_names. rewrite <-cons_seq, <-fmap_S_seq. cbn [fmap list_fmap].
  rewrite Nat.add_0_r, Hc, Hn. f_equal. rewrite <-list_fmap_compose.
  apply list_fmap_ext. intros _ i _. simpl. do 2 f_equal. lia.
Qed.

Lemma new_names_env (w w' : World) k :
  clock w' = clock w -> now_calls w' = now_calls w -> new_names w' k = new_names w k.
Proof. intros Hc Hn. unfold new_names. by rewrite Hc, Hn. Qed.

Lemma slice_app {A} (pre mid post : list A) :
  slice (pre ++ mid ++ post) (length pre) (length (pre ++ mid)) = mid.
Proof.
  unfold slice. rewrite drop_app_length, length_app, Nat.add_comm, Nat.add_sub.
  apply take_app_length.
Qed.

Lemma slice_fmap {T U} (f : T -> U) l a b : slice (f <$> l) a b = f <$> slice l a b.
Proof. unfold slice. by rewrite fmap_take, fmap_drop. Qed.

Lemma same_env_trans s1 s2 s3 : same_env s1 s2 -> same_env s2 s3 -> same_env s1 s3.
Proof. intros (?&?&?) (?&?&?). repeat split; congruence. Qed.

(** The rotating branch of the loop. *)
Lemma write_rotate_on {A} L0 n rs g (s : st I) :
  log_on (L0 ++ [(n, rs)]) s -> idx_on (L0 ++ [(n, rs)]) s -> Forall Row.wf g ->
  (len (Row.encode_rows (rs ++ g)) < 2 ^ 63)%Z -> now_calls (world s) < B ->
  let L' := (L0 ++ [(n, rs ++ g)]) ++ [(seg_name (clock (world s) (now_calls (world s))), [])] in
  exists s',
    (forall k : Go (st I) (result A),
      (try! u := writeBatch (Row.encode <$> g) g in
       do! Lock in
       let! err := on_seg FileSegment.Rotate in
       match err with
       | Some e => go_ret (Err e)
       | None => do! Unlock in k
       end) s = k s') /\
    log_on L' s' /\ idx_on L' s' /\ same_env s s' /\
    now_calls (world s') = S (now_calls (world s)).
Proof.
  intros H Hi Hg Hb HB L'.
  destruct (writeBatch_on L0 n rs g s) as (s1 & E1 & H1 & Hi1 & He1 & Hn1); try done.
  destruct (rotate_on _ s1 H1 Hi1) as (s2 & E2 & H2 & Hi2 & He2 & Hn2); [by rewrite Hn1|].
  destruct He1 as (Ec & He1). rewrite Ec, Hn1 in *.
  exists s2. split; [|split; [done|split; [done|]]].
  - intros k. rewrite (go_bind_ret _ _ _ _ _ E1). by apply rotate_inline.
  - split; [|congruence]. eapply same_env_trans; [|done]. by split.
Qed.

Lemma batches_loop_on todo pre pend L0 n rs g gs (s : st I) :
  log_on (L0 ++ [(n, rs)]) s -> idx_on (L0 ++ [(n, rs)]) s ->
  Forall Row.wf (pend ++ todo) ->
  (len (Row.encode_rows rs) + len (Row.encode_rows (pend ++ todo)) < 2 ^ 63)%Z ->
  place (FileSegment.maxSize (curSeg (mgr s))) (len (Row.encode_rows (rs ++ pend))) todo = g :: gs ->
  now_calls (world s) + length gs <= B ->
  let rows := pre ++ pend ++ todo in
  let L' := L0 ++ (n, rs ++ pend ++ g) :: zip (new_names (world s) (length gs)) gs in
  exists s',
    batches_loop (Row.encode <$> rows) rows (Row.encode <$> todo)
      (length (pre ++ pend)) (length pre) (len (Row.encode_rows pend)) s = (Ret (Ok tt), s') /\
    log_on L' s' /\ idx_on L' s' /\ same_env s s' /\
    now_calls (world s') = now_calls (world s) + length gs.
Proof.
  revert pre pend L0 n rs g gs s.
  induction todo as [|r todo IH]; intros pre pend L0 n rs g gs s H Hi Hwf Hb Hpl HB rows L'.
  { cbn [place] in Hpl. injection Hpl as <- <-. unfold rows, L'. rewrite fmap_nil.
    cbn [batches_loop zip_with length]. rewrite (right_id_L [] (++)), Nat.add_0_r in *.
    rewrite <-fmap_drop, drop_app_length.
    apply writeBatch_on; try done. by rewrite Row.len_encode_rows_app. }
  rewrite (fmap_cons _ r). cbn [batches_loop]. unfold go_get. unfold go_bind at 1.
  destruct (lo_cur _ _ H) as (L0' & n' & rs' & E & Hso).
  apply app_inj_tail in E as [<- [= <- <-]]. cbn [place] in Hpl.
  rewrite !Row.len_encode_rows_app, ?Row.len_encode_rows_cons in *.
  unfold FileSegment.Fits. rewrite (so_size _ _ _ _ _ Hso).
  rewrite (i64_id (_ + len (Row.encode r))), i64_id by lens.
  rewrite <-Z.add_assoc, (Z.add_comm (len (Row.encode r))), Z.add_assoc,
    (Z.add_comm (len (Row.encode_rows pend))) in *.
  destruct (_ <=? _)%Z eqn:Hfit; cbn [negb].
  - apply cons_hd_place in Hpl as (g1 & Epl & ->).
    destruct (IH pre (pend ++ [r]) L0 n rs g1 gs s) as (s' & E & H'); try done.
    { by rewrite <-(assoc_L (++)). }
    { rewrite !Row.len_encode_rows_app, Row.len_encode_rows_one. lia. }
    { by rewrite (assoc_L (++)), !Row.len_encode_rows_app, Row.len_encode_rows_one. }
    exists s'. unfold rows, L'. rewrite <-!(assoc_L (++)) in E, H'. split; [|done].
    rewrite <-E, Row.len_encode_rows_app, Row.len_encode_rows_one. f_equal.
    rewrite !length_app. simpl. lia.
  - injection Hpl as <- <-. apply Forall_app in Hwf as [Hwp Hwt].
    destruct (place_cons (FileSegment.maxSize (curSeg (mgr s))) (len (Row.encode r)) todo)
      as (g1 & gs1 & Epl). unfold rows, L'. rewrite Epl in *. cbn [cons_hd length] in *.
    destruct (write_rotate_on (A := unit) L0 n rs pend s) as (s1 & E1 & H1 & Hi1 & He1 & Hn1); try done.
    { rewrite Row.len_encode_rows_app. lens. } { lia. }
    rewrite slice_fmap, slice_app, E1.
    destruct (IH (pre ++ pend) [r] _ _ [] g1 gs1 s1 H1 Hi1) as (s2 & E2 & H2 & Hi2 & He2 & Hn2).
    { done. }
    { rewrite Row.len_encode_rows_app, Row.len_encode_rows_one.
      change (len (Row.encode_rows [])) with 0%Z. lens. }
    { cbn [app]. rewrite Row.len_encode_rows_one. destruct He1 as (_ & -> & _). done. }
    { lia. }
    rewrite (new_names_S (world s) (world s1)) by (apply He1 || done).
    rewrite <-!(assoc_L (++)) in H2, Hi2. rewrite (right_id_L [] (++)).
    exists s2. split; [|split; [done|split; [done|split; [by eapply same_env_trans|lia]]]].
    rewrite Z.add_0_l, i64_id by lens. rewrite <-E2, Row.len_encode_rows_one, <-!(assoc_L (++)).
    f_equal. rewrite !length_app. simpl. lia.
Qed.

(** *** Where [place] puts the rows *)

(** A group that fills a new file: within the limit, or one record. *)
Definition group_ok (max : Z) (g : list Row.t) : Prop :=
  (len (Row.encode_rows g) <= max)%Z \/ exists r, g = [r].

Lemma place_spec max size rows g gs :
  place max size rows = g :: gs ->
  rows = g ++ concat gs /\
  (g = [] \/ (size + len (Row.encode_rows g) <= max)%Z) /\ Forall (group_ok max) gs.
Proof.
  revert size g gs. induction rows as [|r rows IH]; intros size g gs; cbn [place].
  { intros [= <- <-]. auto. }
  destruct (Z.leb_spec (size + len (Row.encode r)) max) as [Hle|Hgt].
  - intros (g' & E & ->)%cons_hd_place. apply IH in E as (-> & Hg & Hgs).
    split; [done|]. split; [|done]. right. rewrite Row.len_encode_rows_cons.
    destruct Hg as [-> |Hg]; [|lia]. change (len (Row.encode_rows [])) with 0%Z. lia.
  - intros [= <- <-]. destruct (place_cons max (len (Row.encode r)) rows) as (g1 & gs1 & E).
    rewrite E. apply IH in E as (-> & Hg & Hgs). split; [done|]. split; [by left|].
    constructor; [|done]. destruct Hg as [-> |Hg]; [right; by exists r|left].
    by rewrite Row.len_encode_rows_cons.
Qed.

(** A batch that fits goes into the current file whole. *)
Lemma place_fits max size rows :
  (size + len (Row.encode_rows rows) <= max)%Z -> place max size rows = [rows].
Proof.
  revert size. induction rows as [|r rows IH]; intros size Hle; [done|]. cbn [place].
  rewrite Row.len_encode_rows_cons in Hle. destruct (Z.leb_spec (size + len (Row.encode r)) max).
  - rewrite IH by lia. done.
  - lens.
Qed.

Lemma grow_snoc L0 n rs names g gs :
  grow (L0 ++ [(n, rs)]) names (g :: gs) = L0 ++ (n, rs ++ g) :: zip names gs.
Proof.
  unfold grow. rewrite last_snoc, length_app. cbn [length]. rewrite Nat.add_sub.
  by rewrite take_app_length.
Qed.

Lemma rows_of_grow L0 n rs names g gs :
  length names = length gs ->
  rows_of (grow (L0 ++ [(n, rs)]) names (g :: gs)) = rows_of (L0 ++ [(n, rs)]) ++ g ++ concat gs.
Proof.
  intros Hl. rewrite grow_snoc, rows_of_snoc. unfold rows_of.
  rewrite fmap_app, concat_app. cbn [fmap list_fmap concat snd].
  rewrite snd_zip by lia. by rewrite <-!(assoc_L (++)).
Qed.

Lemma length_new_names w k : length (new_names w k) = k.
Proof. unfold new_names. by rewrite length_fmap, length_seq. Qed.

(** Every row starts at most one new file. *)
Lemma length_place max size rows : length (place max size rows) <= S (length rows).
Proof.
  revert size. induction rows as [|r rows IH]; intros size; cbn [place length]; [lia|].
  destruct (_ <=? _)%Z; cbn [length].
  - destruct (place_cons max (size + len (Row.encode r)) rows) as (g & gs & E).
    specialize (IH (size + len (Row.encode r))%Z). rewrite E in *. simpl in *. lia.
  - destruct (place_cons max (len (Row.encode r)) rows) as (g & gs & E).
    specialize (IH (len (Row.encode r))). rewrite E in *. simpl in *. lia.
Qed.

(** *** [Write] *)

Lemma createBatch_wf rows : Forall Row.wf rows -> createBatch rows = Ok (Row.encode <$> rows).
Proof.
  induction 1 as [|r rows Hr _ IH]; [done|]. cbn [createBatch]. rewrite Row.Marshal_wf by done.
  by rewrite IH.
Qed.

Lemma batchSize_sum rows n :
  (0 <= n)%Z -> (n + len (Row.encode_rows rows) + len rows < 2 ^ 63)%Z ->
  foldl (fun n b => i64 (n + (len b + 1))) n (Row.encode <$> rows) =
  (n + len (Row.encode_rows rows) + len rows)%Z.
Proof.
  revert n. induction rows as [|r rows IH]; intros n H0 Hb.
  - change (n = n + 0 + 0)%Z. lia.
  - rewrite Row.len_encode_rows_cons in *. rewrite fmap_cons. cbn [foldl].
    replace (len (r :: rows)) with (1 + len rows)%Z in * by (unfold len; simpl; lia).
    rewrite i64_id by lens. rewrite IH; [lia|lens..].
Qed.

(** The layout after [Write rows]. *)
Definition written (L : layout) (rows : list Row.t) (s : st I) : layout :=
  let gs := place (FileSegment.maxSize (curSeg (mgr s))) (FileSegment.size (curSeg (mgr s))) rows in
  grow L (new_names (world s) (length gs - 1)) gs.

Lemma Write_on L rows (s : st I) :
  log_on L s -> idx_on L s -> Forall Row.wf rows ->
  (FileSegment.size (curSeg (mgr s)) + len (Row.encode_rows rows) + len rows < 2 ^ 63)%Z ->
  now_calls (world s) + length rows <= B ->
  exists s', Write rows s = (Ret (Ok tt), s') /\
    log_on (written L rows s) s' /\ idx_on (written L rows s) s' /\ same_env s s' /\
    now_calls (world s') <= now_calls (world s) + length rows.
Proof.
  intros H Hi Hwf Hb HB. destruct (lo_cur _ _ H) as (L0 & n & rs & -> & Hso).
  unfold Write. rewrite createBatch_wf by done. unfold processBatches, go_get. unfold go_bind at 1.
  unfold FileSegment.Fits. unfold written. rewrite (so_size _ _ _ _ _ Hso) in *.
  rewrite batchSize_sum by lens. rewrite i64_id by lens.
  destruct (Z.leb_spec (0 + len (Row.encode_rows rows) + len rows + len (Row.encode_rows rs))
    (FileSegment.maxSize (curSeg (mgr s)))) as [Hle|_].
  - rewrite place_fits by lens. rewrite grow_snoc.
    destruct (writeBatch_on L0 n rs rows s) as (s' & E & H' & Hi' & He & Hn); try done.
    { rewrite Row.len_encode_rows_app. lens. }
    exists s'. do 4 (split; [done|]). lia.
  - destruct (place_cons (FileSegment.maxSize (curSeg (mgr s))) (len (Row.encode_rows rs)) rows)
      as (g & gs & E). rewrite E. cbn [length]. rewrite Nat.sub_succ, Nat.sub_0_r, grow_snoc.
    destruct (batches_loop_on rows [] [] L0 n rs g gs s) as (s' & E' & H' & Hi' & He & Hn); try done.
    { cbn [app]. lens. }
    { by rewrite (right_id_L [] (++)). }
    { pose proof (length_place (FileSegment.maxSize (curSeg (mgr s))) (len (Row.encode_rows rs)) rows).
      rewrite E in *. simpl in *. lia. }
    exists s'. do 4 (split; [done|]).
    pose proof (length_place (FileSegment.maxSize (curSeg (mgr s))) (len (Row.encode_rows rs)) rows).
    rewrite E in *. simpl in *. lia.
Qed.

(** *** Index updates and sequences of calls *)

(** A spawned update runs: what is known stays, and so does the rest. *)
Lemma run_pending_idx L i (s : st I) :
  idx_on L s ->
  exists s', run_pending i s = (Ret tt, s') /\ idx_on L s' /\ world s' = world s /\
    curSeg (mgr s') = curSeg (mgr s) /\ locked (mgr s') = locked (mgr s).
Proof.
  intros [Hs Hc]. unfold run_pending. destruct (pending (mgr s) !! i) as [es|] eqn:Hi; [|by exists s].
  unfold AddBatchIndex, go_put. eexists. split; [reflexivity|]. cbn [world mgr].
  split; [|by repeat split].
  assert (forall x, x ∈ delete i (pending (mgr s)) -> x ∈ pending (mgr s)) as Hd.
  { intros x. rewrite list_elem_of_lookup. intros [j Hj]. rewrite list_elem_of_lookup.
    destruct (decide (j < i)); [rewrite list_lookup_delete_lt in Hj by lia
                               |rewrite list_lookup_delete_ge in Hj by lia]; eauto. }
  constructor.
  - intros lsn e Hk. apply Hs. destruct Hk as [Hk|(es' & Hin & He)]; cbn [mgr im pending] in *.
    + rewrite im_AddBatch_law in Hk. apply lookup_union_Some_raw in Hk as [Hk|[_ Hk]]; [|by left].
      right. exists es. split; [by eapply list_elem_of_lookup_2|done].
    + right. eauto.
  - intros r Hr. destruct (Hc r Hr) as [e [He|(es' & Hin & He)]]; cbn [mgr im pending].
    + destruct (es !! Row.lsnID r) as [e'|] eqn:Ees.
      * exists e'. left. cbn [im]. rewrite im_AddBatch_law. by apply lookup_union_Some_l.
      * exists e. left. cbn [im]. rewrite im_AddBatch_law. by rewrite lookup_union_r.
    + apply (elem_of_Permutation_proper es' _ _ (delete_Permutation _ _ _ Hi)) in Hin.
      apply elem_of_cons in Hin as [-> |Hin].
      * exists e. left. cbn [im]. rewrite im_AddBatch_law. by apply lookup_union_Some_l.
      * exists e. right. eauto.
Qed.

Lemma run_pending_on L i (s : st I) :
  log_on L s -> idx_on L s ->
  exists s', run_pending i s = (Ret tt, s') /\ log_on L s' /\ idx_on L s' /\ same_env s s' /\
    world s' = world s /\ curSeg (mgr s') = curSeg (mgr s).
Proof.
  intros H Hi. destruct (run_pending_idx L i s Hi) as (s' & E & Hi' & Hw & Hseg & Hl).
  exists s'. split; [done|]. split; [|split; [done|]].
  - destruct H as [H1 H2 H3]. constructor; [congruence|by rewrite Hw|by rewrite Hw, Hseg].
  - split; [|by rewrite Hseg]. by unfold same_env; rewrite Hw, Hseg.
Qed.

(** What the index answers. *)
Lemma GetIndex_on L lsn (s : st I) :
  idx_on L s ->
  exists r, GetIndex lsn s = (Ret r, s) /\
    match r with
    | Ok e => entry_ok L lsn e
    | Err err => err = ErrIndexNotFound /\
        (pending (mgr s) = [] -> forall row, row ∈ rows_of L -> Row.lsnID row <> lsn)
    end.
Proof.
  intros [Hs Hc]. unfold GetIndex, go_get. rewrite im_GetIndex_law. unfold map_GetIndex.
  eexists. split; [reflexivity|]. destruct (im_abs (im (mgr s)) !! lsn) as [e|] eqn:E.
  - apply Hs. by left.
  - split; [done|]. intros Hp row Hr <-. destruct (Hc row Hr) as [e [He|(es & Hin & _)]]; [congruence|].
    rewrite Hp in Hin. by apply not_elem_of_nil in Hin.
Qed.

End facts.

(** A run of the manager: calls of [Write] and, in between, spawned index
    updates that get to run. *)
Inductive event :=
| EWrite (rows : list Row.t)
| EIndex (i : nat).

Definition event_rows (e : event) : list Row.t :=
  match e with EWrite rows => rows | EIndex _ => [] end.

Section runs.
Context {I : Type} `{!IndexManager I} `{!IndexLaws I}.
Context (d : FileSystem.path) (B : nat).

Definition step (e : event) : Go (st I) (result unit) :=
  match e with
  | EWrite rows => Write rows
  | EIndex i => do! run_pending i in go_ret (Ok tt)
  end.

Fixpoint run (es : list event) : Go (st I) (result unit) :=
  match es with
  | [] => go_ret (Ok tt)
  | e :: es' => try! u := step e in run es'
  end.

(** What the written rows may take at most. *)
Definition volume (rows : list Row.t) : Z := (len (Row.encode_rows rows) + len rows)%Z.

Lemma volume_app rs1 rs2 : volume (rs1 ++ rs2) = (volume rs1 + volume rs2)%Z.
Proof. unfold volume. rewrite Row.len_encode_rows_app, len_app. lia. Qed.

Lemma cur_size_le L (s : st I) :
  log_on d B L s -> (FileSegment.size (curSeg (mgr s)) <= volume (rows_of L))%Z.
Proof.
  intros H. destruct (lo_cur _ _ _ _ H) as (L0 & n & rs & -> & Hso).
  rewrite (so_size _ _ _ _ _ Hso), rows_of_snoc, volume_app. unfold volume. lens.
Qed.

Lemma file_volume (L : layout) n rs :
  (n, rs) ∈ L -> (len (Row.encode_rows rs) <= volume (rows_of L))%Z.
Proof.
  intros (L1 & L2 & ->)%list_elem_of_split. unfold rows_of. rewrite fmap_app, fmap_cons, concat_app.
  cbn [concat snd]. rewrite !volume_app. unfold volume. lens.
Qed.

Lemma rows_of_written L rows (s : st I) :
  log_on d B L s -> rows_of (written L rows s) = rows_of L ++ rows.
Proof.
  intros H. destruct (lo_cur _ _ _ _ H) as (L0 & n & rs & -> & _). unfold written.
  set (m := FileSegment.maxSize _). set (z := FileSegment.size _).
  destruct (place_cons m z rows) as (g & gs & E). rewrite E.
  apply place_spec in E as (-> & _ & _). apply rows_of_grow. rewrite length_new_names. simpl. lia.
Qed.

Lemma run_on es L (s : st I) :
  log_on d B L s -> idx_on L s -> Forall (fun e => Forall Row.wf (event_rows e)) es ->
  (volume (rows_of L ++ concat (event_rows <$> es)) < 2 ^ 63)%Z ->
  now_calls (world s) + length (concat (event_rows <$> es)) <= B ->
  exists L' s', run es s = (Ret (Ok tt), s') /\ log_on d B L' s' /\ idx_on L' s' /\
    same_env s s' /\ rows_of L' = rows_of L ++ concat (event_rows <$> es) /\
    now_calls (world s') <= now_calls (world s) + length (concat (event_rows <$> es)).
Proof.
  intros H Hi Hwf. revert L s H Hi.
  induction Hwf as [|e es He Hes IH]; intros L s H Hi Hb HB; cbn [run].
  { exists L, s. cbn. rewrite (right_id_L [] (++)). do 3 (split; [done|]).
    split; [by repeat split|]. split; [done|lia]. }
  rewrite fmap_cons in *. cbn [concat] in *. rewrite length_app in HB.
  assert (exists L1 s1, step e s = (Ret (Ok tt), s1) /\ log_on d B L1 s1 /\ idx_on L1 s1 /\
    same_env s s1 /\ rows_of L1 = rows_of L ++ event_rows e /\
    now_calls (world s1) <= now_calls (world s) + length (event_rows e))
    as (L1 & s1 & E & H1 & Hi1 & He1 & HL1 & Hn1).
  { destruct e as [rows|i]; cbn [step event_rows] in *.
    - destruct (Write_on d B L rows s) as (s1 & E & H1 & Hi1 & He1 & Hn1); try done; [|lia|].
      { pose proof (cur_size_le _ _ H). rewrite !volume_app in Hb. unfold volume in *. lens. }
      exists (written L rows s), s1. do 4 (split; [done|]). split; [|done]. by apply rows_of_written.
    - destruct (run_pending_on d B L i s H Hi) as (s1 & E & H1 & Hi1 & He1 & Hw & _).
      exists L, s1. rewrite (go_bind_ret _ _ _ _ _ E), (right_id_L [] (++)), Hw.
      do 5 (split; [done|]). simpl. lia. }
  rewrite (go_bind_ret _ _ _ _ _ E).
  destruct (IH L1 s1 H1 Hi1) as (L2 & s2 & E2 & H2 & Hi2 & He2 & HL2 & Hn2).
  { by rewrite HL1, <-(assoc_L (++)). } { lia. }
  exists L2, s2. do 3 (split; [done|]). split; [by eapply same_env_trans|].
  split; [by rewrite HL2, HL1, <-(assoc_L (++))|]. rewrite length_app. lia.
Qed.

(** *** Reading a file of the log *)

Definition tick_st (k : nat) (s : st I) : st I := mkSt (tick k (world s)) (mgr s).

Lemma log_on_tick L k (s : st I) : log_on d B L s -> log_on d B L (tick_st k s).
Proof.
  intros [Hl [] (L0 & n & rs & -> & Hso)]. constructor; [done|by constructor|].
  exists L0, n, rs. split; [done|]. by apply seg_on_tick.
Qed.

Lemma ReadSegment_on L dir n rs (s : st I) :
  log_on d B L s -> resolve dir = Some d -> (n, rs) ∈ L ->
  ReadSegment (join dir n) s = (Ret (Ok (Row.encode_rows rs)), tick_st 3 s).
Proof.
  intros H Hdir Hn. destruct (lo_cur _ _ _ _ H) as (L0 & n0 & rs0 & HL & Hso).
  assert (plain_name n) as Hp.
  { pose proof (do_plain _ _ _ _ (lo_dir _ _ _ _ H)) as F. rewrite Forall_forall in F. apply F.
    apply list_elem_of_fmap. by exists (n, rs). }
  unfold ReadSegment, go_get. unfold go_bind at 1. rewrite (GetName_on _ _ _ _ _ Hso).
  rewrite bool_decide_false; cycle 1.
  { destruct (so_plain _ _ _ _ _ Hso) as [Hs _]. intros ->. apply Hs. unfold join.
    apply elem_of_app. right. by left. }
  unfold readFile, on_world, go_zoom.
  rewrite (ReadFile_existing (world s) dir d n (do_ff _ _ _ _ (lo_dir _ _ _ _ H)) Hdir Hp (Row.encode_rows rs)); [done|].
  pose proof (do_files _ _ _ _ (lo_dir _ _ _ _ H)) as F. rewrite Forall_forall in F. apply (F _ Hn).
Qed.

(** *** Starting on a directory *)

(** The layout a new manager starts with. *)
Definition opened (L : layout) (w : World) : layout :=
  if bool_decide (L = []) then [(seg_name (clock w (now_calls w)), [])] else L.

Lemma NewFileSegment_on L dir max (im : I) w :
  dir_on d B L w -> resolve dir = Some d -> now_calls w < B ->
  exists w' seg, FileSegment.NewFileSegment dir max w = (Ret (Ok seg), w') /\
    FileSegment.maxSize seg = max /\ FileSegment.path seg = dir /\
    now_calls w' <= S (now_calls w) /\ clock w' = clock w /\
    log_on d B (opened L w) (mkSt w' (NewSegmentManager im seg)).
Proof.
  intros H Hdir HB. unfold FileSegment.NewFileSegment, FileSegment.initFileSegment, opened.
  unfold go_bind at 1. unfold go_bind at 1.
  rewrite (ReadDir_dir w dir d) by (done || apply H).
  rewrite (do_entries _ _ _ _ H), length_fmap. case_bool_decide as Hl.
  - apply nil_length_inv in Hl as ->. rewrite bool_decide_true by done.
    destruct (do_clock _ _ _ _ H (now_calls w)) as (Hv & _ & _); [lia|].
    destruct (newFile_on (tick 1 w) dir d) as (w' & f & E & Hn & Hff & Hc & Hnc & Hso);
      [apply H|done|apply H|done|apply (next_name_fresh d B [] w H HB)|].
    rewrite E. unfold go_bind.
    rewrite (file_Size_on w' f (child d (seg_name (clock w (now_calls w)))) [])
      by (done || apply (Hso max)).
    eexists _, _. split; [reflexivity|]. do 2 (split; [done|]).
    split; [cbn [tick now_calls] in *; lia|]. split; [done|]. constructor; [done| |].
    + by apply (dir_on_new_file d B [] w).
    + exists [], (seg_name (clock w (now_calls w))), []. split; [done|].
      apply seg_on_tick, Hso.
  - rewrite bool_decide_false by (by intros ->).
    destruct L as [|[n rs] L0 _] using rev_ind; [done|].
    assert (plain_name n) as Hp.
    { pose proof (do_plain _ _ _ _ H) as F. rewrite fmap_app in F.
      by apply Forall_app, proj2, Forall_inv in F. }
    assert (nodes w !! child d n = Some (FileNode (Row.encode_rows rs))) as Hf.
    { pose proof (do_files _ _ _ _ H) as F. by apply Forall_app, proj2, Forall_inv in F. }
    rewrite fmap_app, length_app, Nat.add_sub. cbn [length fmap list_fmap fst].
    rewrite (go_index_Some _ _ n) by (rewrite <-(length_fmap fst L0); by apply list_lookup_middle).
    unfold go_bind at 1. unfold go_ret at 1. fold (join dir n).
    rewrite (OpenFile_existing (tick 1 w) dir d n) with (b := Row.encode_rows rs)
      by (done || apply H). cbv beta iota.
    unfold go_bind. rewrite (file_Size_on _ _ (child d n) (Row.encode_rows rs)) by (done || apply H).
    eexists _, _. split; [reflexivity|]. do 2 (split; [done|]).
    split; [simpl; lia|]. split; [done|]. constructor; [done| |].
    + destruct H. by constructor.
    + exists L0, n, rs. split; [done|]. constructor; try done. apply H.
Qed.

(** *** A failed write *)

Lemma entries_loop_ret batch name rows i off m (s : st I) :
  i + length rows <= length batch ->
  exists es, entries_loop batch name rows i off m s = (Ret es, s).
Proof.
  revert i off m. induction rows as [|r rows IH]; intros i off m Hl; [by eexists|].
  cbn [length] in Hl. destruct (lookup_lt_is_Some_2 batch i) as [b Hb]; [lia|].
  cbn [entries_loop]. rewrite (go_index_Some _ _ _ Hb). apply IH. lia.
Qed.

(** A call that did not come back with a value of type [A], but stuck. *)
Definition blocks {A} (p : outcome A * st I) : Prop := fst p = Blocks.

(** With the lock held, writing a non-empty batch blocks and an empty one
    changes nothing that matters. *)
Lemma writeBatch_locked batch rows (s : st I) :
  locked (mgr s) = true -> length rows <= length batch ->
  (concat batch <> [] -> blocks (writeBatch batch rows s)) /\
  (concat batch = [] -> exists s', writeBatch batch rows s = (Ret (Ok tt), s') /\
     locked (mgr s') = true).
Proof.
  intros Hl Hlen.
  destruct (entries_loop_ret batch (FileSegment.GetName (curSeg (mgr s))) rows 0
    (FileSegment.CurrentOffset (curSeg (mgr s))) ∅ s) as [es Hes]; [exact Hlen|].
  assert (writeBatch batch rows s =
    (try! u := writeInSeg (concat batch) in do! spawn_AddBatchIndex es in go_ret (Ok tt)) s) as ->.
  { unfold writeBatch, go_get. unfold go_bind at 1. unfold go_bind at 1.
    by rewrite Hes, flatten_concat. }
  unfold go_bind, writeInSeg, blocks. split; intros Hb.
  - rewrite bool_decide_false by (intros ?%nil_length_inv; done).
    unfold go_bind, Lock. by rewrite Hl.
  - rewrite Hb. eexists. split; [reflexivity|]. exact Hl.
Qed.

Lemma batches_loop_locked rows batch rest i start cur (s : st I) :
  locked (mgr s) = true -> length rows = length batch -> Forall (.≠ []) batch ->
  start < length batch -> rest = drop i batch ->
  blocks (batches_loop batch rows rest i start cur s).
Proof.
  intros Hl Hlen Hne. revert i start cur s Hl.
  induction rest as [|b rest IH]; intros i start cur s Hl Hst Hr; cbn [batches_loop].
  - apply writeBatch_locked; [done|rewrite !length_drop; lia|].
    destruct (drop start batch) as [|b l] eqn:E.
    { apply (f_equal length) in E. rewrite length_drop in E. simpl in E. lia. }
    assert (b ∈ batch) as Hb.
    { apply (subseteq_drop start). rewrite E. by left. }
    rewrite Forall_forall in Hne. apply Hne in Hb. destruct b; [done|]. done.
  - assert (rest = drop (i + 1) batch) as Hr'.
    { by rewrite <-drop_drop, <-Hr. }
    unfold go_get. unfold go_bind at 1.
    destruct (FileSegment.Fits _ _); cbn [negb]; [by apply IH|].
    destruct (writeBatch_locked (slice batch start i) (slice rows start i) s Hl) as [H1 H2].
    { unfold slice. rewrite !length_take, !length_drop. lia. }
    destruct (decide (concat (slice batch start i) = [])) as [Hz|Hnz].
    + destruct (H2 Hz) as (s' & E & Hl'). rewrite (go_bind_ret _ _ _ _ _ E).
      unfold blocks, go_bind, Lock. by rewrite Hl'.
    + specialize (H1 Hnz). unfold blocks, go_bind in *.
      destruct (writeBatch _ _ s) as [[?| |] ?]; done.
Qed.

Lemma Write_locked rows batch (s : st I) :
  locked (mgr s) = true -> rows <> [] -> createBatch rows = Ok batch -> blocks (Write rows s).
Proof.
  intros Hl Hne Hb. unfold Write. rewrite Hb.
  assert (length rows = length batch /\ Forall (.≠ []) batch) as [Hlen Hnz].
  { clear Hne. revert batch Hb. induction rows as [|r rows IH]; cbn [createBatch].
    { by intros batch [= <-]. }
    intros batch. destruct (Row.Marshal r) as [rB|] eqn:Er; [|done].
    destruct (createBatch rows) as [batch'|]; [|done]. intros [= <-].
    destruct (IH batch' eq_refl). split; [simpl; lia|]. constructor; [|done].
    apply Row.Marshal_Ok in Er as ->. intros E. pose proof (Row.length_encode r).
    rewrite E in H1. simpl in H1. lia. }
  destruct batch as [|b batch]; [by destruct rows|].
  unfold processBatches, go_get. unfold go_bind at 1. destruct (FileSegment.Fits _ _).
  - apply writeBatch_locked; [done|lia|]. apply Forall_inv in Hnz. by destruct b.
  - apply batches_loop_locked; [done|done|done|simpl; lia|done].
Qed.

(** Every error of a write leaves the lock held. *)
Lemma on_seg_locked {A} (c : Go FileSegment.st A) (s : st I) o s' :
  on_seg c s = (o, s') -> locked (mgr s') = locked (mgr s).
Proof. unfold on_seg, go_zoom. destruct (c _). by intros [= <- <-]. Qed.

Lemma writeInSeg_Err data e (s s' : st I) :
  writeInSeg data s = (Ret (Err e), s') -> locked (mgr s') = true.
Proof.
  unfold writeInSeg. case_bool_decide; [done|]. unfold go_bind, Lock.
  destruct (locked (mgr s)); [done|].
  destruct (on_seg (FileSegment.Write data) _) as [[[e'|]| |] s1] eqn:E; try done.
  intros [= _ <-]. by apply on_seg_locked in E.
Qed.

Lemma entries_loop_state batch name rows i off m (s s' : st I) o :
  entries_loop batch name rows i off m s = (o, s') -> s' = s.
Proof.
  revert i off m. induction rows as [|r rows IH]; intros i off m; cbn [entries_loop].
  { by intros [= _ <-]. }
  unfold go_index. destruct (batch !! i); [apply IH|]. by intros [= _ <-].
Qed.

Lemma writeBatch_Err batch rows e (s s' : st I) :
  writeBatch batch rows s = (Ret (Err e), s') -> locked (mgr s') = true.
Proof.
  unfold writeBatch, go_get. unfold go_bind at 1. unfold go_bind at 1.
  destruct (entries_loop _ _ _ _ _ _ s) as [[es| |] s1]; try done.
  unfold go_bind. destruct (writeInSeg _ s1) as [[[u|e']| |] s2] eqn:E; try done.
  intros [= _ <-]. by eapply writeInSeg_Err.
Qed.

Lemma batches_loop_Err batch rows rest i start cur e (s s' : st I) :
  batches_loop batch rows rest i start cur s = (Ret (Err e), s') -> locked (mgr s') = true.
Proof.
  revert i start cur s. induction rest as [|b rest IH]; intros i start cur s; cbn [batches_loop].
  { apply writeBatch_Err. }
  unfold go_get. unfold go_bind at 1. destruct (negb _); [|apply IH].
  unfold go_bind at 1. destruct (writeBatch _ _ s) as [[[u|e']| |] s1] eqn:E; try done.
  2: { intros [= -> <-]. by eapply writeBatch_Err. }
  unfold go_bind, Lock. destruct (locked (mgr s1)); [done|].
  destruct (on_seg FileSegment.Rotate _) as [[[e'|]| |] s2] eqn:E2; try done.
  - intros [= _ <-]. by apply on_seg_locked in E2.
  - apply IH.
Qed.

Lemma Write_Err rows e (s s' : st I) :
  Write rows s = (Ret (Err e), s') ->
  createBatch rows = Err e /\ s' = s \/ locked (mgr s') = true.
Proof.
  unfold Write. destruct (createBatch rows) as [batch|e'].
  2: { intros [= -> <-]. by left. }
  unfold processBatches, go_get. unfold go_bind at 1.
  destruct (FileSegment.Fits _ _); intros E; right; [by eapply writeBatch_Err|by eapply batches_loop_Err].
Qed.

End runs.
End ManagerFacts.

(** ** Properties *)

(** A small directory to run the properties on. *)
Definition example_world : World :=
  mkWorld {[ (false, [str "data"]) := DirNode ]} (fun _ => None) 0
    (fun i => 10 ^ 15 + Z.of_nat i)%Z 0.

Definition example_dir : FileSystem.path := (false, [str "data"]).
Abbreviation ex_row i := (Row.NewRow i 0 [str "key"; str "value"]).

Module Examples.
Import Manager ManagerFacts.

Lemma example_dir_on : dir_on example_dir 1000 [] example_world.
Proof.
  constructor; try done.
  - intros k Hk. assert (k = 1) as -> by (simpl in Hk; lia). reflexivity.
  - intros i Hi. unfold valid_micro. cbn [clock example_world]. split; [lia|].
    split; [|constructor]. lia.
Qed.

Lemma idx_on_fresh (w : World) seg L :
  rows_of L = [] -> idx_on L (mkSt w (NewSegmentManager Mutex.NewIndexManagerMutex seg)).
Proof.
  intros HL. constructor.
  - intros lsn e [H|(es & H & _)]; [done|]. by apply not_elem_of_nil in H.
  - rewrite HL. by intros r ?%not_elem_of_nil.
Qed.

(** A manager just started on the example directory, with 30-byte files. *)
Lemma example_start :
  exists w seg, FileSegment.NewFileSegment (str "data") 30 example_world = (Ret (Ok seg), w) /\
    let s := mkSt w (NewSegmentManager Mutex.NewIndexManagerMutex seg) in
    let L := [(seg_name (10 ^ 15), [])] in
    FileSegment.maxSize (curSeg (mgr s)) = 30%Z /\ FileSegment.size (curSeg (mgr s)) = 0%Z /\
    now_calls (world s) <= 10 /\ log_on example_dir 1000 L s /\ idx_on L s.
Proof.
  destruct (NewFileSegment_on example_dir 1000 [] (str "data") 30 Mutex.NewIndexManagerMutex
    example_world example_dir_on) as (w & seg & E & Hm & Hp & Hn & _ & Hl); [done|simpl; lia|].
  exists w, seg. split; [done|]. intros s L. split; [done|]. cbn [example_world now_calls] in Hn.
  destruct (lo_cur _ _ _ _ Hl) as (L0 & n & rs & EL & Hso).
  apply (app_inj_tail [] L0 (_, _)) in EL as [_ [= _ <-]].
  split; [apply Hso|split; [unfold s; cbn [world]; lia|split; [exact Hl|by apply idx_on_fresh]]].
Qed.

End Examples.

Section properties.
Import Manager ManagerFacts.
Context {I : Type} `{!IndexManager I} `{!IndexLaws I}.

(** C4: on a file system without faults, [Write] stores every row exactly
    once and in order.  It appends a first group of rows to the current
    segment and puts the others into new files named after the clock, and it
    is greedy: a row goes into a new file exactly when it does not fit, so
    the current segment never grows past the limit and a new file exceeds it
    only when it holds a single row.  The rows fit the record format, the
    current file stays below 2^63 bytes and the clock gives a new name for
    every new file. *)
Theorem Manager_Write_layout (d : FileSystem.path) (B : nat) (L : layout) (rows : list Row.t)
    (s : st I) (Hlog : log_on d B L s) (Hidx : idx_on L s) (Hwf : Forall Row.wf rows)
    (Hsize : (FileSegment.size (curSeg (mgr s)) + volume rows < 2 ^ 63)%Z)
    (Hclock : now_calls (world s) + length rows <= B) :
  let max := FileSegment.maxSize (curSeg (mgr s)) in
  let size := FileSegment.size (curSeg (mgr s)) in
  exists s' g gs,
    Write rows s = (Ret (Ok tt), s') /\ place max size rows = g :: gs /\
    log_on d B (grow L (new_names (world s) (length gs)) (g :: gs)) s' /\
    rows = g ++ concat gs /\
    (g = [] \/ (size + len (Row.encode_rows g) <= max)%Z) /\ Forall (group_ok max) gs.
Proof.
  intros max size. destruct (Write_on d B L rows s Hlog Hidx Hwf) as (s' & E & Hl & _);
    [unfold volume in Hsize; lia|done|].
  destruct (place_cons max size rows) as (g & gs & Epl).
  exists s', g, gs. split; [done|]. split; [done|]. split; [|by apply place_spec].
  unfold written in Hl. fold max size in Hl. rewrite Epl in Hl. cbn [length] in Hl.
  by rewrite Nat.sub_succ, Nat.sub_0_r in Hl.
Qed.

(** C5: after any sequence of writes, interleaved in any way with the index
    updates they spawn, the files hold the rows written, in order and after
    those that were there; the index never points anywhere but at the first
    byte of a record with the requested identifier, and once the spawned
    updates have run it knows every row of the log.  The rows fit the record
    format, the log stays below 2^63 bytes, the clock gives a new name for
    every new file and no system call fails. *)
Theorem Manager_run_index (d : FileSystem.path) (B : nat) (L : layout) (es : list event)
    (s : st I) (Hlog : log_on d B L s) (Hidx : idx_on L s)
    (Hwf : Forall (fun e => Forall Row.wf (event_rows e)) es)
    (Hsize : (volume (rows_of L ++ concat (event_rows <$> es)) < 2 ^ 63)%Z)
    (Hclock : now_calls (world s) + length (concat (event_rows <$> es)) <= B) :
  exists L' s', run es s = (Ret (Ok tt), s') /\ log_on d B L' s' /\
    rows_of L' = rows_of L ++ concat (event_rows <$> es) /\
    forall lsn, exists r, GetIndex lsn s' = (Ret r, s') /\
      match r with
      | Ok e => entry_ok L' lsn e
      | Err err => err = ErrIndexNotFound /\
          (pending (mgr s') = [] -> forall row, row ∈ rows_of L' -> Row.lsnID row <> lsn)
      end.
Proof.
  destruct (run_on d B es L s Hlog Hidx Hwf Hsize Hclock) as (L' & s' & E & Hl & Hi & _ & Hr & _).
  exists L', s'. do 3 (split; [done|]). intros lsn. by apply GetIndex_on.
Qed.

(** C34: an I/O error wedges the log.  [writeInSeg] and the rotation return
    early without unlocking, so after a write that failed for any reason but
    an oversized argument, every later write of a non-empty batch blocks
    forever. *)
Theorem Manager_error_wedges (rows later : list Row.t) (batch batch' : list bytes) (e : error)
    (s s' : st I) (Hm : createBatch rows = Ok batch)
    (Hfail : Write rows s = (Ret (Err e), s'))
    (Hne : later <> []) (Hm' : createBatch later = Ok batch') :
  fst (Write later s') = Blocks.
Proof.
  apply Write_Err in Hfail as [[E _]|Hl]; [congruence|]. by eapply Write_locked.
Qed.

End properties.

Module Witnesses.
Import Manager ManagerFacts Examples.

Lemma Manager_Write_layout_witness :
  exists (s s' : st Mutex.t) g gs,
    Write [ex_row 1; ex_row 2; ex_row 3] s = (Ret (Ok tt), s') /\ place 30 0 [ex_row 1; ex_row 2; ex_row 3] = g :: gs /\
    length gs = 2.
Proof.
  destruct example_start as (w & seg & _ & Hm & Hz & Hn & Hl & Hi).
  destruct (Manager_Write_layout example_dir 1000 _ [ex_row 1; ex_row 2; ex_row 3] _ Hl Hi)
    as (s' & g & gs & E & Ep & _).
  - apply (bool_decide_unpack _). vm_compute. exact Logic.I.
  - rewrite Hz. reflexivity.
  - cbn [length]. lia.
  - rewrite Hm, Hz in Ep. do 4 eexists. split; [exact E|]. split; [exact Ep|].
    vm_compute in Ep. injection Ep as _ <-. reflexivity.
Defined.

Lemma Manager_run_index_witness :
  exists (s s' : st Mutex.t) L',
    run [EWrite [ex_row 1; ex_row 2]; EIndex 0; EWrite [ex_row 3]] s = (Ret (Ok tt), s') /\
    log_on example_dir 1000 L' s' /\ rows_of L' = [ex_row 1; ex_row 2; ex_row 3].
Proof.
  destruct example_start as (w & seg & _ & Hm & Hz & Hn & Hl & Hi).
  destruct (Manager_run_index example_dir 1000 _
    [EWrite [ex_row 1; ex_row 2]; EIndex 0; EWrite [ex_row 3]] _ Hl Hi)
    as (L' & s' & E & Hl' & Hr & _).
  - apply (bool_decide_unpack _). vm_compute. exact Logic.I.
  - reflexivity.
  - cbn -[Nat.le]. cbn in Hn. lia.
  - exists (mkSt w (NewSegmentManager Mutex.NewIndexManagerMutex seg)), s', L'.
    split; [exact E|]. split; [exact Hl'|exact Hr].
Defined.

(** A world whose fourth system call, the first write, fails. *)
Definition faulty_world : World :=
  mkWorld {[ (false, [str "data"]) := DirNode ]}
    (fun n => if bool_decide (n = 4) then Some (mkFault (PathError (str "no space left on device")) 5)
              else None) 0
    (fun i => 10 ^ 15 + Z.of_nat i)%Z 0.

Definition started (w : World) : st Mutex.t :=
  match FileSegment.NewFileSegment (str "data") 30 w with
  | (Ret (Ok seg), w') => mkSt w' (NewSegmentManager Mutex.NewIndexManagerMutex seg)
  | (_, w') => mkSt w' (NewSegmentManager Mutex.NewIndexManagerMutex
                          (FileSegment.mk (mkFile [] example_dir 0 true) [] 0 0))
  end.

Lemma Manager_error_wedges_witness :
  fst (Write [ex_row 2] (snd (Write [ex_row 1] (started faulty_world)))) = Blocks.
Proof.
  apply (Manager_error_wedges [ex_row 1] [ex_row 2] [Row.encode (ex_row 1)] [Row.encode (ex_row 2)]
    (PathError (str "no space left on device")) (started faulty_world)).
  - vm_compute. reflexivity.
  - rewrite (surjective_pairing (Write _ _)) at 1. f_equal.
  - done.
  - vm_compute. reflexivity.
Defined.

End Witnesses.
