(* ===== verification/Logs.v ===== *)
(** * Reading and writing the log

    [internal/database/logs]: [LogReader] decodes rows from files and from
    streams and rebuilds the index, [LogWriter] hands batches to a target.

    An [io.Reader] is the list of what its successive [Read] calls return,
    the bytes and the error of each; after the last one it answers [io.EOF].
    How a stream is cut into reads is up to the operating system and the
    network, so the properties are about every such list. *)

From S2P Require Import Prelude Encoding WalRecord FileSystem Index Segment SegmentManager.

Abbreviation reader := (list (bytes * option error)).

(** ** The interface [SegmentManager] *)

(** The manager's methods the reader calls; [sm_world] runs a call of the
    file-system helpers in the world the manager works in. *)
Class SegmentManager (M : Type) := {
  sm_ReadSegment : gostring -> Go M (result bytes);
  sm_AddBatchIndex : gmap N IndexEntry -> Go M unit;
  sm_world : forall A, Go World A -> Go M A
}.
Arguments sm_world {M _ A}.

#[export] Instance manager_segments {I : Type} `{!IndexManager I} : SegmentManager (Manager.st I) := {|
  sm_ReadSegment := Manager.ReadSegment;
  sm_AddBatchIndex := Manager.AddBatchIndex;
  sm_world := fun A => Manager.on_world
|}.

(** ** [LogReader] *)

Module LogReader.

(** The loop that decodes the complete rows of [leftover], from [offset] on.
    Every step moves the offset, so [S (length leftover)] steps are enough. *)
Fixpoint rows_loop (fuel : nat) (leftover : bytes) (offset : nat) (rows : list Row.t)
  : outcome (nat * list Row.t) :=
  match fuel with
  | O => Blocks
  | S f =>
      if bool_decide (offset < length leftover) then
        match Row.Unmarshal Row.zero (drop offset leftover) with
        | (row, Ok readBytes) => rows_loop f leftover (offset + readBytes) (rows ++ [row])
        | (_, Err uErr) =>
            if bool_decide (uErr = EOF) then Ret (offset, rows)
            else rows_loop f leftover (offset + 1) rows
        end
      else Ret (offset, rows)
  end.

(** The loop over what is left at the end of the stream. *)
Fixpoint tail_loop (fuel : nat) (leftover : bytes) (offset : nat) (rows : list Row.t)
  : outcome (list Row.t) :=
  match fuel with
  | O => Blocks
  | S f =>
      if bool_decide (offset < length leftover) then
        match Row.Unmarshal Row.zero (drop offset leftover) with
        | (r, Ok readBytes) => tail_loop f leftover (offset + readBytes) (rows ++ [r])
        | (_, Err _) => Ret rows
        end
      else Ret rows
  end.

Definition read_end (leftover : bytes) (rows : list Row.t) : outcome (list Row.t * option error) :=
  if bool_decide (0 < length leftover) then
    match tail_loop (S (length leftover)) leftover 0 rows with
    | Ret rows => Ret (rows, None)
    | Panics => Panics
    | Blocks => Blocks
    end
  else Ret (rows, None).

(** The loop over the reads of the stream. *)
Fixpoint read_loop (r : reader) (leftover : bytes) (rows : list Row.t)
  : outcome (list Row.t * option error) :=
  match r with
  | [] => read_end leftover rows
  | (buf, err) :: r' =>
      let parsed :=
        if bool_decide (0 < length buf) then
          let leftover := leftover ++ buf in
          match rows_loop (S (length leftover)) leftover 0 rows with
          | Ret (offset, rows) => Ret (drop offset leftover, rows)
          | Panics => Panics
          | Blocks => Blocks
          end
        else Ret (leftover, rows) in
      match parsed with
      | Ret (leftover, rows) =>
          match err with
          | Some EOF => read_end leftover rows
          | Some e => Ret (rows, Some (Wrapped (str "parseRows read error") e))
          | None => read_loop r' leftover rows
          end
      | Panics => Panics
      | Blocks => Blocks
      end
  end.

Definition read (r : reader) : outcome (list Row.t * option error) := read_loop r [] [].

Definition Read (r : reader) : outcome (list Row.t * option error) := read r.

(** [bytes.NewReader(data)] read with a buffer of 4096 bytes. *)
Fixpoint chunks (fuel : nat) (data : bytes) : reader :=
  match fuel, data with
  | S f, _ :: _ => (take 4096 data, None) :: chunks f (drop 4096 data)
  | _, _ => []
  end.

Definition bytes_reader (data : bytes) : reader := chunks (length data) data.

(** [r.Seek(offset, io.SeekStart)] on a [bytes.Reader], then [read]. *)
Definition readFromOffset (data : bytes) (offset : Z) : outcome (list Row.t * option error) :=
  if (offset <? 0)%Z
  then Ret ([], Some (ErrorString (str "bytes.Reader.Seek: negative position")))
  else read (bytes_reader (drop (Z.to_nat offset) data)).

(** The reads of an open file from its position on, 4096 bytes at a time;
    [fuel] is the number of reads. *)
Fixpoint file_reads (fuel : nat) (f : File) : Go World reader :=
  match fuel with
  | O => go_ret []
  | S fl =>
      let! flt := sys_fault in
      match file_op_err f flt with
      | Some e => go_ret [([], Some e)]
      | None =>
          let! data := go_get (fun w => file_contents w f) in
          match data with
          | None => go_ret [([], Some (PathError (str "is a directory")))]
          | Some b =>
              let buf := take 4096 (drop (f_pos f) b) in
              if bool_decide (buf = []) then go_ret [([], Some EOF)]
              else
                let! rest := file_reads fl
                  (mkFile (f_name f) (f_path f) (f_pos f + length buf) (f_closed f)) in
                go_ret ((buf, None) :: rest)
          end
      end
  end.

(** A file of [n] bytes is read in at most [n + 1] reads. *)
Definition file_reader (f : File) : Go World reader :=
  let! n := go_get (fun w => length (default [] (file_contents w f))) in
  file_reads (S (S n)) f.

Section reader.
Context {M : Type} `{!SegmentManager M}.

(** A pure call that may panic or not return. *)
Definition lift {A} (o : outcome A) : Go M A := fun m => (o, m).

Definition ReadFrom_file (directory name : gostring) (offset : Z) : Go M (result (list Row.t)) :=
  try! data := sm_ReadSegment (directory ++ [slash] ++ name) in
  let! ' (rows, err) := lift (readFromOffset data offset) in
  match err with
  | Some e => go_ret (Err e)
  | None => go_ret (Ok rows)
  end.

(** The loop of [ReadFrom] over the names from index [i] on. *)
Fixpoint ReadFrom_loop (directory : gostring) (firstOffset : Z) (names : list gostring) (i : nat)
    (results : list Row.t) : Go M (result (list Row.t)) :=
  match names with
  | [] => go_ret (Ok results)
  | name :: names' =>
      let offset := if bool_decide (i = 0) then firstOffset else 0%Z in
      try! rows := ReadFrom_file directory name offset in
      ReadFrom_loop directory firstOffset names' (i + 1) (results ++ rows)
  end.

Definition ReadFrom (directory target : gostring) (firstOffset : Z) : Go M (result (list Row.t)) :=
  try! names := sm_world (ReadDirsFrom directory target) in
  if bool_decide (length names = 0) then go_ret (Ok [])
  else ReadFrom_loop directory firstOffset names 0 [].

(** The loop of [restoreIndex]. *)
Fixpoint restore_entries (rows : list Row.t) (fileName : gostring) (offset : Z)
    (entries : gmap N IndexEntry) : gmap N IndexEntry :=
  match rows with
  | [] => entries
  | row :: rows' =>
      match Row.Marshal row with
      | Err _ => restore_entries rows' fileName offset entries
      | Ok b => restore_entries rows' fileName (i64 (offset + len b))
                  (<[Row.GetLsnID row := mkEntry 0 fileName offset]> entries)
      end
  end.

Definition restoreIndex (rows : list Row.t) (fileName : gostring) : Go M unit :=
  sm_AddBatchIndex (restore_entries rows fileName 0 ∅).

(** The body of the loop of [RestoreSystemStream] for one file.  Its result is
    what is put on the stream: after an error nothing else is done, and the
    put of the rows itself, before the index is updated, concerns the stream
    only. *)
Definition restore_file (directory fileName : gostring) : Go M (result (list Row.t)) :=
  try! file := sm_world (OpenFile (directory ++ [slash] ++ fileName)) in
  let! r := sm_world (file_reader file) in
  let! ' (data, err) := lift (read r) in
  match err with
  | Some e => go_ret (Err e)
  | None =>
      do! restoreIndex data fileName in
      do! sm_world (file_Close file) in
      go_ret (Ok data)
  end.

Fixpoint restore_loop (directory : gostring) (names : list gostring)
  : Go M (list (result (list Row.t))) :=
  match names with
  | [] => go_ret []
  | n :: names' =>
      let! r := restore_file directory n in
      match r with
      | Err e => go_ret [Err e]
      | Ok data => let! rest := restore_loop directory names' in go_ret (Ok data :: rest)
      end
  end.

(** The goroutine of [RestoreSystemStream]: the results it puts on the
    stream, in order, before [Done]. *)
Definition RestoreSystemStream (directory : gostring) : Go M (list (result (list Row.t))) :=
  let! r := sm_world (ReadDir directory) in
  match r with
  | Err e => go_ret [Err e]
  | Ok names => if bool_decide (length names = 0) then go_ret [] else restore_loop directory names
  end.

End reader.

(** The goroutine of [ReadStream]: the one result it puts on the stream. *)
Definition ReadStream (r : reader) : outcome (result (list Row.t)) :=
  match read r with
  | Ret (rows, None) => Ret (Ok rows)
  | Ret (_, Some e) => Ret (Err e)
  | Panics => Panics
  | Blocks => Blocks
  end.

End LogReader.

(** ** [LogWriter] *)

Module LogWriter.
Section writer.
Context {S : Type}.

(** A [Target] is its [Write] method; a nil interface is [None]. *)
Abbreviation Target := (list Row.t -> Go S (option error)).

Record t := mk { target : option Target }.

Definition NewLogWriter (tg : option Target) : t := mk tg.

Definition write (rows : list Row.t) (tg : option Target) : Go S (option error) :=
  match tg with
  | None => go_ret (Some (ErrorString (str "no target")))
  | Some Write =>
      if bool_decide (length rows = 0) then go_ret None
      else Write rows
  end.

Definition WriteTo (rows : list Row.t) (tg : option Target) : Go S (option error) := write rows tg.
Definition Write (lw : t) (rows : list Row.t) : Go S (option error) := write rows (target lw).

End writer.
Arguments t : clear implicits.
End LogWriter.

(** ** What a byte stream says *)

(** Bytes that do not start with a complete row. *)
Definition torn (rest : bytes) : Prop := snd (Row.Unmarshal Row.zero rest) = Err EOF.

(** [data] is the rows [rows] followed by an incomplete one, [rest]. *)
Definition parses (data : bytes) (rows : list Row.t) (rest : bytes) : Prop :=
  data = Row.encode_rows rows ++ rest /\ Forall Row.wf rows /\ torn rest.

(** The bytes a reader delivers and the error [read] makes of its end. *)
Fixpoint stream_data (r : reader) : bytes :=
  match r with
  | [] => []
  | (b, None) :: r' => b ++ stream_data r'
  | (b, Some _) :: _ => b
  end.

Fixpoint stream_err (r : reader) : option error :=
  match r with
  | [] => None
  | (_, None) :: r' => stream_err r'
  | (_, Some EOF) :: _ => None
  | (_, Some e) :: _ => Some (Wrapped (str "parseRows read error") e)
  end.

Module ReaderFacts.
Import LogReader.

Lemma torn_nil : torn [].
Proof. done. Qed.

Lemma not_torn r s : Row.wf r -> ~ torn (Row.encode r ++ s).
Proof. intros H. unfold torn. by rewrite Row.Unmarshal_encode. Qed.

Lemma torn_or_row data :
  torn data \/ exists r s, Row.wf r /\ data = Row.encode r ++ s /\
    Row.Unmarshal Row.zero data = (r, Ok (length (Row.encode r))).
Proof.
  unfold torn. destruct (Row.Unmarshal Row.zero data) as [r [n|e]] eqn:E.
  - right. apply Row.Unmarshal_Ok in E as (Hwf & s & -> & ->). eauto.
  - apply Row.Unmarshal_EOF in E as ->. by left.
Qed.

Lemma parses_unique data rows rest rows' rest' :
  parses data rows rest -> parses data rows' rest' -> rows = rows' /\ rest = rest'.
Proof.
  intros (-> & H1 & Ht1) (E & H2 & Ht2). revert rows' E H2.
  induction H1 as [|r rows Hr _ IH]; intros [|r' rows'] E H2.
  - done.
  - rewrite Row.encode_rows_cons, <-(assoc_L (++)) in E. cbn [Row.encode_rows fmap list_fmap concat app] in E.
    change (Row.encode_rows [] ++ rest) with rest in E. subst rest.
    apply Forall_inv in H2. by apply not_torn in Ht1.
  - rewrite Row.encode_rows_cons, <-(assoc_L (++)) in E.
    change (Row.encode_rows [] ++ rest') with rest' in E. subst rest'. by apply not_torn in Ht2.
  - apply Forall_cons in H2 as [Hr' H2]. rewrite !Row.encode_rows_cons, <-!(assoc_L (++)) in E.
    pose proof (Row.Unmarshal_encode Row.zero r (Row.encode_rows rows ++ rest) Hr) as E1.
    rewrite E, Row.Unmarshal_encode in E1 by done. injection E1 as -> _.
    apply app_inv_head in E. destruct (IH rows' E H2) as [-> ->]. done.
Qed.

Lemma rows_loop_spec fuel leftover offset rows :
  offset <= length leftover -> length leftover - offset < fuel ->
  exists rs rest, parses (drop offset leftover) rs rest /\
    rows_loop fuel leftover offset rows = Ret (length leftover - length rest, rows ++ rs).
Proof.
  revert offset rows. induction fuel as [|fuel IH]; intros offset rows Ho Hf; [lia|].
  cbn [rows_loop]. case_bool_decide as Hlt; cycle 1.
  { exists [], []. rewrite (right_id_L [] (++)). split; [|do 2 f_equal; simpl; lia].
    split; [by rewrite drop_ge by lia|]. split; [done|apply torn_nil]. }
  destruct (torn_or_row (drop offset leftover)) as [Ht|(r & s & Hr & E & EU)].
  - pose proof Ht as Ht'. unfold torn in Ht'.
    destruct (Row.Unmarshal Row.zero (drop offset leftover)) as [r' x]. cbn [snd] in Ht'. subst x.
    rewrite bool_decide_true by done. exists [], (drop offset leftover).
    rewrite (right_id_L [] (++)). split; [done|]. rewrite length_drop. do 2 f_equal. lia.
  - rewrite EU. pose proof (f_equal length E) as El. rewrite length_drop, length_app in El.
    pose proof (Row.length_encode r) as Hl.
    destruct (IH (offset + length (Row.encode r)) (rows ++ [r])) as (rs & rest & (Hd & Hrs & Ht) & ->);
      [lia..|].
    exists (r :: rs), rest. rewrite <-(assoc_L (++)). split; [|done]. split; [|by split; [constructor|]].
    rewrite Row.encode_rows_cons, <-(assoc_L (++)), <-Hd, <-drop_drop, E, drop_app_length. done.
Qed.

Lemma read_end_torn leftover rows : torn leftover -> read_end leftover rows = Ret (rows, None).
Proof.
  intros Ht. unfold read_end. case_bool_decide; [|done]. cbn [tail_loop].
  rewrite bool_decide_true by done. rewrite drop_0. unfold torn in Ht.
  destruct (Row.Unmarshal Row.zero leftover) as [r x]. cbn [snd] in Ht. by subst x.
Qed.

Lemma read_loop_spec r leftover rows :
  torn leftover ->
  exists rs rest, parses (leftover ++ stream_data r) rs rest /\
    read_loop r leftover rows = Ret (rows ++ rs, stream_err r).
Proof.
  revert leftover rows. induction r as [|[buf err] r IH]; intros leftover rows Ht; cbn [read_loop].
  { exists [], leftover. cbn [stream_data stream_err]. rewrite !(right_id_L [] (++)).
    split; [done|]. by apply read_end_torn. }
  assert (exists rs rest, parses (leftover ++ buf) rs rest /\
    (if bool_decide (0 < length buf) then
       match rows_loop (S (length (leftover ++ buf))) (leftover ++ buf) 0 rows with
       | Ret (offset, rows0) => Ret (drop offset (leftover ++ buf), rows0)
       | Panics => Panics
       | Blocks => Blocks
       end
     else Ret (leftover, rows)) = Ret (rest, rows ++ rs)) as (rs & rest & (Hd & Hrs & Ht') & ->).
  { case_bool_decide as Hb.
    - destruct (rows_loop_spec (S (length (leftover ++ buf))) (leftover ++ buf) 0 rows)
        as (rs & rest & Hp & ->); [lia..|]. rewrite drop_0 in Hp. exists rs, rest.
      split; [done|]. destruct Hp as (Hd & _). rewrite Hd.
      rewrite length_app, Nat.add_sub, drop_app_length. done.
    - destruct buf; [|simpl in Hb; lia]. exists [], leftover.
      rewrite !(right_id_L [] (++)). done. }
  destruct err as [e|]; cbn [stream_data stream_err].
  - exists rs, rest. split; [done|]. destruct e; try done. by apply read_end_torn.
  - destruct (IH rest (rows ++ rs) Ht') as (rs' & rest' & (Hd' & Hrs' & Ht'') & ->).
    exists (rs ++ rs'), rest'. split; [|by rewrite (assoc_L (++))].
    split; [|split; [by apply Forall_app|done]].
    by rewrite (assoc_L (++)), Hd, <-(assoc_L (++)), Hd', Row.encode_rows_app, <-(assoc_L (++)).
Qed.

Lemma read_spec r :
  exists rows rest, parses (stream_data r) rows rest /\ read r = Ret (rows, stream_err r).
Proof. apply (read_loop_spec r [] [] torn_nil). Qed.

(** Reading a stream whose contents are known. *)
Lemma read_parses r rows rest :
  parses (stream_data r) rows rest -> read r = Ret (rows, stream_err r).
Proof.
  intros Hp. destruct (read_spec r) as (rows' & rest' & Hp' & ->).
  by destruct (parses_unique _ _ _ _ _ Hp Hp') as [-> _].
Qed.

Lemma parses_rows rows : Forall Row.wf rows -> parses (Row.encode_rows rows) rows [].
Proof. intros H. split; [by rewrite (right_id_L [] (++))|]. split; [done|apply torn_nil]. Qed.

Lemma chunks_data fuel data :
  length data <= fuel -> stream_data (chunks fuel data) = data /\ stream_err (chunks fuel data) = None.
Proof.
  revert data. induction fuel as [|fuel IH]; intros [|b data] H;
    [done|simpl in H; lia|done|].
  cbn [chunks stream_data stream_err]. destruct (IH (drop 4096 (b :: data))) as [-> ->].
  - rewrite length_drop. cbn [length] in *. lia.
  - by rewrite take_drop.
Qed.

(** [ReadFrom]'s files: the rows from an offset at which a row starts. *)
Lemma readFromOffset_rows rs1 rs2 :
  Forall Row.wf rs2 ->
  readFromOffset (Row.encode_rows (rs1 ++ rs2)) (len (Row.encode_rows rs1)) = Ret (rs2, None).
Proof.
  intros Hwf. unfold readFromOffset. destruct (Z.ltb_spec (len (Row.encode_rows rs1)) 0); [lens|].
  unfold len. rewrite Nat2Z.id, Row.encode_rows_app, drop_app_length.
  destruct (chunks_data (length (Row.encode_rows rs2)) (Row.encode_rows rs2)) as [Hd He]; [done|].
  unfold bytes_reader. rewrite (read_parses _ rs2 []); [by rewrite He|].
  rewrite Hd. by apply parses_rows.
Qed.

(** A file read to its end. *)
Lemma file_reads_spec fuel f b (w : World) :
  fault_free w -> f_closed f = false -> nodes w !! f_path f = Some (FileNode b) ->
  length b - f_pos f < fuel ->
  exists r k, file_reads fuel f w = (Ret r, tick k w) /\
    stream_data r = drop (f_pos f) b /\ stream_err r = None.
Proof.
  intros Hff. revert f w Hff.
  induction fuel as [|fuel IH]; intros f w Hff Hc Hf Hfuel; [lia|]. cbn [file_reads].
  unfold go_bind at 1. rewrite sys_fault_free by done. unfold file_op_err at 1. rewrite Hc.
  cbn [fmap option_fmap option_map]. unfold go_bind at 1. unfold go_get, file_contents.
  change (nodes (tick 1 w)) with (nodes w). rewrite Hf. cbv zeta.
  case_bool_decide as Hbuf.
  { exists [([], Some EOF)], 1. split; [done|]. split; [|done]. cbn [stream_data].
    destruct (drop (f_pos f) b); done. }
  assert (f_pos f < length b) as Hlt.
  { destruct (decide (f_pos f < length b)) as [|Hge]; [done|].
    destruct Hbuf. rewrite drop_ge by lia. apply take_nil. }
  set (buf := take 4096 (drop (f_pos f) b)) in *.
  assert (0 < length buf) as Hpos by (destruct buf; [done|simpl; lia]).
  destruct (IH (mkFile (f_name f) (f_path f) (f_pos f + length buf) false) (tick 1 w))
    as (r & k & E & Hd & He); [done|done|done|cbn [f_pos]; lia|].
  unfold go_bind. rewrite E. exists ((buf, None) :: r), (k + 1). rewrite tick_tick.
  split; [done|]. cbn [stream_data stream_err]. split; [|done]. rewrite Hd. cbn [f_pos].
  rewrite <-drop_drop. unfold buf. rewrite length_take.
  set (l := drop (f_pos f) b). destruct (decide (length l <= 4096)).
  - rewrite (firstn_all2 l), drop_ge, (right_id_L [] (++)) by lia. done.
  - rewrite Nat.min_l by lia. apply take_drop.
Qed.

Lemma file_reader_spec f b (w : World) :
  fault_free w -> f_closed f = false -> nodes w !! f_path f = Some (FileNode b) ->
  exists r k, file_reader f w = (Ret r, tick k w) /\
    stream_data r = drop (f_pos f) b /\ stream_err r = None.
Proof.
  intros Hff Hc Hf. unfold file_reader, go_bind, go_get, file_contents. rewrite Hf.
  apply file_reads_spec; try done. cbn [default]. unfold default, id. simpl. lia.
Qed.

End ReaderFacts.

(** ** What the manager promises to the reader *)

(** [sl_log dir L m]: the directory [dir] holds the layout [L] and the manager
    [m] works on it.  Reading a file of the log returns its bytes, an index
    update is a union, and calls that only read leave the log as it is. *)
Class SegmentManagerLaws (M : Type) `{!SegmentManager M} := {
  sl_world : M -> World;
  sl_index : M -> gmap N IndexEntry;
  sl_log : gostring -> layout -> M -> Prop;
  sl_log_dir dir L m : sl_log dir L m ->
    exists d B, resolve dir = Some d /\ ManagerFacts.dir_on d B L (sl_world m);
  sl_ReadSegment dir L n rs m : sl_log dir L m -> (n, rs) ∈ L ->
    exists m', sm_ReadSegment (join dir n) m = (Ret (Ok (Row.encode_rows rs)), m') /\
      sl_log dir L m' /\ sl_index m' = sl_index m;
  sl_AddBatchIndex dir L es m : sl_log dir L m ->
    exists m', sm_AddBatchIndex es m = (Ret tt, m') /\
      sl_log dir L m' /\ sl_index m' = es ∪ sl_index m;
  sl_on_world {A} (c : Go World A) dir L m a k : sl_log dir L m ->
    c (sl_world m) = (Ret a, tick k (sl_world m)) ->
    exists m', sm_world c m = (Ret a, m') /\ sl_log dir L m' /\ sl_index m' = sl_index m /\
      sl_world m' = tick k (sl_world m)
}.

(** The manager keeps them with its log in the directory [d], its index
    updates [pnd] still to run and [N] readings of the clock made. *)
Program Definition manager_segment_laws_at {I : Type} `{!IndexManager I} `{!IndexLaws I}
    (d : FileSystem.path) (B : nat) (pnd : list (gmap N IndexEntry)) (N : nat) :
  SegmentManagerLaws (Manager.st I) := {|
  sl_world := Manager.world;
  sl_index := fun s => im_abs (Manager.im (Manager.mgr s));
  sl_log := fun dir L s => resolve dir = Some d /\ ManagerFacts.log_on d B L s /\
    Manager.pending (Manager.mgr s) = pnd /\ now_calls (Manager.world s) = N
|}.
Next Obligation.
  intros I ? ? d B pnd N dir L m (Hd & H & _). exists d, B. split; [done|apply H].
Qed.
Next Obligation.
  intros I ? ? d B pnd N dir L n rs m (Hd & H & HN) Hn.
  eexists. split; [by eapply ManagerFacts.ReadSegment_on|]. split; [|done].
  split; [done|]. split; [by apply ManagerFacts.log_on_tick|done].
Qed.
Next Obligation.
  intros I ? ? d B pnd N dir L es m (Hd & H & HN). eexists. split; [reflexivity|].
  split; [|apply im_AddBatch_law]. split; [done|]. split; [|done]. destruct H. by constructor.
Qed.
Next Obligation.
  intros I ? ? d B pnd N A c dir L m a k (Hd & H & HN) E. exists (ManagerFacts.tick_st k m).
  split; [|split; [|done]].
  - cbn. unfold Manager.on_world, go_zoom. by rewrite E.
  - split; [done|]. split; [by apply ManagerFacts.log_on_tick|done].
Qed.

#[export] Program Instance manager_segment_laws {I : Type} `{!IndexManager I} `{!IndexLaws I} :
  SegmentManagerLaws (Manager.st I) := {|
  sl_world := Manager.world;
  sl_index := fun s => im_abs (Manager.im (Manager.mgr s));
  sl_log := fun dir L s => exists d B, resolve dir = Some d /\ ManagerFacts.log_on d B L s
|}.
Next Obligation.
  intros I ? ? dir L m (d & B & Hd & H). exists d, B. split; [done|apply H].
Qed.
Next Obligation.
  intros I ? ? dir L n rs m (d & B & Hd & H) Hn.
  destruct (sl_ReadSegment (SegmentManagerLaws := manager_segment_laws_at d B _ _) dir L n rs m
    (conj Hd (conj H (conj eq_refl eq_refl))) Hn) as (m' & E & (_ & H' & _) & Hi). eauto 10.
Qed.
Next Obligation.
  intros I ? ? dir L es m (d & B & Hd & H).
  destruct (sl_AddBatchIndex (SegmentManagerLaws := manager_segment_laws_at d B _ _) dir L es m
    (conj Hd (conj H (conj eq_refl eq_refl)))) as (m' & E & (_ & H' & _) & Hi). eauto 10.
Qed.
Next Obligation.
  intros I ? ? A c dir L m a k (d & B & Hd & H) E.
  destruct (sl_on_world (SegmentManagerLaws := manager_segment_laws_at d B _ _) c dir L m a k
    (conj Hd (conj H (conj eq_refl eq_refl))) E) as (m' & E' & (_ & H' & _) & Hi). eauto 10.
Qed.

Module LogFacts.
Import LogReader ReaderFacts ManagerFacts SegmentFacts.

Section facts.
Context {M : Type} `{!SegmentManager M} `{!SegmentManagerLaws M}.
Context (dir : gostring).

Lemma file_rows_wf L n rs (m : M) : sl_log dir L m -> (n, rs) ∈ L -> Forall Row.wf rs.
Proof.
  intros H Hn. destruct (sl_log_dir _ _ _ H) as (d & B & _ & Hd).
  pose proof (do_wf _ _ _ _ Hd) as F. unfold rows_of in F. apply Forall_concat in F.
  rewrite Forall_forall in F. apply F, list_elem_of_fmap. by exists (n, rs).
Qed.

Lemma ReadFrom_file_on L n rs1 rs2 (m : M) :
  sl_log dir L m -> (n, rs1 ++ rs2) ∈ L ->
  exists m', ReadFrom_file dir n (len (Row.encode_rows rs1)) m = (Ret (Ok rs2), m') /\
    sl_log dir L m' /\ sl_index m' = sl_index m.
Proof.
  intros H Hn. pose proof (file_rows_wf _ _ _ _ H Hn) as [_ Hwf]%Forall_app.
  destruct (sl_ReadSegment dir L n (rs1 ++ rs2) m H Hn) as (m' & E & H' & Hi).
  exists m'. split; [|done]. unfold ReadFrom_file. fold (join dir n).
  rewrite (go_bind_ret _ _ _ _ _ E). unfold lift, go_bind. by rewrite readFromOffset_rows.
Qed.

Lemma ReadFrom_loop_on L fs off i results (m : M) :
  sl_log dir L m -> (forall f, f ∈ fs -> f ∈ L) -> i <> 0 ->
  exists m', ReadFrom_loop dir off fs.*1 i results m = (Ret (Ok (results ++ rows_of fs)), m') /\
    sl_log dir L m' /\ sl_index m' = sl_index m.
Proof.
  revert i results m. induction fs as [|[n rs] fs IH]; intros i results m H Hin Hi.
  { exists m. cbn. by rewrite (right_id_L [] (++)). }
  rewrite fmap_cons. cbn [ReadFrom_loop fst]. rewrite bool_decide_false by done.
  destruct (ReadFrom_file_on L n [] rs m H) as (m1 & E & H1 & Hi1); [apply Hin; by left|].
  change (len (Row.encode_rows [])) with 0%Z in E. rewrite (go_bind_ret _ _ _ _ _ E).
  destruct (IH (i + 1) (results ++ rs) m1 H1) as (m2 & -> & H2 & Hi2);
    [intros f Hf; apply Hin; by right|lia|].
  exists m2. split; [|split; [done|congruence]]. do 2 f_equal. by rewrite <-(assoc_L (++)).
Qed.

(** [n] splits a list without duplicates in one way. *)
Lemma NoDup_split {A} (l1 l2 k1 k2 : list A) n :
  NoDup (l1 ++ n :: l2) -> l1 ++ n :: l2 = k1 ++ n :: k2 -> l2 = k2.
Proof.
  revert k1. induction l1 as [|x l1 IH]; intros [|y k1] Hnd E; simplify_list_eq.
  - done.
  - apply NoDup_cons in Hnd as [[] _]. apply elem_of_app. right. by left.
  - apply NoDup_cons in Hnd as [[] _]. apply elem_of_app. right. by left.
  - apply NoDup_cons in Hnd as [_ Hnd]. eauto.
Qed.

(** [ReadFrom] returns the rows from the given place to the end of the log. *)
Lemma ReadFrom_on L1 n rs1 rs2 L2 (m : M) :
  let L := L1 ++ (n, rs1 ++ rs2) :: L2 in
  sl_log dir L m ->
  exists m', ReadFrom dir n (len (Row.encode_rows rs1)) m = (Ret (Ok (rs2 ++ rows_of L2)), m') /\
    sl_log dir L m' /\ sl_index m' = sl_index m.
Proof.
  intros L H. destruct (sl_log_dir _ _ _ H) as (d & B & Hdir & Hd).
  assert ((n, rs1 ++ rs2) ∈ L) as Hn by (apply elem_of_app; right; by left).
  assert (n ∈ L.*1) as Hn1 by (apply list_elem_of_fmap; by exists (n, rs1 ++ rs2)).
  destruct (ReadDirsFrom_dir (sl_world m) dir d n) as (l & E & Hl);
    [apply Hd|done|apply Hd| |].
  { pose proof (do_plain _ _ _ _ Hd) as F. rewrite Forall_forall in F. by apply F. }
  rewrite (do_entries _ _ _ _ Hd) in Hl. destruct Hl as [[Hni _]|(pre & Hpre & Hhd)]; [done|].
  destruct l as [|n' l]; [done|]. injection Hhd as ->.
  assert (L2.*1 = l) as <-.
  { pose proof (dir_on_NoDup _ _ _ _ Hd) as Hnd. unfold L in *. rewrite fmap_app, fmap_cons in *.
    by eapply NoDup_split. }
  destruct (sl_on_world _ dir L m _ _ H E) as (m1 & E1 & H1 & Hi1 & _).
  unfold ReadFrom. rewrite (go_bind_ret _ _ _ _ _ E1). cbn [length]. rewrite bool_decide_false by lia.
  cbn [ReadFrom_loop]. rewrite bool_decide_true by done.
  destruct (ReadFrom_file_on L n rs1 rs2 m1 H1 Hn) as (m2 & E2 & H2 & Hi2).
  rewrite (go_bind_ret _ _ _ _ _ E2).
  destruct (ReadFrom_loop_on L L2 (len (Row.encode_rows rs1)) 1 rs2 m2 H2) as (m3 & E3 & H3 & Hi3).
  { intros f Hf. apply elem_of_app. right. by right. } { done. }
  exists m3. split; [exact E3|]. split; [done|]. congruence.
Qed.

(** *** Restoring *)

Lemma restore_entries_of rows n off es :
  Forall Row.wf rows -> (0 <= off)%Z -> (off + len (Row.encode_rows rows) < 2 ^ 63)%Z ->
  restore_entries rows n off es = entries_of n off rows es.
Proof.
  intros Hwf. revert off es. induction Hwf as [|r rows Hr _ IH]; intros off es H0 Hb; [done|].
  rewrite Row.len_encode_rows_cons in Hb. cbn [restore_entries entries_of].
  rewrite Row.Marshal_wf by done. rewrite i64_id by lens. apply IH; lens.
Qed.

Lemma restore_file_on L n rs (m : M) :
  sl_log dir L m -> (n, rs) ∈ L -> (len (Row.encode_rows rs) < 2 ^ 63)%Z ->
  exists m', restore_file dir n m = (Ret (Ok rs), m') /\ sl_log dir L m' /\
    sl_index m' = entries_of n 0 rs ∅ ∪ sl_index m.
Proof.
  intros H Hn Hb. pose proof (file_rows_wf _ _ _ _ H Hn) as Hwf.
  destruct (sl_log_dir _ _ _ H) as (d & B & Hdir & Hd).
  assert (plain_name n) as Hp.
  { pose proof (do_plain _ _ _ _ Hd) as F. rewrite Forall_forall in F. apply F.
    apply list_elem_of_fmap. by exists (n, rs). }
  assert (nodes (sl_world m) !! child d n = Some (FileNode (Row.encode_rows rs))) as Hf.
  { pose proof (do_files _ _ _ _ Hd) as F. rewrite Forall_forall in F. apply (F _ Hn). }
  pose proof (OpenFile_existing (sl_world m) dir d n (do_ff _ _ _ _ Hd) Hdir (do_ex _ _ _ _ Hd) Hp _ Hf)
    as Eo.
  destruct (sl_on_world _ dir L m _ _ H Eo) as (m1 & E1 & H1 & Hi1 & Hw1).
  unfold restore_file. fold (join dir n). rewrite (go_bind_ret _ _ _ _ _ E1).
  edestruct (file_reader_spec (mkFile (join dir n) (child d n) 0 false) (Row.encode_rows rs) (sl_world m1))
    as (r & k & Er & Hsd & Hse); [rewrite Hw1; apply Hd|done|by rewrite Hw1|].
  destruct (sl_on_world _ dir L m1 _ _ H1 Er) as (m2 & E2 & H2 & Hi2 & Hw2).
  unfold child in E2. rewrite (go_bind_ret _ _ _ _ _ E2). unfold lift. unfold go_bind at 1.
  cbn [f_pos] in Hsd. rewrite drop_0 in Hsd.
  rewrite (read_parses r rs []) by (rewrite Hsd; by apply parses_rows). rewrite Hse.
  destruct (sl_AddBatchIndex dir L (restore_entries rs n 0 ∅) m2 H2) as (m3 & E3 & H3 & Hi3).
  unfold restoreIndex. rewrite (go_bind_ret _ _ _ _ _ E3).
  destruct (sl_log_dir _ _ _ H3) as (d' & B' & _ & Hd3).
  edestruct (sl_on_world (file_Close (mkFile (join dir n) (child d n) 0 false)) dir L m3)
    as (m4 & E4 & H4 & Hi4 & _); [done| |].
  { unfold file_Close, go_bind. rewrite sys_fault_free by apply Hd3. reflexivity. }
  unfold child in E4. rewrite (go_bind_ret _ _ _ _ _ E4).
  exists m4. split; [done|]. split; [done|].
  rewrite Hi4, Hi3, Hi2, Hi1. by rewrite restore_entries_of.
Qed.

(** The index after the files [fs] were restored. *)
Definition restored (fs : layout) (es : gmap N IndexEntry) : gmap N IndexEntry :=
  foldl (fun es f => entries_of f.1 0 f.2 ∅ ∪ es) es fs.

Lemma restore_loop_on L fs (m : M) :
  sl_log dir L m -> (forall f, f ∈ fs -> f ∈ L) ->
  Forall (fun f => (len (Row.encode_rows f.2) < 2 ^ 63)%Z) fs ->
  exists m', restore_loop dir fs.*1 m = (Ret (Ok <$> fs.*2), m') /\ sl_log dir L m' /\
    sl_index m' = restored fs (sl_index m).
Proof.
  revert m. induction fs as [|[n rs] fs IH]; intros m H Hin Hb; [by exists m|].
  apply Forall_cons in Hb as [Hb1 Hb2]. rewrite !fmap_cons. cbn [restore_loop fst snd].
  destruct (restore_file_on L n rs m H) as (m1 & E1 & H1 & Hi1); [apply Hin; by left|done|].
  rewrite (go_bind_ret _ _ _ _ _ E1).
  destruct (IH m1 H1) as (m2 & E2 & H2 & Hi2); [intros f Hf; apply Hin; by right|done|].
  rewrite (go_bind_ret _ _ _ _ _ E2). exists m2. split; [done|]. split; [done|].
  rewrite Hi2, Hi1. done.
Qed.

Lemma restored_sound L fs es :
  (forall f, f ∈ fs -> f ∈ L) -> (forall lsn e, es !! lsn = Some e -> entry_ok L lsn e) ->
  forall lsn e, restored fs es !! lsn = Some e -> entry_ok L lsn e.
Proof.
  revert es. induction fs as [|[n rs] fs IH]; intros es Hin Hes; [done|].
  apply IH; [intros f Hf; apply Hin; by right|]. intros lsn e. cbn [fst snd].
  intros [He|[_ He]]%lookup_union_Some_raw; [|by apply Hes].
  apply entries_of_sound in He as [He|(rs1 & r & rs2 & -> & <- & ->)]; [by rewrite lookup_empty in He|].
  destruct (list_elem_of_split L (n, rs1 ++ r :: rs2)) as (L1 & L2 & ->); [apply Hin; by left|].
  exists L1, rs1, r, rs2, L2. done.
Qed.

Lemma restored_complete fs es lsn :
  is_Some (es !! lsn) \/ (exists r, r ∈ rows_of fs /\ Row.lsnID r = lsn) ->
  is_Some (restored fs es !! lsn).
Proof.
  revert es. induction fs as [|[n rs] fs IH]; intros es H.
  { destruct H as [H|(r & Hr & _)]; [done|]. by apply not_elem_of_nil in Hr. }
  apply IH. cbn [fst snd]. destruct H as [H|(r & Hr & <-)].
  - left. rewrite lookup_union_is_Some. by right.
  - apply elem_of_app in Hr as [Hr|Hr]; [|right; by exists r].
    left. rewrite lookup_union_is_Some. left. by apply entries_of_complete.
Qed.

Lemma RestoreSystemStream_on L (m : M) :
  sl_log dir L m -> Forall (fun f => (len (Row.encode_rows f.2) < 2 ^ 63)%Z) L ->
  exists m', RestoreSystemStream dir m = (Ret (Ok <$> L.*2), m') /\ sl_log dir L m' /\
    sl_index m' = restored L (sl_index m).
Proof.
  intros H Hb. destruct (sl_log_dir _ _ _ H) as (d & B & Hdir & Hd).
  pose proof (ReadDir_dir (sl_world m) dir d (do_ff _ _ _ _ Hd) Hdir (do_ex _ _ _ _ Hd)) as E.
  destruct (sl_on_world _ dir L m _ _ H E) as (m1 & E1 & H1 & Hi1 & _).
  unfold RestoreSystemStream. rewrite (go_bind_ret _ _ _ _ _ E1).
  rewrite (do_entries _ _ _ _ Hd), length_fmap, <-Hi1.
  case_bool_decide as Hl; [|by apply restore_loop_on].
  apply nil_length_inv in Hl as ->. by exists m1.
Qed.

End facts.

(** What the index answers after all files were restored. *)
Lemma GetIndex_restored {I : Type} `{!IndexManager I} `{!IndexLaws I} L lsn (s : Manager.st I) :
  im_abs (Manager.im (Manager.mgr s)) = restored L ∅ ->
  exists r, Manager.GetIndex lsn s = (Ret r, s) /\
    match r with
    | Ok e => entry_ok L lsn e
    | Err err => err = ErrIndexNotFound /\ forall row, row ∈ rows_of L -> Row.lsnID row <> lsn
    end.
Proof.
  intros Hi. unfold Manager.GetIndex, go_get. eexists. split; [reflexivity|].
  rewrite im_GetIndex_law. unfold map_GetIndex. rewrite Hi. destruct (restored L ∅ !! lsn) as [e|] eqn:El.
  - eapply (restored_sound L L ∅); [done| |exact El]. intros l e' H. by rewrite lookup_empty in H.
  - split; [done|]. intros row Hin Hlsn. destruct (restored_complete L ∅ lsn) as [e He]; [right; eauto|]. congruence.
Qed.

End LogFacts.

(** ** Properties *)

Module TornTail.
Import LogReader ReaderFacts.

(** The encoding of a row up to its last argument's bytes does not depend on
    those bytes, only on how many there are. *)
Lemma encode_last_arg lsn m init (a b : gostring) :
  length a = length b ->
  exists h, Row.encode (Row.mk lsn m (init ++ [a])) = h ++ a /\
    Row.encode (Row.mk lsn m (init ++ [b])) = h ++ b.
Proof.
  intros Hl. unfold Row.encode. cbn [Row.lsnID Row.methodID Row.args].
  rewrite !fmap_app, !concat_app, !length_app. cbn [fmap list_fmap concat length].
  unfold Row.encode_arg. rewrite <-Hl. rewrite !(right_id_L [] (++)).
  eexists. rewrite !(assoc_L (++)). done.
Qed.

Lemma torn_then_junk lsn m init (a junk : bytes) k :
  let r := Row.mk lsn m (init ++ [a]) in
  Row.wf r -> k < length (Row.encode r) -> length (Row.encode r) - k <= length a ->
  length junk < length (Row.encode r) - k ->
  torn (take k (Row.encode r) ++ junk).
Proof.
  intros r Hwf Hk Ha Hj. set (missing := length (Row.encode r) - k) in *.
  set (b := take (length a - missing) a ++ junk ++ replicate (missing - length junk) x00).
  assert (length b = length a) as Hb.
  { unfold b. rewrite !length_app, length_take, length_replicate. lia. }
  destruct (encode_last_arg lsn m init a b) as (h & E1 & E2); [done|].
  assert (Row.wf (Row.mk lsn m (init ++ [b]))) as Hwf'.
  { unfold r in Hwf. destruct Hwf as (W1 & W2 & W3 & W4).
    cbn [Row.lsnID Row.methodID Row.args] in *.
    split; [done|]. split; [done|]. cbn [Row.args]. split; [unfold len in *; rewrite length_app in *; exact W3|].
    apply Forall_app in W4 as [W4 W5]. apply Forall_app. split; [done|].
    constructor; [|done]. apply Forall_inv in W5. unfold Row.short_arg, len in *. by rewrite Hb. }
  pose proof (f_equal length E1) as El. rewrite length_app in El. fold r in El, E1.
  assert (take k (Row.encode r) ++ junk =
    take (k + length junk) (Row.encode (Row.mk lsn m (init ++ [b])))) as ->.
  { rewrite E1, E2. assert (k = length h + (length a - missing)) as Hkh by lia.
    rewrite Hkh, take_app_add, <-Nat.add_assoc, take_app_add, <-(assoc_L (++)). f_equal. unfold b.
    assert (length (take (length a - missing) a) = length a - missing) as Hlt
      by (rewrite length_take; lia).
    rewrite <-Hlt at 2. by rewrite take_app_add, take_app_length. }
  destruct (Row.Unmarshal_torn Row.zero (Row.mk lsn m (init ++ [b])) (k + length junk) Hwf')
    as (r' & E).
  - rewrite E2, length_app. lia.
  - unfold torn. by rewrite E.
Qed.

End TornTail.

Section properties.
Import LogReader ReaderFacts LogFacts Manager ManagerFacts.

(** C15: [read] returns on every stream, and what it returns depends only on
    the bytes and on the error that ends them, not on how the stream is cut
    into reads: exactly the rows the bytes spell, up to an incomplete record
    at the end, which is dropped; a read error other than the end of file is
    reported, with the rows read before it. *)
Theorem read_any_chunking (r : reader) :
  exists rows rest, read r = Ret (rows, stream_err r) /\ parses (stream_data r) rows rest /\
    forall rows' rest', parses (stream_data r) rows' rest' -> rows' = rows /\ rest' = rest.
Proof.
  destruct (read_spec r) as (rows & rest & Hp & E). exists rows, rest.
  split; [done|]. split; [done|]. intros rows' rest' Hp'. by eapply parses_unique.
Qed.

(** C35: a torn record hides what is written after it.  When a crash leaves a
    record cut inside its last argument and the file is appended to, as
    [NewFileSegment] does at the next start, rows that take less room than
    the missing bytes are not read back: [read] returns only the rows before
    the torn record, without an error. *)
Theorem torn_tail_hides_appends (before later : list Row.t) (lsn m : N) (init : list gostring)
    (a : gostring) (k : nat)
    (Hbefore : Forall Row.wf before) (Hwf : Row.wf (Row.mk lsn m (init ++ [a])))
    (Hk : (k < length (Row.encode (Row.mk lsn m (init ++ [a]))))%nat)
    (Ha : (length (Row.encode (Row.mk lsn m (init ++ [a]))) - k <= length a)%nat)
    (Hlater : (length (Row.encode_rows later) <
               length (Row.encode (Row.mk lsn m (init ++ [a]))) - k)%nat) :
  read (bytes_reader (Row.encode_rows before ++
    take k (Row.encode (Row.mk lsn m (init ++ [a]))) ++ Row.encode_rows later)) = Ret (before, None).
Proof.
  set (data := Row.encode_rows before ++ _).
  destruct (chunks_data (length data) data) as [Hd He]; [done|]. unfold bytes_reader.
  rewrite (read_parses _ before
    (take k (Row.encode (Row.mk lsn m (init ++ [a]))) ++ Row.encode_rows later)); [by rewrite He|].
  rewrite Hd. split; [done|]. split; [done|]. by apply TornTail.torn_then_junk.
Qed.

Context {I : Type} `{!IndexManager I} `{!IndexLaws I}.

(** A restart loses nothing.  After any run of writes and index updates,
    a new process that opens the directory and restores it puts on the
    stream exactly the rows of the log, file by file and in order, and
    rebuilds an index that locates every row and nothing else. *)
Theorem restart_restores_log (d : FileSystem.path) (B : nat) (dir : gostring) (L : layout)
    (es : list event) (max : Z) (im0 : I) (s : st I)
    (Hdir : resolve dir = Some d) (Hlog : log_on d B L s) (Hidx : idx_on L s)
    (Hwf : Forall (fun e => Forall Row.wf (event_rows e)) es)
    (Hsize : (volume (rows_of L ++ concat (event_rows <$> es)) < 2 ^ 63)%Z)
    (Hclock : (now_calls (world s) + length (concat (event_rows <$> es)) < B)%nat)
    (Hempty : im_abs im0 = ∅) :
  exists s1 w2 seg L' s3,
    run es s = (Ret (Ok tt), s1) /\
    FileSegment.NewFileSegment dir max (world s1) = (Ret (Ok seg), w2) /\
    RestoreSystemStream dir (mkSt w2 (NewSegmentManager im0 seg)) = (Ret (Ok <$> L'.*2), s3) /\
    concat L'.*2 = rows_of L ++ concat (event_rows <$> es) /\
    forall lsn, exists r, GetIndex lsn s3 = (Ret r, s3) /\
      match r with
      | Ok e => entry_ok L' lsn e
      | Err err => err = ErrIndexNotFound /\ forall row, row ∈ rows_of L' -> Row.lsnID row <> lsn
      end.
Proof.
  destruct (run_on d B es L s Hlog Hidx Hwf Hsize) as (L' & s1 & E1 & Hl1 & _ & _ & Hr & Hn); [lia|].
  destruct (NewFileSegment_on d B L' dir max im0 (world s1)) as (w2 & seg & E2 & _ & _ & _ & _ & Hl2);
    [apply Hl1|done|lia|].
  assert (opened L' (world s1) = L') as Ho.
  { destruct (lo_cur _ _ _ _ Hl1) as (L0 & n & rs & -> & _). unfold opened.
    by rewrite bool_decide_false by (by destruct L0). }
  rewrite Ho in Hl2.
  destruct (RestoreSystemStream_on dir L' (mkSt w2 (NewSegmentManager im0 seg)))
    as (s3 & E3 & _ & Hi).
  { by exists d, B. }
  { apply Forall_forall. intros [n rs] Hf. apply file_volume in Hf. rewrite Hr in Hf. cbn [snd]. lia. }
  exists s1, w2, seg, L', s3. do 4 (split; [done|]). intros lsn.
  apply GetIndex_restored. cbn in Hi. by rewrite Hi, Hempty.
Qed.

(** The log suffix a replica asks for.  When the index answers for an
    identifier, [ReadFrom] at that place returns the log from a row with that
    identifier to its end, across all later files. *)
Theorem ReadFrom_index_suffix (d : FileSystem.path) (B : nat) (dir : gostring) (L : layout)
    (lsn : N) (e : IndexEntry) (s : st I)
    (Hdir : resolve dir = Some d) (Hlog : log_on d B L s) (Hidx : idx_on L s)
    (Hindex : GetIndex lsn s = (Ret (Ok e), s)) :
  exists pre r suf s', rows_of L = pre ++ r :: suf /\ Row.lsnID r = lsn /\
    ReadFrom dir (FileName e) (Offset e) s = (Ret (Ok (r :: suf)), s').
Proof.
  destruct (GetIndex_on L lsn s Hidx) as (x & E & Hx). rewrite Hindex in E. injection E as <-.
  destruct Hx as (L1 & rs1 & r & rs2 & L2 & -> & Hr & Ho).
  destruct (ReadFrom_on dir L1 (FileName e) rs1 (r :: rs2) L2 s) as (s' & E & _); [by exists d, B|].
  exists (rows_of L1 ++ rs1), r, (rs2 ++ rows_of L2), s'. rewrite Ho. split; [|done].
  unfold rows_of. rewrite fmap_app, fmap_cons, concat_app. cbn [concat snd].
  by rewrite <-!(assoc_L (++)).
Qed.

End properties.

Module LogWitnesses.
Import LogReader Manager ManagerFacts Examples.

Lemma torn_tail_hides_appends_witness :
  read (bytes_reader (Row.encode_rows [ex_row 1] ++
    take 20 (Row.encode (Row.mk 2 0 ([str "key"] ++ [replicate 64 x61]))) ++
    Row.encode_rows [ex_row 3; ex_row 4])) = Ret ([ex_row 1], None).
Proof.
  apply (torn_tail_hides_appends [ex_row 1] [ex_row 3; ex_row 4] 2 0 [str "key"] (replicate 64 x61) 20).
  - apply (bool_decide_unpack _). vm_compute. exact Logic.I.
  - apply (bool_decide_unpack _). vm_compute. exact Logic.I.
  - apply (bool_decide_unpack _). vm_compute. exact Logic.I.
  - apply (bool_decide_unpack _). vm_compute. exact Logic.I.
  - apply (bool_decide_unpack _). vm_compute. exact Logic.I.
Defined.

Lemma restart_restores_log_witness :
  exists (s s3 w : st Mutex.t) (L' : layout),
    RestoreSystemStream (str "data") w = (Ret (Ok <$> L'.*2), s3) /\
    run [EWrite [ex_row 1; ex_row 2]; EIndex 0; EWrite [ex_row 3]] s =
      (Ret (Ok tt), snd (run [EWrite [ex_row 1; ex_row 2]; EIndex 0; EWrite [ex_row 3]] s)) /\
    concat L'.*2 = [ex_row 1; ex_row 2; ex_row 3].
Proof.
  destruct example_start as (w & seg & _ & _ & _ & Hn & Hl & Hi).
  destruct (restart_restores_log example_dir 1000 (str "data") _
    [EWrite [ex_row 1; ex_row 2]; EIndex 0; EWrite [ex_row 3]] 30 Mutex.NewIndexManagerMutex _
    eq_refl Hl Hi) as (s1 & w2 & seg2 & L' & s3 & E1 & _ & E3 & Hr & _).
  - apply (bool_decide_unpack _). vm_compute. exact Logic.I.
  - reflexivity.
  - cbn. cbn in Hn. lia.
  - reflexivity.
  - do 4 eexists. split; [exact E3|]. split; [|exact Hr]. rewrite E1. reflexivity.
Defined.

Lemma ReadFrom_index_suffix_witness :
  exists (s s' : st Mutex.t) e rest,
    ReadFrom (str "data") (FileName e) (Offset e) s = (Ret (Ok (ex_row 1 :: rest)), s').
Proof.
  destruct example_start as (w & seg & E & _ & _ & Hn & Hl & Hi).
  destruct (run_on example_dir 1000 [EWrite [ex_row 1]; EIndex 0] _ _ Hl Hi)
    as (L' & s1 & E1 & Hl1 & Hi1 & _ & Hr & _).
  { apply (bool_decide_unpack _). vm_compute. exact Logic.I. }
  { reflexivity. }
  { cbn. cbn in Hn. lia. }
  assert (s1 = snd (run [EWrite [ex_row 1]; EIndex 0] (Witnesses.started example_world))) as Es.
  { unfold Witnesses.started. rewrite E, E1. reflexivity. }
  assert (fst (GetIndex 1 s1) = Ret (Ok (mkEntry 0 (seg_name (10 ^ 15)) 0))) as Hg.
  { rewrite Es. vm_compute. reflexivity. }
  destruct (ReadFrom_index_suffix example_dir 1000 (str "data") L' 1
    (mkEntry 0 (seg_name (10 ^ 15)) 0) s1 eq_refl Hl1 Hi1) as (pre & r & suf & s' & Hrows & _ & Hread).
  { rewrite <-Hg. reflexivity. }
  rewrite Hr in Hrows. destruct pre as [|? [|]]; [|discriminate..].
  injection Hrows as <- <-. exists s1, s', (mkEntry 0 (seg_name (10 ^ 15)) 0), []. exact Hread.
Defined.

End LogWitnesses.
