(* ===== verification/LogReaders.v ===== *)
(** * Readers of a log that is being written

    [LogReader.ReadFrom] while the segment manager writes: the master answers
    a slave in a goroutine of its own, which looks up the index, lists the
    directory and reads one file after the other, and in between the worker of
    the log writes batches and starts new files, and the goroutines of
    [writeBatch] update the index.

    No lock keeps them apart.  [ReadFrom] asks [ReadSegment] for
    [directory/name], which is never the bare name of the current segment, so
    every file is read past the manager's mutex, also while a write of it is
    half done: [file.Write] may reach the disk in pieces. *)

From S2P Require Import Prelude Encoding WalRecord FileSystem Index Segment SegmentManager Logs.

Module LogReaders.
Section readers.
Context {I : Type} `{!IndexManager I} (dir : gostring).

(** Where the writer of the segment manager is: between two batches, or inside
    [FileSegment.Write] of a batch of rows with its index entries, with the
    bytes that are left and the number of those written. *)
Inductive wpc :=
| WIdle
| WWriting (rows : list Row.t) (entries : gmap N IndexEntry) (rest : bytes) (n : nat).

(** Where a reader is: before the lookup of the index, before the listing of
    the directory, in the loop of [ReadFrom], or back. *)
Inductive rpc :=
| RIndex
| RDirs (e : IndexEntry)
| RFiles (firstOffset : Z) (names : list gostring) (i : nat) (results : list Row.t)
| RDone (res : result (list Row.t)).

(** [seen] is the number of rows that were written when the reader looked up
    the index; the program does not see it. *)
Record reader := mkReader { lsn : N; seen : nat; at_ : rpc }.

(** The manager, the writer, the readers and, for the statements only, the rows
    written so far. *)
Record t := mk { mst : Manager.st I; writer : wpc; readers : list reader; logged : list Row.t }.

Definition set_seg (seg : FileSegment.t) (w : World) (m : Manager.st I) : Manager.st I :=
  Manager.mkSt w (Manager.mk (Manager.locked (Manager.mgr m)) seg (Manager.im (Manager.mgr m))
    (Manager.pending (Manager.mgr m))).

Definition set_reader (j : nat) (pc : rpc) (s : t) (m : Manager.st I) : t :=
  mk m (writer s) (alter (fun r => mkReader (lsn r) (seen r) pc) j (readers s)) (logged s).

Inductive step : t -> t -> Prop :=
(** [writeBatch]: the entries, the lock; [FileSegment.Write]: the bytes in any
    number of pieces, the sync, the size; the unlock, the goroutine.  Which
    rows make a batch, and when a file is full, is left open here.  An empty
    batch only starts a goroutine. *)
| step_begin rows batch entries m m' rs lg :
    Manager.createBatch rows = Ok batch -> Manager.flatten batch <> [] ->
    Manager.entries_loop batch (FileSegment.GetName (Manager.curSeg (Manager.mgr m))) rows 0
      (FileSegment.CurrentOffset (Manager.curSeg (Manager.mgr m))) ∅ m = (Ret entries, m) ->
    Manager.Lock m = (Ret tt, m') ->
    step (mk m WIdle rs lg) (mk m' (WWriting rows entries (Manager.flatten batch) 0) rs lg)
| step_piece rows entries rest k n m rs lg written f w :
    0 < k <= length rest ->
    file_Write (FileSegment.file (Manager.curSeg (Manager.mgr m))) (take k rest) (Manager.world m) =
      (Ret (written, None, f), w) ->
    step (mk m (WWriting rows entries rest n) rs lg)
      (mk (set_seg (FileSegment.set_file f (Manager.curSeg (Manager.mgr m))) w m)
        (WWriting rows entries (drop k rest) (n + written)) rs lg)
| step_finish rows entries n m m' rs lg w :
    file_Sync (FileSegment.file (Manager.curSeg (Manager.mgr m))) (Manager.world m) = (Ret None, w) ->
    (let seg := Manager.curSeg (Manager.mgr m) in
     let seg' := FileSegment.mk (FileSegment.file seg) (FileSegment.path seg)
       (i64 (FileSegment.size seg + Z.of_nat n)) (FileSegment.maxSize seg) in
     (do! Manager.Unlock in Manager.spawn_AddBatchIndex entries) (set_seg seg' w m) = (Ret tt, m')) ->
    step (mk m (WWriting rows entries [] n) rs lg) (mk m' WIdle rs (lg ++ rows))
| step_nothing m m' rs lg :
    Manager.spawn_AddBatchIndex ∅ m = (Ret tt, m') -> step (mk m WIdle rs lg) (mk m' WIdle rs lg)
| step_rotate m m' rs lg :
    ManagerFacts.rotate m = (Ret (Ok tt), m') -> step (mk m WIdle rs lg) (mk m' WIdle rs lg)
(** A goroutine of [writeBatch]. *)
| step_update i m m' pc rs lg :
    Manager.run_pending i m = (Ret tt, m') -> step (mk m pc rs lg) (mk m' pc rs lg)
(** [Master.Handle] looks up the index; it may try again or give up. *)
| step_found s j l n e :
    readers s !! j = Some (mkReader l n RIndex) ->
    Manager.GetIndex l (mst s) = (Ret (Ok e), mst s) ->
    step s (mk (mst s) (writer s) (<[j := mkReader l (length (logged s)) (RDirs e)]> (readers s)) (logged s))
| step_missing s j l n e :
    readers s !! j = Some (mkReader l n RIndex) ->
    Manager.GetIndex l (mst s) = (Ret (Err e), mst s) ->
    step s (set_reader j (RDone (Err e)) s (mst s))
(** [ReadFrom]: the listing, then one file in each iteration. *)
| step_dirs s j l n e res m :
    readers s !! j = Some (mkReader l n (RDirs e)) ->
    Manager.on_world (ReadDirsFrom dir (FileName e)) (mst s) = (Ret res, m) ->
    step s (set_reader j (match res with
      | Err err => RDone (Err err)
      | Ok names => if bool_decide (length names = 0) then RDone (Ok []) else RFiles (Offset e) names 0 []
      end) s m)
| step_file s j l n off name names i results res m :
    readers s !! j = Some (mkReader l n (RFiles off (name :: names) i results)) ->
    LogReader.ReadFrom_file dir name (if bool_decide (i = 0) then off else 0%Z) (mst s) = (Ret res, m) ->
    step s (set_reader j (match res with
      | Err err => RDone (Err err)
      | Ok rows => RFiles off names (i + 1) (results ++ rows)
      end) s m)
| step_return s j l n off i results :
    readers s !! j = Some (mkReader l n (RFiles off [] i results)) ->
    step s (set_reader j (RDone (Ok results)) s (mst s)).

(** The rows of the batch that is being written. *)
Definition in_progress (s : t) : list Row.t :=
  match writer s with WIdle => [] | WWriting rows _ _ _ => rows end.

End readers.
Arguments t : clear implicits.
End LogReaders.

Module LogReadersFacts.
Import LogReaders Manager ManagerFacts SegmentFacts ReaderFacts.

(** *** What is half written *)

(** The first bytes of some rows are the first of the rows and a torn one. *)
Lemma parses_prefix (g : list Row.t) (b y : bytes) :
  Forall Row.wf g -> Row.encode_rows g = b ++ y ->
  exists x rest, parses b x rest /\ x `prefix_of` g.
Proof.
  intros Hg. revert b. induction Hg as [|r g Hr Hg IH]; intros b E.
  { change (Row.encode_rows []) with (@nil byte) in E. symmetry in E. apply app_nil in E as [-> _].
    exists [], []. split; [by apply (parses_rows [])|done]. }
  rewrite Row.encode_rows_cons in E. destruct (decide (length (Row.encode r) <= length b)) as [Hle|Hlt].
  - assert (b = Row.encode r ++ drop (length (Row.encode r)) b) as Hb.
    { rewrite <-(take_drop (length (Row.encode r)) b) at 1. f_equal.
      transitivity (take (length (Row.encode r)) (b ++ y)); [by rewrite take_app_le|].
      rewrite <-E. by rewrite take_app_length. }
    destruct (IH (drop (length (Row.encode r)) b)) as (x & rest & (Ex & Hx & Ht) & Hp).
    { rewrite Hb, <-(assoc_L (++)) in E. by apply app_inv_head in E. }
    exists (r :: x), rest. split; [|by apply prefix_cons]. split; [|split; [by constructor|done]].
    rewrite Row.encode_rows_cons, <-(assoc_L (++)), <-Ex. done.
  - exists [], b. split; [|apply prefix_nil]. split; [done|]. split; [done|].
    destruct (Row.Unmarshal_torn Row.zero r (length b) Hr) as [r' E']; [lia|].
    unfold torn. assert (take (length b) (Row.encode r) = b) as <-; [|by rewrite E'].
    transitivity (take (length b) (b ++ y)); [|by rewrite take_app_length].
    rewrite <-E. rewrite take_app_le by lia. done.
Qed.

(** [ReadFrom]'s call on a file whose last batch is half there. *)
Lemma readFromOffset_half rs1 cs g b y :
  Forall Row.wf (cs ++ g) -> Row.encode_rows g = b ++ y ->
  exists x, LogReader.readFromOffset (Row.encode_rows (rs1 ++ cs) ++ b) (len (Row.encode_rows rs1)) =
    Ret (cs ++ x, None) /\ x `prefix_of` g.
Proof.
  intros [Hcs Hg]%Forall_app E. destruct (parses_prefix g b y Hg E) as (x & rest & (Ex & Hx & Ht) & Hp).
  exists x. split; [|done]. unfold LogReader.readFromOffset.
  destruct (Z.ltb_spec (len (Row.encode_rows rs1)) 0); [lens|].
  unfold len. rewrite Nat2Z.id, Row.encode_rows_app, <-(assoc_L (++)), drop_app_length.
  set (data := Row.encode_rows cs ++ b).
  destruct (chunks_data (length data) data) as [Hd He]; [done|].
  unfold LogReader.bytes_reader. rewrite (read_parses _ (cs ++ x) rest); [by rewrite He|].
  rewrite Hd. split; [|split; [by apply Forall_app|done]].
  unfold data. by rewrite Row.encode_rows_app, Ex, <-(assoc_L (++)).
Qed.

(** *** The log under the writer *)

Section facts.
Context {I : Type} `{!IndexManager I} `{!IndexLaws I}.
Context (d : FileSystem.path) (B : nat) (dir : gostring).
Hypothesis Hdir : resolve dir = Some d.

(** The world with the file [n] as it was. *)
Definition with_file (n : gostring) (b : bytes) (w : World) : World :=
  set_nodes (<[child d n := FileNode b]> (nodes w)) w.

(** What the manager's files, index and segment are while the writer is at
    [pc]: [C] has the rows that are written, [P] also those of the batch in
    progress. *)
Definition log_at (pc : wpc) (C P : layout) (m : st I) : Prop :=
  match pc with
  | WIdle => log_on d B C m /\ idx_on C m /\ P = C
  | WWriting g es rest k =>
      exists L0 n rs b, C = L0 ++ [(n, rs)] /\ P = L0 ++ [(n, rs ++ g)] /\
        Row.encode_rows g = b ++ rest /\ length b = k /\
        dir_on d B C (with_file n (Row.encode_rows rs) (world m)) /\
        seg_on (with_file n (Row.encode_rows rs) (world m)) d n (Row.encode_rows rs) (curSeg (mgr m)) /\
        nodes (world m) !! child d n = Some (FileNode (Row.encode_rows rs ++ b)) /\
        idx_on C m /\ es = entries_of n (len (Row.encode_rows rs)) g ∅
  end.

(** What a reader finds. *)
Record readable (C P : layout) (m : st I) : Prop := {
  ra_ff : fault_free (world m);
  ra_ex : dir_exists (nodes (world m)) d;
  ra_entries : entries (nodes (world m)) d = C.*1;
  ra_names : P.*1 = C.*1;
  ra_plain : Forall plain_name C.*1;
  ra_cur : plain_name (FileSegment.GetName (curSeg (mgr m)));
  ra_files : forall j n cs, C !! j = Some (n, cs) -> exists g b y, P !! j = Some (n, cs ++ g) /\
    (S j < length C -> g = []) /\ Row.encode_rows g = b ++ y /\
    nodes (world m) !! child d n = Some (FileNode (Row.encode_rows cs ++ b))
}.

Lemma log_at_readable pc C P m : log_at pc C P m -> readable C P m.
Proof.
  destruct pc as [|g es rest k]; cbn [log_at].
  - intros (H & _ & ->). destruct (lo_cur _ _ _ _ H) as (L0 & n & rs & _ & Hso). pose proof (lo_dir _ _ _ _ H) as Hd.
    constructor; try apply Hd; try done.
    + rewrite (GetName_on _ _ _ _ _ Hso). apply Hso.
    + intros j n' cs Hj. exists [], [], []. rewrite !app_nil_r. split; [done|]. split; [done|]. split; [done|].
      pose proof (do_files _ _ _ _ Hd) as F. rewrite Forall_lookup in F. by apply F in Hj.
  - intros (L0 & n & rs & b & -> & -> & Eg & Hb & Hd & Hso & Hf & Hi & _).
    assert (forall p, p <> child d n -> nodes (with_file n (Row.encode_rows rs) (world m)) !! p = nodes (world m) !! p)
      as Hne by (intros p Hp; cbn; by rewrite lookup_insert_ne).
    constructor.
    + apply Hd.
    + pose proof (do_ex _ _ _ _ Hd) as Hx. cbn in Hx.
      rewrite <-(insert_id _ _ _ Hf), <-(insert_insert_eq (nodes (world m)) (child d n) _ (FileNode (Row.encode_rows rs))).
      by apply (dir_exists_child (with_file n (Row.encode_rows rs) (world m))).
    + rewrite <-(do_entries _ _ _ _ Hd). cbn. by rewrite (entries_overwrite _ _ _ _ _ Hf).
    + by rewrite !fmap_app.
    + apply Hd.
    + rewrite (GetName_on _ _ _ _ _ Hso). apply Hso.
    + intros j n' cs Hj. destruct (decide (j < length L0)) as [Hlt|Hge].
      * exists [], [], []. rewrite !app_nil_r. rewrite lookup_app_l in Hj by done.
        split; [by rewrite lookup_app_l|]. split; [done|]. split; [done|].
        pose proof (do_files _ _ _ _ Hd) as F. rewrite Forall_lookup in F.
        assert ((L0 ++ [(n, rs)]) !! j = Some (n', cs)) as Hj' by (by rewrite lookup_app_l).
        specialize (F _ _ Hj'). cbn [fst snd] in F. rewrite Hne in F; [done|].
        intros ->%child_inj. pose proof (dir_on_NoDup _ _ _ _ Hd) as Hnd. rewrite fmap_app in Hnd.
        apply NoDup_app in Hnd as (_ & Hnd & _). apply (Hnd n); [|by apply list_elem_of_singleton].
        apply list_elem_of_fmap. exists (n, cs). split; [done|]. by eapply list_elem_of_lookup_2.
      * rewrite lookup_app_r in Hj by lia. apply list_lookup_singleton_Some in Hj as [Hz [= <- <-]].
        exists g, b, rest. rewrite lookup_app_r by lia. rewrite Hz. split; [done|].
        split; [rewrite length_app; cbn; lia|]. done.
Qed.

(** *** What a reader does *)

Lemma ReadDirs_at C P m j n cs :
  readable C P m -> C !! j = Some (n, cs) ->
  Manager.on_world (ReadDirsFrom dir n) m = (Ret (Ok (drop j C.*1)), tick_st 1 m).
Proof.
  intros H Hj. assert (C.*1 !! j = Some n) as Hn by (by rewrite list_lookup_fmap, Hj).
  assert (n <> []) as Hne.
  { pose proof (ra_plain _ _ _ H) as F. rewrite Forall_lookup in F. apply F in Hn as (_ & Hn & _). done. }
  destruct (ReadDirsFrom_dir (world m) dir d n (ra_ff _ _ _ H) Hdir (ra_ex _ _ _ H) Hne) as (l & E & Hl).
  rewrite (ra_entries _ _ _ H) in Hl. unfold Manager.on_world, go_zoom. rewrite E.
  assert (l = drop j C.*1) as ->; [|done].
  destruct Hl as [[Hni _]|(pre & Hpre & Hhd)]; [destruct Hni; by eapply list_elem_of_lookup_2|].
  assert (C.*1 !! length pre = Some n) as Hp.
  { rewrite Hpre, lookup_app_r, Nat.sub_diag by done. by rewrite <-head_lookup. }
  pose proof (entries_NoDup (nodes (world m)) d) as Hnd. rewrite (ra_entries _ _ _ H) in Hnd.
  assert (j = length pre) as -> by (by eapply NoDup_lookup). by rewrite Hpre, drop_app_length.
Qed.

Lemma ReadFrom_file_at C P m j n rs1 cs :
  readable C P m -> Forall Row.wf (rows_of P) -> C !! j = Some (n, rs1 ++ cs) ->
  exists g x, P !! j = Some (n, (rs1 ++ cs) ++ g) /\ (S j < length C -> g = []) /\ x `prefix_of` g /\
    LogReader.ReadFrom_file dir n (len (Row.encode_rows rs1)) m = (Ret (Ok (cs ++ x)), tick_st 3 m).
Proof.
  intros H Hwf Hj. destruct (ra_files _ _ _ H _ _ _ Hj) as (g & b & y & HP & Hlast & Eg & Hf).
  assert (Forall Row.wf (cs ++ g)) as Hw.
  { unfold rows_of in Hwf. apply Forall_concat in Hwf. rewrite Forall_lookup in Hwf.
    assert (P.*2 !! j = Some ((rs1 ++ cs) ++ g)) as HP2 by (by rewrite list_lookup_fmap, HP).
    apply Hwf in HP2. rewrite <-(assoc_L (++)) in HP2. by apply Forall_app in HP2 as [_ ?]. }
  destruct (readFromOffset_half rs1 cs g b y Hw Eg) as (x & Er & Hx).
  exists g, x. do 3 (split; [done|]).
  assert (plain_name n) as Hp.
  { pose proof (ra_plain _ _ _ H) as F. rewrite Forall_lookup in F. apply (F j). by rewrite list_lookup_fmap, Hj. }
  assert (sm_ReadSegment (join dir n) m = (Ret (Ok (Row.encode_rows (rs1 ++ cs) ++ b)), tick_st 3 m)) as Es.
  { change (sm_ReadSegment (join dir n) m) with (ReadSegment (join dir n) m).
    unfold ReadSegment, go_get. unfold go_bind at 1. rewrite bool_decide_false; cycle 1.
    { destruct (ra_cur _ _ _ H) as [Hs _]. intros E. apply Hs. rewrite E. unfold join.
      apply elem_of_app. right. by left. }
    unfold readFile, Manager.on_world, go_zoom.
    by rewrite (ReadFile_existing (world m) dir d n (ra_ff _ _ _ H) Hdir Hp _ Hf). }
  unfold LogReader.ReadFrom_file. fold (join dir n). rewrite (go_bind_ret _ _ _ _ _ Es).
  unfold LogReader.lift, go_bind. by rewrite Er.
Qed.

(** Reading costs time only. *)
Lemma dir_on_tick L k w : dir_on d B L w -> dir_on d B L (tick k w).
Proof. intros []. by constructor. Qed.

Lemma log_at_tick pc C P k m : log_at pc C P m -> log_at pc C P (tick_st k m).
Proof.
  destruct pc as [|g es rest q]; cbn [log_at].
  - intros (H & [] & ->). split; [by apply log_on_tick|]. by split.
  - intros (L0 & n & rs & b & -> & -> & Eg & Hb & Hd & Hso & Hf & [] & Hes).
    exists L0, n, rs, b. do 4 (split; [done|]).
    split; [exact (dir_on_tick _ k _ Hd)|].
    split; [exact (proj2 (seg_on_tick k _ _ _ _ _) Hso)|]. by split.
Qed.

(** *** What the writer does *)

Lemma with_file_id n b w : nodes w !! child d n = Some (FileNode b) -> with_file n b w = w.
Proof. intros H. unfold with_file. rewrite insert_id by done. apply set_nodes_id. Qed.

Lemma begin_at C m rows batch entries m' :
  log_at WIdle C C m -> Forall Row.wf rows -> (volume (rows_of C ++ rows) < 2 ^ 63)%Z ->
  createBatch rows = Ok batch ->
  entries_loop batch (FileSegment.GetName (curSeg (mgr m))) rows 0
    (FileSegment.CurrentOffset (curSeg (mgr m))) ∅ m = (Ret entries, m) ->
  Lock m = (Ret tt, m') ->
  exists L0 n rs, C = L0 ++ [(n, rs)] /\
    log_at (WWriting rows entries (flatten batch) 0) C (L0 ++ [(n, rs ++ rows)]) m'.
Proof.
  intros (H & Hi & _) Hwf Hv Hb He Hl. destruct (lo_cur _ _ _ _ H) as (L0 & n & rs & -> & Hso).
  rewrite createBatch_wf in Hb by done. injection Hb as <-. rewrite rows_of_snoc in Hv.
  rewrite (GetName_on _ _ _ _ _ Hso) in He. unfold FileSegment.CurrentOffset in He.
  rewrite (so_size _ _ _ _ _ Hso), (entries_loop_of n [] rows) in He; cycle 1.
  { apply len_nonneg. } { rewrite !volume_app in Hv. unfold volume in Hv. lens. }
  injection He as <-. unfold Lock in Hl. rewrite (lo_unlocked _ _ _ _ H) in Hl. injection Hl as <-.
  exists L0, n, rs. split; [done|]. exists L0, n, rs, []. cbn [set_locked world mgr curSeg].
  rewrite (with_file_id n) by apply Hso. rewrite flatten_concat, app_nil_r.
  split; [done|]. split; [done|]. split; [done|]. split; [done|]. split; [apply H|]. split; [done|].
  split; [apply Hso|]. split; [|done]. destruct Hi. by constructor.
Qed.

Lemma piece_at rows entries rest q C P m k written f w :
  log_at (WWriting rows entries rest q) C P m -> 0 < k <= length rest ->
  file_Write (FileSegment.file (curSeg (mgr m))) (take k rest) (world m) = (Ret (written, None, f), w) ->
  log_at (WWriting rows entries (drop k rest) (q + written)) C P
    (set_seg (FileSegment.set_file f (curSeg (mgr m))) w m) /\ now_calls w = now_calls (world m).
Proof.
  intros (L0 & n & rs & b & -> & -> & Eg & Hb & Hd & Hso & Hf & Hi & Hes) Hk Hw.
  pose proof (so_path _ _ _ _ _ Hso) as Hpath.
  rewrite (file_Write_ok _ _ _ (Row.encode_rows rs ++ b)) in Hw; cycle 1.
  { apply Hd. } { apply Hso. } { by rewrite Hpath. }
  injection Hw as <- <- <-. split; [|done]. exists L0, n, rs, (b ++ take k rest). rewrite Hpath.
  cbn [set_seg world mgr curSeg].
  assert (with_file n (Row.encode_rows rs) (set_nodes (<[child d n:=FileNode ((Row.encode_rows rs ++ b) ++ take k rest)]>
      (nodes (world m))) (tick 1 (world m))) = tick 1 (with_file n (Row.encode_rows rs) (world m))) as ->.
  { unfold with_file. cbn [nodes set_nodes tick]. by rewrite insert_insert_eq. }
  split; [done|]. split; [done|]. split; [by rewrite <-(assoc_L (++)), take_drop|].
  split; [by rewrite length_app, Hb|]. split; [by apply dir_on_tick|].
  split; [|split; [|split; [|done]]].
  - apply seg_on_tick. destruct Hso. by constructor.
  - cbn. rewrite lookup_insert_eq. by rewrite (assoc_L (++)).
  - destruct Hi. by constructor.
Qed.

Lemma finish_at rows entries q C P m m' w :
  log_at (WWriting rows entries [] q) C P m -> Forall Row.wf rows -> (volume (rows_of P) < 2 ^ 63)%Z ->
  file_Sync (FileSegment.file (curSeg (mgr m))) (world m) = (Ret None, w) ->
  (let seg := curSeg (mgr m) in
   let seg' := FileSegment.mk (FileSegment.file seg) (FileSegment.path seg)
     (i64 (FileSegment.size seg + Z.of_nat q)) (FileSegment.maxSize seg) in
   (do! Unlock in spawn_AddBatchIndex entries) (set_seg seg' w m) = (Ret tt, m')) ->
  log_at WIdle P P m' /\ now_calls (world m') = now_calls (world m).
Proof.
  intros (L0 & n & rs & b & -> & -> & Eg & Hb & Hd & Hso & Hf & Hi & Hes) Hwf Hv Hs He.
  rewrite file_Sync_ok in Hs by (apply Hd || apply Hso). injection Hs as <-.
  rewrite app_nil_r in Eg. subst b q. injection He as <-.
  assert (nodes (world m) = <[child d n := FileNode (Row.encode_rows (rs ++ rows))]>
    (nodes (with_file n (Row.encode_rows rs) (world m)))) as Hn.
  { cbn. rewrite insert_insert_eq, Row.encode_rows_app. by rewrite insert_id. }
  rewrite rows_of_snoc, !volume_app in Hv. unfold volume in Hv.
  split; [|done]. split; [|split; [|done]].
  - constructor; [done| |].
    + by eapply (dir_on_append d B L0 n rs rows _ (tick 1 (world m)) Hd); [|apply Hd| |..].
    + exists L0, n, (rs ++ rows). split; [done|]. apply (seg_on_tick 1).
      destruct Hso as [H1 H2 H3 H4 H5 H6 H7 H8].
      constructor; cbn [FileSegment.path FileSegment.file FileSegment.size]; try done.
      * rewrite Hn. apply (dir_exists_child (with_file n _ _)), H2.
      * by rewrite Hf, Row.encode_rows_app.
      * rewrite H8, Row.encode_rows_app, len_app. fold (len (Row.encode_rows rows)). rewrite i64_id; [done|lens].
  - by eapply (idx_on_append L0 n rs rows _ m _ Hi Hes).
Qed.

Lemma update_at pc C P m i m' :
  log_at pc C P m -> run_pending i m = (Ret tt, m') -> log_at pc C P m' /\ world m' = world m.
Proof.
  destruct pc as [|g es rest q]; cbn [log_at].
  - intros (H & Hi & ->) E. destruct (run_pending_on d B C i m H Hi) as (m1 & E1 & H1 & Hi1 & _ & Hw & _).
    rewrite E in E1. injection E1 as <-. done.
  - intros (L0 & n & rs & b & -> & -> & Eg & Hb & Hd & Hso & Hf & Hi & Hes) E.
    destruct (run_pending_idx _ i m Hi) as (m1 & E1 & Hi1 & Hw & Hseg & _). rewrite E in E1. injection E1 as <-.
    split; [|done]. exists L0, n, rs, b. rewrite Hw, Hseg. done.
Qed.

(** *** How the log grows *)

(** The last file grows and files are added. *)
Definition extends (L L' : layout) : Prop :=
  exists L0 n rs g T, L = L0 ++ [(n, rs)] /\ L' = L0 ++ (n, rs ++ g) :: T.

Lemma extends_refl L0 n rs : extends (L0 ++ [(n, rs)]) (L0 ++ [(n, rs)]).
Proof. exists L0, n, rs, [], []. by rewrite app_nil_r. Qed.

Lemma extends_append L0 n rs g : extends (L0 ++ [(n, rs)]) (L0 ++ [(n, rs ++ g)]).
Proof. by exists L0, n, rs, g, []. Qed.

Lemma extends_new_file L0 n rs n' : extends (L0 ++ [(n, rs)]) ((L0 ++ [(n, rs)]) ++ [(n', [])]).
Proof. exists L0, n, rs, [], [(n', [])]. by rewrite app_nil_r, <-(assoc_L (++)). Qed.

Lemma extends_names L L' : extends L L' -> L.*1 `prefix_of` L'.*1.
Proof.
  intros (L0 & n & rs & g & T & -> & ->). rewrite !fmap_app. apply prefix_app. exists T.*1. done.
Qed.

Lemma extends_lookup L L' j n rs :
  extends L L' -> L !! j = Some (n, rs) -> exists g, L' !! j = Some (n, rs ++ g).
Proof.
  intros (L0 & n0 & rs0 & g & T & -> & ->) Hj. destruct (decide (j < length L0)).
  - exists []. rewrite app_nil_r. by rewrite !lookup_app_l in Hj |- * by done.
  - rewrite lookup_app_r in Hj by lia. apply list_lookup_singleton_Some in Hj as [Hz [= <- <-]].
    exists g. rewrite lookup_app_r, Hz by lia. done.
Qed.

Lemma extends_take L L' j : extends L L' -> j < length L -> take j L' = take j L.
Proof.
  intros (L0 & n & rs & g & T & -> & ->) Hj. rewrite length_app in Hj. cbn in Hj.
  by rewrite !take_app_le by lia.
Qed.

Lemma rows_of_app L1 L2 : rows_of (L1 ++ L2) = rows_of L1 ++ rows_of L2.
Proof. unfold rows_of. by rewrite fmap_app, concat_app. Qed.

Lemma rows_of_cons n rs L : rows_of ((n, rs) :: L) = rs ++ rows_of L.
Proof. done. Qed.

Lemma rows_of_take L k : rows_of (take k L) `prefix_of` rows_of L.
Proof. exists (rows_of (drop k L)). by rewrite <-rows_of_app, take_drop. Qed.

Lemma rows_of_take_S L j n rs : L !! j = Some (n, rs) -> rows_of (take (S j) L) = rows_of (take j L) ++ rs.
Proof. intros Hj. rewrite (take_S_r _ _ _ Hj). apply rows_of_snoc. Qed.

Lemma extends_rows L L' k : extends L L' -> rows_of (take k L) `prefix_of` rows_of (take k L').
Proof.
  intros (L0 & n & rs & g & T & -> & ->). destruct (decide (k <= length L0)).
  - by rewrite !take_app_le by lia.
  - rewrite !take_app_ge by lia. rewrite !rows_of_app. apply prefix_app.
    destruct (k - length L0) as [|q] eqn:E; [lia|]. cbn [take]. rewrite !rows_of_cons, take_nil.
    change (rows_of []) with (@nil Row.t). rewrite app_nil_r, <-(assoc_L (++)). by apply prefix_app_r.
Qed.

Lemma extends_rows_all L L' : extends L L' -> rows_of L `prefix_of` rows_of L'.
Proof.
  intros H. rewrite <-(firstn_all L). etrans; [by apply extends_rows|apply rows_of_take].
Qed.

Lemma entry_ok_extends L L' l e : extends L L' -> entry_ok L l e -> entry_ok L' l e.
Proof.
  intros (L0 & n & rs & g & T & -> & ->) (L1 & rs1 & r & rs2 & L2 & E & Hr & Ho)%(entry_ok_append _ _ _ g).
  exists L1, rs1, r, rs2, (L2 ++ T). split; [|done].
  change ((n, rs ++ g) :: T) with ([(n, rs ++ g)] ++ T). by rewrite (assoc_L (++)), E, <-(assoc_L (++)).
Qed.

Lemma rotate_at C P m m' :
  log_at WIdle C P m -> now_calls (world m) < B -> rotate m = (Ret (Ok tt), m') ->
  exists n, log_at WIdle (C ++ [(n, [])]) (C ++ [(n, [])]) m' /\ extends C (C ++ [(n, [])]) /\
    now_calls (world m') = S (now_calls (world m)).
Proof.
  intros (Hlo & Hi & _) HB E. destruct (rotate_on d B C m Hlo Hi HB) as (m1 & E1 & Hlo1 & Hi1 & _ & Hn).
  rewrite E in E1. injection E1 as <-. eexists. split; [by split|]. split; [|done].
  destruct (lo_cur _ _ _ _ Hlo) as (L0 & n0 & rs0 & -> & _). apply extends_new_file.
Qed.

Lemma nothing_at C P m m' :
  log_at WIdle C P m -> spawn_AddBatchIndex ∅ m = (Ret tt, m') -> log_at WIdle C P m' /\ world m' = world m.
Proof.
  intros (Hlo & Hi & ->) [= <-]. split; [|done]. split; [by destruct Hlo; constructor|]. split; [|done].
  destruct (lo_cur _ _ _ _ Hlo) as (L0 & n & rs0 & -> & _). rewrite <-(app_nil_r rs0).
  by eapply (idx_on_append L0 n rs0 [] ∅ m).
Qed.

Lemma log_at_snoc pc C P m : log_at pc C P m ->
  extends C C /\ extends P P /\ extends C P /\ length P = length C.
Proof.
  destruct pc as [|g es rest k]; cbn [log_at].
  - intros (H & _ & ->). destruct (lo_cur _ _ _ _ H) as (L0 & n & rs & -> & _).
    repeat split; apply extends_refl.
  - intros (L0 & n & rs & b & -> & -> & _). rewrite !length_app.
    split; [apply extends_refl|]. split; [apply extends_refl|]. split; [apply extends_append|done].
Qed.

(** *** What a reader has *)

(** A finished reader: a run of the log that starts at the identifier it asked
    for and has all that was written when it looked up the index. *)
Definition run_of (l : N) (n : nat) (rows results : list Row.t) : Prop :=
  exists pre r rest, results = r :: rest /\ Row.lsnID r = l /\
    (pre ++ results) `prefix_of` rows /\ n <= length (pre ++ results).

(** A reader before file number [j], which it will read after the rows
    [rs1]. *)
Definition files_ok (C : layout) (l : N) (n : nat) (off : Z) (name : gostring) (names : list gostring)
    (i : nat) (results : list Row.t) : Prop :=
  exists j rs1 cs pre r rest, C !! j = Some (name, rs1 ++ cs) /\ names `prefix_of` drop (S j) C.*1 /\
    (if bool_decide (i = 0) then off else 0%Z) = len (Row.encode_rows rs1) /\
    rows_of (take j C) ++ rs1 = pre ++ results /\ results ++ cs = r :: rest /\ Row.lsnID r = l /\
    n <= length (rows_of (take (S j + length names) C)).

Definition reader_ok (C P : layout) (r : reader) : Prop :=
  match at_ r with
  | RIndex => True
  | RDirs e => entry_ok C (lsn r) e /\ seen r <= length (rows_of C)
  | RFiles off (name :: names) i results => files_ok C (lsn r) (seen r) off name names i results
  | RFiles _ [] _ results | RDone (Ok results) => run_of (lsn r) (seen r) (rows_of P) results
  | RDone (Err e) => e = ErrIndexNotFound
  end.

Lemma run_of_mono l n rows rows' results :
  rows `prefix_of` rows' -> run_of l n rows results -> run_of l n rows' results.
Proof.
  intros Hp (pre & r & rest & E & Hr & Hpre & Hn). exists pre, r, rest. do 2 (split; [done|]).
  split; [by etrans|done].
Qed.

Lemma reader_ok_mono C P C' P' r :
  extends C C' -> extends P P' -> reader_ok C P r -> reader_ok C' P' r.
Proof.
  intros HC HP. unfold reader_ok. destruct (at_ r) as [|e|off [|name names] i results|[results|e]]; try done.
  - intros [He Hn]. split; [by eapply entry_ok_extends|]. etrans; [done|].
    by apply prefix_length, extends_rows_all.
  - apply run_of_mono. by apply extends_rows_all.
  - intros (j & rs1 & cs & pre & r0 & rest & Hj & Hnames & Ho & Hd & Hr & Hl & Hn).
    destruct (extends_lookup _ _ _ _ _ HC Hj) as (g & Hg).
    exists j, rs1, (cs ++ g), pre, r0, (rest ++ g). rewrite (assoc_L (++)). split; [done|].
    split.
    { etrans; [done|]. destruct (extends_names _ _ HC) as [T ->]. rewrite drop_app_le; [by apply prefix_app_r|].
      apply lookup_lt_Some in Hj. rewrite length_fmap. lia. }
    split; [done|]. split; [by rewrite (extends_take _ _ _ HC) by (by eapply lookup_lt_Some)|].
    split; [by rewrite (assoc_L (++)), Hr|]. split; [done|]. etrans; [done|].
    by apply prefix_length, extends_rows.
  - apply run_of_mono. by apply extends_rows_all.
Qed.

(** The steps of a reader. *)
Lemma found_ok C P (m : st I) l e :
  idx_on C m -> GetIndex l m = (Ret (Ok e), m) ->
  reader_ok C P (mkReader l (length (rows_of C)) (RDirs e)).
Proof.
  intros Hi E. destruct (GetIndex_on C l m Hi) as (x & E' & Hx). rewrite E in E'. injection E' as <-. done.
Qed.

Lemma missing_ok C P (m : st I) l n e :
  idx_on C m -> GetIndex l m = (Ret (Err e), m) -> reader_ok C P (mkReader l n (RDone (Err e))).
Proof.
  intros Hi E. destruct (GetIndex_on C l m Hi) as (x & E' & Hx). rewrite E in E'. injection E' as <-. apply Hx.
Qed.

Lemma dirs_ok C P m l n e res m' :
  readable C P m -> reader_ok C P (mkReader l n (RDirs e)) ->
  on_world (ReadDirsFrom dir (FileName e)) m = (Ret res, m') ->
  m' = tick_st 1 m /\ reader_ok C P (mkReader l n (match res with
    | Err err => RDone (Err err)
    | Ok names => if bool_decide (length names = 0) then RDone (Ok []) else RFiles (Offset e) names 0 []
    end)).
Proof.
  intros H [(L1 & rs1 & r & rs2 & L2 & EC & Hr & Ho) Hn] E. cbn [lsn seen at_] in *.
  assert (C !! length L1 = Some (FileName e, rs1 ++ r :: rs2)) as Hj.
  { by rewrite EC, lookup_app_r, Nat.sub_diag by done. }
  rewrite (ReadDirs_at C P m _ _ _ H Hj) in E. injection E as <- <-. split; [done|].
  assert (drop (length L1) C.*1 = FileName e :: drop (S (length L1)) C.*1) as ->.
  { apply drop_S. by rewrite list_lookup_fmap, Hj. }
  cbn [length]. rewrite bool_decide_false by lia. cbn [reader_ok at_ lsn seen].
  exists (length L1), rs1, (r :: rs2), (rows_of (take (length L1) C) ++ rs1), r, rs2.
  split; [done|]. split; [done|]. split; [by rewrite bool_decide_true|]. split; [by rewrite app_nil_r|].
  split; [done|]. split; [done|]. rewrite length_drop, length_fmap, take_ge; [done|].
  apply lookup_lt_Some in Hj. lia.
Qed.

Lemma file_ok C P m l n off name names i results res m' :
  readable C P m -> extends C P -> Forall Row.wf (rows_of P) ->
  reader_ok C P (mkReader l n (RFiles off (name :: names) i results)) ->
  LogReader.ReadFrom_file dir name (if bool_decide (i = 0) then off else 0%Z) m = (Ret res, m') ->
  m' = tick_st 3 m /\ reader_ok C P (mkReader l n (match res with
    | Err err => RDone (Err err)
    | Ok rows => RFiles off names (i + 1) (results ++ rows)
    end)).
Proof.
  intros H Hext Hwf (j & rs1 & cs & pre & r & rest & Hj & Hnames & Ho & Hd & Hr & Hl & Hn) E.
  cbn [lsn seen at_] in *. rewrite Ho in E.
  destruct (ReadFrom_file_at C P m j name rs1 cs H Hwf Hj) as (g & x & HP & Hlast & Hx & Er).
  rewrite Er in E. injection E as <- <-. split; [done|].
  assert (pre ++ results ++ cs ++ x = rows_of (take j C) ++ (rs1 ++ cs) ++ x) as Hread.
  { rewrite (assoc_L (++) pre), <-Hd, <-!(assoc_L (++)). done. }
  assert (rows_of (take (S j) C) = rows_of (take j C) ++ rs1 ++ cs) as Htake by (by apply rows_of_take_S with name).
  destruct names as [|name' names]; cbn [reader_ok at_ lsn seen].
  - exists pre, r, (rest ++ x). split; [by rewrite (assoc_L (++)), Hr|]. split; [done|].
    rewrite Hread. split.
    + etrans; [|apply (rows_of_take P (S j))]. rewrite (rows_of_take_S _ _ _ _ HP), (extends_take _ _ _ Hext)
        by (by eapply lookup_lt_Some). by apply prefix_app, prefix_app.
    + cbn [length] in Hn. rewrite Nat.add_0_r, Htake in Hn. rewrite (assoc_L (++)), length_app. lia.
  - destruct Hnames as [tl Hnames]. assert (C.*1 !! S j = Some name') as Hj'.
    { rewrite <-(Nat.add_0_r (S j)), <-lookup_drop, Hnames. done. }
    rewrite list_lookup_fmap in Hj'. apply fmap_Some in Hj' as ([n2 cs2] & Hj' & ->).
    assert (g = []) as -> by (apply Hlast; by eapply lookup_lt_Some).
    apply prefix_nil_inv in Hx as ->. rewrite app_nil_r in Hread |- *.
    exists (S j), [], cs2, pre, r, (rest ++ cs2). split; [done|]. split.
    { exists tl. rewrite <-(Nat.add_1_r (S j)), <-drop_drop, Hnames. done. }
    split; [by rewrite bool_decide_false by lia|].
    split; [rewrite app_nil_r, Hread, app_nil_r; done|]. split; [by rewrite Hr|]. split; [done|].
    cbn [length] in Hn |- *. by rewrite Nat.add_succ_r in Hn.
Qed.

(** *** Every step *)

Definition all_rows (s : LogReaders.t I) : list Row.t := logged s ++ in_progress s.

Record inv (C P : layout) (s : LogReaders.t I) : Prop := {
  in_log : log_at (writer s) C P (mst s);
  in_rows : rows_of C = logged s;
  in_all : rows_of P = all_rows s;
  in_readers : Forall (reader_ok C P) (readers s)
}.

Definition fits (s : LogReaders.t I) : Prop :=
  Forall Row.wf (all_rows s) /\ (volume (all_rows s) < 2 ^ 63)%Z.

Lemma log_at_idx pc C P m : log_at pc C P m -> idx_on C m.
Proof. destruct pc; [by intros (_ & H & _)|by intros (? & ? & ? & ? & _ & _ & _ & _ & _ & _ & _ & H & _)]. Qed.

Lemma inv_grow C P C' P' pc rs lg m s :
  inv C P s -> extends C C' -> extends P P' -> log_at pc C' P' m -> rows_of C' = lg ->
  rows_of P' = all_rows (LogReaders.mk m pc rs lg) -> rs = readers s -> inv C' P' (LogReaders.mk m pc rs lg).
Proof.
  intros Hinv HC HP Hl E1 E2 ->. constructor; [done..|]. cbn [readers].
  eapply Forall_impl; [apply Hinv|]. intros r. by apply reader_ok_mono.
Qed.

Lemma tick_st_0 (m : st I) : tick_st 0 m = m.
Proof. by destruct m as [[] ?]. Qed.

(** A step of a reader changes that reader and the time. *)
Lemma inv_reader C P j r k s :
  inv C P s -> reader_ok C P r ->
  inv C P (LogReaders.mk (tick_st k (mst s)) (writer s) (<[j := r]> (readers s)) (logged s)).
Proof.
  intros [H1 H2 H3 H4] Hr. constructor; [by apply log_at_tick|done|done|]. by apply Forall_insert.
Qed.

Lemma inv_reader_now C P j r s :
  inv C P s -> reader_ok C P r -> inv C P (LogReaders.mk (mst s) (writer s) (<[j := r]> (readers s)) (logged s)).
Proof. intros H Hr. pose proof (inv_reader C P j r 0 s H Hr) as H'. by rewrite tick_st_0 in H'. Qed.

Lemma set_reader_insert j pc (s : LogReaders.t I) m l n pc0 :
  readers s !! j = Some (mkReader l n pc0) ->
  set_reader j pc s m = LogReaders.mk m (writer s) (<[j := mkReader l n pc]> (readers s)) (logged s).
Proof.
  intros H. unfold set_reader. f_equal. apply list_eq. intros i. destruct (decide (i = j)) as [->|Hne].
  - rewrite list_lookup_alter_eq, H, list_lookup_insert_eq; [done|]. by eapply lookup_lt_Some.
  - by rewrite list_lookup_alter_ne, list_lookup_insert_ne by done.
Qed.

Lemma begin_inv C P m rows batch es m' rs lg :
  let s' := LogReaders.mk m' (WWriting rows es (flatten batch) 0) rs lg in
  inv C P (LogReaders.mk m WIdle rs lg) -> fits s' -> createBatch rows = Ok batch ->
  entries_loop batch (FileSegment.GetName (curSeg (mgr m))) rows 0
    (FileSegment.CurrentOffset (curSeg (mgr m))) ∅ m = (Ret es, m) ->
  Lock m = (Ret tt, m') ->
  exists P', inv C P' s' /\ now_calls (world m') = now_calls (world m).
Proof.
  intros s' Hinv [Hwf Hv] Hb He Hlk. pose proof (in_log _ _ _ Hinv) as Hl. cbn [writer mst] in Hl.
  pose proof (log_at_snoc _ _ _ _ Hl) as (HCC & _). pose proof (in_rows _ _ _ Hinv) as HC. cbn [logged] in HC.
  destruct Hl as (Hlo & Hi & ->). unfold s', all_rows in Hwf, Hv. cbn [logged in_progress writer] in Hwf, Hv.
  apply Forall_app in Hwf as [_ Hwf].
  destruct (begin_at C m rows batch es m') as (L0 & n & rs0 & -> & Hl'); try done; [by rewrite HC|].
  exists (L0 ++ [(n, rs0 ++ rows)]). split.
  - eapply inv_grow; [done|done|apply extends_append|done..| |done].
    rewrite rows_of_snoc in HC |- *. rewrite (assoc_L (++)), HC. done.
  - unfold Lock in Hlk. rewrite (lo_unlocked _ _ _ _ Hlo) in Hlk. by injection Hlk as <-.
Qed.

Lemma step_inv C P s s' :
  inv C P s -> LogReaders.step dir s s' -> fits s' -> now_calls (world (mst s)) < B ->
  exists C' P', inv C' P' s' /\ now_calls (world (mst s')) <= S (now_calls (world (mst s))).
Proof.
  intros Hinv Hstep [Hwf Hv] HB. pose proof (in_log _ _ _ Hinv) as Hl.
  pose proof (log_at_snoc _ _ _ _ Hl) as (HCC & HPP & HCP & _).
  pose proof (log_at_readable _ _ _ _ Hl) as Hrd. pose proof (log_at_idx _ _ _ _ Hl) as Hix.
  pose proof (in_rows _ _ _ Hinv) as HC. pose proof (in_all _ _ _ Hinv) as HP.
  assert (forall j l n pc, readers s !! j = Some (mkReader l n pc) -> reader_ok C P (mkReader l n pc)) as Hok.
  { intros j l n pc Hj. pose proof (in_readers _ _ _ Hinv) as F. rewrite Forall_lookup in F. eauto. }
  destruct Hstep as [rows batch es m m' rs lg Hb _ He Hlk|rows es rest k q m rs lg written f w Hk Hw
    |rows es q m m' rs lg w Hs He|m m' rs lg Hsp|m m' rs lg Hro|i m m' pc rs lg Hup|s j l n e Hj Hg
    |s j l n e Hj Hg|s j l n e res m Hj Hr|s j l n off name names i results res m Hj Hr|s j l n off i results Hj];
    cbn [mst writer logged all_rows in_progress] in *.
  - destruct (begin_inv C P m rows batch es m' rs lg) as (P' & H' & Hn); [done..|]. exists C, P'. split; [done|lia].
  - destruct (piece_at _ _ _ _ _ _ _ _ _ _ _ Hl Hk Hw) as [Hl' Hn]. exists C, P. split; [|cbn; lia].
    by eapply inv_grow.
  - unfold all_rows in *. cbn [logged in_progress writer] in *. rewrite app_nil_r in Hwf, Hv.
    apply Forall_app in Hwf as [_ Hwf].
    destruct (finish_at rows es q C P m m' w) as [Hl' Hn]; try done; [by rewrite HP|].
    exists P, P. split; [|lia]. eapply inv_grow; [done|exact HCP|exact HPP|done|done| |done].
    unfold all_rows. by rewrite app_nil_r.
  - exists C, P. destruct (nothing_at _ _ _ _ Hl Hsp) as [Hl' Hw]. split; [|rewrite Hw; lia].
    by eapply inv_grow.
  - destruct (rotate_at C P m m') as (n & Hl' & Hx & Hn); [done..|]. destruct Hl as (_ & _ & ->).
    exists (C ++ [(n, [])]), (C ++ [(n, [])]). split; [|lia].
    by eapply inv_grow; [done..|rewrite rows_of_snoc, app_nil_r|rewrite rows_of_snoc, app_nil_r|].
  - exists C, P. destruct (update_at _ _ _ _ _ _ Hl Hup) as [Hl' Hw]. split; [|rewrite Hw; lia].
    by eapply inv_grow.
  - exists C, P. split; [|cbn; lia]. apply inv_reader_now; [done|]. rewrite <-HC. by eapply found_ok.
  - exists C, P. split; [|cbn; lia]. rewrite (set_reader_insert _ _ _ _ _ _ _ Hj).
    apply inv_reader_now; [done|]. by eapply missing_ok.
  - exists C, P. rewrite (set_reader_insert _ _ _ _ _ _ _ Hj).
    destruct (dirs_ok _ _ _ _ _ _ _ _ Hrd (Hok _ _ _ _ Hj) Hr) as [-> Hr']. split; [by apply inv_reader|cbn; lia].
  - exists C, P. rewrite (set_reader_insert _ _ _ _ _ _ _ Hj).
    assert (Forall Row.wf (rows_of P)) as HwP by (by rewrite HP).
    destruct (file_ok _ _ _ _ _ _ _ _ _ _ _ _ Hrd HCP HwP (Hok _ _ _ _ Hj) Hr) as [-> Hr'].
    split; [by apply inv_reader|cbn; lia].
  - exists C, P. rewrite (set_reader_insert _ _ _ _ _ _ _ Hj).
    split; [|cbn; lia]. apply inv_reader_now; [done|]. by apply (Hok _ _ _ _ Hj).
Qed.

Lemma step_all_rows s s' : LogReaders.step dir s s' -> all_rows s `prefix_of` all_rows s'.
Proof.
  intros []; try done; unfold all_rows; cbn [logged in_progress writer]; rewrite ?app_nil_r; try done.
  by apply prefix_app_r.
Qed.

Lemma nsteps_all_rows k s s' : nsteps (LogReaders.step dir) k s s' -> all_rows s `prefix_of` all_rows s'.
Proof. induction 1; [done|]. etrans; [by apply step_all_rows|done]. Qed.

Lemma nsteps_logged k s s' : nsteps (LogReaders.step dir) k s s' -> logged s `prefix_of` logged s'.
Proof.
  induction 1 as [|k s s1 s' H _ IH]; [done|]. etrans; [|exact IH]. destruct H; try done. by apply prefix_app_r.
Qed.

Lemma fits_prefix s s' : all_rows s `prefix_of` all_rows s' -> fits s' -> fits s.
Proof.
  intros [T E] [Hwf Hv]. unfold fits. rewrite E in Hwf, Hv. apply Forall_app in Hwf as [? _].
  split; [done|]. rewrite volume_app in Hv. unfold volume in *. lens.
Qed.

Lemma nsteps_inv k s s' C P :
  nsteps (LogReaders.step dir) k s s' -> inv C P s -> fits s' -> now_calls (world (mst s)) + k <= B ->
  exists C' P', inv C' P' s' /\ now_calls (world (mst s')) <= now_calls (world (mst s)) + k.
Proof.
  intros H. revert C P. induction H as [s|k s s1 s' H1 H IH]; intros C P Hinv Hf HB.
  { exists C, P. split; [done|lia]. }
  destruct (step_inv C P s s1 Hinv H1) as (C1 & P1 & Hinv1 & Hn); [|lia|].
  - eapply fits_prefix; [by eapply nsteps_all_rows|done].
  - destruct (IH C1 P1) as (C' & P' & Hinv' & Hn'); [done..|lia|]. exists C', P'. split; [done|lia].
Qed.

(** From a log that nobody writes, before any lookup. *)
Lemma run_inv L k s s' :
  log_on d B L (mst s) -> idx_on L (mst s) -> writer s = WIdle -> logged s = rows_of L ->
  Forall (fun r => at_ r = RIndex) (readers s) -> nsteps (LogReaders.step dir) k s s' ->
  now_calls (world (mst s)) + k <= B -> Forall Row.wf (all_rows s') -> (volume (all_rows s') < 2 ^ 63)%Z ->
  exists C P, inv C P s' /\ now_calls (world (mst s')) <= now_calls (world (mst s)) + k.
Proof.
  intros Hlog Hidx Hidle Hlogged Hnew Hrun Hclock Hwf Hsize. apply (nsteps_inv k s s' L L Hrun); [|done..].
  constructor; [by rewrite Hidle|done|by unfold all_rows, in_progress; rewrite Hidle, app_nil_r|].
  eapply Forall_impl; [exact Hnew|]. intros x Hx. unfold reader_ok. by rewrite Hx.
Qed.

End facts.
End LogReadersFacts.

(** ** [Manager.Write] as a run *)

Module WriteRuns.
Import LogReaders Manager ManagerFacts.

Section runs.
Context {I : Type} `{!IndexManager I} (dir : gostring).

Abbreviation idle_mk := (fun (m : st I) rds lg => LogReaders.mk m WIdle rds lg).

Lemma createBatch_Forall2 rows batch :
  createBatch rows = Ok batch <-> Forall2 (fun r b => Row.Marshal r = Ok b) rows batch.
Proof.
  split.
  - revert batch. induction rows as [|r rows IH]; intros batch; cbn [createBatch]; [by intros [= <-]|].
    destruct (Row.Marshal r) as [b|e] eqn:E; [|done]. destruct (createBatch rows) as [bs|e]; [|done].
    intros [= <-]. constructor; [done|by apply IH].
  - induction 1 as [|r b rows batch E _ IH]; [done|]. cbn [createBatch]. by rewrite E, IH.
Qed.

Lemma createBatch_slice rows batch a b :
  createBatch rows = Ok batch -> createBatch (slice rows a b) = Ok (slice batch a b).
Proof. rewrite !createBatch_Forall2. intros H. by apply Forall2_take, Forall2_drop. Qed.

Lemma createBatch_drop rows batch a :
  createBatch rows = Ok batch -> createBatch (drop a rows) = Ok (drop a batch).
Proof. rewrite !createBatch_Forall2. apply Forall2_drop. Qed.

Lemma createBatch_empty rows batch : createBatch rows = Ok batch -> flatten batch = [] -> rows = [].
Proof.
  rewrite createBatch_Forall2, flatten_concat. intros [|r b rows' batch' E _]; [done|].
  cbn [concat]. intros [-> _]%app_nil. apply Row.Marshal_Ok in E. pose proof (Row.length_encode r) as Hl.
  rewrite <-E in Hl. cbn in Hl. lia.
Qed.

(** A segment that was written: its parts. *)
Lemma seg_Write_parts data (m m' : st I) :
  on_seg (FileSegment.Write data) m = (Ret None, m') ->
  let seg := curSeg (mgr m) in
  exists n f w w', file_Write (FileSegment.file seg) data (world m) = (Ret (n, None, f), w) /\
    file_Sync f w = (Ret None, w') /\
    m' = set_seg (FileSegment.mk f (FileSegment.path seg) (i64 (FileSegment.size seg + Z.of_nat n))
      (FileSegment.maxSize seg)) w' m.
Proof.
  intros H seg. unfold on_seg, go_zoom, FileSegment.Write in H. unfold go_bind, go_get, FileSegment.on_world, go_zoom in H.
  cbn [fst snd] in H. fold seg in H.
  destruct (file_Write (FileSegment.file seg) data (world m)) as [[[[n [e|]] f]| |] w]; try done.
  cbn [FileSegment.put_seg go_put fst snd] in H.
  unfold FileSegment.put_seg, go_put in H. cbn [fst snd] in H.
  destruct (file_Sync f w) as [[[e|]| |] w'] eqn:Hs; try done.
  injection H as <-. by exists n, f, w, w'.
Qed.

Lemma writeBatch_run batch rows m m' rds lg :
  createBatch rows = Ok batch -> writeBatch batch rows m = (Ret (Ok tt), m') ->
  rtc (LogReaders.step dir) (idle_mk m rds lg) (idle_mk m' rds (lg ++ rows)).
Proof.
  intros Hb H. unfold writeBatch, go_get in H. unfold go_bind at 1 in H. unfold go_bind at 1 in H.
  destruct (entries_loop _ _ _ _ _ _ m) as [[es| |] m1] eqn:He; try done.
  pose proof (entries_loop_state _ _ _ _ _ _ _ _ _ He) as ->.
  unfold go_bind at 1 in H. destruct (writeInSeg (flatten batch) m) as [[[[]|e]| |] m2] eqn:Hw; try done.
  unfold writeInSeg in Hw. case_bool_decide as Hz.
  - injection Hw as <-. apply nil_length_inv in Hz.
    apply (createBatch_empty _ _ Hb) in Hz as ->. injection He as <-. rewrite app_nil_r.
    apply rtc_once, step_nothing. by injection H as <-.
  - unfold go_bind at 1 in Hw. destruct (Lock m) as [[[]| |] ml] eqn:Hl; try done.
    unfold go_bind at 1 in Hw. destruct (on_seg (FileSegment.Write (flatten batch)) ml) as [[[e|]| |] ms] eqn:Hs; try done.
    apply seg_Write_parts in Hs as (n & f & w & w' & Hf & Hsy & ->).
    eapply rtc_l; [eapply (step_begin dir rows batch es m ml); [done| |done|done]|].
    { intros E. by rewrite E in Hz. }
    eapply rtc_l; [eapply (step_piece dir rows es (flatten batch) (length (flatten batch)) 0 ml); [lia|]|].
    { rewrite firstn_all. exact Hf. }
    rewrite drop_all. apply rtc_once. eapply (step_finish dir rows es (0 + n)); [exact Hsy|].
    cbv zeta. unfold go_bind. injection Hw as <-. injection H as <-. done.
Qed.

Lemma rotate_parts {A} (c : Go (st I) (result A)) m m' a :
  (do! Lock in
   let! err := on_seg FileSegment.Rotate in
   match err with
   | Some e => go_ret (Err e)
   | None => do! Unlock in c
   end) m = (Ret (Ok a), m') ->
  exists m1, rotate m = (Ret (Ok tt), m1) /\ c m1 = (Ret (Ok a), m').
Proof.
  unfold rotate, go_bind, Lock, Unlock, go_put, go_ret. destruct (locked (mgr m)); [done|].
  destruct (on_seg FileSegment.Rotate _) as [[[e|]| |] m1]; try done. intros H. by eexists.
Qed.

Lemma batches_loop_run batch rows rest i start cur m m' rds lg :
  createBatch rows = Ok batch -> rest = drop i batch -> start <= i <= length batch ->
  batches_loop batch rows rest i start cur m = (Ret (Ok tt), m') ->
  rtc (LogReaders.step dir) (idle_mk m rds lg) (idle_mk m' rds (lg ++ drop start rows)).
Proof.
  intros Hb. revert i start cur m lg. induction rest as [|b rest IH]; intros i start cur m lg Hr Hi H; cbn [batches_loop] in H.
  { eapply writeBatch_run; [|exact H]. by apply createBatch_drop. }
  assert (rest = drop (i + 1) batch /\ i + 1 <= length batch) as [Hr' Hi'].
  { assert (batch !! i = Some b) as Hbi by (rewrite <-(Nat.add_0_r i), <-lookup_drop, <-Hr; done).
    rewrite (drop_S _ _ _ Hbi) in Hr. injection Hr as ->. apply lookup_lt_Some in Hbi. rewrite Nat.add_1_r. split; [done|lia]. }
  unfold go_get in H. unfold go_bind at 1 in H. destruct (negb _).
  - unfold go_bind at 1 in H.
    destruct (writeBatch (slice batch start i) (slice rows start i) m) as [[[[]|e]| |] m1] eqn:Hw; try done.
    apply rotate_parts in H as (m2 & Hro & H).
    assert (drop start rows = slice rows start i ++ drop i rows) as ->.
    { unfold slice. rewrite <-(take_drop (i - start) (drop start rows)) at 1. rewrite drop_drop.
      by replace (start + (i - start)) with i by lia. }
    etrans; [by eapply writeBatch_run; [by apply createBatch_slice|]|].
    eapply rtc_l; [by apply step_rotate|]. rewrite (assoc_L (++)). eapply IH; [done|lia|exact H].
  - eapply IH; [done|lia|exact H].
Qed.

Lemma Write_run rows m m' rds lg :
  Write rows m = (Ret (Ok tt), m') ->
  rtc (LogReaders.step dir) (idle_mk m rds lg) (idle_mk m' rds (lg ++ rows)).
Proof.
  unfold Write. destruct (createBatch rows) as [batch|e] eqn:Hb; [|done].
  unfold processBatches, go_get. unfold go_bind at 1. destruct (FileSegment.Fits _ _).
  - by apply writeBatch_run.
  - intros H. pose proof (batches_loop_run batch rows batch 0 0 0 m m' rds lg Hb) as R. rewrite drop_0 in R.
    apply R; [done|lia|done].
Qed.

(** *** [ReadFrom] as a run *)

(** Reader [j] of [rds] is at [pc]. *)
Definition at_pc (m : st I) wr rds lg (j : nat) (l : N) (n : nat) (pc : rpc) : LogReaders.t I :=
  LogReaders.mk m wr (<[j := mkReader l n pc]> rds) lg.

Lemma set_reader_at m m' wr rds lg j l n pc pc' :
  j < length rds -> set_reader j pc' (at_pc m wr rds lg j l n pc) m' = at_pc m' wr rds lg j l n pc'.
Proof.
  intros Hj. rewrite (LogReadersFacts.set_reader_insert j pc' (at_pc m wr rds lg j l n pc) m' l n pc).
  - unfold at_pc. cbn [writer readers logged]. by rewrite list_insert_insert_eq.
  - by apply list_lookup_insert_eq.
Qed.

Lemma ReadFrom_loop_run off names i results res m m' wr rds lg j l n :
  j < length rds ->
  LogReader.ReadFrom_loop dir off names i results m = (Ret res, m') ->
  rtc (LogReaders.step dir) (at_pc m wr rds lg j l n (RFiles off names i results))
    (at_pc m' wr rds lg j l n (RDone res)).
Proof.
  intros Hj. revert i results m. induction names as [|name names IH]; intros i results m H; cbn [LogReader.ReadFrom_loop] in H.
  - injection H as <- <-. apply rtc_once.
    rewrite <-(set_reader_at m m wr rds lg j l n (RFiles off [] i results) (RDone (Ok results))) by done.
    apply (step_return dir (at_pc m wr rds lg j l n _) j l n off i results). by apply list_lookup_insert_eq.
  - unfold go_bind at 1 in H.
    destruct (LogReader.ReadFrom_file dir name _ m) as [[r| |] m1] eqn:Hf; try done.
    eapply rtc_l.
    + eapply (step_file dir (at_pc m wr rds lg j l n _) j l n off name names i results r m1);
        [by apply list_lookup_insert_eq|exact Hf].
    + rewrite set_reader_at by done. destruct r as [rows|e]; [by apply IH|]. by injection H as <- <-.
Qed.

Lemma ReadFrom_run l n e res m m' wr rds lg j :
  rds !! j = Some (mkReader l n RIndex) -> GetIndex l m = (Ret (Ok e), m) ->
  LogReader.ReadFrom dir (FileName e) (Offset e) m = (Ret res, m') ->
  rtc (LogReaders.step dir) (LogReaders.mk m wr rds lg) (at_pc m' wr rds lg j l (length lg) (RDone res)).
Proof.
  intros Hj Hg H. pose proof (lookup_lt_Some _ _ _ Hj) as Hlt.
  eapply rtc_l; [by eapply (step_found dir (LogReaders.mk m wr rds lg) j l n e)|].
  fold (at_pc m wr rds lg j l (length lg) (RDirs e)).
  unfold LogReader.ReadFrom in H. unfold go_bind at 1 in H. cbn [sm_world manager_segments] in H.
  destruct (on_world (ReadDirsFrom dir (FileName e)) m) as [[r| |] m1] eqn:Hd; try done.
  eapply rtc_l.
  - eapply (step_dirs dir (at_pc m wr rds lg j l (length lg) (RDirs e)) j l _ e r m1);
      [by apply list_lookup_insert_eq|exact Hd].
  - rewrite set_reader_at by done. destruct r as [names|err]; [|by injection H as <- <-].
    destruct (bool_decide (length names = 0)); [by injection H as <- <-|]. by apply ReadFrom_loop_run.
Qed.

End runs.
End WriteRuns.

Section properties.
Import LogReaders Manager ManagerFacts LogReadersFacts.
Context {I : Type} `{!IndexManager I} `{!IndexLaws I}.

(** C9: readers need no lock.  Take any number of [ReadFrom] calls while the
    log is written, its batches reaching the disk in pieces, files are
    rotated and index updates run late.  A call that is back either reports
    that the index does not know its identifier, or it returns a gap-free run
    of the log, without a torn row, that starts at a row with that identifier
    and has every row written by the time of its lookup.  Rows of a batch that
    is still being written may be among them.  The rows fit the record format,
    the log stays below 2^63 bytes, the clock gives a new name for every new
    file and no system call fails. *)
Theorem readers_get_runs (d : FileSystem.path) (B : nat) (dir : gostring) (L : layout)
    (k : nat) (s s' : LogReaders.t I) (j : nat) (r : reader)
    (Hdir : resolve dir = Some d) (Hlog : log_on d B L (mst s)) (Hidx : idx_on L (mst s))
    (Hidle : writer s = WIdle) (Hlogged : logged s = rows_of L)
    (Hnew : Forall (fun r => at_ r = RIndex) (readers s))
    (Hrun : nsteps (LogReaders.step dir) k s s')
    (Hclock : now_calls (world (mst s)) + k <= B)
    (Hwf : Forall Row.wf (logged s' ++ in_progress s'))
    (Hsize : (volume (logged s' ++ in_progress s') < 2 ^ 63)%Z)
    (Hj : readers s' !! j = Some r) :
  match at_ r with
  | RDone (Ok results) =>
      exists pre row rest, results = row :: rest /\ Row.lsnID row = lsn r /\
        (pre ++ results) `prefix_of` (logged s' ++ in_progress s') /\ seen r <= length (pre ++ results)
  | RDone (Err e) => e = ErrIndexNotFound
  | _ => True
  end.
Proof.
  destruct (run_inv d B dir Hdir L k s s') as (C & P & H & _); [done..|].
  pose proof (in_readers _ _ _ _ _ H) as F. rewrite Forall_lookup in F. specialize (F j r Hj).
  unfold reader_ok in F. pose proof (in_all _ _ _ _ _ H) as HP. unfold all_rows in HP. rewrite HP in F.
  by destruct (at_ r) as [| | |[|]].
Qed.

(** The steps are those of the code.  Whatever the disk does, a call of
    [Manager.Write] that succeeds is a run of the writer, batch by batch and
    file by file, that logs exactly its rows; and a lookup that finds an entry
    followed by a call of [ReadFrom] is a run of a reader, beside a writer that
    stands still at any point, that returns what the call returns. *)
Theorem calls_are_runs (dir : gostring) (rows : list Row.t) (m m' q q' : st I) (rds : list reader)
    (lg : list Row.t) (wr : wpc) (j : nat) (l : N) (n : nat) (e : IndexEntry) (res : result (list Row.t))
    (Hwrite : Write rows m = (Ret (Ok tt), m'))
    (Hj : rds !! j = Some (mkReader l n RIndex)) (Hindex : GetIndex l q = (Ret (Ok e), q))
    (Hread : LogReader.ReadFrom dir (FileName e) (Offset e) q = (Ret res, q')) :
  rtc (LogReaders.step dir) (LogReaders.mk m WIdle rds lg) (LogReaders.mk m' WIdle rds (lg ++ rows)) /\
  rtc (LogReaders.step dir) (LogReaders.mk q wr rds lg)
    (LogReaders.mk q' wr (<[j := mkReader l (length lg) (RDone res)]> rds) lg).
Proof.
  split; [by apply WriteRuns.Write_run|]. by eapply WriteRuns.ReadFrom_run.
Qed.

End properties.

Module LogReadersWitnesses.
Import LogReaders Manager ManagerFacts Examples.

Lemma fst_eq {A B} (p : A * B) a : fst p = a -> p = (a, snd p).
Proof. destruct p. by intros <-. Qed.

Lemma entries_loop_fst batch name rows i off es (m : st Mutex.t) x :
  fst (entries_loop batch name rows i off es m) = x -> entries_loop batch name rows i off es m = (x, m).
Proof. intros E%fst_eq. pose proof (entries_loop_state _ _ _ _ _ _ _ _ _ E) as Hs. by rewrite E, Hs. Qed.

Lemma GetIndex_fst l (m : st Mutex.t) x : fst (GetIndex l m) = x -> GetIndex l m = (x, m).
Proof. by intros <-. Qed.

(** The first row is written and indexed; all bytes of the second are on the
    disk, but its write is not over, when a reader comes for the first. *)
Definition put (b : bytes) (m : st Mutex.t) : st Mutex.t :=
  match file_Write (FileSegment.file (curSeg (mgr m))) b (world m) with
  | (Ret (_, _, f), w) => set_seg (FileSegment.set_file f (curSeg (mgr m))) w m
  | _ => m
  end.

Definition first_entries : gmap N IndexEntry := {[ 1%N := mkEntry 0 (seg_name (10 ^ 15)) 0 ]}.

Definition close (n : nat) (m : st Mutex.t) : st Mutex.t :=
  let seg := curSeg (mgr m) in
  let seg' := FileSegment.mk (FileSegment.file seg) (FileSegment.path seg)
    (i64 (FileSegment.size seg + Z.of_nat n)) (FileSegment.maxSize seg) in
  snd ((do! Unlock in spawn_AddBatchIndex first_entries)
    (set_seg seg' (snd (file_Sync (FileSegment.file seg) (world m))) m)).

Definition m0 : st Mutex.t := Witnesses.started example_world.
Definition m1 : st Mutex.t := snd (Lock m0).
Definition m2 : st Mutex.t := put (Row.encode (ex_row 1)) m1.
Definition m3 : st Mutex.t := close (length (Row.encode (ex_row 1))) m2.
Definition m4 : st Mutex.t := snd (run_pending 0 m3).
Definition m5 : st Mutex.t := snd (Lock m4).
Definition m6 : st Mutex.t := put (Row.encode (ex_row 2)) m5.
Definition m7 : st Mutex.t := snd (on_world (ReadDirsFrom (str "data") (seg_name (10 ^ 15))) m6).
Definition m8 : st Mutex.t := snd (LogReader.ReadFrom_file (str "data") (seg_name (10 ^ 15)) 0 m7).

Definition second_entries : gmap N IndexEntry :=
  {[ 2%N := mkEntry 0 (seg_name (10 ^ 15)) (len (Row.encode (ex_row 1))) ]}.

Definition start : LogReaders.t Mutex.t := LogReaders.mk m0 WIdle [mkReader 1 0 RIndex] [].
Definition stop : LogReaders.t Mutex.t :=
  LogReaders.mk m8 (WWriting [ex_row 2] second_entries [] (length (Row.encode (ex_row 2))))
    [mkReader 1 1 (RDone (Ok [ex_row 1; ex_row 2]))] [ex_row 1].

Ltac evaluated := vm_compute; reflexivity.
Ltac by_fst := apply fst_eq; evaluated.

(** A batch of one row: the lock, then all of its bytes. *)
Lemma write_steps r b es f (m : st Mutex.t) rs lg :
  createBatch [r] = Ok [b] -> 0 < length b ->
  fst (entries_loop [b] (FileSegment.GetName (curSeg (mgr m))) [r] 0
    (FileSegment.CurrentOffset (curSeg (mgr m))) ∅ m) = Ret es ->
  fst (Lock m) = Ret tt ->
  fst (file_Write (FileSegment.file (curSeg (mgr (snd (Lock m))))) b (world (snd (Lock m)))) =
    Ret (length b, None, f) ->
  nsteps (LogReaders.step (str "data")) 2 (LogReaders.mk m WIdle rs lg)
    (LogReaders.mk (put b (snd (Lock m))) (WWriting [r] es [] (length b)) rs lg).
Proof.
  intros Hb Hpos He Hl Hw. eapply nsteps_l.
  - eapply (step_begin _ [r] [b]); [done| |by apply entries_loop_fst|by apply fst_eq].
    rewrite flatten_concat. cbn. rewrite app_nil_r. by destruct b; [cbn in Hpos; lia|].
  - apply fst_eq in Hw. unfold put. rewrite Hw. eapply nsteps_l; [|apply nsteps_O].
    assert (flatten [b] = b) as -> by (rewrite flatten_concat; cbn; by rewrite app_nil_r).
    pose proof (step_piece (str "data") [r] es b (length b) 0 (snd (Lock m)) rs lg (length b) f _
      ltac:(lia) ltac:(rewrite firstn_all; exact Hw)) as H.
    by rewrite drop_all in H.
Qed.

(** One reader, from its lookup to its return. *)
Lemma read_steps n (m : st Mutex.t) pc rows lg :
  let m' := snd (on_world (ReadDirsFrom (str "data") n) m) in
  let m'' := snd (LogReader.ReadFrom_file (str "data") n 0 m') in
  fst (GetIndex 1 m) = Ret (Ok (mkEntry 0 n 0)) ->
  fst (on_world (ReadDirsFrom (str "data") n) m) = Ret (Ok [n]) ->
  fst (LogReader.ReadFrom_file (str "data") n 0 m') = Ret (Ok rows) ->
  nsteps (LogReaders.step (str "data")) 4 (LogReaders.mk m pc [mkReader 1 0 RIndex] lg)
    (LogReaders.mk m'' pc [mkReader 1 (length lg) (RDone (Ok rows))] lg).
Proof.
  intros m' m'' Hg Hd Hf. set (at_pc (m : st Mutex.t) pc' := LogReaders.mk m pc [mkReader 1 (length lg) pc'] lg).
  apply nsteps_l with (at_pc m (RDirs (mkEntry 0 n 0))).
  { apply (step_found (str "data") (LogReaders.mk m pc [mkReader 1 0 RIndex] lg) 0 1 0 (mkEntry 0 n 0)); [done|]. by apply GetIndex_fst. }
  apply nsteps_l with (at_pc m' (RFiles 0 [n] 0 [])).
  { apply (step_dirs (str "data") (at_pc m _) 0 1 (length lg) (mkEntry 0 n 0) (Ok [n]) m'); [done|by apply fst_eq]. }
  apply nsteps_l with (at_pc m'' (RFiles 0 [] 1 rows)).
  { apply (step_file (str "data") (at_pc m' _) 0 1 (length lg) 0 n [] 0 [] (Ok rows) m''); [done|by apply fst_eq]. }
  by apply nsteps_once, (step_return (str "data") (at_pc m'' _) 0 1 (length lg) 0 1).
Qed.

Lemma start_stop : nsteps (LogReaders.step (str "data")) 10 start stop.
Proof.
  eapply (nsteps_trans 2 8 _ (LogReaders.mk m2 (WWriting [ex_row 1] first_entries [] 23) [mkReader 1 0 RIndex] [])).
  { eapply (write_steps (ex_row 1) (Row.encode (ex_row 1)) first_entries _ m0); [evaluated|vm_compute; lia|evaluated..]. }
  eapply nsteps_l.
  { eapply (step_finish (str "data") [ex_row 1] first_entries _ m2 m3); [by_fst|]. apply (fst_eq _ (Ret tt)). evaluated. }
  eapply nsteps_l; [apply (step_update (str "data") 0 m3 m4); by_fst|].
  eapply (nsteps_trans 2 4 _ (LogReaders.mk m6 (WWriting [ex_row 2] second_entries [] 23) [mkReader 1 0 RIndex]
    [ex_row 1])).
  { eapply (write_steps (ex_row 2) (Row.encode (ex_row 2)) second_entries _ m4); [evaluated|vm_compute; lia|evaluated..]. }
  apply (read_steps (seg_name (10 ^ 15)) m6); evaluated.
Qed.

Lemma readers_get_runs_witness :
  logged stop = [ex_row 1] /\ in_progress stop = [ex_row 2] /\
  exists pre row rest, [ex_row 1; ex_row 2] = row :: rest /\ Row.lsnID row = 1%N /\
    (pre ++ [ex_row 1; ex_row 2]) `prefix_of` [ex_row 1; ex_row 2] /\ 1 <= length (pre ++ [ex_row 1; ex_row 2]).
Proof.
  split; [reflexivity|]. split; [reflexivity|].
  destruct example_start as (w & seg & E & _ & _ & Hn & Hl & Hi).
  assert (m0 = mkSt w (NewSegmentManager Mutex.NewIndexManagerMutex seg)) as Em.
  { unfold m0, Witnesses.started. rewrite E. reflexivity. }
  rewrite <-Em in Hn, Hl, Hi.
  apply (readers_get_runs example_dir 1000 (str "data") _ 10 start stop 0
    (mkReader 1 1 (RDone (Ok [ex_row 1; ex_row 2]))) eq_refl Hl Hi eq_refl eq_refl).
  - repeat constructor.
  - exact start_stop.
  - cbn [start mst]. lia.
  - apply (bool_decide_unpack _). vm_compute. exact Logic.I.
  - reflexivity.
  - reflexivity.
Defined.

Lemma calls_are_runs_witness :
  rtc (LogReaders.step (str "data")) (LogReaders.mk m0 WIdle [mkReader 1 0 RIndex] [])
    (LogReaders.mk (snd (Write [ex_row 1; ex_row 2; ex_row 3] m0)) WIdle [mkReader 1 0 RIndex]
      [ex_row 1; ex_row 2; ex_row 3]) /\
  rtc (LogReaders.step (str "data")) (LogReaders.mk m4 WIdle [mkReader 1 0 RIndex] [])
    (LogReaders.mk (snd (LogReader.ReadFrom (str "data") (seg_name (10 ^ 15)) 0 m4)) WIdle
      [mkReader 1 0 (RDone (Ok [ex_row 1]))] []).
Proof.
  apply (calls_are_runs (str "data") [ex_row 1; ex_row 2; ex_row 3] m0 _ m4 _ [mkReader 1 0 RIndex] [] WIdle 0 1 0
    (mkEntry 0 (seg_name (10 ^ 15)) 0) (Ok [ex_row 1])).
  - apply fst_eq. evaluated.
  - reflexivity.
  - apply GetIndex_fst. evaluated.
  - apply fst_eq. evaluated.
Defined.

End LogReadersWitnesses.
