(* ===== verification/Crash.v ===== *)
(** * A crash

    What a new process finds after the old one, or the machine, stopped at any
    point of [LogReaders], also inside a write, when part of a batch is on the
    disk and its last record may be torn: [NewFileSegment] and
    [RestoreSystemStream] of [segment.go] and [log_reader.go] on files that hold
    any bytes.  A stopped machine also loses some of the bytes that were written
    since the last [Sync], and, because [newFile] never syncs the directory,
    it may lose whole files: those whose entry has not reached the disk. *)

From S2P Require Import Prelude Encoding WalRecord FileSystem Index Segment SegmentManager Logs LogReaders.

(** The start of a process as far as the log goes: [initSegmentManager] of
    [initialization.go], then the stream that [RestoreStream] of [wal.go] takes
    from the log reader. *)
Definition restart {I : Type} `{!IndexManager I} (dir : gostring) (max : Z) (im0 : I) (w : World)
  : outcome (result (list (result (list Row.t)) * Manager.st I)) :=
  match FileSegment.NewFileSegment dir max w with
  | (Ret (Ok seg), w') =>
      match LogReader.RestoreSystemStream dir (Manager.mkSt w' (Manager.NewSegmentManager im0 seg)) with
      | (Ret stream, m) => Ret (Ok (stream, m))
      | (Panics, _) => Panics
      | (Blocks, _) => Blocks
      end
  | (Ret (Err e), _) => Ret (Err e)
  | (Panics, _) => Panics
  | (Blocks, _) => Blocks
  end.

(** The bytes of the current file that [FileSegment.Write] has written and not
    synced. *)
Definition unsynced (pc : LogReaders.wpc) : nat :=
  match pc with LogReaders.WIdle => 0 | LogReaders.WWriting _ _ _ n => n end.

(** Of the current file some of the last unsynced bytes are gone. *)
Definition trims {I : Type} (s : LogReaders.t I) (w : World) : Prop :=
  let m := LogReaders.mst s in
  let p := f_path (FileSegment.file (Manager.curSeg (Manager.mgr m))) in
  exists b k, nodes (Manager.world m) !! p = Some (FileNode b) /\ k <= unsynced (LogReaders.writer s) /\
    w = set_nodes (<[p := FileNode (take (length b - k) b)]> (nodes (Manager.world m))) (Manager.world m).

(** The directory [d] without the entries [lost]. *)
Definition forget (d : FileSystem.path) (lost : list gostring) (ns : gmap FileSystem.path node)
  : gmap FileSystem.path node := foldr (fun n ns => delete (SegmentFacts.child d n) ns) ns lost.

(** [w] is a disk that may be left behind when the process stops, with nothing
    [lost], or the machine, which loses the entries [lost]. *)
Definition stops {I : Type} (d : FileSystem.path) (lost : list gostring) (s : LogReaders.t I) (w : World) : Prop :=
  exists w0, trims s w0 /\ w = set_nodes (forget d lost (nodes w0)) w0.

(** The files of [F] that are still there. *)
Definition remaining (lost : list gostring) (F : layout) : layout := filter (fun f => f.1 ∉ lost) F.

Lemma remaining_all F : remaining [] F = F.
Proof.
  unfold remaining. induction F as [|f F IH]; [done|]. rewrite filter_cons_True by apply not_elem_of_nil.
  by rewrite IH.
Qed.

Module CrashFacts.
Import LogReader ReaderFacts LogFacts Manager ManagerFacts SegmentFacts LogReadersFacts.

Section facts.
Context {I : Type} `{!IndexManager I} `{!IndexLaws I}.
Context (d : FileSystem.path) (dir : gostring).
Hypothesis Hdir : resolve dir = Some d.

(** The directory holds the files [fs] with their bytes. *)
Record on_disk (fs : list (gostring * bytes)) (w : World) : Prop := {
  od_ff : fault_free w;
  od_ex : dir_exists (nodes w) d;
  od_entries : entries (nodes w) d = fs.*1;
  od_plain : Forall plain_name fs.*1;
  od_files : Forall (fun f => nodes w !! child d f.1 = Some (FileNode f.2)) fs
}.

Lemma on_disk_tick fs k w : on_disk fs w -> on_disk fs (tick k w).
Proof. intros []. by constructor. Qed.

(** What [restoreIndex] and the others make of the bytes of a file. *)
Definition spells (f : gostring * bytes) (g : gostring * list Row.t) : Prop :=
  f.1 = g.1 /\ exists rest, parses f.2 g.2 rest.

Lemma spells_names fs L : Forall2 spells fs L -> fs.*1 = L.*1.
Proof. induction 1 as [|f g fs L [E _] _ IH]; [done|]. cbn. by rewrite E, IH. Qed.

Lemma restore_file_bytes fs n b rs (m : st I) :
  on_disk fs (world m) -> (n, b) ∈ fs -> spells (n, b) (n, rs) -> (len (Row.encode_rows rs) < 2 ^ 63)%Z ->
  exists k m', restore_file dir n m = (Ret (Ok rs), m') /\ world m' = tick k (world m) /\
    im_abs (im (mgr m')) = entries_of n 0 rs ∅ ∪ im_abs (im (mgr m)).
Proof.
  intros H Hn (_ & rest & Hp) Hb. cbn [fst snd] in Hp.
  assert (plain_name n) as Hpl.
  { pose proof (od_plain _ _ H) as F. rewrite Forall_forall in F. apply F, list_elem_of_fmap. by exists (n, b). }
  assert (nodes (world m) !! child d n = Some (FileNode b)) as Hf.
  { pose proof (od_files _ _ H) as F. rewrite Forall_forall in F. apply (F _ Hn). }
  pose proof (OpenFile_existing (world m) dir d n (od_ff _ _ H) Hdir (od_ex _ _ H) Hpl _ Hf) as Eo.
  unfold restore_file. fold (join dir n).
  change (sm_world (OpenFile (join dir n))) with (on_world (I := I) (OpenFile (join dir n))).
  unfold go_bind at 1. unfold on_world at 1, go_zoom at 1. rewrite Eo.
  edestruct (file_reader_spec (mkFile (join dir n) (child d n) 0 false) b (tick 2 (world m)))
    as (r & k & Er & Hsd & Hse); [apply H|done|done|].
  unfold go_bind at 1. cbn [sm_world manager_segments]. unfold on_world at 1, go_zoom at 1.
  cbn [world]. unfold child in Er. rewrite Er. unfold lift. unfold go_bind at 1.
  cbn [f_pos] in Hsd. rewrite drop_0 in Hsd. rewrite (read_parses r rs rest) by (by rewrite Hsd). rewrite Hse.
  unfold restoreIndex, go_bind. cbn [sm_AddBatchIndex manager_segments]. unfold AddBatchIndex, go_put, on_world, go_zoom.
  cbn [world mgr]. unfold file_Close, go_bind. rewrite sys_fault_free by apply H.
  eexists (1 + (k + 2)), _. split; [reflexivity|]. cbn [world mgr im].
  split; [by rewrite !tick_tick|]. rewrite im_AddBatch_law. by rewrite restore_entries_of by (done || apply Hp).
Qed.

Lemma restore_loop_bytes all fs L (m : st I) :
  on_disk all (world m) -> (forall f, f ∈ fs -> f ∈ all) -> Forall2 spells fs L ->
  Forall (fun g => (len (Row.encode_rows g.2) < 2 ^ 63)%Z) L ->
  exists k m', restore_loop dir fs.*1 m = (Ret (Ok <$> L.*2), m') /\ world m' = tick k (world m) /\
    im_abs (im (mgr m')) = restored L (im_abs (im (mgr m))).
Proof.
  intros H Hin Hs. revert m H. induction Hs as [|[n b] [n' rs] fs L Hf _ IH]; intros m H Hb.
  { exists 0, m. split; [done|]. split; [by destruct (world m)|done]. }
  apply Forall_cons in Hb as [Hb1 Hb2]. pose proof Hf as [En _]. cbn in En. subst n'.
  rewrite !fmap_cons. cbn [restore_loop fst snd].
  destruct (restore_file_bytes all n b rs m H) as (k & m1 & E1 & Hw1 & Hi1); [apply Hin; by left|done..|].
  rewrite (go_bind_ret _ _ _ _ _ E1).
  destruct (IH ltac:(intros f Hx; apply Hin; by right) m1) as (k2 & m2 & E2 & Hw2 & Hi2);
    [rewrite Hw1; by apply on_disk_tick|done|].
  rewrite (go_bind_ret _ _ _ _ _ E2). exists (k2 + k), m2. split; [done|].
  split; [by rewrite Hw2, Hw1, tick_tick|]. by rewrite Hi2, Hi1.
Qed.

Lemma RestoreSystemStream_bytes fs L (m : st I) :
  on_disk fs (world m) -> Forall2 spells fs L ->
  Forall (fun g => (len (Row.encode_rows g.2) < 2 ^ 63)%Z) L ->
  exists m', RestoreSystemStream dir m = (Ret (Ok <$> L.*2), m') /\
    im_abs (im (mgr m')) = restored L (im_abs (im (mgr m))).
Proof.
  intros H Hs Hb. unfold RestoreSystemStream.
  pose proof (ReadDir_dir (world m) dir d (od_ff _ _ H) Hdir (od_ex _ _ H)) as E.
  assert (sm_world (ReadDir dir) m = (Ret (Ok fs.*1), tick_st 1 m)) as Er.
  { cbn [sm_world manager_segments]. unfold on_world, go_zoom. by rewrite E, (od_entries _ _ H). }
  rewrite (go_bind_ret _ _ _ _ _ Er). case_bool_decide as Hl.
  - rewrite length_fmap in Hl. apply nil_length_inv in Hl as ->. apply Forall2_nil_inv_l in Hs as ->.
    by exists (tick_st 1 m).
  - destruct (restore_loop_bytes fs fs L (tick_st 1 m)) as (k & m' & E' & _ & Hi); try done;
      [by apply on_disk_tick|]. by exists m'.
Qed.

(** The last file is opened as it is. *)
Lemma NewFileSegment_bytes fs n b max w :
  on_disk (fs ++ [(n, b)]) w ->
  exists seg k, FileSegment.NewFileSegment dir max w = (Ret (Ok seg), tick k w) /\ FileSegment.size seg = len b.
Proof.
  intros H. unfold FileSegment.NewFileSegment, FileSegment.initFileSegment.
  unfold go_bind at 1. unfold go_bind at 1.
  rewrite (ReadDir_dir w dir d) by (done || apply H).
  rewrite (od_entries _ _ H), fmap_app, length_app, length_fmap. cbn [fmap list_fmap length fst].
  rewrite bool_decide_false by lia. rewrite Nat.add_sub.
  rewrite (go_index_Some _ _ n) by (rewrite <-(length_fmap fst fs); by apply list_lookup_middle).
  assert (plain_name n) as Hp.
  { pose proof (od_plain _ _ H) as F. rewrite fmap_app in F. by apply Forall_app, proj2, Forall_inv in F. }
  assert (nodes w !! child d n = Some (FileNode b)) as Hf.
  { pose proof (od_files _ _ H) as F. by apply Forall_app, proj2, Forall_inv in F. }
  unfold go_bind at 1. unfold go_ret at 1. fold (join dir n).
  rewrite (OpenFile_existing (tick 1 w) dir d n) with (b := b) by (done || apply H). cbv beta iota.
  unfold go_bind. rewrite (file_Size_on _ _ (child d n) b) by (done || apply H).
  eexists _, _. split; [by rewrite !tick_tick|done].
Qed.

(** Complete rows before half a batch. *)
Lemma parses_app rs b x rest :
  Forall Row.wf rs -> parses b x rest -> parses (Row.encode_rows rs ++ b) (rs ++ x) rest.
Proof.
  intros Hrs (-> & Hx & Ht). split; [|split; [by apply Forall_app|done]].
  by rewrite Row.encode_rows_app, <-(assoc_L (++)).
Qed.

Definition enc (f : gostring * list Row.t) : gostring * bytes := (f.1, Row.encode_rows f.2).

Lemma spells_enc (L : layout) : Forall Row.wf (rows_of L) -> Forall2 spells (enc <$> L) L.
Proof.
  induction L as [|[n rs] L IH]; cbn; [by constructor|]. intros [Hrs HL]%Forall_app.
  constructor; [|by apply IH]. split; [done|]. exists []. by apply parses_rows.
Qed.

(** The disk at any point of the writer. *)
Lemma log_at_disk (B : nat) pc C P (m : st I) :
  log_at d B pc C P m -> Forall Row.wf (rows_of P) ->
  exists fs n b L x, on_disk (fs ++ [(n, b)]) (world m) /\ Forall2 spells (fs ++ [(n, b)]) L /\
    rows_of L = rows_of C ++ x /\ (rows_of C ++ x) `prefix_of` rows_of P.
Proof.
  intros H Hwf. pose proof (log_at_readable _ _ _ _ _ _ H) as [Hff Hex Hent _ Hpl _ Hfiles].
  destruct (log_at_snoc _ _ _ _ _ _ H) as (_ & _ & (L0 & n & cs & g & T & -> & ->) & Hlen).
  assert (T = []) as -> by (rewrite !length_app in Hlen; cbn in Hlen; apply nil_length_inv; lia).
  rewrite rows_of_snoc in Hwf. apply Forall_app in Hwf as [HL0 [Hcs Hg]%Forall_app].
  destruct (Hfiles (length L0) n cs) as (g' & b & y & HP & _ & Eg & Hlast);
    [by rewrite lookup_app_r, Nat.sub_diag by done|].
  rewrite lookup_app_r, Nat.sub_diag in HP by done. injection HP as <-%app_inv_head.
  destruct (parses_prefix g b y Hg Eg) as (x & rest & Hp & Hx).
  exists (enc <$> L0), n, (Row.encode_rows cs ++ b), (L0 ++ [(n, cs ++ x)]), x.
  assert ((enc <$> L0).*1 = L0.*1) as Hn by (rewrite <-list_fmap_compose; done).
  split; [|split; [|split]].
  - rewrite fmap_app in Hent, Hpl. constructor; rewrite ?fmap_app, ?Hn; try done.
    apply Forall_app. split; [|by apply Forall_singleton]. apply Forall_lookup. intros j f Hj.
    apply list_lookup_fmap_Some_1 in Hj as ([n' rs] & -> & Hj). cbn [enc fst snd].
    destruct (Hfiles j n' rs) as (g1 & b1 & y1 & _ & Hz & E1 & Hf1);
      [rewrite lookup_app_l; [done|by eapply lookup_lt_Some]|].
    rewrite Hz in E1; [|rewrite length_app; cbn; apply lookup_lt_Some in Hj; lia].
    symmetry in E1. apply app_nil in E1 as [-> _]. by rewrite app_nil_r in Hf1.
  - apply Forall2_app; [by apply spells_enc|]. constructor; [|constructor]. split; [done|].
    exists rest. by apply parses_app.
  - by rewrite !rows_of_snoc, <-(assoc_L (++)).
  - rewrite !rows_of_snoc, <-(assoc_L (++)). by apply prefix_app, prefix_app.
Qed.

(** A disk with its last bytes gone is one of an earlier point of the same write. *)
Lemma trims_at (B : nat) C P (s : LogReaders.t I) w :
  log_at d B (LogReaders.writer s) C P (LogReaders.mst s) -> trims s w ->
  exists pc, log_at d B pc C P (mkSt w (mgr (LogReaders.mst s))).
Proof.
  destruct s as [m pc rs lg]. unfold trims. cbn [LogReaders.mst LogReaders.writer].
  intros H (b & k & Hb & Hk & ->). destruct pc as [|g es rest q]; cbn [unsynced] in Hk.
  - exists LogReaders.WIdle. assert (k = 0) as -> by lia. rewrite Nat.sub_0_r, firstn_all, insert_id by done.
    rewrite set_nodes_id. by destruct m.
  - destruct H as (L0 & n & cs & b0 & HC & HP & Eg & Hq & Hd & Hso & Hf & Hi & Hes).
    rewrite (so_path _ _ _ _ _ Hso) in Hb |- *. rewrite Hf in Hb. injection Hb as <-.
    set (j := length b0 - k). exists (LogReaders.WWriting g es (drop j b0 ++ rest) j).
    exists L0, n, cs, (take j b0). cbn [world mgr].
    assert (with_file d n (Row.encode_rows cs) (set_nodes (<[child d n := FileNode (take (length
        (Row.encode_rows cs ++ b0) - k) (Row.encode_rows cs ++ b0))]> (nodes (world m))) (world m)) =
      with_file d n (Row.encode_rows cs) (world m)) as ->.
    { unfold with_file. cbn [nodes set_nodes]. by rewrite insert_insert_eq. }
    do 2 (split; [done|]). split; [by rewrite (assoc_L (++)), take_drop|].
    split; [rewrite length_take; lia|]. do 2 (split; [done|]). split.
    + cbn [nodes set_nodes]. rewrite lookup_insert_eq, length_app. do 2 f_equal.
      replace (length (Row.encode_rows cs) + length b0 - k) with (length (Row.encode_rows cs) + j) by lia.
      by rewrite take_app_add.
    + split; [|done]. destruct Hi. by constructor.
Qed.

(** *** Lost entries *)

Lemma volume_remaining lost (F : layout) : (volume (rows_of (remaining lost F)) <= volume (rows_of F))%Z.
Proof.
  induction F as [|f F IH]; [done|]. unfold remaining in *. rewrite filter_cons.
  assert (forall G : layout, rows_of (f :: G) = f.2 ++ rows_of G) as Hc by done.
  destruct (decide _); rewrite ?Hc, !volume_app; unfold volume in *; lens.
Qed.

Lemma lookup_forget_other lost ns p :
  (forall n, n ∈ lost -> p <> child d n) -> forget d lost ns !! p = ns !! p.
Proof.
  induction lost as [|n lost IH]; intros H; [done|]. cbn [forget foldr].
  rewrite lookup_delete_ne by (intros E; apply (H n); [by left|done]).
  apply IH. intros n' Hn'. apply H. by right.
Qed.

Lemma lookup_forget lost ns n :
  forget d lost ns !! child d n = if decide (n ∈ lost) then None else ns !! child d n.
Proof.
  destruct (decide (n ∈ lost)) as [Hin|Hni].
  - induction lost as [|n' lost IH]; [by apply not_elem_of_nil in Hin|]. cbn [forget foldr].
    destruct (decide (n' = n)) as [->|Hne]; [apply lookup_delete_eq|].
    apply elem_of_cons in Hin as [->|Hin]; [done|].
    rewrite lookup_delete_ne; [by apply IH|]. by intros ->%child_inj.
  - apply lookup_forget_other. by intros n' Hn' ->%child_inj.
Qed.

Lemma dir_exists_forget lost ns : dir_exists ns d -> dir_exists (forget d lost ns) d.
Proof.
  intros H k Hk. rewrite lookup_forget_other; [by apply H|]. intros n _ [= E].
  apply (f_equal length) in E. rewrite length_take, length_app in E. cbn in E. lia.
Qed.

Lemma filter_names {A} (lost : list gostring) (fs : list (gostring * A)) :
  (filter (fun f => f.1 ∉ lost) fs).*1 = filter (fun n => n ∉ lost) fs.*1.
Proof.
  induction fs as [|[n b] fs IH]; [done|]. rewrite fmap_cons. cbn [fst].
  destruct (decide (n ∈ lost)) as [Hn|Hn].
  - rewrite !filter_cons_False by (cbn; tauto). done.
  - rewrite !filter_cons_True by done. by rewrite fmap_cons, IH.
Qed.

Lemma sorted_filter {A} (R : A -> A -> Prop) (P : A -> Prop) `{!forall x, Decision (P x)} l :
  StronglySorted R l -> StronglySorted R (filter P l).
Proof.
  induction 1 as [|x l _ IH Hx]; [constructor|]. rewrite filter_cons. destruct (decide (P x)); [|done].
  constructor; [done|]. apply Forall_forall. intros y [_ Hy]%list_elem_of_filter. rewrite Forall_forall in Hx. auto.
Qed.

Lemma on_disk_forget lost fs w :
  on_disk fs w -> on_disk (filter (fun f => f.1 ∉ lost) fs) (set_nodes (forget d lost (nodes w)) w).
Proof.
  intros [Hff Hex Hent Hpl Hf]. constructor; cbn [nodes set_nodes]; [done|by apply dir_exists_forget|..].
  - rewrite filter_names, <-Hent. apply entries_unique.
    + apply sorted_filter, entries_sorted.
    + apply NoDup_filter, entries_NoDup.
    + intros n. rewrite list_elem_of_filter, elem_of_entries.
      fold (child d n). rewrite lookup_forget. destruct (decide (n ∈ lost)); [|by split; [intros []|]].
      split; [by intros []|by intros []].
  - rewrite filter_names. apply Forall_forall. intros n [_ Hn]%list_elem_of_filter.
    rewrite Forall_forall in Hpl. auto.
  - apply Forall_forall. intros f [Hl Hn]%list_elem_of_filter. rewrite Forall_forall in Hf.
    rewrite lookup_forget, decide_False by done. auto.
Qed.

Lemma log_at_clock (B : nat) pc C P (m : st I) : log_at d B pc C P m -> fresh_clock B (world m) [].
Proof.
  assert (forall w names, fresh_clock B w names -> fresh_clock B w []) as Hw.
  { intros w names H i Hi. destruct (H i Hi) as (? & ? & _). by split_and!. }
  destruct pc as [|g es rest q]; cbn [log_at].
  - intros (H & _). eapply Hw, (do_clock _ _ _ _ (lo_dir _ _ _ _ H)).
  - intros (L0 & n & rs & b & _ & _ & _ & _ & H & _). exact (Hw _ _ (do_clock _ _ _ _ H)).
Qed.

(** A directory without files gets one. *)
Lemma NewFileSegment_empty (B : nat) max (im0 : I) w :
  on_disk [] w -> fresh_clock B w [] -> now_calls w < B ->
  exists seg w1 n, FileSegment.NewFileSegment dir max w = (Ret (Ok seg), w1) /\ on_disk [(n, [])] w1.
Proof.
  intros [Hff Hex Hent _ _] Hc HB.
  destruct (NewFileSegment_on (I := I) d B [] dir max im0 w) as (w1 & seg & E & _ & _ & _ & _ & H);
    [constructor; try done; by apply Forall_nil_2|done|done|].
  pose proof (lo_dir _ _ _ _ H) as [Hff1 Hex1 Hent1 Hf1 _ Hpl1 _].
  unfold opened in *. rewrite bool_decide_true in * by done. cbn [world] in *.
  exists seg, w1, (seg_name (clock w (now_calls w))). split; [exact E|]. constructor; try done.
  apply Forall_singleton. exact (Forall_inv Hf1).
Qed.

(** A new process on a disk that is left behind. *)
Lemma crash_on (B : nat) C P (s : LogReaders.t I) w max (im0 : I) lost :
  inv d B C P s -> fits s -> now_calls (world (LogReaders.mst s)) < B -> stops d lost s w ->
  exists seg w1 F L' m x, FileSegment.NewFileSegment dir max w = (Ret (Ok seg), w1) /\
    RestoreSystemStream dir (mkSt w1 (NewSegmentManager im0 seg)) = (Ret (Ok <$> L'.*2), m) /\
    entries (nodes (world (LogReaders.mst s))) d = F.*1 /\
    rows_of F = LogReaders.logged s ++ x /\ x `prefix_of` LogReaders.in_progress s /\
    rows_of L' = rows_of (remaining lost F) /\
    im_abs (im (mgr m)) = restored L' (im_abs im0).
Proof.
  intros Hinv [Hwf Hsize] HB (w0 & Htrim & ->). pose proof (in_rows _ _ _ _ _ Hinv) as HC.
  pose proof (in_all _ _ _ _ _ Hinv) as HP. unfold all_rows in HP, Hwf, Hsize.
  pose proof (ra_entries _ _ _ _ (log_at_readable _ _ _ _ _ _ (in_log _ _ _ _ _ Hinv))) as Hent.
  destruct (trims_at B C P s w0 (in_log _ _ _ _ _ Hinv) Htrim) as [pc Hw].
  pose proof (ra_entries _ _ _ _ (log_at_readable _ _ _ _ _ _ Hw)) as Hent0.
  destruct (log_at_disk B _ _ _ _ Hw) as (fs & n & b & F & x & Hd & Hs & HF & Hx); [by rewrite HP|].
  cbn [world] in Hd, Hent0. pose proof (od_entries _ _ Hd) as Hent1.
  rewrite HC in HF, Hx. rewrite HP in Hx. apply prefix_app_inv in Hx.
  set (all := fs ++ [(n, b)]) in *. set (w := set_nodes (forget d lost (nodes w0)) w0).
  pose proof (on_disk_forget lost all w0 Hd) as Hd'. fold w in Hd'.
  assert (Forall2 spells (filter (fun f => f.1 ∉ lost) all) (remaining lost F)) as Hs'.
  { apply Forall2_filter; [|done]. intros f g [-> _]. done. }
  assert (exists seg w1 fs' L', FileSegment.NewFileSegment dir max w = (Ret (Ok seg), w1) /\
    on_disk fs' w1 /\ Forall2 spells fs' L' /\ rows_of L' = rows_of (remaining lost F)) as
    (seg & w1 & fs' & L' & E1 & Hd1 & Hs1 & HL').
  { destruct (filter (fun f => f.1 ∉ lost) all) as [|f0 rest0] eqn:Ef.
    - apply Forall2_nil_inv_l in Hs' as ->.
      destruct (NewFileSegment_empty B max im0 w Hd') as (seg & w1 & nm & E & Hd1).
      { exact (log_at_clock B _ _ _ _ Hw). }
      { unfold w. destruct Htrim as (b0 & k0 & _ & _ & ->). exact HB. }
      exists seg, w1, [(nm, [])], [(nm, [])]. split; [done|]. split; [done|]. split; [|done].
      constructor; [|constructor]. split; [done|]. exists []. by apply (parses_rows []).
    - destruct (exists_last (l := f0 :: rest0)) as (fs1 & [n1 b1] & El); [done|]. rewrite El in Hd', Hs'.
      destruct (NewFileSegment_bytes fs1 n1 b1 max w Hd') as (seg & k1 & E & _).
      exists seg, (tick k1 w), (fs1 ++ [(n1, b1)]), (remaining lost F). split; [done|].
      split; [by apply on_disk_tick|done]. }
  destruct (RestoreSystemStream_bytes fs' L' (mkSt w1 (NewSegmentManager im0 seg)) Hd1 Hs1) as (m & E2 & Hi).
  { apply Forall_forall. intros [n' rs] Hf. apply file_volume in Hf. rewrite HL' in Hf. cbn [snd].
    assert (volume (rows_of (remaining lost F)) <= volume (rows_of F))%Z as Hle by apply volume_remaining.
    rewrite HF in Hle. destruct Hx as [T ET]. rewrite ET, (assoc_L (++)), volume_app in Hsize.
    unfold volume in *. lens. }
  exists seg, w1, F, L', m, x. split; [done|]. split; [done|]. split; [|done].
  rewrite Hent, <-Hent0, Hent1. by apply spells_names.
Qed.

End facts.
End CrashFacts.

Section properties.
Import LogReader LogFacts LogReaders Manager ManagerFacts LogReadersFacts CrashFacts.
Context {I : Type} `{!IndexManager I} `{!IndexLaws I}.


End properties.

Module CrashWitnesses.
Import LogReader LogReaders Manager ManagerFacts Examples LogReadersWitnesses.

(** All bytes of the second row were written and not synced; the machine stops
    and the last five are lost. *)
Definition left_behind : World :=
  let m := mst stop in
  let p := f_path (FileSegment.file (curSeg (mgr m))) in
  set_nodes (<[p := FileNode (take 41 (Row.encode_rows [ex_row 1; ex_row 2]))]> (nodes (world m))) (world m).

Lemma remaining_none lost (F : layout) : Forall (fun n => n ∈ lost) F.*1 -> remaining lost F = [].
Proof.
  unfold remaining. induction F as [|f F IH]; [done|]. intros [Hf HF]%Forall_cons.
  rewrite filter_cons_False by (intros H; by apply H). auto.
Qed.


End CrashWitnesses.
