(* ===== verification/Concurrency.v ===== *)
(** * Channels, futures and semaphores

    [utils/concurrency]: one-slot futures over buffered channels, the
    stream-like [FutureRespWithErr], a counting semaphore and [WithLock].

    A channel is its capacity, the values buffered in it and whether it was
    closed.  An operation that cannot proceed yet is [Blocks]: it leaves the
    state unchanged, and a scheduler retries it after another goroutine has
    moved.  Sending on a closed channel and closing twice panic. *)

From S2P Require Import Prelude Utils.

Module Chan.
Section chan.
Context {A : Type}.

Record t := mk { cap : nat; buf : list A; closed : bool }.

Definition make (n : nat) : t := mk n [] false.

Definition send (v : A) : Go t unit :=
  fun c =>
    if closed c then (Panics, c)
    else if bool_decide (length (buf c) < cap c) then (Ret tt, mk (cap c) (buf c ++ [v]) false)
    else (Blocks, c).

(** [v, ok := <-ch]: [None] when the channel is closed and drained. *)
Definition recv : Go t (option A) :=
  fun c =>
    match buf c with
    | v :: b => (Ret (Some v), mk (cap c) b (closed c))
    | [] => if closed c then (Ret None, c) else (Blocks, c)
    end.

Definition close : Go t unit :=
  fun c => if closed c then (Panics, c) else (Ret tt, mk (cap c) (buf c) true).

End chan.
Arguments t : clear implicits.
End Chan.

(** ** [FutureResp] *)

Module FutureResp.
Section future.
Context {T : Type} (zero : T).

(** The struct holds the channel only, so all copies of it are the channel. *)
Abbreviation t := (Chan.t T).

Definition NewFutureResp : t := Chan.make 1.

Definition Put (v : T) : Go t unit := Chan.send v.

(** A receive from a closed channel gives the zero value. *)
Definition GetResponse : Go t T :=
  let! v := Chan.recv in go_ret (default zero v).

Definition Done : Go t unit := Chan.close.

(** [late] is the error of the context once it expires during the wait, and
    [pick_ctx] the choice of [select] when both cases are ready. *)
Definition GetResponseWithDeadline (ctx : Context.t) (late : option error) (pick_ctx : bool)
  : Go t (result T) :=
  match Context.ctx_Err ctx with
  | Some e => go_ret (Err e)
  | None =>
      fun f =>
        match Chan.recv f, late with
        | (Ret v, f'), None => (Ret (Ok (default zero v)), f')
        | (Ret v, f'), Some e =>
            if pick_ctx then (Ret (Err e), f) else (Ret (Ok (default zero v)), f')
        | (_, _), Some e => (Ret (Err e), f)
        | (_, _), None => (Blocks, f)
        end
  end.

End future.
End FutureResp.

(** ** [FutureRespWithErr] *)

Module FutureRespWithErr.
(** The struct: a reference to the channel (and to the mutex that guards
    [err]), and a field of its own.  A copy of the struct shares the channel
    but has its own [err]: an operation runs on the shared channel and on the
    [err] of the copy it is called on. *)
Record copy := mkCopy { err : option error }.
Abbreviation st T := (Chan.t T * copy)%type.

Section future.
Context {T : Type} (zero : T).

Definition NewFutureRespWithErr : st T := (Chan.make 1, mkCopy None).

Definition on_chan {A} (c : Go (Chan.t T) A) : Go (st T) A :=
  go_zoom fst (fun ch s => (ch, snd s)) c.

Definition Put (v : T) (e : option error) : Go (st T) unit :=
  match e with
  | Some e => go_put (fun s => (fst s, mkCopy (Some e)))
  | None => on_chan (Chan.send v)
  end.

Definition GetResponse : Go (st T) (T * option error) :=
  let! c := go_get snd in
  match err c with
  | Some e => go_ret (zero, Some e)
  | None =>
      let! v := on_chan Chan.recv in
      match v with
      | None => go_ret (zero, None)
      | Some v => go_ret (v, None)
      end
  end.

Definition Next : Go (st T) (T * option error * bool) :=
  let! c := go_get snd in
  match err c with
  | Some e => go_ret (zero, Some e, false)
  | None =>
      let! r := on_chan Chan.recv in
      match r with
      | None => go_ret (zero, None, false)
      | Some r => go_ret (r, None, true)
      end
  end.

Definition Done : Go (st T) unit := on_chan Chan.close.

End future.
End FutureRespWithErr.

(** ** [Semaphore] *)

Module Semaphore.

(** A channel of empty structs: only the number of buffered ones matters. *)
Abbreviation t := (Chan.t unit).

(** [make] panics on a negative size. *)
Definition NewSemaphore (max : Z) : outcome t :=
  if (max <? 0)%Z then Panics else Ret (Chan.make (Z.to_nat max)).

Definition Acquire : Go t unit := Chan.send tt.

Definition Release : Go t unit :=
  fun s =>
    match Chan.recv s with
    | (Ret _, s') => (Ret tt, s')
    | _ => (Ret tt, s)
    end.

(** [fired] tells whether the timer has fired by the time [select] looks,
    and [pick_timer] what it chooses when both cases are ready. *)
Definition AcquireWithDeadline (fired pick_timer : bool) : Go t bool :=
  fun s =>
    match Chan.send tt s with
    | (Ret _, s') => if fired && pick_timer then (Ret false, s) else (Ret true, s')
    | (Panics, _) => (Panics, s)
    | (Blocks, _) => if fired then (Ret false, s) else (Blocks, s)
    end.

End Semaphore.

(** ** [WithLock] *)

(** The state of a mutex and of what [fn] works on. *)
Definition WithLock {S} (m : bool) (fn : option (Go S unit)) : Go (bool * S) unit :=
  fun s =>
    match m, fn with
    | true, Some fn =>
        if fst s then (Blocks, s)
        else
          let '(o, s') := fn (snd s) in
          (o, (false, s'))
    | _, _ => (Ret tt, s)
    end.

(** ** A producer and a consumer of a stream

    The goroutines of [RestoreSystemStream], [RestoreStream] and [ReadStream]
    put results with [Put] and end with [Done]; their callers loop over
    [Next] on a copy of the future until it reports an error or the end.
    Either side moves whenever its next operation does not block. *)

Section stream.
Context {T : Type} (zero : T).
Import FutureRespWithErr.

Inductive pc := Putting (todo : list (result T)) | Finished.

Record sys := mkSys {
  chan : Chan.t T;
  producer : copy;
  consumer : copy;
  prog : pc;
  got : list T;
  ended : option (option error)
}.

(** A put of [Err e] is [Put(nil, e)]. *)
Definition put_of (r : result T) : Go (st T) unit :=
  match r with Ok v => Put v None | Err e => Put zero (Some e) end.

Inductive step : sys -> sys -> Prop :=
| step_put ch p c r todo g e ch' p' :
    put_of r (ch, p) = (Ret tt, (ch', p')) ->
    step (mkSys ch p c (Putting (r :: todo)) g e) (mkSys ch' p' c (Putting todo) g e)
| step_done ch p c g e ch' p' :
    Done (ch, p) = (Ret tt, (ch', p')) ->
    step (mkSys ch p c (Putting []) g e) (mkSys ch' p' c Finished g e)
| step_next ch p c pr g v ch' c' :
    Next zero (ch, c) = (Ret (v, None, true), (ch', c')) ->
    step (mkSys ch p c pr g None) (mkSys ch' p c' pr (g ++ [v]) None)
| step_end ch p c pr g v err ch' c' :
    Next zero (ch, c) = (Ret (v, err, false), (ch', c')) ->
    step (mkSys ch p c pr g None) (mkSys ch' p c' pr g (Some err)).

(** A future just returned to its caller: both copies have no error yet. *)
Definition start (puts : list (result T)) : sys :=
  mkSys (Chan.make 1) (mkCopy None) (mkCopy None) (Putting puts) [] None.

(** The values among the puts. *)
Definition values (puts : list (result T)) : list T :=
  omap (fun r => match r with Ok v => Some v | Err _ => None end) puts.

Definition todo_of (p : pc) : list (result T) :=
  match p with Putting l => l | Finished => [] end.

(** Nothing is lost, duplicated or reordered, and the consumer's copy never
    gets an error. *)
Record stream_inv (puts : list (result T)) (s : sys) : Prop := {
  si_cap : Chan.cap (chan s) = 1 /\ length (Chan.buf (chan s)) <= 1;
  si_closed : Chan.closed (chan s) = true <-> prog s = Finished;
  si_consumer : err (consumer s) = None;
  si_values : values puts = got s ++ Chan.buf (chan s) ++ values (todo_of (prog s));
  si_ended : forall e, ended s = Some e -> e = None /\ Chan.buf (chan s) = [] /\ prog s = Finished
}.

Lemma stream_inv_start puts : stream_inv puts (start puts).
Proof. constructor; cbn; [lia|done|done|done|done]. Qed.

Lemma stream_inv_step puts s s' : stream_inv puts s -> step s s' -> stream_inv puts s'.
Proof.
  intros [Hcap Hcl Hc Hv He] Hstep.
  destruct Hstep as [ch p c r todo g e ch' p' E|ch p c g e ch' p' E|ch p c pr g v ch' c' E
                    |ch p c pr g v er ch' c' E]; cbn in *.
  - assert (e = None) as -> by (destruct e; [destruct (He _ eq_refl) as (_ & _ & ?); done|done]).
    destruct r as [v|er]; cbn in E.
    + unfold on_chan, go_zoom, Chan.send in E. cbn in E.
      destruct (Chan.closed ch) eqn:Ec; [done|]. case_bool_decide; [|done]. injection E as <- <-.
      constructor; cbn; try done.
      * rewrite length_app. simpl. lia.
      * rewrite Hv, <-!(assoc_L (++)). done.
    + injection E as <- <-. constructor; cbn; try done.
      split; [intros H; by apply Hcl in H|done].
  - unfold Done, on_chan, go_zoom, Chan.close in E. cbn in E.
    destruct (Chan.closed ch) eqn:Ec; [done|]. injection E as <- <-. constructor; cbn; try done.
    intros e0 ->. destruct (He _ eq_refl) as (_ & _ & ?). done.
  - unfold Next, go_bind, go_get in E. cbn in E. rewrite Hc in E.
    unfold on_chan, go_zoom, Chan.recv in E. cbn in E.
    destruct (Chan.buf ch) as [|x b] eqn:Eb; [destruct (Chan.closed ch); done|].
    injection E as <- <- <-. constructor; cbn in *; try done; [lia|].
    by rewrite Hv, <-(assoc_L (++)).
  - unfold Next, go_bind, go_get in E. cbn in E. rewrite Hc in E.
    unfold on_chan, go_zoom, Chan.recv in E. cbn in E.
    destruct (Chan.buf ch) as [|x b] eqn:Eb; [|done].
    destruct (Chan.closed ch) eqn:Ec; [|done]. injection E as <- <- <- <-.
    constructor; cbn in *; rewrite ?Eb, ?Ec; try done; try lia. intros e [= <-].
    split; [done|]. split; [done|]. by apply Hcl.
Qed.

(** Every step makes this smaller. *)
Definition left_to_do (s : sys) : nat :=
  2 * length (todo_of (prog s)) + match prog s with Putting _ => 1 | Finished => 0 end +
  length (Chan.buf (chan s)) + match ended s with Some _ => 0 | None => 1 end.

Lemma step_decreases puts s s' :
  stream_inv puts s -> step s s' -> left_to_do s' < left_to_do s.
Proof.
  intros [_ _ Hc _ _] Hstep. unfold left_to_do.
  destruct Hstep as [ch p c r todo g e ch' p' E|ch p c g e ch' p' E|ch p c pr g v ch' c' E
                    |ch p c pr g v er ch' c' E]; cbn in *.
  - destruct r as [v|er]; cbn in E; [|injection E as <- <-; lia].
    unfold on_chan, go_zoom, Chan.send in E. cbn in E.
    destruct (Chan.closed ch); [done|]. case_bool_decide; [|done]. injection E as <- <-.
    cbn. rewrite length_app. simpl. lia.
  - unfold Done, on_chan, go_zoom, Chan.close in E. cbn in E.
    destruct (Chan.closed ch); [done|]. injection E as <- <-. cbn. lia.
  - unfold Next, go_bind, go_get in E. cbn in E. rewrite Hc in E.
    unfold on_chan, go_zoom, Chan.recv in E. cbn in E.
    destruct (Chan.buf ch) as [|x b]; [destruct (Chan.closed ch); done|].
    injection E as <- <- <-. cbn. lia.
  - unfold Next, go_bind, go_get in E. cbn in E. rewrite Hc in E.
    unfold on_chan, go_zoom, Chan.recv in E. cbn in E.
    destruct (Chan.buf ch) as [|x b] eqn:Eb; [|done].
    destruct (Chan.closed ch); [|done]. injection E as <- <- <- <-. cbn. rewrite Eb. simpl. lia.
Qed.

(** Until the consumer has seen the end, one side can move. *)
Lemma stream_progress puts s : stream_inv puts s -> ended s = None -> exists s', step s s'.
Proof.
  intros [[Hcap Hlen] Hcl Hc _ _] He. destruct s as [ch p c pr g e]. cbn in *. subst e.
  destruct ch as [cap b cl]. destruct c as [ce]. cbn in *. subst cap ce.
  destruct b as [|x b]; cycle 1.
  { eexists. eapply step_next. reflexivity. }
  destruct pr as [[|r todo]|].
  - eexists. eapply step_done. unfold Done, on_chan, go_zoom, Chan.close. cbn.
    destruct cl; [by destruct Hcl as [Hcl _]; specialize (Hcl eq_refl)|]. reflexivity.
  - destruct cl; [by destruct Hcl as [Hcl _]; specialize (Hcl eq_refl)|].
    destruct r as [v|er]; eexists; eapply step_put; reflexivity.
  - destruct Hcl as [_ Hcl]. rewrite (Hcl eq_refl). eexists. eapply step_end. reflexivity.
Qed.

Lemma stream_inv_reach puts s s' : stream_inv puts s -> rtc step s s' -> stream_inv puts s'.
Proof. intros H Hr. induction Hr; eauto using stream_inv_step. Qed.

Lemma nsteps_bounded puts n s s' :
  stream_inv puts s -> nsteps step n s s' -> n + left_to_do s' <= left_to_do s.
Proof.
  intros H Hn. induction Hn as [|n s1 s2 s3 H12 _ IH]; [lia|].
  pose proof (step_decreases _ _ _ H H12). specialize (IH (stream_inv_step _ _ _ H H12)). lia.
Qed.

(** A stream delivers every value and no error.  Whatever the
    interleaving of the goroutine that fills the stream and the caller that
    drains it, every run ends within a bounded number of steps, and a run
    that cannot go on has handed the caller all the values that were put, in
    order, and then the end of the stream; an error put on the stream never
    arrives, because [Put] records it in the goroutine's own copy of the
    struct. *)
Theorem stream_delivers_values (puts : list (result T)) (n : nat) (s : sys)
    (Hrun : nsteps step n (start puts) s) :
  n <= 2 * length puts + 2 /\
  ((forall s', ~ step s s') -> got s = values puts /\ ended s = Some None).
Proof.
  pose proof (stream_inv_start puts) as H0. split.
  - pose proof (nsteps_bounded _ _ _ _ H0 Hrun). unfold left_to_do at 2 in H. cbn in H. lia.
  - intros Hstuck. pose proof (stream_inv_reach _ _ _ H0 (rtc_nsteps_2 n _ _ Hrun)) as Hinv.
    destruct (ended s) as [e|] eqn:He.
    + destruct (si_ended _ _ Hinv e He) as (-> & Hb & Hp).
      rewrite (si_values _ _ Hinv), Hb, Hp. cbn. by rewrite !(right_id_L [] (++)).
    + destruct (stream_progress _ _ Hinv He) as [s' Hs]. by destruct (Hstuck s').
Qed.

End stream.

(** The run of a producer that fails at once: the caller sees an empty stream
    that ended well. *)
Lemma stream_delivers_values_witness :
  exists (s : sys (T := N)), nsteps (step 0%N) 3 (start [Err ErrUnexpectedEOF]) s /\
    got s = [] /\ ended s = Some None.
Proof.
  set (s := mkSys (T := N) (Chan.mk 1 [] true) (FutureRespWithErr.mkCopy (Some ErrUnexpectedEOF))
    (FutureRespWithErr.mkCopy None) Finished [] (Some None)).
  assert (nsteps (step 0%N) 3 (start [Err ErrUnexpectedEOF]) s) as Hrun.
  { eapply nsteps_l; [eapply step_put; reflexivity|].
    eapply nsteps_l; [eapply step_done; reflexivity|].
    eapply nsteps_l; [eapply step_end; reflexivity|]. apply nsteps_O. }
  exists s. split; [exact Hrun|].
  apply (stream_delivers_values 0%N [Err ErrUnexpectedEOF] 3 s Hrun).
  intros s' Hs. inversion Hs.
Defined.

(** ** The semaphore *)

Section semaphore.
Import Semaphore.

Inductive sem_op := OpAcquire | OpRelease | OpAcquireWithDeadline (fired pick_timer : bool).

(** One call; the number of slots it takes or gives back. *)
Definition sem_call (o : sem_op) (s : t) : Z * t :=
  match o with
  | OpAcquire => match Acquire s with (Ret _, s') => (1, s') | (_, s') => (0, s') end
  | OpRelease => match Release s with (_, s') => (if bool_decide (Chan.buf s = []) then 0 else -1, s') end
  | OpAcquireWithDeadline f p =>
      match AcquireWithDeadline f p s with (Ret true, s') => (1, s') | (_, s') => (0, s') end
  end%Z.

Fixpoint sem_calls (os : list sem_op) (s : t) : Z * t :=
  match os with
  | [] => (0%Z, s)
  | o :: os' => let '(d, s1) := sem_call o s in let '(ds, s2) := sem_calls os' s1 in ((d + ds)%Z, s2)
  end.

Lemma sem_call_inv o s :
  Chan.closed s = false -> length (Chan.buf s) <= Chan.cap s ->
  let '(d, s') := sem_call o s in
  Chan.closed s' = false /\ Chan.cap s' = Chan.cap s /\ length (Chan.buf s') <= Chan.cap s' /\
  (len (Chan.buf s') = len (Chan.buf s) + d)%Z.
Proof.
  intros Hc Hl. destruct s as [cap b cl]. cbn in *. subst cl.
  assert (forall d s', (d, s') = (0%Z, Chan.mk cap b false) \/
      (d, s') = (1%Z, Chan.mk cap (b ++ [tt]) false) /\ length b < cap ->
    Chan.closed s' = false /\ Chan.cap s' = cap /\ length (Chan.buf s') <= Chan.cap s' /\
    (len (Chan.buf s') = len b + d)%Z) as Hadd.
  { intros d s' [[= -> ->]|[[= -> ->] H]]; cbn; [split; [done|]; split; [done|]; split; [done|lia]|].
    rewrite len_app, length_app. cbn. unfold len. simpl. repeat split; lia. }
  destruct o as [| |f p]; cbn [sem_call].
  - unfold Acquire, Chan.send. cbn. case_bool_decide as H;
      [exact (Hadd 1%Z _ (or_intror (conj eq_refl H)))|exact (Hadd 0%Z _ (or_introl eq_refl))].
  - unfold Release, Chan.recv. cbn. destruct b as [|[] b]; cbn in *; [exact (Hadd 0%Z _ (or_introl eq_refl))|].
    unfold len. simpl. repeat split; lia.
  - unfold AcquireWithDeadline, Chan.send. cbn. case_bool_decide as H.
    + destruct (f && p); [exact (Hadd 0%Z _ (or_introl eq_refl))|].
      exact (Hadd 1%Z _ (or_intror (conj eq_refl H))).
    + destruct f; exact (Hadd 0%Z _ (or_introl eq_refl)).
Qed.

(** A semaphore made for [max] holders never has more than [max] slots
    taken, whatever calls are made on it; what is taken is the number of
    acquisitions that went through less the releases that gave one back. *)
Theorem Semaphore_bounded (max : Z) (s : t) (os : list sem_op)
    (Hnew : NewSemaphore max = Ret s) :
  let '(d, s') := sem_calls os s in
  (0 <= d <= max)%Z /\ len (Chan.buf s') = d.
Proof.
  unfold NewSemaphore in Hnew. destruct (Z.ltb_spec max 0); [done|]. injection Hnew as <-.
  assert (forall s, Chan.closed s = false -> length (Chan.buf s) <= Chan.cap s ->
    let '(d, s') := sem_calls os s in
    Chan.cap s' = Chan.cap s /\ length (Chan.buf s') <= Chan.cap s' /\
    (len (Chan.buf s') = len (Chan.buf s) + d)%Z) as Hgen.
  { induction os as [|o os IH]; intros s Hc Hl; cbn [sem_calls]; [repeat split; [done|lia]|].
    pose proof (sem_call_inv o s Hc Hl) as Hs. destruct (sem_call o s) as [d s1].
    destruct Hs as (Hc1 & Hcap1 & Hl1 & Hd). specialize (IH s1 Hc1 Hl1).
    destruct (sem_calls os s1) as [ds s2]. destruct IH as (Hcap2 & Hl2 & Hd2).
    split; [congruence|]. split; [done|]. lia. }
  specialize (Hgen (Chan.make (Z.to_nat max)) eq_refl). cbn in Hgen.
  specialize (Hgen (Nat.le_0_l _)). destruct (sem_calls os _) as [d s'].
  destruct Hgen as (Hcap & Hl & Hd). rewrite Hcap in Hl. unfold len in *. simpl in *. lia.
Qed.

Lemma Semaphore_bounded_witness :
  let '(d, s') := sem_calls [OpAcquire; OpAcquire; OpAcquire; OpRelease] (Chan.make 2) in
  (0 <= d <= 2)%Z /\ len (Chan.buf s') = d.
Proof.
  apply (Semaphore_bounded 2 (Chan.make 2) [OpAcquire; OpAcquire; OpAcquire; OpRelease]).
  reflexivity.
Defined.

End semaphore.
