(* ===== verification/Retry.v ===== *)
(** * Retrying with backoff

    [utils/retry/with_retry.go].  The calls run over the caller's state
    together with the list of the delays waited so far.  The environment says
    for each wait whether the context ended during it (and with which error)
    and which number [rand.Int63n] drew. *)

From S2P Require Import Prelude.

Record Env := mkEnv {
  done : nat -> option error;
  Int63n : nat -> Z -> Z
}.

Section retry.
Context {S : Type} (env : Env).

(** The caller's state and the delays waited. *)
Abbreviation st := (S * list Z)%type.

Definition call {A} (f : Go S A) : Go st A := go_zoom fst (fun s t => (s, snd t)) f.
Definition wait (delay : Z) : Go st unit := go_put (fun t => (fst t, snd t ++ [delay])).

(** [baseDelay << i], or [baseDelay] when that is not positive. *)
Definition backoff (baseDelay : Z) (i : nat) : Z :=
  let delay := i64 (Z.shiftl baseDelay (Z.of_nat i)) in
  if (delay <=? 0)%Z then baseDelay else delay.

(** The loop of [WithRetry] with [n] iterations to go, the next being [i]. *)
Fixpoint retry_loop (n i : nat) (retry baseDelay : Z) (f : Go S (option error))
    (err : option error) : Go st (option error) :=
  match n with
  | O => go_ret err
  | Datatypes.S n' =>
      let! err := call f in
      match err with
      | None => go_ret None
      | Some e =>
          if (Z.of_nat i =? retry)%Z then go_ret (Some e)
          else
            let delay := backoff baseDelay i in
            let third := Z.quot delay 3 in
            if (third <=? 0)%Z then go_panic
            else
              let jitter := Int63n env i third in
              let delay := i64 (delay + jitter) in
              do! wait delay in
              match done env i with
              | Some e' => go_ret (Some e')
              | None => retry_loop n' (i + 1) retry baseDelay f (Some e)
              end
      end
  end.

Definition default_retry (retry : Z) : Z := if (retry <=? 0)%Z then 1 else retry.
Definition default_delay (baseDelay : Z) : Z := if (baseDelay <=? 0)%Z then 50000000 else baseDelay.

Definition WithRetry (retry baseDelay : Z) (f : option (Go S (option error)))
  : Go st (option error) :=
  let retry := default_retry retry in
  let baseDelay := default_delay baseDelay in
  match f with
  | None => go_ret (Some (ErrorString (str "func is nil")))
  | Some f => retry_loop (Z.to_nat retry) 0 retry baseDelay f None
  end.

(** The same with a value: [f] returns a value beside its error, and so does
    every return of the loop. *)
Fixpoint retry_value_loop {T} (n i : nat) (retry baseDelay : Z) (f : Go S (T * option error))
    (val : T) (err : option error) : Go st (T * option error) :=
  match n with
  | O => go_ret (val, err)
  | Datatypes.S n' =>
      let! ' (val, err) := call f in
      match err with
      | None => go_ret (val, None)
      | Some e =>
          if (Z.of_nat i =? retry)%Z then go_ret (val, Some e)
          else
            let delay := backoff baseDelay i in
            let third := Z.quot delay 3 in
            if (third <=? 0)%Z then go_panic
            else
              let jitter := Int63n env i third in
              let delay := i64 (delay + jitter) in
              do! wait delay in
              match done env i with
              | Some e' => go_ret (val, Some e')
              | None => retry_value_loop n' (i + 1) retry baseDelay f val (Some e)
              end
      end
  end.

Definition WithRetryValue {T} (zero : T) (retry baseDelay : Z) (f : option (Go S (T * option error)))
  : Go st (T * option error) :=
  let retry := default_retry retry in
  let baseDelay := default_delay baseDelay in
  match f with
  | None => go_ret (zero, Some (ErrorString (str "func is nil")))
  | Some f => retry_value_loop (Z.to_nat retry) 0 retry baseDelay f zero None
  end.

(** ** Lemmas *)

(** [f] was called once for each of the errors [es] and failed with it. *)
Inductive failed {T} (f : Go S (T * option error)) : S -> list (T * error) -> S -> Prop :=
| failed_nil s : failed f s [] s
| failed_cons s v e s1 es s2 :
    f s = (Ret (v, Some e), s1) -> failed f s1 es s2 -> failed f s ((v, e) :: es) s2.

(** The numbers drawn are in the range [rand.Int63n] promises. *)
Definition rand_ok : Prop := forall i n, (0 < n)%Z -> (0 <= Int63n env i n < n)%Z.

(** Without overflow the delay doubles at every attempt. *)
Lemma backoff_exact b i :
  (0 < b)%Z -> (b * 2 ^ Z.of_nat i < 2 ^ 63)%Z -> backoff b i = (b * 2 ^ Z.of_nat i)%Z.
Proof.
  intros Hb Hlt. unfold backoff. rewrite Z.shiftl_mul_pow2 by lia.
  assert (0 < 2 ^ Z.of_nat i)%Z by (apply Z.pow_pos_nonneg; lia).
  rewrite i64_id by nia. destruct (Z.leb_spec (b * 2 ^ Z.of_nat i) 0); nia.
Qed.

(** How a call ends after the failures [es], the first of which was attempt
    [i], with [n] attempts allowed from there: [f] succeeded, the context
    ended during the wait after the last failure, or the attempts ran out. *)
Inductive ends {T} (f : Go S (T * option error)) (n i : nat) (es : list (T * error)) (s1 : S)
  : T * option error -> S -> Prop :=
| ends_ok v s2 :
    length es < n -> f s1 = (Ret (v, None), s2) ->
    (forall j, j < length es -> done env (i + j) = None) ->
    ends f n i es s1 (v, None) s2
| ends_ctx es' v e e' :
    es = es' ++ [(v, e)] -> length es <= n -> done env (i + length es') = Some e' ->
    (forall j, j < length es' -> done env (i + j) = None) ->
    ends f n i es s1 (v, Some e') s1
| ends_all es' v e :
    es = es' ++ [(v, e)] -> length es = n ->
    (forall j, j < n -> done env (i + j) = None) ->
    ends f n i es s1 (v, Some e) s1.

(** The delays of successive failures from attempt [i] on. *)
Definition delays_ok (b : Z) (i : nat) (ds : list Z) : Prop :=
  forall j d, ds !! j = Some d -> (b * 2 ^ Z.of_nat (i + j) <= d < 2 * (b * 2 ^ Z.of_nat (i + j)))%Z.

Lemma ends_cons {T} (f : Go S (T * option error)) n i v e es s1 r s2 :
  done env i = None -> ends f n (i + 1) es s1 r s2 ->
  ends f (Datatypes.S n) i ((v, e) :: es) s1 r s2.
Proof.
  intros Hd Hends.
  assert (forall m, (forall j, j < m -> done env (i + 1 + j) = None) ->
    forall j, j < Datatypes.S m -> done env (i + j) = None) as Hshift.
  { intros m H [|j] Hj; [by rewrite Nat.add_0_r|]. rewrite <-(H j) by lia. f_equal. lia. }
  destruct Hends as [v' s2' Hl Hf Hj|es' v' e' ec -> Hl Hc Hj|es' v' e' -> Hl Hj].
  - apply ends_ok; [simpl; lia|done|]. by apply Hshift.
  - apply (ends_ctx f _ _ _ _ ((v, e) :: es') v' e'); [done|simpl in *; lia| |by apply Hshift].
    rewrite <-Hc. f_equal. simpl. lia.
  - apply (ends_all f _ _ _ _ ((v, e) :: es')); [done|simpl in *; lia|by apply Hshift].
Qed.

Lemma delays_cons b i d ds :
  (b * 2 ^ Z.of_nat i <= d < 2 * (b * 2 ^ Z.of_nat i))%Z -> delays_ok b (i + 1) ds ->
  delays_ok b i (d :: ds).
Proof.
  intros Hd Hds [|j] d' Hj; cbn in Hj.
  - injection Hj as <-. by rewrite Nat.add_0_r.
  - apply Hds in Hj. by replace (i + Datatypes.S j) with (i + 1 + j) by lia.
Qed.

Lemma retry_value_loop_spec {T} (f : Go S (T * option error)) b retry n i val err s ws :
  (forall s, exists r s', f s = (Ret r, s')) -> rand_ok ->
  (3 <= b)%Z -> (2 * (b * 2 ^ Z.of_nat (i + n)) < 2 ^ 63)%Z -> retry = Z.of_nat (i + n) ->
  n <> 0 ->
  exists es s1 s2 ds r,
    retry_value_loop n i retry b f val err (s, ws) = (Ret r, (s2, ws ++ ds)) /\
    failed f s es s1 /\ ends f n i es s1 r s2 /\ length ds = length es /\ delays_ok b i ds.
Proof.
  intros Htot Hr Hb. revert i val err s ws.
  induction n as [|n IH]; intros i val err s ws Hover Hretry Hn; [done|].
  cbn [retry_value_loop]. unfold go_bind at 1. unfold call, go_zoom. cbn [fst snd].
  destruct (Htot s) as ([v [e|]] & s' & Ef); rewrite Ef; cycle 1.
  { exists [], s, s', [], (v, None). rewrite (right_id_L [] (++)). split; [done|].
    split; [constructor|]. split; [|done]. apply ends_ok; [simpl; lia|done|]. simpl. lia. }
  destruct (Z.eqb_spec (Z.of_nat i) retry); [lia|].
  assert (0 < 2 ^ Z.of_nat i <= 2 ^ Z.of_nat (i + Datatypes.S n))%Z as Hpow
    by (split; [apply Z.pow_pos_nonneg|apply Z.pow_le_mono_r]; lia).
  rewrite backoff_exact by nia. set (d := (b * 2 ^ Z.of_nat i)%Z) in *.
  assert (3 <= d /\ 2 * d < 2 ^ 63)%Z as [Hd3 Hd63] by (unfold d; nia).
  assert (0 < Z.quot d 3 <= d)%Z as Hq by (rewrite Z.quot_div_nonneg by lia; split;
    [apply Z.div_str_pos|apply Z.div_le_upper_bound]; lia).
  destruct (Z.leb_spec (Z.quot d 3) 0); [lia|].
  pose proof (Hr i (Z.quot d 3) (proj1 Hq)) as Hj.
  unfold go_bind, wait, go_put. cbn [fst snd]. rewrite i64_id by lia.
  set (dl := (d + Int63n env i (Z.quot d 3))%Z).
  destruct (done env i) as [ec|] eqn:Hdone.
  { exists [(v, e)], s', s', [dl], (v, Some ec). split; [done|].
    split; [by repeat econstructor|]. split.
    - apply (ends_ctx f _ _ _ _ [] v e); [done|simpl; lia|by rewrite Nat.add_0_r|simpl; lia].
    - split; [done|]. apply delays_cons; [unfold dl; fold d; lia|]. intros j x Hx. done. }
  destruct n as [|n'].
  { exists [(v, e)], s', s', [dl], (v, Some e). split; [done|].
    split; [by repeat econstructor|]. split.
    - apply (ends_all f _ _ _ _ []); [done|done|]. intros [|j] Hj'; [by rewrite Nat.add_0_r|lia].
    - split; [done|]. apply delays_cons; [unfold dl; fold d; lia|]. intros j x Hx. done. }
  destruct (IH (i + 1) v (Some e) s' (ws ++ [dl])) as (es & s1 & s2 & ds & r & -> & Hf & He & Hl & Hds);
    [by replace (i + 1 + Datatypes.S n') with (i + Datatypes.S (Datatypes.S n')) by lia|lia|done|].
  exists ((v, e) :: es), s1, s2, (dl :: ds), r. rewrite <-(assoc_L (++)). split; [done|].
  split; [by econstructor|]. split; [by apply ends_cons|]. split; [simpl; lia|].
  apply delays_cons; [unfold dl; fold d; lia|done].
Qed.

(** An [f] that always fails in the same way, with nobody cancelling. *)
Lemma retry_value_const {T} (f : Go S (T * option error)) b retry n i val err v e s ws :
  f s = (Ret (v, Some e), s) -> (forall j, done env j = None) ->
  (forall j, i <= j < i + n -> (0 < Z.quot (backoff b j) 3)%Z) -> (Z.of_nat (i + n) <= retry)%Z ->
  exists ds, retry_value_loop n i retry b f val err (s, ws) =
    (Ret (match n with O => (val, err) | _ => (v, Some e) end), (s, ds)).
Proof.
  intros Hf Hd. revert i val err ws. induction n as [|n IH]; intros i val err ws Hq Hr; [by eexists|].
  cbn [retry_value_loop]. unfold go_bind at 1. unfold call, go_zoom. cbn [fst snd]. rewrite Hf.
  destruct (Z.eqb_spec (Z.of_nat i) retry); [lia|].
  destruct (Z.leb_spec (Z.quot (backoff b i) 3) 0); [specialize (Hq i); lia|].
  unfold go_bind, wait, go_put. cbn [fst snd]. rewrite Hd.
  destruct (IH (i + 1) v (Some e) (ws ++ [i64 (backoff b i + Int63n env i (Z.quot (backoff b i) 3))]))
    as [ds ->]; [intros j Hj; apply Hq; lia|lia|]. exists ds. by destruct n.
Qed.

(** A success comes from an attempt, the attempts before it having failed. *)
Lemma retry_loop_None n i retry b (f : Go S (option error)) err s ws s' ws' :
  (n = 0 -> err <> None) ->
  retry_loop n i retry b f err (s, ws) = (Ret None, (s', ws')) ->
  exists s1, rtc (fun a b => exists e, f a = (Ret (Some e), b)) s s1 /\ f s1 = (Ret None, s').
Proof.
  revert i err s ws. induction n as [|n IH]; intros i err s ws Hn.
  { intros [= H]. by destruct Hn. }
  cbn [retry_loop]. unfold go_bind at 1. unfold call, go_zoom. cbn [fst snd].
  destruct (f s) as [[[e|]| |] s1] eqn:E; try done.
  2: { intros [= <- _]. exists s. split; [apply rtc_refl|done]. }
  destruct (Z.of_nat i =? retry)%Z; [done|]. destruct (Z.quot _ 3 <=? 0)%Z; [done|].
  unfold go_bind, wait, go_put. cbn [fst snd]. destruct (done env i); [done|].
  intros H. apply IH in H as (s2 & Hr & Hf); [|done]. exists s2. split; [|done].
  eapply rtc_l; [|exact Hr]. eauto.
Qed.

(** What [f] keeps, a retry of it keeps; its error is one of [f] or the end of
    the context during a wait. *)
Lemma retry_loop_inv (P : S -> Prop) (Q : error -> Prop) n i retry b (f : Go S (option error)) err s ws o s' ws' :
  (forall s o s', P s -> f s = (o, s') -> P s' /\ forall e, o = Ret (Some e) -> Q e) ->
  (forall j e, done env j = Some e -> Q e) -> (forall e, err = Some e -> Q e) -> P s ->
  retry_loop n i retry b f err (s, ws) = (o, (s', ws')) ->
  P s' /\ forall e, o = Ret (Some e) -> Q e.
Proof.
  intros Hf Hd. revert i err s ws. induction n as [|n IH]; intros i err s ws He Hs.
  { intros [= <- <- _]. split; [done|]. intros e [= ->]. by apply He. }
  cbn [retry_loop]. unfold go_bind at 1. unfold call, go_zoom. cbn [fst snd].
  destruct (f s) as [o1 s1] eqn:E. destruct (Hf _ _ _ Hs E) as [Hs1 Hq].
  destruct o1 as [[e|]| |]; try (by intros [= <- <- _]).
  destruct (Z.of_nat i =? retry)%Z; [intros [= <- <- _]; split; [done|]; intros e' [= <-]; by apply Hq|].
  destruct (Z.quot _ 3 <=? 0)%Z; [by intros [= <- <- _]|].
  unfold go_bind, wait, go_put. cbn [fst snd]. destruct (done env i) as [e'|] eqn:Ed.
  - intros [= <- <- _]. split; [done|]. intros e'' [= <-]. by eapply Hd.
  - apply IH; [|done]. intros e' [= <-]. by apply Hq.
Qed.

(** [WithRetry] is [WithRetryValue] without the value. *)
Lemma retry_loop_value n i retry b (f : Go S (option error)) err t :
  retry_loop n i retry b f err t =
  (let! r := retry_value_loop n i retry b (let! e := f in go_ret (tt, e)) tt err in go_ret (snd r)) t.
Proof.
  revert i err t. induction n as [|n IH]; intros i err [s ws]; [done|].
  cbn [retry_loop retry_value_loop]. unfold go_bind, call, go_zoom. cbn [fst snd].
  destruct (f s) as [[[e|]| |] s']; try done. cbn [go_ret]. unfold go_ret at 1.
  destruct (Z.of_nat i =? retry)%Z; [done|]. destruct (Z.quot _ 3 <=? 0)%Z; [done|].
  cbn. destruct (done env i); [done|]. apply IH.
Qed.

Lemma WithRetry_value retry b (f : Go S (option error)) t :
  WithRetry retry b (Some f) t =
  (let! r := WithRetryValue tt retry b (Some (let! e := f in go_ret (tt, e))) in go_ret (snd r)) t.
Proof. apply retry_loop_value. Qed.

(** [WithRetryValue] makes between one and [retry] attempts and stops at
    the first that succeeds, returning its value.  Otherwise it returns the
    context's error when the context ends during a wait, or the last error
    after [retry] failures.  It waits after every failure, the last one
    included, and the waits grow: the delay after attempt [i] is at least
    [baseDelay * 2^i] and less than twice that. *)
Theorem WithRetryValue_attempts {T} (zero : T) (retry baseDelay : Z) (f : Go S (T * option error))
    (s : S) (Htot : forall s, exists r s', f s = (Ret r, s')) (Hrand : rand_ok)
    (Hb : (3 <= default_delay baseDelay)%Z)
    (Hover : (2 * (default_delay baseDelay * 2 ^ default_retry retry) < 2 ^ 63)%Z) :
  exists es s1 s2 ds r,
    WithRetryValue zero retry baseDelay (Some f) (s, []) = (Ret r, (s2, ds)) /\
    failed f s es s1 /\ ends f (Z.to_nat (default_retry retry)) 0 es s1 r s2 /\
    length ds = length es /\ delays_ok (default_delay baseDelay) 0 ds.
Proof.
  assert (0 < default_retry retry)%Z
    by (unfold default_retry; destruct (Z.leb_spec retry 0); lia).
  apply (retry_value_loop_spec f _ _ _ 0 zero None s []); try done.
  - rewrite Nat.add_0_l, Z2Nat.id by lia. done.
  - lia.
  - lia.
Qed.

End retry.

Arguments failed {S T}.
Arguments ends {S} env {T}.

(** Two failures, then a success. *)
Definition flaky : Go nat (N * option error) :=
  fun n => match n with
           | O => (Ret (7%N, None), O)
           | Datatypes.S n' => (Ret (0%N, Some EOF), n')
           end.

Definition quiet : Env := mkEnv (fun _ => None) (fun _ _ => 0%Z).

Lemma WithRetryValue_attempts_witness :
  exists es s1 s2 ds r,
    WithRetryValue quiet 0%N 3 1000 (Some flaky) (2, []) = (Ret r, (s2, ds)) /\
    failed flaky 2 es s1 /\ ends quiet flaky 3 0 es s1 r s2 /\
    length ds = length es /\ delays_ok 1000 0 ds.
Proof.
  apply (WithRetryValue_attempts quiet 0%N 3 1000 flaky 2).
  - intros [|n]; [by exists (7%N, None), 0|by exists (0%N, Some EOF), n].
  - intros i n Hn. cbn. lia.
  - cbn. lia.
  - reflexivity.
Defined.
