(* ===== verification/Protocol.v ===== *)
(** * The replication protocol

    [internal/database/replication/protocol.go]: the request (a log sequence
    number, 8 bytes little-endian) and the response (a flag, a 32-bit
    big-endian length and that many bytes of rows or of error text). *)

From S2P Require Import Prelude Encoding WalRecord.

Module Request.

Definition reqSize : nat := 8.

Record t := mk { LsnID : N }.

Definition Marshal (r : t) : bytes := le_bytes 8 (LsnID r).

Definition Unmarshal (data : bytes) : result t :=
  if bool_decide (length data < reqSize)
  then Err (ErrorString (str "not enough bytes to unmarshal Request"))
  else Ok (mk (le_value (take 8 data))).

End Request.

Module Response.

Definition errFlag : byte := x01.
Definition okFlag : byte := x00.

Record t := mk { Data : bytes; Err_ : option error }.

(** [int32(len(b))] as its four bytes: the conversion keeps the low 32 bits. *)
Definition length_field (b : bytes) : bytes := be_bytes 4 (N.of_nat (length b) mod 2 ^ 32).

Definition writerData (r : t) : bytes := length_field (Data r) ++ Data r.

Definition writerError (e : error) : bytes := length_field (Error e) ++ Error e.

(** Writing to a [bytes.Buffer] does not fail. *)
Definition WriteMessage (r : t) : bytes :=
  match Err_ r with
  | Some e => [errFlag] ++ writerError e
  | None => [okFlag] ++ writerData r
  end.

(** [int32] from its four bytes. *)
Definition i32_value (v : N) : Z := i32 (Z.of_N v).

(** The error of a field that the stream ends in, when the stream ended with
    [e]: an end of file inside the field is [io.ErrUnexpectedEOF]. *)
Definition field_error (s : bytes) (e : error) : error :=
  match e with EOF => short_read_error s | _ => e end.

(** [ReadMessage] on a stream that holds [s] and then ends with the error [e]
    ([io.EOF] when the peer closes it); the [bufio.Reader] asks the stream
    again until it has what it needs or the stream ends. *)
Definition ReadMessage (s : bytes) (e : error) : result t :=
  match s with
  | [] => Err e
  | flag :: s1 =>
      match read_be 4 s1 with
      | None => Err (field_error s1 e)
      | Some (v, s2) =>
          let dataLen := i32_value v in
          if (dataLen <? 0)%Z then Err (ErrorString (str "invalid data length"))
          else
            match read_full (Z.to_nat dataLen) s2 with
            | None => Err (field_error s2 e)
            | Some (data, _) =>
                if bool_decide (flag = errFlag)
                then Ok (mk [] (Some (ErrorString data)))
                else Ok (mk data None)
            end
      end
  end.

End Response.

(** [flatten] of protocol.go: the bytes of the rows, or the first error. *)
Fixpoint flatten (rows : list Row.t) (buf : bytes) : result bytes :=
  match rows with
  | [] => Ok buf
  | r :: rows' =>
      match Row.Marshal r with
      | Err e => Err e
      | Ok b => flatten rows' (buf ++ b)
      end
  end.

(** [ConnTarget]: an [io.Writer] is a state and its [Write]. *)
Module ConnTarget.
Section target.
Context {S : Type} (conn_Write : bytes -> Go S (option error)).

Definition Write (rows : list Row.t) : Go S (option error) :=
  match flatten rows [] with
  | Err e => go_ret (Some e)
  | Ok data => conn_Write (Response.WriteMessage (Response.mk data None))
  end.

End target.
End ConnTarget.

(** ** Lemmas *)

Lemma flatten_wf rows buf : Forall Row.wf rows -> flatten rows buf = Ok (buf ++ Row.encode_rows rows).
Proof.
  intros H. revert buf. induction H as [|r rows Hr _ IH]; intros buf; cbn [flatten].
  - change (Row.encode_rows []) with (@nil byte). by rewrite (right_id_L [] (++)).
  - rewrite Row.Marshal_wf by done. by rewrite IH, Row.encode_rows_cons, (assoc_L (++)).
Qed.

Module ProtocolFacts.
Import Response.

Lemma length_field_small b :
  (len b < 2 ^ 31)%Z ->
  forall s, exists v, read_be 4 (length_field b ++ s) = Some (v, s) /\ i32_value v = len b.
Proof.
  intros H s. unfold length_field, len in *.
  rewrite N.mod_small by lia. exists (N.of_nat (length b)). split.
  - apply read_be_app. change (256 ^ N.of_nat 4)%N with (2 ^ 32)%N. lia.
  - unfold i32_value. rewrite i32_id by lia. lia.
Qed.

(** A message cut short. *)
Lemma ReadMessage_cut flag p k :
  (len p < 2 ^ 31)%Z -> k < length (flag :: length_field p ++ p) ->
  exists e, ReadMessage (take k (flag :: length_field p ++ p)) EOF = Err e /\
    (e = EOF \/ e = ErrUnexpectedEOF).
Proof.
  intros Hp Hk. assert (length (length_field p) = 4) as Hl by apply length_be_bytes.
  assert (forall s, short_read_error s = EOF \/ short_read_error s = ErrUnexpectedEOF) as Hshort
    by (intros [|]; auto).
  destruct k as [|k]; [by eexists; auto|]. cbn [take length] in *. rewrite length_app in Hk.
  unfold ReadMessage. destruct (decide (k < 4)) as [Hk4|Hk4].
  - unfold read_be. rewrite (proj2 (read_full_None 4 _)) by (rewrite length_take; lia).
    eexists. split; [done|apply Hshort].
  - rewrite take_app_ge by lia.
    destruct (length_field_small p Hp (take (k - length (length_field p)) p)) as (v & -> & ->).
    destruct (Z.ltb_spec (len p) 0); [lens|].
    rewrite (proj2 (read_full_None _ _)) by (rewrite length_take; unfold len; lia).
    eexists. split; [done|apply Hshort].
Qed.

(** A whole message, whatever follows it. *)
Lemma ReadMessage_data data s end_ :
  (len data < 2 ^ 31)%Z -> ReadMessage (WriteMessage (mk data None) ++ s) end_ = Ok (mk data None).
Proof.
  intros H. unfold WriteMessage, writerData, ReadMessage. cbn [Err_ Data app].
  rewrite <-(assoc_L (++)). destruct (length_field_small data H (data ++ s)) as (v & -> & ->).
  destruct (Z.ltb_spec (len data) 0); [lens|].
  rewrite read_full_app by (unfold len; lia). by rewrite bool_decide_false.
Qed.

Lemma ReadMessage_error data e s end_ :
  (len (Error e) < 2 ^ 31)%Z ->
  ReadMessage (WriteMessage (mk data (Some e)) ++ s) end_ = Ok (mk [] (Some (ErrorString (Error e)))).
Proof.
  intros H. unfold WriteMessage, writerError, ReadMessage. cbn [Err_ Data app].
  rewrite <-(assoc_L (++)). destruct (length_field_small (Error e) H (Error e ++ s)) as (v & -> & ->).
  destruct (Z.ltb_spec (len (Error e)) 0); [lens|].
  rewrite read_full_app by (unfold len; lia). by rewrite bool_decide_true.
Qed.

End ProtocolFacts.

(** ** Properties *)

(** Requests round-trip: every 64-bit sequence number survives, eight
    bytes are enough whatever follows them, and fewer are an error. *)
Theorem Request_roundtrip (lsn : N) (rest : bytes) (k : nat)
    (Hlsn : (lsn < 2 ^ 64)%N) (Hk : (k < 8)%nat) :
  Request.Unmarshal (Request.Marshal (Request.mk lsn) ++ rest) = Ok (Request.mk lsn) /\
  length (Request.Marshal (Request.mk lsn)) = Request.reqSize /\
  is_ok (Request.Unmarshal (take k (Request.Marshal (Request.mk lsn)))) = false.
Proof.
  assert (length (Request.Marshal (Request.mk lsn)) = 8) as Hl by apply length_le_bytes.
  split; [|split; [done|]].
  - unfold Request.Unmarshal, Request.reqSize. rewrite bool_decide_false by (rewrite length_app; lia).
    rewrite <-Hl, take_app_length. unfold Request.Marshal. rewrite le_value_bytes_id; done.
  - unfold Request.Unmarshal, Request.reqSize.
    rewrite bool_decide_true; [done|]. rewrite length_take. lia.
Qed.

Lemma Request_roundtrip_witness :
  Request.Unmarshal (Request.Marshal (Request.mk 513) ++ str "x") = Ok (Request.mk 513) /\
  length (Request.Marshal (Request.mk 513)) = Request.reqSize /\
  is_ok (Request.Unmarshal (take 7 (Request.Marshal (Request.mk 513)))) = false.
Proof. apply (Request_roundtrip 513 (str "x") 7); [reflexivity|lia]. Defined.

(** C30: responses round-trip below 2 GiB: the reader gets back the data, or
    the text of the error, exactly, whatever follows on the connection, and a
    message cut short anywhere is an end-of-file error rather than a shorter
    message. *)
Theorem Response_roundtrip (r : Response.t) (rest : bytes) (k : nat) (end_ : error)
    (Hlen : (len (match Response.Err_ r with Some e => Error e | None => Response.Data r end) < 2 ^ 31)%Z)
    (Hk : (k < length (Response.WriteMessage r))%nat) :
  Response.ReadMessage (Response.WriteMessage r ++ rest) end_ =
    Ok (match Response.Err_ r with
        | Some e => Response.mk [] (Some (ErrorString (Error e)))
        | None => r
        end) /\
  (Response.ReadMessage (take k (Response.WriteMessage r)) EOF = Err EOF \/
   Response.ReadMessage (take k (Response.WriteMessage r)) EOF = Err ErrUnexpectedEOF).
Proof.
  destruct r as [data [e|]]; cbn [Response.Err_ Response.Data] in *.
  - split; [by apply ProtocolFacts.ReadMessage_error|].
    destruct (ProtocolFacts.ReadMessage_cut _ _ _ Hlen Hk) as (x & E & [-> | ->]); auto.
  - split; [by apply ProtocolFacts.ReadMessage_data|].
    destruct (ProtocolFacts.ReadMessage_cut _ _ _ Hlen Hk) as (x & E & [-> | ->]); auto.
Qed.

Lemma Response_roundtrip_witness :
  Response.ReadMessage (Response.WriteMessage (Response.mk (str "rows") None) ++ str "next") EOF =
    Ok (Response.mk (str "rows") None) /\
  (Response.ReadMessage (take 6 (Response.WriteMessage (Response.mk (str "rows") None))) EOF = Err EOF \/
   Response.ReadMessage (take 6 (Response.WriteMessage (Response.mk (str "rows") None))) EOF =
     Err ErrUnexpectedEOF).
Proof.
  apply (Response_roundtrip (Response.mk (str "rows") None) (str "next") 6 EOF).
  - reflexivity.
  - apply (bool_decide_unpack _). vm_compute. exact Logic.I.
Defined.
