(* ===== verification/Wal.v ===== *)
(** * The write-ahead log

    [internal/database/wal/wal.go]: client goroutines call [Write], which
    takes a sequence number, sends the row to a channel and registers a
    future; one worker collects rows from the channel and flushes them in
    batches, then answers the futures registered so far.

    The goroutines share the generator, the channel, the list of futures and
    the log, and they interleave: the WAL is a transition system whose steps
    are the atomic actions of one goroutine.  Sending, receiving, taking a
    number and each critical section of the mutex are one action; [flush] is
    three: the write, the collection of the futures and the answers. *)

From S2P Require Import Prelude Utils Query WalRecord FileSystem Index Segment SegmentManager Logs.
From S2P Require Import Concurrency Retry.

(** ** Settings *)

Module Settings.

(** [config.WAL]. *)
Record config := mkConfig {
  Enable : bool;
  FlushInterval : Z;
  FlushBatchSize : Z;
  MaxSegmentSize : Z;
  Directory : gostring
}.

Definition defaultFlushInterval : Z := 10000000.
Definition defaultFlushBatchSize : Z := 100.
Definition defaultMaxSegmentSize : Z := 1000000.
Definition defaultDirectory : gostring := str "/data/laguna/wal".

(** The fields [NewWAL] fills in. *)
Definition apply_defaults (c : config) : config :=
  mkConfig (Enable c)
    (if (FlushInterval c =? 0)%Z then defaultFlushInterval else FlushInterval c)
    (if (FlushBatchSize c =? 0)%Z then defaultFlushBatchSize else FlushBatchSize c)
    (if (MaxSegmentSize c =? 0)%Z then defaultMaxSegmentSize else MaxSegmentSize c)
    (if bool_decide (Directory c = []) then defaultDirectory else Directory c).

End Settings.

(** ** The writer

    What the WAL relies on: a log that holds the rows [rs] and has room for
    [n] more files takes well-formed rows at its end, without an error. *)

Class LogTarget (LG : Type) (writer : list Row.t -> Go LG (option error)) := {
  tg_holds : LG -> list Row.t -> nat -> Prop;
  tg_write lg rs n rows : tg_holds lg rs n -> Forall Row.wf rows ->
    (ManagerFacts.volume (rs ++ rows) < 2 ^ 63)%Z -> length rows <= n ->
    exists lg', writer rows lg = (Ret None, lg') /\ tg_holds lg' (rs ++ rows) (n - length rows)
}.

(** The segment manager as the target of a [LogWriter], and the writer the
    database gives the WAL. *)
Definition manager_target {I : Type} `{!IndexManager I} (rows : list Row.t)
  : Go (Manager.st I) (option error) :=
  let! r := Manager.Write rows in
  go_ret (match r with Ok _ => None | Err e => Some e end).

Definition manager_writer {I : Type} `{!IndexManager I} (rows : list Row.t)
  : Go (Manager.st I) (option error) :=
  LogWriter.Write (LogWriter.NewLogWriter (Some manager_target)) rows.

#[export] Program Instance manager_log_target {I : Type} `{!IndexManager I} `{!IndexLaws I}
    (d : FileSystem.path) (B : nat) : LogTarget (Manager.st I) manager_writer := {|
  tg_holds := fun s rs n => exists L, ManagerFacts.log_on d B L s /\ ManagerFacts.idx_on L s /\
    rows_of L = rs /\ now_calls (Manager.world s) + n <= B
|}.
Next Obligation.
  intros I ? ? d B s rs n rows (L & Hl & Hi & <- & HB) Hwf Hv Hn.
  unfold manager_writer, LogWriter.Write, LogWriter.write. cbn [LogWriter.target LogWriter.NewLogWriter].
  case_bool_decide as Hz.
  - apply nil_length_inv in Hz as ->. exists s. split; [done|]. exists L.
    rewrite app_nil_r. split; [done|]. split; [done|]. split; [done|]. simpl. lia.
  - destruct (ManagerFacts.Write_on d B L rows s Hl Hi Hwf) as (s' & E & Hl' & Hi' & _ & Hn').
    { pose proof (ManagerFacts.cur_size_le d B _ _ Hl). rewrite ManagerFacts.volume_app in Hv.
      unfold ManagerFacts.volume in *. lens. }
    { lia. }
    exists s'. unfold manager_target. rewrite (go_bind_ret _ _ _ _ _ E). split; [done|].
    exists (ManagerFacts.written L rows s). split; [done|]. split; [done|].
    split; [by eapply ManagerFacts.rows_of_written|]. lia.
Qed.

Module WAL.
Section wal.
Context {LG : Type}.

(** The writer the log was given, and the environment of its retries. *)
Context (writer : list Row.t -> Go LG (option error)) (env : Env).

(** Where a call of [Write] has got to. *)
Inductive client :=
| CStart (ctx : Context.t) (q : Query)
| CSend (r : Row.t)
| CRegister (r : Row.t)
| CReturned (err : option error).

(** Where the worker has got to; [quit] tells that it returns after the
    flush. *)
Inductive worker :=
| Loop
| Draining
| Flushing (quit : bool)
| Collecting (err : option error) (quit : bool)
| Answering (resp : list nat) (err : option error) (quit : bool)
| Exited.

Record t := mk {
  lsnGen : Generator.t;
  queryCh : Chan.t Row.t;
  queryBuf : list Row.t;
  futureResp : list nat;
  answers : gmap nat (option error);
  clients : gmap nat client;
  wk : worker;
  flushBatchSize : Z;
  disk : LG
}.

(** A future is named by the client whose call made it. *)

(** [NewWAL] with the calls that will be made on it; the size of the channel
    panics when negative. *)
Definition NewWAL (c : Settings.config) (lg : LG) (calls : gmap nat client) : outcome t :=
  let c := Settings.apply_defaults c in
  if (Settings.FlushBatchSize c <? 0)%Z then Panics
  else Ret (mk Generator.NewIDGenerator (Chan.make (Z.to_nat (Settings.FlushBatchSize c))) [] [] ∅
              calls Loop (Settings.FlushBatchSize c) lg).

(** The write of [flush]: [retry.WithRetry(context.Background(), 2,
    100*time.Millisecond, ...)]. *)
Definition flush_write (rows : list Row.t) : Go LG (option error) :=
  fun lg =>
    let '(o, (lg', _)) := WithRetry env 2 100000000 (Some (writer rows)) (lg, []) in (o, lg').

Definition set_client (c : nat) (pc : client) (w : t) : t :=
  mk (lsnGen w) (queryCh w) (queryBuf w) (futureResp w) (answers w) (<[c := pc]> (clients w))
    (wk w) (flushBatchSize w) (disk w).

Definition set_wk (pc : worker) (w : t) : t :=
  mk (lsnGen w) (queryCh w) (queryBuf w) (futureResp w) (answers w) (clients w) pc
    (flushBatchSize w) (disk w).

(** The worker takes a row from the channel. *)
Definition take_row (r : Row.t) (ch : Chan.t Row.t) (pc : worker) (w : t) : t :=
  mk (lsnGen w) ch (queryBuf w ++ [r]) (futureResp w) (answers w) (clients w) pc
    (flushBatchSize w) (disk w).

(** What a step does that others can see: a row enters the channel, a flush
    fails. *)
Inductive label := Sent (r : Row.t) | Failed (e : error) | Quiet.

Inductive step : t -> label -> t -> Prop :=
(** [Write]: the check of the context, then the sequence number. *)
| step_canceled c ctx q e w :
    clients w !! c = Some (CStart ctx q) -> Context.ctx_Err ctx = Some e ->
    step w Quiet (set_client c (CReturned (Some e)) w)
| step_number c ctx q id g w :
    clients w !! c = Some (CStart ctx q) -> Context.ctx_Err ctx = None ->
    Generator.NextID (lsnGen w) = (Ret id, g) ->
    step w Quiet (mk g (queryCh w) (queryBuf w) (futureResp w) (answers w)
              (<[c := CSend (Row.NewRow id (MethodID q) (GetArgs q))]> (clients w))
              (wk w) (flushBatchSize w) (disk w))
(** [w.queryCh <- r]. *)
| step_send c r ch w :
    clients w !! c = Some (CSend r) -> Chan.send r (queryCh w) = (Ret tt, ch) ->
    step w (Sent r) (mk (lsnGen w) ch (queryBuf w) (futureResp w) (answers w)
              (<[c := CRegister r]> (clients w)) (wk w) (flushBatchSize w) (disk w))
(** [w.futureResp = append(w.futureResp, fr)], and the return. *)
| step_register c r w :
    clients w !! c = Some (CRegister r) ->
    step w Quiet (mk (lsnGen w) (queryCh w) (queryBuf w) (futureResp w ++ [c]) (answers w)
              (<[c := CReturned None]> (clients w)) (wk w) (flushBatchSize w) (disk w))
(** The worker's [select]. *)
| step_recv r ch w :
    wk w = Loop -> Chan.recv (queryCh w) = (Ret (Some r), ch) ->
    step w Quiet (take_row r ch
      (if (flushBatchSize w <=? len (queryBuf w ++ [r]))%Z then Flushing false else Loop) w)
| step_tick w :
    wk w = Loop -> queryBuf w <> [] -> step w Quiet (set_wk (Flushing false) w)
| step_done w : wk w = Loop -> step w Quiet (set_wk Draining w)
| step_drain r ch w :
    wk w = Draining -> Chan.recv (queryCh w) = (Ret (Some r), ch) ->
    step w Quiet (take_row r ch Draining w)
| step_drained w :
    wk w = Draining -> Chan.buf (queryCh w) = [] -> step w Quiet (set_wk (Flushing true) w)
(** [flush]. *)
| step_write err lg quit w :
    wk w = Flushing quit -> flush_write (queryBuf w) (disk w) = (Ret err, lg) ->
    step w (match err with None => Quiet | Some e => Failed e end)
      (mk (lsnGen w) (queryCh w) (match err with None => [] | Some _ => queryBuf w end)
              (futureResp w) (answers w) (clients w) (Collecting err quit) (flushBatchSize w) lg)
| step_collect err quit w :
    wk w = Collecting err quit ->
    step w Quiet (mk (lsnGen w) (queryCh w) (queryBuf w) [] (answers w) (clients w)
              (Answering (futureResp w) err quit) (flushBatchSize w) (disk w))
| step_answer c resp err quit w :
    wk w = Answering (c :: resp) err quit ->
    step w Quiet (mk (lsnGen w) (queryCh w) (queryBuf w) (futureResp w) (<[c := err]> (answers w))
              (clients w) (Answering resp err quit) (flushBatchSize w) (disk w))
| step_answered err quit w :
    wk w = Answering [] err quit -> step w Quiet (set_wk (if quit then Exited else Loop) w).

(** A run and what was seen of it. *)
Inductive reach (w0 : t) : list label -> t -> Prop :=
| reach_start : reach w0 [] w0
| reach_step ls w l w' : reach w0 ls w -> step w l w' -> reach w0 (ls ++ [l]) w'.

End wal.
Arguments t : clear implicits.
End WAL.

(** ** [RestoreStream] *)

(** The goroutine of [RestoreStream]: for the batches its source delivers, the
    queries it puts on its own stream and the generator it installs. *)
Fixpoint restore_batches (batches : list (list Row.t)) (lastLSNID : N)
  : list (list Query) * N :=
  match batches with
  | [] => ([], lastLSNID)
  | rows :: batches' =>
      let lastLSNID := foldl (fun last rec =>
        if (last <? Row.GetLsnID rec)%N then Row.GetLsnID rec else last) lastLSNID rows in
      let q := (fun rec => NewQuery (Row.GetMethodID rec) (Row.GetArgs rec)) <$> rows in
      let '(qs, last) := restore_batches batches' lastLSNID in (q :: qs, last)
  end.

Definition RestoreStream (batches : list (list Row.t)) : list (list Query) * Generator.t :=
  let '(qs, last) := restore_batches batches 0 in
  (qs, Generator.NewIDGeneratorWithStart last).

(** ** Invariants *)

Module WalFacts.
Import WAL.

Section facts.
Context {LG : Type} (writer : list Row.t -> Go LG (option error)) (env : Env).

Definition sent (ls : list label) : list Row.t :=
  omap (fun l => match l with Sent r => Some r | _ => None end) ls.

Definition no_failure (ls : list label) : Prop :=
  Forall (fun l => match l with Failed _ => False | _ => True end) ls.

Lemma sent_snoc ls l :
  sent (ls ++ [l]) = sent ls ++ match l with Sent r => [r] | _ => [] end.
Proof. unfold sent. rewrite omap_app. by destruct l. Qed.

Lemma no_failure_snoc ls l :
  no_failure (ls ++ [l]) -> no_failure ls /\ (forall e, l <> Failed e).
Proof. intros [H1 H2]%Forall_app. split; [done|]. apply Forall_inv in H2. by intros e ->. Qed.

Lemma send_Ret {A} (v : A) ch ch' :
  Chan.send v ch = (Ret tt, ch') -> Chan.buf ch' = Chan.buf ch ++ [v].
Proof. unfold Chan.send. destruct (Chan.closed ch); [done|]. case_bool_decide; [|done]. by intros [= <-]. Qed.

Lemma recv_Some {A} (v : A) ch ch' :
  Chan.recv ch = (Ret (Some v), ch') -> Chan.buf ch = v :: Chan.buf ch'.
Proof. unfold Chan.recv. destruct (Chan.buf ch) as [|x b]; [by destruct (Chan.closed ch)|]. by intros [= -> <-]. Qed.

(** *** The log *)

Context `{!LogTarget LG writer}.

Lemma flush_write_ok rows lg rs n :
  tg_holds lg rs n -> Forall Row.wf rows -> (ManagerFacts.volume (rs ++ rows) < 2 ^ 63)%Z ->
  length rows <= n ->
  exists lg', flush_write writer env rows lg = (Ret None, lg') /\ tg_holds lg' (rs ++ rows) (n - length rows).
Proof.
  intros H Hwf Hv Hn. destruct (tg_write lg rs n rows H Hwf Hv Hn) as (lg' & E & H').
  exists lg'. split; [|done]. unfold flush_write, WithRetry.
  change (Z.to_nat (default_retry 2)) with 2. cbn [retry_loop].
  unfold go_bind at 1. unfold call, go_zoom. cbn [fst snd]. by rewrite E.
Qed.

(** The worker is past the write of its last flush. *)
Definition flushed_out (pc : worker) : Prop :=
  match pc with
  | Collecting _ true | Answering _ _ true | Exited => True
  | _ => False
  end.

(** What was sent is in the log, after what the log held at first, [D0], then
    in the buffer and in the channel, in this order. *)
Record log_inv (D0 : list Row.t) (n0 : nat) (ls : list label) (w : t LG) : Prop := {
  li_fifo : exists D n, tg_holds (disk w) (D0 ++ D) n /\ length D + n = n0 /\
    D ++ queryBuf w ++ Chan.buf (queryCh w) = sent ls;
  li_ok : no_failure ls;
  li_out : flushed_out (wk w) -> queryBuf w = []
}.

Lemma log_inv_step D0 n0 ls w l w' :
  log_inv D0 n0 ls w -> step writer env w l w' ->
  Forall Row.wf (D0 ++ sent (ls ++ [l])) ->
  (ManagerFacts.volume (D0 ++ sent (ls ++ [l])) < 2 ^ 63)%Z -> length (sent (ls ++ [l])) <= n0 ->
  log_inv D0 n0 (ls ++ [l]) w'.
Proof.
  intros [(D & n & Hh & Hn & Hf) Hok Ho] Hs Hwf Hv Hlen. rewrite sent_snoc in *.
  assert (no_failure (ls ++ [Quiet])) as Hq by (apply Forall_app; split; [done|by constructor]).
  destruct Hs; cbn in *; rewrite ?app_nil_r in *;
    repeat match goal with H : wk _ = _ |- _ => rewrite H in * end;
    try (constructor; [exists D, n; rewrite sent_snoc, app_nil_r; done|done|]; cbn; try done).
  - constructor; [|apply Forall_app; split; [done|by constructor]|done].
    exists D, n. cbn. match goal with H : Chan.send _ _ = _ |- _ => apply send_Ret in H; rewrite H end.
    rewrite sent_snoc. split; [done|]. split; [done|]. by rewrite !(assoc_L (++)) in *; rewrite Hf.
  - constructor; [|done|by destruct (_ <=? _)%Z]. exists D, n. cbn.
    match goal with H : Chan.recv _ = _ |- _ => apply recv_Some in H; rewrite H in Hf end.
    rewrite sent_snoc, app_nil_r. split; [done|]. split; [done|]. by rewrite <-!(assoc_L (++)).
  - constructor; [|done|done]. exists D, n. cbn.
    match goal with H : Chan.recv _ = _ |- _ => apply recv_Some in H; rewrite H in Hf end.
    rewrite sent_snoc, app_nil_r. split; [done|]. split; [done|]. by rewrite <-!(assoc_L (++)).
  - assert (match match err with Some e => Failed e | None => Quiet end with
      | Sent r => [r] | _ => [] end = []) as E0 by (by destruct err).
    rewrite E0, app_nil_r in *. clear E0. rewrite <-Hf, !(assoc_L (++)) in Hwf, Hv. apply Forall_app in Hwf as [Hwf _].
    apply Forall_app in Hwf as [_ Hwf].
    pose proof (f_equal length Hf) as Hl. rewrite !length_app in Hl.
    destruct (flush_write_ok (queryBuf w) (disk w) (D0 ++ D) n Hh Hwf) as (lg' & E & Hh').
    { rewrite ManagerFacts.volume_app in Hv. unfold ManagerFacts.volume in *. lens. }
    { lia. }
    match goal with H : flush_write _ _ _ _ = (Ret err, _) |- _ => rewrite H in E end. injection E as -> ->.
    constructor; [|done|done]. exists (D ++ queryBuf w), (n - length (queryBuf w)). cbn.
    rewrite sent_snoc, app_nil_r, length_app, (assoc_L (++)).
    split; [done|]. split; [lia|by rewrite <-(assoc_L (++))].
  - by destruct quit.
Qed.

Lemma log_inv_reach D0 n0 w0 ls w :
  queryBuf w0 = [] -> Chan.buf (queryCh w0) = [] -> wk w0 = Loop -> tg_holds (disk w0) D0 n0 ->
  reach writer env w0 ls w -> Forall Row.wf (D0 ++ sent ls) ->
  (ManagerFacts.volume (D0 ++ sent ls) < 2 ^ 63)%Z -> length (sent ls) <= n0 ->
  log_inv D0 n0 ls w.
Proof.
  intros Hb0 Hc0 Hw0 Hh Hr. induction Hr as [|ls w l w' _ IH Hs]; intros Hwf Hv Hn.
  { constructor; [|by constructor|by rewrite Hw0].
    exists [], n0. by rewrite Hb0, Hc0, app_nil_r. }
  eapply log_inv_step; [|done..]. rewrite sent_snoc in *. apply IH.
  - rewrite (assoc_L (++)) in Hwf. by apply Forall_app in Hwf as [? _].
  - rewrite (assoc_L (++)), ManagerFacts.volume_app in Hv. unfold ManagerFacts.volume in *. lens.
  - rewrite length_app in Hn. lia.
Qed.

(** *** Sequence numbers *)

Definition is_start (pc : client) : bool := match pc with CStart _ _ => true | _ => false end.

(** The calls that have not taken a number yet. *)
Definition to_start (cs : gmap nat client) : nat := size (filter (fun p => is_start p.2 = true) cs).

Lemma to_start_insert (cs : gmap nat client) c pc0 pc :
  cs !! c = Some pc0 -> is_start pc = false ->
  to_start cs = to_start (<[c := pc]> cs) + (if is_start pc0 then 1 else 0).
Proof.
  intros Hc Hpc. unfold to_start.
  rewrite (map_filter_insert_False _ cs c pc) by (cbn; congruence). rewrite map_filter_delete.
  destruct (is_start pc0) eqn:E0.
  - assert (filter (fun p => is_start p.2 = true) cs !! c = Some pc0) as Hf
      by (by apply map_lookup_filter_Some_2).
    rewrite map_size_delete_Some by eauto.
    assert (size (filter (fun p => is_start p.2 = true) cs) <> 0); [|lia].
    intros Hz%map_size_empty_iff. by rewrite Hz, lookup_empty in Hf.
  - rewrite delete_id; [lia|]. apply map_lookup_filter_None. right. intros x Hx. cbn. congruence.
Qed.

(** The numbers handed out since the generator stood at [g0] are distinct, and
    none is ahead of the generator. *)
Record num_inv (g0 : N) (total : nat) (ls : list label) (w : t LG) : Prop := {
  ni_gen : (g0 <= Generator.id (lsnGen w))%N;
  ni_left : (Generator.id (lsnGen w) + N.of_nat (to_start (clients w)) <= g0 + N.of_nat total)%N;
  ni_sent : forall r, r ∈ sent ls -> (g0 < Row.lsnID r <= Generator.id (lsnGen w))%N;
  ni_nodup : NoDup (Row.lsnID <$> sent ls);
  ni_inflight : forall c r, clients w !! c = Some (CSend r) ->
    (g0 < Row.lsnID r <= Generator.id (lsnGen w))%N /\ (Row.lsnID r ∉ Row.lsnID <$> sent ls);
  ni_apart : forall c c' r r', clients w !! c = Some (CSend r) -> clients w !! c' = Some (CSend r') ->
    Row.lsnID r = Row.lsnID r' -> c = c'
}.

(** A step of the worker, and one that ends a call, hand out no number. *)
Lemma num_inv_same g0 total ls l w w' :
  num_inv g0 total ls w -> lsnGen w' = lsnGen w -> sent (ls ++ [l]) = sent ls ->
  to_start (clients w') <= to_start (clients w) ->
  (forall c r, clients w' !! c = Some (CSend r) -> clients w !! c = Some (CSend r)) ->
  num_inv g0 total (ls ++ [l]) w'.
Proof.
  intros [] Hg Hs Ht Hc. constructor; rewrite ?Hg, ?Hs; try done; [lia|..].
  - intros c r H. apply (ni_inflight0 c r), Hc, H.
  - intros c c' r r' H H'. by eauto.
Qed.

(** A call takes a number. *)
Lemma num_inv_number g0 total ls w c ctx q id g :
  (g0 + N.of_nat total < 2 ^ 64)%N -> num_inv g0 total ls w ->
  clients w !! c = Some (CStart ctx q) -> Generator.NextID (lsnGen w) = (Ret id, g) ->
  num_inv g0 total (ls ++ [Quiet])
    (mk g (queryCh w) (queryBuf w) (futureResp w) (answers w)
       (<[c := CSend (Row.NewRow id (MethodID q) (GetArgs q))]> (clients w))
       (wk w) (flushBatchSize w) (disk w)).
Proof.
  intros Hmax [Hg Hl Hsn Hnd Hin Hap] Hc Hid. set (row := Row.NewRow id (MethodID q) (GetArgs q)).
  pose proof (to_start_insert _ c _ (CSend row) Hc eq_refl) as Ht. cbn [is_start] in Ht.
  rewrite Generator.NextID_no_wrap in Hid by lia. injection Hid as <- <-.
  assert (forall c' r, <[c:=CSend row]> (clients w) !! c' = Some (CSend r) ->
    c' = c /\ r = row \/ c' <> c /\ clients w !! c' = Some (CSend r)) as Hcase.
  { intros c' r. destruct (decide (c = c')) as [<-|Hne].
    - rewrite lookup_insert_eq. intros [= <-]. auto.
    - rewrite lookup_insert_ne by done. auto. }
  assert (Row.lsnID row = (Generator.id (lsnGen w) + 1)%N) as Hrow by done.
  constructor; rewrite ?sent_snoc, ?app_nil_r; cbn [lsnGen clients Generator.id]; [lia|lia| |done|..].
  - intros r Hr. apply Hsn in Hr. lia.
  - intros c' r [[-> ->]|[_ Hr]]%Hcase.
    + split; [rewrite Hrow; lia|]. intros (r & Hr & Hr')%list_elem_of_fmap.
      apply Hsn in Hr'. lia.
    + apply Hin in Hr as [Hr ?]. split; [lia|done].
  - intros c1 c2 r1 r2 [[-> ->]|[Hn1 Hc1]]%Hcase [[-> ->]|[Hn2 Hc2]]%Hcase Heq; [done|..].
    + apply Hin in Hc2 as [? _]. lia.
    + apply Hin in Hc1 as [? _]. lia.
    + by eapply Hap.
Qed.

(** A call sends the row it has numbered. *)
Lemma num_inv_send g0 total ls w c r ch :
  num_inv g0 total ls w -> clients w !! c = Some (CSend r) ->
  num_inv g0 total (ls ++ [Sent r])
    (mk (lsnGen w) ch (queryBuf w) (futureResp w) (answers w) (<[c := CRegister r]> (clients w))
       (wk w) (flushBatchSize w) (disk w)).
Proof.
  intros [Hg Hl Hsn Hnd Hin Hap] Hc.
  pose proof (to_start_insert _ c _ (CRegister r) Hc eq_refl) as Ht. cbn [is_start] in Ht.
  destruct (Hin c r Hc) as [Hr Hni].
  assert (forall c' r', <[c:=CRegister r]> (clients w) !! c' = Some (CSend r') ->
    c' <> c /\ clients w !! c' = Some (CSend r')) as Hcase.
  { intros c' r'. destruct (decide (c = c')) as [<-|Hne]; [by rewrite lookup_insert_eq|].
    rewrite lookup_insert_ne by done. auto. }
  constructor; rewrite ?sent_snoc; cbn [lsnGen clients]; [done|lia|..].
  - intros r' [Hr'|Hr'%list_elem_of_singleton]%elem_of_app; [by apply Hsn|by subst].
  - rewrite fmap_app. apply NoDup_app. split; [done|]. split; [|apply NoDup_singleton].
    intros x Hx ->%list_elem_of_singleton. done.
  - intros c' r' [Hne Hr']%Hcase. destruct (Hin c' r' Hr') as [Hb Hni'].
    split; [done|]. rewrite fmap_app, elem_of_app.
    intros [?|Heq%list_elem_of_singleton]; [done|]. destruct Hne. by eapply Hap.
  - intros c1 c2 r1 r2 [_ Hc1]%Hcase [_ Hc2]%Hcase. by eapply Hap.
Qed.

(** A call returns. *)
Lemma num_inv_return g0 total ls w w' c pc err :
  num_inv g0 total ls w -> clients w !! c = Some pc -> lsnGen w' = lsnGen w ->
  clients w' = <[c := CReturned err]> (clients w) -> num_inv g0 total (ls ++ [Quiet]) w'.
Proof.
  intros H Hc Hg Hc'. apply (num_inv_same _ _ _ _ w); rewrite ?sent_snoc, ?app_nil_r, ?Hc'; try done.
  - rewrite (to_start_insert _ c _ (CReturned err) Hc) by done. lia.
  - intros c' r. destruct (decide (c = c')) as [<-|Hne]; [by rewrite lookup_insert_eq|].
    by rewrite lookup_insert_ne.
Qed.

Lemma num_inv_step g0 total ls w l w' :
  (g0 + N.of_nat total < 2 ^ 64)%N ->
  num_inv g0 total ls w -> step writer env w l w' -> num_inv g0 total (ls ++ [l]) w'.
Proof.
  intros Hmax H Hs. destruct Hs;
    try (apply (num_inv_same _ _ _ _ w); cbn; rewrite ?sent_snoc, ?app_nil_r; done).
  - by eapply (num_inv_return _ _ _ w).
  - by eapply num_inv_number.
  - by apply num_inv_send.
  - by eapply (num_inv_return _ _ _ w).
  - apply (num_inv_same _ _ _ _ w); cbn; rewrite ?sent_snoc; try done. by destruct err; rewrite app_nil_r.
Qed.

(** *** Futures *)

Definition answering (pc : worker) : list nat :=
  match pc with Answering resp _ _ => resp | _ => [] end.

(** A registered future waits in exactly one place, or has been answered. *)
Record fut_inv (w : t LG) : Prop := {
  fi_nodup : NoDup (futureResp w ++ answering (wk w));
  fi_waiting : forall c, c ∈ futureResp w ++ answering (wk w) ->
    answers w !! c = None /\ clients w !! c = Some (CReturned None);
  fi_answered : forall c e, answers w !! c = Some e -> clients w !! c = Some (CReturned None);
  fi_all : forall c, clients w !! c = Some (CReturned None) ->
    c ∈ futureResp w ++ answering (wk w) \/ is_Some (answers w !! c)
}.

(** A call that has not registered moves on. *)
Lemma fut_inv_client w c pc0 pc :
  fut_inv w -> clients w !! c = Some pc0 -> pc0 <> CReturned None -> pc <> CReturned None ->
  fut_inv (set_client c pc w).
Proof.
  intros [Hnd Hw Ha Hall] Hc Hpc0 Hpc. constructor; cbn; [done|..].
  - intros c' Hc'. destruct (Hw c' Hc') as [H1 H2]. split; [done|].
    rewrite lookup_insert_ne; [done|]. intros ->. congruence.
  - intros c' e He. apply Ha in He. rewrite lookup_insert_ne; [done|]. intros ->. congruence.
  - intros c'. destruct (decide (c = c')) as [<-|Hne]; [rewrite lookup_insert_eq; congruence|].
    rewrite lookup_insert_ne by done. apply Hall.
Qed.

(** A call registers its future and returns. *)
Lemma fut_inv_register w c r :
  fut_inv w -> clients w !! c = Some (CRegister r) ->
  fut_inv (mk (lsnGen w) (queryCh w) (queryBuf w) (futureResp w ++ [c]) (answers w)
    (<[c := CReturned None]> (clients w)) (wk w) (flushBatchSize w) (disk w)).
Proof.
  intros [Hnd Hw Ha Hall] Hc. assert (c ∉ futureResp w ++ answering (wk w)) as Hni.
  { intros Hin. apply Hw in Hin as [_ Hin]. congruence. }
  constructor; cbn.
  - rewrite <-(assoc_L (++)). rewrite (Permutation_app_comm [c]), (assoc_L (++)).
    apply NoDup_app. split; [done|]. split; [|apply NoDup_singleton].
    intros x Hx ->%list_elem_of_singleton. done.
  - intros x. rewrite <-(assoc_L (++)), elem_of_app, elem_of_app, list_elem_of_singleton.
    destruct (decide (x = c)) as [->|Hne].
    + intros _. rewrite lookup_insert_eq. split; [|done].
      destruct (answers w !! c) as [e|] eqn:E; [|done]. apply Ha in E. congruence.
    + rewrite lookup_insert_ne by done. intros Hx. apply Hw. rewrite elem_of_app. tauto.
  - intros x e Hx. destruct (decide (x = c)) as [->|Hne]; [apply lookup_insert_eq|].
    rewrite lookup_insert_ne by done. by eapply Ha.
  - intros x. rewrite <-(assoc_L (++)), !elem_of_app, list_elem_of_singleton.
    destruct (decide (x = c)) as [->|Hne]; [auto|]. rewrite lookup_insert_ne by done.
    intros Hx. destruct (Hall x Hx) as [Hin|?]; [|auto]. rewrite elem_of_app in Hin. tauto.
Qed.

(** The worker answers one future. *)
Lemma fut_inv_answer w c resp err quit :
  fut_inv w -> wk w = Answering (c :: resp) err quit ->
  fut_inv (mk (lsnGen w) (queryCh w) (queryBuf w) (futureResp w) (<[c := err]> (answers w))
    (clients w) (Answering resp err quit) (flushBatchSize w) (disk w)).
Proof.
  intros [Hnd Hw Ha Hall] Hk. rewrite Hk in *. constructor; cbn in *.
  - apply NoDup_app in Hnd as (H1 & H2 & H3). apply NoDup_cons in H3 as [H3 H4].
    apply NoDup_app. split; [done|]. split; [|done]. intros x Hx Hx'. apply (H2 x Hx). by right.
  - intros x Hx. assert (x <> c) as Hne.
    { intros ->. rewrite (Permutation_app_comm _ (c :: resp)) in Hnd. cbn in Hnd.
      apply NoDup_cons in Hnd as [Hnd _]. destruct Hnd. rewrite elem_of_app in *. tauto. }
    rewrite lookup_insert_ne by done. apply Hw. rewrite elem_of_app, elem_of_cons in *. tauto.
  - intros x e. destruct (decide (x = c)) as [->|Hne].
    + intros _. apply Hw. rewrite elem_of_app, elem_of_cons. auto.
    + rewrite lookup_insert_ne by done. apply Ha.
  - intros x Hx. destruct (decide (x = c)) as [->|Hne]; [right; rewrite lookup_insert_eq; eauto|].
    rewrite lookup_insert_ne by done. destruct (Hall x Hx) as [Hin|?]; [|auto].
    rewrite elem_of_app, elem_of_cons in *. tauto.
Qed.

Lemma fut_inv_step w l w' : fut_inv w -> step writer env w l w' -> fut_inv w'.
Proof.
  intros H Hs. destruct Hs.
  - by eapply fut_inv_client.
  - by destruct (fut_inv_client w c _ (CSend (Row.NewRow id (MethodID q) (GetArgs q))) H ltac:(eassumption)).
  - by destruct (fut_inv_client w c _ (CRegister r) H ltac:(eassumption)).
  - by eapply fut_inv_register.
  - destruct H as [Hnd Hw Ha Hall]. destruct (_ <=? _)%Z; constructor; cbn; by rewrite ?H0 in *.
  - by destruct H; constructor; cbn; rewrite H0 in *.
  - by destruct H; constructor; cbn; rewrite H0 in *.
  - by destruct H; constructor; cbn; rewrite H0 in *.
  - by destruct H; constructor; cbn; rewrite H0 in *.
  - by destruct H; constructor; cbn; rewrite H0 in *.
  - destruct H as [Hnd Hw Ha Hall]. rewrite H0 in *. cbn in *. rewrite app_nil_r in *. by constructor.
  - by apply fut_inv_answer.
  - destruct H; rewrite H0 in *; destruct quit; by constructor.
Qed.

End facts.

(** *** A row that cannot be marshalled *)

Section poisoned.
Context {I : Type} `{!IndexManager I} (env : Env).

(** The record format has no room for the row. *)
Definition oversized (r : Row.t) : Prop := ~ Forall Row.short_arg (Row.args r).

Lemma createBatch_oversized rows r :
  r ∈ rows -> oversized r -> exists e, Manager.createBatch rows = Err e.
Proof.
  intros Hr Ho. destruct (Manager.createBatch rows) as [batch|e] eqn:E; [|eauto].
  destruct Ho. revert batch E. induction rows as [|r0 rows IH]; [by apply not_elem_of_nil in Hr|].
  cbn [Manager.createBatch]. rewrite Row.Marshal_spec. case_bool_decide as Hs; [|done].
  intros batch. apply elem_of_cons in Hr as [->|Hr]; [done|].
  destruct (Manager.createBatch rows) as [b|e]; [|done]. intros _. by eapply IH.
Qed.

Lemma flush_write_oversized rows r (lg lg' : Manager.st I) err :
  r ∈ rows -> oversized r -> flush_write manager_writer env rows lg = (Ret err, lg') ->
  err <> None /\ lg' = lg.
Proof.
  intros Hr Ho. destruct (createBatch_oversized rows r Hr Ho) as [e He].
  assert (forall s : Manager.st I, manager_writer rows s = (Ret (Some e), s)) as Hw.
  { intros s. unfold manager_writer, LogWriter.Write, LogWriter.write, manager_target.
    cbn [LogWriter.target LogWriter.NewLogWriter].
    rewrite bool_decide_false by (intros E%nil_length_inv; subst; by apply not_elem_of_nil in Hr).
    unfold go_bind, Manager.Write. by rewrite He. }
  unfold flush_write. destruct (WithRetry _ _ _ _ _) as [o [lg1 ws]] eqn:E. intros [= -> ->].
  unfold WithRetry in E. change (Z.to_nat (default_retry 2)) with 2 in E. split.
  - intros ->. apply retry_loop_None in E as (s1 & _ & Hf); [|done]. by rewrite Hw in Hf.
  - eapply (retry_loop_inv env (fun s => s = lg) (fun _ => True)) in E as [? _]; [done|..|done]; try done.
    intros s o s' -> Hs. rewrite Hw in Hs. by injection Hs as <- <-.
Qed.

(** No flush is under way that has succeeded. *)
Definition no_success (pc : worker) : Prop :=
  match pc with Collecting err _ | Answering _ err _ => err <> None | _ => True end.

Record poison_inv (w0 w : t (Manager.st I)) : Prop := {
  pi_disk : disk w = disk w0;
  pi_buf : queryBuf w0 `prefix_of` queryBuf w;
  pi_wk : no_success (wk w);
  pi_ans : forall c, answers w !! c = Some None -> answers w0 !! c = Some None
}.

Lemma poison_inv_step w0 w l w' r :
  r ∈ queryBuf w0 -> oversized r -> poison_inv w0 w -> step manager_writer env w l w' -> poison_inv w0 w'.
Proof.
  intros Hr Ho [Hd Hb Hw Ha] Hs. destruct Hs; try (by constructor); cbn in *;
    repeat match goal with H : wk _ = _ |- _ => rewrite H in * end.
  - destruct (_ <=? _)%Z; constructor; cbn; try done; by apply prefix_app_r.
  - constructor; cbn; try done. by apply prefix_app_r.
  - apply (flush_write_oversized _ r) in H0 as [He ->]; [|by eapply elem_of_prefix|done].
    destruct err; [|done]. by constructor.
  - by constructor.
  - constructor; cbn; try done. intros c'. destruct (decide (c = c')) as [<-|Hne].
    + rewrite lookup_insert_eq. by intros [= ->].
    + rewrite lookup_insert_ne by done. apply Ha.
  - by destruct quit; constructor.
Qed.

End poisoned.
End WalFacts.

(** ** Restoring *)

Definition row_query (rec : Row.t) : Query := NewQuery (Row.methodID rec) (Row.args rec).

Lemma last_lsn_spec rows last :
  let last' := foldl (fun last rec =>
    if (last <? Row.GetLsnID rec)%N then Row.GetLsnID rec else last) last rows in
  (last <= last')%N /\ Forall (fun r => (Row.lsnID r <= last')%N) rows /\
  (last' = last \/ last' ∈ Row.lsnID <$> rows).
Proof.
  revert last. induction rows as [|r rows IH]; intros last; cbn [foldl].
  { split; [lia|]. split; [constructor|by left]. }
  assert (Row.GetLsnID r = Row.lsnID r) as Hr by done.
  destruct (N.ltb_spec last (Row.GetLsnID r)) as [Hlt|Hge].
  - destruct (IH (Row.GetLsnID r)) as (H1 & H2 & H3). cbv zeta in *.
    split; [lia|]. split; [constructor; [lia|done]|].
    right. rewrite fmap_cons, elem_of_cons. destruct H3 as [H3|H3]; [left; congruence|by right].
  - destruct (IH last) as (H1 & H2 & H3). cbv zeta in *.
    split; [lia|]. split; [constructor; [lia|done]|].
    destruct H3 as [H3|H3]; [by left|right; rewrite fmap_cons, elem_of_cons; by right].
Qed.

Lemma restore_batches_spec (batches : list (list Row.t)) (last : N) :
  let '(qs, last') := restore_batches batches last in
  qs = map (map row_query) batches /\
  (last <= last')%N /\ Forall (fun r => (Row.lsnID r <= last')%N) (concat batches) /\
  (last' = last \/ last' ∈ Row.lsnID <$> concat batches).
Proof.
  revert last. induction batches as [|rows batches IH]; intros last; cbn [restore_batches concat].
  { split; [done|]. split; [lia|]. split; [constructor|by left]. }
  destruct (last_lsn_spec rows last) as (H1 & H2 & H3). cbv zeta in *.
  set (mid := foldl _ last rows) in *. specialize (IH mid).
  destruct (restore_batches batches mid) as [qs last']. destruct IH as (-> & H4 & H5 & H6).
  split; [done|]. split; [lia|]. split.
  - apply Forall_app. split; [|done]. eapply Forall_impl; [exact H2|]. cbn. lia.
  - rewrite fmap_app, elem_of_app. destruct H6 as [->|H6]; [|by right; right].
    destruct H3 as [H3|H3]; [by left|by right; left].
Qed.

(** ** Properties *)

Section properties.
Import WAL WalFacts.
Context {LG : Type} (writer : list Row.t -> Go LG (option error)) (env : Env).

(** C16: the log is the order of the channel.  In every interleaving of
    clients and worker the rows sent to the WAL are, in the order they were
    sent, in the log after what it held at the start, then in the worker's
    buffer, then in the channel: nothing is lost, duplicated or reordered
    between [Write] and the files, and when the worker has exited its buffer
    has been written.  The conditions are those under which the segment
    manager writes without an error ([LogTarget]): every row sent fits the
    record format (fewer than 65536 arguments, none above 65535 bytes), the
    log stays below 2^63 bytes, the clock has a name for every new file and no
    system call fails.  Then no flush fails; [WAL_poisoned] shows what one
    oversized argument does instead. *)
Theorem WAL_log_is_fifo `{!LogTarget LG writer} (w0 w : t LG) (ls : list label)
    (D0 : list Row.t) (n0 : nat)
    (Hbuf : queryBuf w0 = []) (Hch : Chan.buf (queryCh w0) = []) (Hwk : wk w0 = Loop)
    (Hdisk : tg_holds (disk w0) D0 n0) (Hrun : reach writer env w0 ls w)
    (Hwf : Forall Row.wf (D0 ++ sent ls))
    (Hsize : (ManagerFacts.volume (D0 ++ sent ls) < 2 ^ 63)%Z)
    (Hroom : (length (sent ls) <= n0)%nat) :
  no_failure ls /\
  exists D n, tg_holds (disk w) (D0 ++ D) n /\
    D ++ queryBuf w ++ Chan.buf (queryCh w) = sent ls /\
    (wk w = Exited -> queryBuf w = []).
Proof.
  destruct (log_inv_reach writer env D0 n0 w0 ls w Hbuf Hch Hwk Hdisk Hrun Hwf Hsize Hroom)
    as [(D & n & Hh & _ & Hf) Hok Ho].
  split; [done|]. exists D, n. split; [done|]. split; [done|]. intros Hx. apply Ho. by rewrite Hx.
Qed.

(** C18: sequence numbers are unique.  However the calls of [Write]
    interleave, the rows sent carry distinct numbers above the one the
    generator started from, as long as the 64-bit counter does not wrap. *)
Theorem WAL_numbers_unique (w0 w : t LG) (ls : list label)
    (Hstart : forall c r, clients w0 !! c <> Some (CSend r))
    (Hmax : (Generator.id (lsnGen w0) + N.of_nat (to_start (clients w0)) < 2 ^ 64)%N)
    (Hrun : reach writer env w0 ls w) :
  NoDup (Row.lsnID <$> sent ls) /\
  forall r, r ∈ sent ls -> (Generator.id (lsnGen w0) < Row.lsnID r <= Generator.id (lsnGen w))%N.
Proof.
  enough (num_inv (Generator.id (lsnGen w0)) (to_start (clients w0)) ls w) as [] by done.
  induction Hrun as [|ls w l w' _ IH Hs]; [|by eapply num_inv_step].
  constructor; [lia|lia|by intros r ?%not_elem_of_nil|constructor|..].
  - intros c r Hc. by apply Hstart in Hc.
  - intros c c' r r' Hc. by apply Hstart in Hc.
Qed.

(** C19: every accepted write is answered at most once and never forgotten:
    the future of a call that returned without an error either waits, in one
    place, or has its one answer; no other future is ever answered. *)
Theorem WAL_futures_once (w0 w : t LG) (ls : list label)
    (Hfr : futureResp w0 = []) (Hans : answers w0 = ∅) (Hwk : wk w0 = Loop)
    (Hstart : forall c, clients w0 !! c <> Some (CReturned None))
    (Hrun : reach writer env w0 ls w) :
  NoDup (futureResp w ++ answering (wk w)) /\
  (forall c, clients w !! c = Some (CReturned None) <->
    c ∈ futureResp w ++ answering (wk w) \/ is_Some (answers w !! c)) /\
  (forall c, c ∈ futureResp w ++ answering (wk w) -> answers w !! c = None).
Proof.
  assert (fut_inv w) as [H1 H2 H3 H4].
  { induction Hrun as [|ls w l w' _ IH Hs]; [|by eapply fut_inv_step].
    constructor; rewrite ?Hfr, ?Hans, ?Hwk; cbn.
    - constructor.
    - by intros c ?%not_elem_of_nil.
    - intros c e. by rewrite lookup_empty.
    - intros c Hc. by apply Hstart in Hc. }
  split; [done|]. split; [|by intros c []%H2].
  intros c. split; [apply H4|]. intros [[]%H2|[e He]]; [done|by eapply H3].
Qed.

End properties.

Section poisoned.
Import WAL WalFacts.
Context {I : Type} `{!IndexManager I} (env : Env).

(** C17: one oversized argument ends the log.  [Write] accepts a row whose
    argument is longer than 65535 bytes; once the worker has taken it, every
    flush fails on it, and since a failed flush keeps its buffer the row stays
    there: from then on, in every interleaving, nothing is written to the log
    any more, the rows taken pile up behind it, and no call is ever told that
    its write succeeded. *)
Theorem WAL_poisoned (w0 w : t (Manager.st I)) (ls : list label) (r : Row.t)
    (Hr : r ∈ queryBuf w0) (Hbig : oversized r) (Hwk : wk w0 = Loop)
    (Hrun : reach manager_writer env w0 ls w) :
  disk w = disk w0 /\ queryBuf w0 `prefix_of` queryBuf w /\
  forall c, answers w !! c = Some None -> answers w0 !! c = Some None.
Proof.
  enough (poison_inv w0 w) as [] by done.
  induction Hrun as [|ls w l w' _ IH Hs]; [|by eapply poison_inv_step].
  constructor; [done|done|by rewrite Hwk|done].
Qed.

End poisoned.

(** Restoring continues the numbering.  [RestoreStream] passes on the
    rows of the log as queries, batch by batch and in order, and installs a
    generator whose next number is larger than every number in the log, so
    numbers stay unique across restarts. *)
Theorem RestoreStream_continues (batches : list (list Row.t))
    (Hmax : Forall (fun r => Row.lsnID r + 1 < 2 ^ 64)%N (concat batches)) :
  let '(qs, g) := RestoreStream batches in
  concat qs = row_query <$> concat batches /\
  exists id g', Generator.NextID g = (Ret id, g') /\
    Forall (fun r => (Row.lsnID r < id)%N) (concat batches).
Proof.
  unfold RestoreStream. pose proof (restore_batches_spec batches 0) as H.
  destruct (restore_batches batches 0) as [qs last]. destruct H as (-> & _ & Hall & Hin).
  split; [symmetry; apply concat_map|].
  assert (last + 1 < 2 ^ 64)%N as Hlast.
  { destruct Hin as [->|(r & -> & Hr)%list_elem_of_fmap]; [done|].
    rewrite Forall_forall in Hmax. by apply Hmax. }
  assert (u64 last = last) as Hu by (unfold u64; apply N.mod_small; lia).
  unfold Generator.NewIDGeneratorWithStart. rewrite Hu. rewrite Generator.NextID_no_wrap by done.
  eexists _, _. split; [reflexivity|]. eapply Forall_impl; [exact Hall|]. cbn. lia.
Qed.

Lemma RestoreStream_continues_witness :
  let '(qs, g) := RestoreStream [[Row.NewRow 2 0 [str "k"; str "v"]]; [Row.NewRow 1 2 [str "k"]]] in
  concat qs = [NewQuery 0 [str "k"; str "v"]; NewQuery 2 [str "k"]] /\
  exists id g', Generator.NextID g = (Ret id, g') /\
    Forall (fun r => (Row.lsnID r < id)%N)
      [Row.NewRow 2 0 [str "k"; str "v"]; Row.NewRow 1 2 [str "k"]].
Proof.
  apply (RestoreStream_continues [[Row.NewRow 2 0 [str "k"; str "v"]]; [Row.NewRow 1 2 [str "k"]]]).
  apply (bool_decide_unpack _). vm_compute. exact Logic.I.
Defined.

(** ** Three runs

    The writer of these runs appends to a list. *)

Module Runs.
Import WAL WalFacts.

Definition list_writer (rows : list Row.t) : Go (list Row.t) (option error) :=
  fun lg => (Ret None, lg ++ rows).

#[export] Program Instance list_target : LogTarget (list Row.t) list_writer := {|
  tg_holds := fun lg rs n => lg = rs
|}.
Next Obligation. intros lg rs n rows -> _ _ _. by eexists. Qed.

Definition set_q (k v : gostring) : client := CStart Context.Background (NewQuery SetMethodID [k; v]).

Definition two_calls : gmap nat client :=
  {[ 1%nat := set_q (str "a") (str "1"); 2%nat := set_q (str "b") (str "2") ]}.
Definition one_call : gmap nat client := {[ 1%nat := set_q (str "a") (str "1") ]}.

Definition row_a : Row.t := Row.NewRow 1 SetMethodID [str "a"; str "1"].
Definition row_b : Row.t := Row.NewRow 2 SetMethodID [str "b"; str "2"].

Definition new_wal (calls : gmap nat client) : t (list Row.t) :=
  mk Generator.NewIDGenerator (Chan.make 100) [] [] ∅ calls Loop 100 [].

Lemma new_wal_NewWAL calls :
  NewWAL (Settings.mkConfig true 0 0 0 []) [] calls = Ret (new_wal calls).
Proof. reflexivity. Qed.

Ltac run_step R tac :=
  eapply reach_step in R; [|tac];
  cbn [lsnGen queryCh queryBuf futureResp answers clients wk flushBatchSize disk set_client set_wk
       take_row new_wal app] in R.
Ltac number R c := run_step R ltac:(eapply (step_number _ _ c); reflexivity).
Ltac send R c := run_step R ltac:(eapply (step_send _ _ c); reflexivity).
Ltac register R c := run_step R ltac:(eapply (step_register _ _ c); reflexivity).
Ltac recv R := run_step R ltac:(eapply step_recv; reflexivity).
Ltac tick R := run_step R ltac:(eapply step_tick; [reflexivity|discriminate]).
Ltac write R := run_step R ltac:(eapply step_write; reflexivity).
Ltac collect R := run_step R ltac:(eapply step_collect; reflexivity).
Ltac answer R := run_step R ltac:(eapply step_answer; reflexivity).
(** A step that the only call, already over, cannot make. *)
Ltac idle_step Hs :=
  inversion Hs; subst; cbn in *; try done;
  match goal with H : _ !! ?c = Some _ |- _ =>
    destruct (decide (c = 1%nat)) as [->|Hne]; [vm_compute in H; discriminate|];
    rewrite ?lookup_insert_ne in H by done; unfold one_call in H;
    rewrite lookup_singleton_ne in H by done; discriminate
  end.
Ltac answered R := run_step R ltac:(eapply step_answered; reflexivity).

End Runs.

Section runs.
Import WAL WalFacts Runs.

(** C38: a write may be acknowledged before it is durable.  [flush] answers
    every future registered by the time it collects them, also those of rows
    it did not write: here a call that comes between the write and the
    collection is told its write succeeded while its row is still in the
    channel only. *)
Theorem WAL_acks_before_durable :
  exists ls w, reach list_writer quiet (new_wal two_calls) ls w /\
    answers w !! 2%nat = Some None /\ disk w = [row_a] /\ Chan.buf (queryCh w) = [row_b].
Proof.
  pose proof (reach_start list_writer quiet (new_wal two_calls)) as R.
  number R 1%nat. send R 1%nat. register R 1%nat. recv R. tick R. write R.
  number R 2%nat. send R 2%nat. register R 2%nat. collect R. answer R. answer R.
  eexists _, _. split; [exact R|]. split; [reflexivity|]. split; reflexivity.
Qed.

(** An acknowledgement may be stranded.  A call registers its future
    after it has sent its row, so the flush that writes the row may have
    answered its futures already: here the row is in the log, the call waits,
    and nothing can answer it any more but the shutdown of the worker. *)
Theorem WAL_ack_stranded :
  exists ls w, reach list_writer quiet (new_wal one_call) ls w /\
    disk w = [row_a] /\ futureResp w = [1%nat] /\ answers w !! 1%nat = None /\
    forall l w', step list_writer quiet w l w' -> w' = set_wk Draining w.
Proof.
  pose proof (reach_start list_writer quiet (new_wal one_call)) as R.
  number R 1%nat. send R 1%nat. recv R. tick R. write R. collect R. answered R. register R 1%nat.
  eexists _, _. split; [exact R|]. split; [reflexivity|]. split; [reflexivity|].
  split; [reflexivity|]. intros l w' Hs.
  idle_step Hs.
Qed.

(** The log may be out of order.  Taking a number and sending the row are
    two actions, so two calls can send their rows in the opposite order of
    their numbers, and the log keeps the order of sending. *)
Theorem WAL_log_out_of_order :
  exists ls w, reach list_writer quiet (new_wal two_calls) ls w /\ disk w = [row_b; row_a].
Proof.
  pose proof (reach_start list_writer quiet (new_wal two_calls)) as R.
  number R 1%nat. number R 2%nat. send R 2%nat. send R 1%nat. recv R. recv R. tick R. write R.
  eexists _, _. split; [exact R|]. reflexivity.
Qed.

Lemma WAL_log_is_fifo_witness :
  exists ls w, sent ls = [row_a] /\ no_failure ls /\
    exists D n, tg_holds (LogTarget := list_target) (disk w) D n /\
      D ++ queryBuf w ++ Chan.buf (queryCh w) = [row_a].
Proof.
  pose proof (reach_start list_writer quiet (new_wal one_call)) as R.
  number R 1%nat. send R 1%nat. recv R. tick R. write R.
  assert (tg_holds (LogTarget := list_target) (disk (new_wal one_call)) [] 10%nat) as Hd by reflexivity.
  destruct (WAL_log_is_fifo list_writer quiet (new_wal one_call) _ _ [] 10%nat eq_refl eq_refl eq_refl Hd R)
    as [Hok (D & n & Hh & Hf & _)].
  - apply (bool_decide_unpack _). vm_compute. exact Logic.I.
  - reflexivity.
  - simpl. lia.
  - eexists _, _. split; [|split; [exact Hok|exists D, n; split; [exact Hh|exact Hf]]]. reflexivity.
Defined.

(** A flush whose every attempt fails, without a trace on the disk. *)
Lemma flush_write_fails {LG} (writer : list Row.t -> Go LG (option error)) rows lg e :
  writer rows lg = (Ret (Some e), lg) -> flush_write writer quiet rows lg = (Ret (Some e), lg).
Proof.
  intros H. unfold flush_write, WithRetry. change (Z.to_nat (default_retry 2)) with 2%nat.
  cbn [retry_loop]. unfold call, go_zoom, go_bind, wait, go_put. cbn [fst snd]. rewrite H. vm_compute. by rewrite H.
Qed.

Definition row_big : Row.t := Row.NewRow 1 SetMethodID [str "a"; replicate (Z.to_nat 65536) x61].

Lemma row_big_oversized : oversized row_big.
Proof.
  unfold oversized. cbn [Row.args Row.NewRow row_big].
  intros [_ [H _]%Forall_cons]%Forall_cons. revert H. apply (bool_decide_unpack (~ Row.short_arg _)).
  vm_compute. exact Logic.I.
Qed.

Definition poisoned : t (Manager.st Mutex.t) :=
  mk (Generator.mk 1) (Chan.make 100) [row_big] [] ∅ one_call Loop 100 (Witnesses.started example_world).

Lemma WAL_poisoned_witness :
  exists ls w, reach manager_writer quiet poisoned ls w /\ answers w !! 1%nat <> Some None /\
    is_Some (answers w !! 1%nat) /\ disk w = Witnesses.started example_world.
Proof.
  pose proof (reach_start manager_writer quiet poisoned) as R.
  number R 1%nat. send R 1%nat. register R 1%nat. recv R. tick R.
  destruct (createBatch_oversized [row_big; Row.NewRow 2 SetMethodID [str "a"; str "1"]] row_big) as [e He];
    [by left|exact row_big_oversized|].
  assert (flush_write manager_writer quiet [row_big; Row.NewRow 2 SetMethodID [str "a"; str "1"]]
    (Witnesses.started example_world) = (Ret (Some e), Witnesses.started example_world)) as Hf.
  { apply flush_write_fails. unfold manager_writer, LogWriter.Write, LogWriter.write, manager_target.
    cbn [LogWriter.target LogWriter.NewLogWriter length]. rewrite bool_decide_false by lia.
    unfold go_bind, Manager.Write. by rewrite He. }
  run_step R ltac:(eapply step_write; [reflexivity|exact Hf]). collect R. answer R.
  eexists _, _. split; [exact R|]. cbn [answers disk]. rewrite lookup_insert_eq.
  split; [|split; [by eexists|reflexivity]]. intros Ha.
  destruct (WAL_poisoned quiet poisoned _ _ row_big ltac:(by left) row_big_oversized eq_refl R) as (_ & _ & H).
  specialize (H 1%nat). cbn [answers poisoned] in H. rewrite lookup_insert_eq, lookup_empty in H.
  specialize (H Ha). discriminate.
Defined.

Lemma WAL_numbers_unique_witness :
  exists ls, sent ls = [row_b; row_a] /\ NoDup (Row.lsnID <$> sent ls).
Proof.
  pose proof (reach_start list_writer quiet (new_wal two_calls)) as R.
  number R 1%nat. number R 2%nat. send R 2%nat. send R 1%nat.
  assert (forall c r, clients (new_wal two_calls) !! c <> Some (CSend r)) as Hs.
  { intros c r. cbn. unfold two_calls.
    intros [[<- ?]|[? [<- ?]%lookup_singleton_Some]]%lookup_insert_Some; discriminate. }
  destruct (WAL_numbers_unique list_writer quiet (new_wal two_calls) _ _ Hs eq_refl R) as [Hnd _].
  eexists. split; [|exact Hnd]. reflexivity.
Defined.

Lemma WAL_futures_once_witness :
  exists (w : t (list Row.t)), answers w !! 1%nat = Some None /\
    NoDup (futureResp w ++ answering (wk w)).
Proof.
  pose proof (reach_start list_writer quiet (new_wal one_call)) as R.
  number R 1%nat. send R 1%nat. register R 1%nat. recv R. tick R. write R. collect R. answer R.
  assert (forall c, clients (new_wal one_call) !! c <> Some (CReturned None)) as Hs.
  { intros c. cbn. unfold one_call. intros [<- ?]%lookup_singleton_Some. discriminate. }
  destruct (WAL_futures_once list_writer quiet (new_wal one_call) _ _ eq_refl eq_refl eq_refl Hs R)
    as [Hnd _].
  eexists. split; [|exact Hnd]. reflexivity.
Defined.

End runs.
