(* ===== verification/Replication.v ===== *)
(** * Replication

    [internal/database/replication]: the master answers a request for the
    log from a sequence number on, the slave asks for what follows the last
    row it has, applies it to its storage and remembers where it got to.

    The two ends are defined over what they call: the manager and the reader
    through [SegmentManager], the storage through [KVStore], the connection
    through a function [Send].  The buffered writer of the standard library
    is modelled as far as its bytes go.  The context of a call is looked at
    once per call: it does not expire in the middle of it. *)

From S2P Require Import Prelude Encoding Utils Query Storage WalRecord FileSystem Index.
From S2P Require Import Segment SegmentManager Logs Concurrency Retry Protocol Wal.

(** ** [bufio.Writer] over a connection *)

Module BufWriter.

(** What is buffered, what the connection has been given, and the error all
    its writes fail with, if it is broken. *)
Record t := mk { buf : bytes; out : bytes; broken : option error }.

Definition New (broken : option error) : t := mk [] [] broken.

Definition size : nat := 4096.

Definition Flush : Go t (option error) :=
  fun w =>
    if bool_decide (buf w = []) then (Ret None, w)
    else match broken w with
         | Some e => (Ret (Some e), w)
         | None => (Ret None, mk [] (out w ++ buf w) None)
         end.

(** Data that does not fit: the buffer is filled and flushed, and what is
    left is buffered, or goes to the connection at once when it is larger
    than the buffer. *)
Definition Write (p : bytes) : Go t (option error) :=
  fun w =>
    let avail := size - length (buf w) in
    if bool_decide (length p <= avail) then (Ret None, mk (buf w ++ p) (out w) (broken w))
    else
      match broken w with
      | Some e => (Ret (Some e), w)
      | None =>
          if bool_decide (buf w = []) then (Ret None, mk [] (out w ++ p) None)
          else
            let rest := drop avail p in
            let out' := out w ++ buf w ++ take avail p in
            if bool_decide (length rest <= size) then (Ret None, mk rest out' None)
            else (Ret None, mk [] (out' ++ rest) None)
      end.

End BufWriter.

(** ** The master *)

(** [GetIndex] of the segment manager. *)
Class IndexSource (M : Type) := { is_GetIndex : N -> Go M (result IndexEntry) }.

#[export] Instance manager_index {I : Type} `{!IndexManager I} : IndexSource (Manager.st I) :=
  {| is_GetIndex := Manager.GetIndex |}.

Module Master.
Section master.
Context {M : Type} `{!SegmentManager M} `{!IndexSource M}.
Context (env : Env) (walDir : gostring).

(** The state of a call: the manager and the connection's buffered writer. *)
Abbreviation st := (M * BufWriter.t)%type.

Definition on_m {A} (c : Go M A) : Go st A := go_zoom fst (fun m s => (m, snd s)) c.
Definition on_w {A} (c : Go BufWriter.t A) : Go st A := go_zoom snd (fun w s => (fst s, w)) c.

(** [bufR.Read(data)] on a fresh [bufio.Reader]: one read of the connection,
    at most 8 bytes of it. *)
Definition bufR_Read (r : reader) : bytes * option error :=
  match r with
  | [] => ([], Some EOF)
  | (b, err) :: _ =>
      if bool_decide (b = []) then ([], err) else (take Request.reqSize b, None)
  end.

Definition getReq (r : reader) : result Request.t :=
  let '(data, err) := bufR_Read r in
  match err with
  | Some e => Err e
  | None => Request.Unmarshal data
  end.

Definition writeError (err : error) : Go st (option error) :=
  let data := Response.WriteMessage (Response.mk [] (Some err)) in
  let! err := on_w (BufWriter.Write data) in
  match err with
  | Some e => go_ret (Some e)
  | None => on_w BufWriter.Flush
  end.

(** The function the retry loop calls. *)
Definition fetch_index (lsn : N) : Go M (IndexEntry * option error) :=
  let! r := is_GetIndex lsn in
  match r with
  | Ok e => go_ret (e, None)
  | Err err => go_ret (zeroEntry, Some err)
  end.

(** [retry.WithRetryValue(ctx, 3, 200*time.Millisecond, ...)]; the waits are
    not part of the result. *)
Definition retry_index (lsn : N) : Go M (IndexEntry * option error) :=
  fun m =>
    let '(o, (m', _)) := WithRetryValue env zeroEntry 3 200000000 (Some (fetch_index lsn)) (m, []) in
    (o, m').

Definition Handle (ctx : Context.t) (r : reader) : Go st (option error) :=
  match Context.ctx_Err ctx with
  | Some e => go_ret (Some e)
  | None =>
      match getReq r with
      | Err e => writeError e
      | Ok req =>
          if (Request.LsnID req =? 0)%N then writeError (ErrorString (str "lsnID is 0"))
          else
            let! ' (index, err) := on_m (retry_index (Request.LsnID req)) in
            match err with
            | Some e =>
                if errors_Is e ErrIndexNotFound then writeError ErrNoNewLogs else writeError e
            | None =>
                let! rows := on_m (LogReader.ReadFrom walDir (FileName index) (Offset index)) in
                match rows with
                | Err e => writeError e
                | Ok rows =>
                    if bool_decide (length rows = 0) then writeError ErrNoNewLogs
                    else
                      let! err := LogWriter.WriteTo rows
                        (Some (ConnTarget.Write (fun b => on_w (BufWriter.Write b)))) in
                      match err with
                      | Some e => go_ret (Some e)
                      | None => on_w BufWriter.Flush
                      end
                end
            end
      end
  end.

End master.
End Master.

(** ** The slave *)

Module Slave.
Section slave.
Context {K : Type} `{!KVStore K}.
Context {LG C : Type}.

(** The storage, the slave's own log and the client's connection are the
    state the slave works on; [logWriter] is nil when the WAL is disabled. *)
Record t := mk {
  st : K;
  log : LG;
  cl : C;
  syncInterval : Z;
  lastLsnWritten : N
}.

Definition defaultSyncInterval : Z := 1000000000.

(** Both constructors leave [lastLsnWritten] at zero. *)
Definition NewSlave (st : K) (log : LG) (cl : C) (syncInterval : Z) : t :=
  mk st log cl (if (syncInterval =? 0)%Z then defaultSyncInterval else syncInterval) 0.

Context (logWriter : option (LogWriter.t LG)).
Context (Send : Context.t -> bytes -> Go C (result reader)).

Definition on_st {A} (c : Go K A) : Go t A :=
  go_zoom st (fun k s => mk k (log s) (cl s) (syncInterval s) (lastLsnWritten s)) c.
Definition on_log {A} (c : Go LG A) : Go t A :=
  go_zoom log (fun l s => mk (st s) l (cl s) (syncInterval s) (lastLsnWritten s)) c.
Definition on_cl {A} (c : Go C A) : Go t A :=
  go_zoom cl (fun c s => mk (st s) (log s) c (syncInterval s) (lastLsnWritten s)) c.

Definition walEnable : bool := match logWriter with Some _ => true | None => false end.

(** The bytes of a connection until it ends, and how it ended. *)
Fixpoint conn_end (r : reader) : error :=
  match r with
  | [] => EOF
  | (_, None) :: r' => conn_end r'
  | (_, Some e) :: _ => e
  end.

Definition sendReq (ctx : Context.t) (lsnID : N) : Go t (result Response.t) :=
  match Context.ctx_Err ctx with
  | Some e => go_ret (Err e)
  | None =>
      let body := Request.Marshal (Request.mk lsnID) in
      try! r := on_cl (Send ctx body) in
      match Response.ReadMessage (stream_data r) (conn_end r) with
      | Err e => go_ret (Err e)
      | Ok resp =>
          match Response.Err_ resp with
          | Some e =>
              if bool_decide (Error e = Error ErrNoNewLogs) then go_ret (Err ErrNoNewLogs)
              else go_ret (Err e)
          | None => go_ret (Ok resp)
          end
      end
  end.

Definition execStorage_row (ctx : Context.t) (r : Row.t) : Go t (result unit) :=
  let args := Row.GetArgs r in
  let method := Row.GetMethodID r in
  let fail := fun e => Err (Wrapped (str "failed to execute method " ++ FormatInt (Z.of_N method)) e) in
  if (method =? SetMethodID)%N then
    let! k := go_index args SetKeyIdx in
    let! v := go_index args SetValueIdx in
    let! err := on_st (kv_Set ctx k v) in
    go_ret (match err with Ok _ => Ok tt | Err e => fail e end)
  else if (method =? DelMethodID)%N then
    let! k := go_index args DelKeyIdx in
    let! err := on_st (kv_Delete ctx k) in
    go_ret (match err with Ok _ => Ok tt | Err e => fail e end)
  else go_ret (Err (ErrorString (str "unknown command ID: " ++ FormatInt (Z.of_N method)))).

Fixpoint execStorage (ctx : Context.t) (rows : list Row.t) : Go t (result unit) :=
  match rows with
  | [] => go_ret (Ok tt)
  | r :: rows' => try! u := execStorage_row ctx r in execStorage ctx rows'
  end.

Definition processRows (ctx : Context.t) (rows : list Row.t) : Go t (result unit) :=
  if bool_decide (length rows = 0) then go_ret (Ok tt)
  else
    match Context.ctx_Err ctx with
    | Some e => go_ret (Err e)
    | None =>
        let! werr :=
          match logWriter with
          | Some lw => on_log (LogWriter.Write lw rows)
          | None => go_ret None
          end in
        match werr with
        | Some e => go_ret (Err e)
        | None =>
            try! u := execStorage ctx rows in
            let! r := go_index rows (length rows - 1) in
            do! go_put (fun s => mk (st s) (log s) (cl s) (syncInterval s) (Row.GetLsnID r)) in
            go_ret (Ok tt)
        end
    end.

(** The loop over the batches the stream delivers. *)
Fixpoint process_stream (ctx : Context.t) (batches : list (list Row.t)) : Go t (result unit) :=
  match batches with
  | [] => go_ret (Ok tt)
  | rows :: batches' => try! u := processRows ctx rows in process_stream ctx batches'
  end.

Definition getUpdates (ctx : Context.t) : Go t (result unit) :=
  match Context.ctx_Err ctx with
  | Some e => go_ret (Err e)
  | None =>
      let! last := go_get lastLsnWritten in
      try! resp := sendReq ctx (u64 (last + 1)) in
      if bool_decide (length (Response.Data resp) = 0) then go_ret (Ok tt)
      else
        let! r := LogReader.lift (LogReader.ReadStream (LogReader.bytes_reader (Response.Data resp))) in
        process_stream ctx (values [r])
  end.

(** The loop of [startReplication]: one [getUpdates] per interval; its
    errors only decide how long the slave sleeps. *)
Fixpoint startReplication (rounds : nat) (ctx : Context.t) : Go t unit :=
  match rounds with
  | O => go_ret tt
  | S n =>
      match Context.ctx_Err ctx with
      | Some _ => go_ret tt
      | None => do! getUpdates ctx in startReplication n ctx
      end
  end.

End slave.
Arguments t : clear implicits.
End Slave.

(** ** What the master sends *)

(** The index of the manager is what its abstraction says. *)
Class IndexSourceLaws (M : Type) `{!SegmentManager M, !SegmentManagerLaws M, !IndexSource M} := {
  is_GetIndex_law lsn (m : M) : is_GetIndex lsn m = (Ret (map_GetIndex (sl_index m) lsn), m)
}.

#[export] Program Instance manager_index_laws {I : Type} `{!IndexManager I} `{!IndexLaws I} :
  IndexSourceLaws (Manager.st I).
Next Obligation.
  intros I ? ? lsn m. cbn. unfold Manager.GetIndex, go_get. by rewrite im_GetIndex_law.
Qed.

Module MasterFacts.
Import Master.

Lemma Write_Flush p w :
  BufWriter.broken w = None -> length (BufWriter.buf w) <= BufWriter.size ->
  exists w1, BufWriter.Write p w = (Ret None, w1) /\
    BufWriter.Flush w1 =
    (Ret None, BufWriter.mk [] (BufWriter.out w ++ BufWriter.buf w ++ p) None).
Proof.
  destruct w as [b o br]. cbn [BufWriter.broken BufWriter.buf BufWriter.out]. intros -> Hb.
  unfold BufWriter.Write, BufWriter.Flush. cbn [BufWriter.broken BufWriter.buf BufWriter.out].
  case_bool_decide as H1.
  - eexists. split; [reflexivity|]. cbn [BufWriter.broken BufWriter.buf BufWriter.out].
    case_bool_decide as H2; [|done]. apply app_eq_nil in H2 as [-> ->]. cbn [app]. by rewrite app_nil_r.
  - case_bool_decide as H2.
    + subst b. eexists. split; [reflexivity|]. done.
    + case_bool_decide as H3; (eexists; split; [reflexivity|]);
        cbn [BufWriter.broken BufWriter.buf BufWriter.out].
      * rewrite bool_decide_false.
        -- rewrite <-!(assoc_L (++)). by rewrite take_drop.
        -- intros E. apply (f_equal length) in E. rewrite length_drop in E. simpl in E. lia.
      * rewrite bool_decide_true by done. rewrite <-!(assoc_L (++)). by rewrite take_drop.
Qed.

Section master.
Context {M : Type} `{!SegmentManager M} `{!SegmentManagerLaws M} `{!IndexSource M} `{!IndexSourceLaws M}.
Context (env : Env) (walDir : gostring).

(** The context does not end while the master waits. *)
Hypothesis Hquiet : forall i, done env i = None.

Lemma retry_index_found lsn e (m : M) :
  sl_index m !! lsn = Some e -> retry_index env lsn m = (Ret (e, None), m).
Proof using IndexSourceLaws0.
  intros He. unfold retry_index, WithRetryValue. cbn [default_retry Z.to_nat].
  change (Z.to_nat (default_retry 3)) with 3. cbn [retry_value_loop].
  unfold call, go_zoom, go_bind, fetch_index, go_bind. cbn [fst snd].
  rewrite is_GetIndex_law. unfold map_GetIndex. by rewrite He.
Qed.

Lemma retry_index_missing lsn (m : M) :
  sl_index m !! lsn = None -> retry_index env lsn m = (Ret (zeroEntry, Some ErrIndexNotFound), m).
Proof using IndexSourceLaws0 Hquiet.
  intros He.
  assert (fetch_index lsn m = (Ret (zeroEntry, Some ErrIndexNotFound), m)) as Hf.
  { unfold fetch_index, go_bind. rewrite is_GetIndex_law. unfold map_GetIndex. by rewrite He. }
  unfold retry_index, WithRetryValue.
  destruct (retry_value_const env (fetch_index lsn) (default_delay 200000000) (default_retry 3)
    (Z.to_nat (default_retry 3)) 0 zeroEntry None zeroEntry ErrIndexNotFound m []) as [ds ->];
    [done|done| |done|done].
  intros [|[|[|j]]] Hj; [reflexivity..|]. change (Z.to_nat (default_retry 3)) with 3 in Hj. lia.
Qed.

(** The manager serves the log [L]: its index locates all of its rows, and
    rows only. *)
Record serves (L : layout) (m : M) : Prop := {
  sv_log : sl_log walDir L m;
  sv_sound : forall lsn e, sl_index m !! lsn = Some e -> entry_ok L lsn e;
  sv_complete : forall r, r ∈ rows_of L -> is_Some (sl_index m !! Row.lsnID r)
}.

(** A request in one piece. *)
Definition request (lsn : N) : reader := [(Request.Marshal (Request.mk lsn), None)].

Lemma getReq_request lsn : (lsn < 2 ^ 64)%N -> getReq (request lsn) = Ok (Request.mk lsn).
Proof using.
  intros H. assert (length (Request.Marshal (Request.mk lsn)) = 8) as Hl by apply length_le_bytes.
  unfold getReq, request, bufR_Read. rewrite bool_decide_false by (intros E; by rewrite E in Hl).
  unfold Request.reqSize. rewrite firstn_all2 by lia. unfold Request.Unmarshal, Request.reqSize.
  rewrite bool_decide_false by lia. rewrite firstn_all2 by lia.
  unfold Request.Marshal. by rewrite le_value_bytes_id.
Qed.

Lemma writeError_ok e (m : M) :
  writeError e (m, BufWriter.New None) =
  (Ret None, (m, BufWriter.mk [] (Response.WriteMessage (Response.mk [] (Some e))) None)).
Proof using.
  unfold writeError, on_w, go_bind, go_zoom. cbn [fst snd].
  destruct (Write_Flush (Response.WriteMessage (Response.mk [] (Some e))) (BufWriter.New None))
    as (w1 & -> & E2); [done|simpl; lia|]. cbn [fst snd]. by rewrite E2.
Qed.

Lemma rows_wf L (m : M) : sl_log walDir L m -> Forall Row.wf (rows_of L).
Proof using.
  intros H. destruct (sl_log_dir _ _ _ H) as (d & B & _ & Hd). apply Hd.
Qed.

(** The answer to a request for a row the log has: that row and all that
    follow. *)
Lemma Handle_found ctx lsn L (m : M) :
  Context.ctx_Err ctx = None -> serves L m -> (0 < lsn < 2 ^ 64)%N -> lsn ∈ Row.lsnID <$> rows_of L ->
  exists pre r suf m', rows_of L = pre ++ r :: suf /\ Row.lsnID r = lsn /\ serves L m' /\
    Handle env walDir ctx (request lsn) (m, BufWriter.New None) =
    (Ret None, (m', BufWriter.mk []
       (Response.WriteMessage (Response.mk (Row.encode_rows (r :: suf)) None)) None)).
Proof using IndexSourceLaws0.
  intros Hctx Hs Hlsn Hin. apply list_elem_of_fmap in Hin as (r0 & -> & Hr0).
  destruct (sv_complete _ _ Hs r0 Hr0) as [e He].
  pose proof (sv_sound _ _ Hs _ _ He) as (L1 & rs1 & r & rs2 & L2 & -> & Hr & Ho).
  destruct (LogFacts.ReadFrom_on walDir L1 (FileName e) rs1 (r :: rs2) L2 m (sv_log _ _ Hs))
    as (m' & Er & Hl' & Hi').
  set (L := L1 ++ (FileName e, rs1 ++ r :: rs2) :: L2) in *.
  assert (rows_of L = (rows_of L1 ++ rs1) ++ r :: rs2 ++ rows_of L2) as Hrows.
  { unfold L, rows_of. rewrite fmap_app, fmap_cons, concat_app. cbn [concat snd].
    by rewrite <-!(assoc_L (++)). }
  pose proof (rows_wf _ _ Hl') as Hwf. rewrite Hrows in Hwf. apply Forall_app in Hwf as [_ Hwf].
  exists (rows_of L1 ++ rs1), r, (rs2 ++ rows_of L2), m'. split; [done|]. split; [done|].
  split; [split; [done|by rewrite Hi'; apply Hs|by rewrite Hi'; apply Hs]|].
  unfold Handle. rewrite Hctx, getReq_request by lia. cbn [Request.LsnID].
  destruct (N.eqb_spec (Row.lsnID r0) 0); [lia|].
  unfold go_bind at 1. unfold on_m at 1, go_zoom. cbn [fst snd].
  rewrite (retry_index_found _ e) by done. unfold go_bind at 1. unfold on_m, go_zoom. cbn [fst snd].
  rewrite Ho, Er. rewrite bool_decide_false by (simpl; lia).
  unfold LogWriter.WriteTo, LogWriter.write. rewrite bool_decide_false by (simpl; lia).
  unfold ConnTarget.Write. rewrite flatten_wf by done. cbn [app].
  unfold go_bind, on_w, go_zoom. cbn [fst snd].
  destruct (Write_Flush (Response.WriteMessage (Response.mk (Row.encode_rows (r :: rs2 ++ rows_of L2)) None))
    (BufWriter.New None)) as (w1 & -> & E2); [done|simpl; lia|]. cbn [fst snd]. by rewrite E2.
Qed.

(** The answer to a request for a row the log does not have. *)
Lemma Handle_missing ctx lsn L (m : M) :
  Context.ctx_Err ctx = None -> serves L m -> (0 < lsn < 2 ^ 64)%N ->
  (lsn ∉ Row.lsnID <$> rows_of L) ->
  Handle env walDir ctx (request lsn) (m, BufWriter.New None) =
  (Ret None, (m, BufWriter.mk [] (Response.WriteMessage (Response.mk [] (Some ErrNoNewLogs))) None)).
Proof using IndexSourceLaws0 Hquiet.
  intros Hctx Hs Hlsn Hni. unfold Handle. rewrite Hctx, getReq_request by lia. cbn [Request.LsnID].
  destruct (N.eqb_spec lsn 0); [lia|]. unfold go_bind at 1. unfold on_m at 1, go_zoom. cbn [fst snd].
  rewrite retry_index_missing.
  - cbn [errors_Is]. rewrite bool_decide_true by done. cbn [orb]. apply writeError_ok.
  - destruct (sl_index m !! lsn) as [e|] eqn:E; [|done]. destruct Hni.
    apply (sv_sound _ _ Hs) in E as (L1 & rs1 & r & rs2 & L2 & -> & <- & _).
    apply list_elem_of_fmap_2. unfold rows_of. rewrite fmap_app, fmap_cons, concat_app.
    cbn [concat snd]. rewrite !elem_of_app. right. left. right. by left.
Qed.

End master.
End MasterFacts.

(** ** What the slave makes of it *)

Module SlaveFacts.
Import Slave.

Section slave.
Context {K : Type} `{!KVStore K} `{!KVLaws K}.
Context {LG C : Type}.

(** The slave after its storage changed. *)
Definition set_st (k : K) (s : t K LG C) : t K LG C :=
  mk k (log s) (cl s) (syncInterval s) (lastLsnWritten s).

Lemma execStorage_ok ctx rows (s : t K LG C) :
  Context.ctx_Err ctx = None -> kv_wf (st s) ->
  Forall (fun r => write_cmd (Row.methodID r) (Row.args r)) rows ->
  exists k, execStorage ctx rows s = (Ret (Ok tt), set_st k s) /\ kv_wf k /\
    kv_abs k = replay rows (kv_abs (st s)).
Proof.
  intros Hctx Hwf Hrows. revert s Hwf. induction Hrows as [|r rows Hr _ IH]; intros s Hwf.
  { exists (st s). split; [by destruct s|done]. }
  cbn [execStorage].
  assert (exists k, execStorage_row ctx r s = (Ret (Ok tt), set_st k s) /\ kv_wf k /\
    kv_abs k = apply_cmd (Row.methodID r) (Row.args r) (kv_abs (st s))) as (k & E & Hk & Ha).
  { unfold execStorage_row, Row.GetMethodID, Row.GetArgs, apply_cmd, on_st, go_bind, go_zoom.
    destruct Hr as [(k & v & rest & -> & ->)|(k & rest & -> & ->)]; cbn -[kv_Set kv_Delete].
    - destruct (kv_Set_law ctx k v (st s) Hwf) as (k' & -> & Hk & Ha). exists k'.
      unfold ctx_result, ctx_guard in *. rewrite Hctx in *. done.
    - destruct (kv_Delete_law ctx k (st s) Hwf) as (k' & -> & Hk & Ha). exists k'.
      unfold ctx_result, ctx_guard in *. rewrite Hctx in *. done. }
  rewrite (go_bind_ret _ _ _ _ _ E).
  destruct (IH (set_st k s) Hk) as (k' & -> & Hk' & Ha'). exists k'. split; [done|]. split; [done|].
  rewrite Ha'. cbn [set_st st]. by rewrite Ha.
Qed.

(** The slave's own log, if it keeps one, takes the rows. *)
Definition log_takes (logWriter : option (LogWriter.t LG)) (rows : list Row.t) (l l' : LG) : Prop :=
  match logWriter with
  | None => l' = l
  | Some lw => LogWriter.Write lw rows l = (Ret None, l')
  end.

Lemma processRows_ok logWriter ctx rows (s : t K LG C) r0 l :
  Context.ctx_Err ctx = None -> kv_wf (st s) -> log_takes logWriter rows (log s) l ->
  Forall (fun r => write_cmd (Row.methodID r) (Row.args r)) rows -> last rows = Some r0 ->
  exists s', processRows logWriter ctx rows s = (Ret (Ok tt), s') /\ kv_wf (st s') /\
    kv_abs (st s') = replay rows (kv_abs (st s)) /\ cl s' = cl s /\ log s' = l /\
    lastLsnWritten s' = Row.lsnID r0 /\ syncInterval s' = syncInterval s.
Proof.
  intros Hctx Hwf Hlog Hrows Hlast. unfold processRows.
  rewrite bool_decide_false by (intros ->%nil_length_inv; done). rewrite Hctx.
  assert ((match logWriter with
      | Some lw => on_log (LogWriter.Write lw rows) | None => go_ret None end) s =
      (Ret None, mk (st s) l (cl s) (syncInterval s) (lastLsnWritten s))) as El.
  { destruct logWriter as [lw|]; cbn in Hlog; [|subst l; by destruct s]. unfold on_log, go_zoom. by rewrite Hlog. }
  rewrite (go_bind_ret _ _ _ _ _ El).
  destruct (execStorage_ok ctx rows (mk (st s) l (cl s) (syncInterval s) (lastLsnWritten s)))
    as (k & Ek & Hk & Ha); [done|done|done|].
  rewrite (go_bind_ret _ _ _ _ _ Ek). rewrite last_lookup in Hlast.
  rewrite Nat.sub_1_r, (go_index_Some _ _ _ Hlast). unfold go_bind, go_put.
  eexists. split; [reflexivity|]. cbn. done.
Qed.

End slave.
End SlaveFacts.

(** ** The slave's own log *)

(** The writer a slave with its WAL on is given, and what that writer promises:
    a log with room takes well-formed rows at its end. *)
Record own_log (LG : Type) := mkOwnLog {
  ol_writer : LogWriter.t LG;
  ol_target : LogTarget LG (LogWriter.Write ol_writer)
}.
Arguments mkOwnLog {LG}.
Arguments ol_writer {LG}.
Arguments ol_target {LG}.

(** The writer [initSlave] gives the slave: the segment manager of the
    database, its log in the directory [d]. *)
Definition slave_writer : LogWriter.t (Manager.st Mutex.t) := LogWriter.NewLogWriter (Some manager_target).
Definition slave_log (d : FileSystem.path) (B : nat) : own_log (Manager.st Mutex.t) :=
  mkOwnLog slave_writer (manager_log_target d B).

Section own_log.
Context {LG : Type} (own : option (own_log LG)).

Definition own_writer : option (LogWriter.t LG) := ol_writer <$> own.

(** The slave keeps no log, or one that holds [rs] and has room for [n] more
    files. *)
Definition own_holds (lg : LG) (rs : list Row.t) (n : nat) : Prop :=
  match own with None => True | Some o => tg_holds (LogTarget := ol_target o) lg rs n end.

Lemma own_takes lg rs n rows :
  own_holds lg rs n -> Forall Row.wf rows -> (ManagerFacts.volume (rs ++ rows) < 2 ^ 63)%Z -> length rows <= n ->
  exists lg', SlaveFacts.log_takes own_writer rows lg lg' /\ own_holds lg' (rs ++ rows) (n - length rows).
Proof.
  unfold own_holds, own_writer. destruct own as [o|]; cbn; [apply tg_write|]. intros _ _ _ _. by exists lg.
Qed.

Lemma log_takes_fun rows (lg l1 l2 : LG) :
  SlaveFacts.log_takes own_writer rows lg l1 -> SlaveFacts.log_takes own_writer rows lg l2 -> l1 = l2.
Proof. unfold SlaveFacts.log_takes. destruct own_writer; congruence. Qed.

End own_log.

(** ** The two ends connected *)

Section replication.
Context {M : Type} `{!SegmentManager M} `{!SegmentManagerLaws M} `{!IndexSource M} `{!IndexSourceLaws M}.
Context {K : Type} `{!KVStore K} `{!KVLaws K}.
Context {LG : Type}.
Context (env : Env) (walDir : gostring) (cut : bytes -> reader).

(** A connection to the master: the request reaches [Handle] in one piece and
    the answer comes back in reads cut by [cut]. *)
Definition link (ctx : Context.t) (body : bytes) : Go M (result reader) :=
  fun m =>
    match Master.Handle env walDir ctx [(body, None)] (m, BufWriter.New None) with
    | (Ret _, (m', w)) => (Ret (Ok (cut (BufWriter.out w))), m')
    | (Panics, (m', _)) => (Panics, m')
    | (Blocks, (m', _)) => (Blocks, m')
    end.

(** Reading loses nothing, and nobody cancels the master's waits. *)
Hypothesis Hcut : forall b, stream_data (cut b) = b.
Hypothesis Hquiet : forall i, done env i = None.

Context (logWriter : option (LogWriter.t LG)) (ctx : Context.t).
Hypothesis Hctx : Context.ctx_Err ctx = None.

Abbreviation slave := (Slave.t K LG M).

(** Every row of the log is a complete write command, and a whole log fits in
    one message. *)
Definition replicable (L : layout) : Prop :=
  Forall (fun r => write_cmd (Row.methodID r) (Row.args r)) (rows_of L) /\
  (len (Row.encode_rows (rows_of L)) < 2 ^ 31)%Z.

Lemma getUpdates_found L (s : slave) :
  let lsn := (Slave.lastLsnWritten s + 1)%N in
  MasterFacts.serves walDir L (Slave.cl s) -> replicable L -> kv_wf (Slave.st s) ->
  (lsn < 2 ^ 64)%N -> lsn ∈ Row.lsnID <$> rows_of L ->
  (forall rows, suffix rows (rows_of L) -> Row.lsnID <$> head rows = Some lsn ->
    exists l, SlaveFacts.log_takes logWriter rows (Slave.log s) l) ->
  exists pre r suf s', rows_of L = pre ++ r :: suf /\ Row.lsnID r = lsn /\
    Slave.getUpdates logWriter link ctx s = (Ret (Ok tt), s') /\
    MasterFacts.serves walDir L (Slave.cl s') /\ kv_wf (Slave.st s') /\
    kv_abs (Slave.st s') = replay (r :: suf) (kv_abs (Slave.st s)) /\
    SlaveFacts.log_takes logWriter (r :: suf) (Slave.log s) (Slave.log s') /\
    Row.lsnID <$> last (rows_of L) = Some (Slave.lastLsnWritten s') /\
    Slave.syncInterval s' = Slave.syncInterval s.
Proof using All.
  intros lsn Hs [Hcmd Hsize] Hwf Hlsn Hin Hlog.
  destruct (MasterFacts.Handle_found env walDir ctx lsn L (Slave.cl s) Hctx Hs)
    as (pre & r & suf & m' & Hrows & Hr & Hs' & E); [lia|done|].
  pose proof (MasterFacts.rows_wf walDir L _ (MasterFacts.sv_log _ _ _ Hs)) as Hrwf.
  assert (exists z, last (r :: suf) = Some z) as [z Hz] by (apply last_is_Some; done).
  rewrite Hrows in Hcmd, Hsize, Hrwf. apply Forall_app in Hcmd as [_ Hcmd].
  apply Forall_app in Hrwf as [_ Hrwf]. rewrite Row.len_encode_rows_app in Hsize.
  exists pre, r, suf. unfold Slave.getUpdates. rewrite Hctx. unfold go_get. unfold go_bind at 1.
  unfold u64. rewrite N.mod_small by done. unfold Slave.sendReq. rewrite Hctx.
  unfold Slave.on_cl, go_zoom. unfold go_bind at 1. unfold go_bind at 1.
  assert (link ctx (Request.Marshal (Request.mk (Slave.lastLsnWritten s + 1))) (Slave.cl s) =
    (Ret (Ok (cut (Response.WriteMessage (Response.mk (Row.encode_rows (r :: suf)) None)))), m')) as ->.
  { unfold link, MasterFacts.request in *. fold lsn. by rewrite E. }
  cbn [fst snd]. rewrite Hcut. set (data := Row.encode_rows (r :: suf)) in *.
  assert (Response.ReadMessage (Response.WriteMessage (Response.mk data None))
    (Slave.conn_end (cut (Response.WriteMessage (Response.mk data None)))) =
    Ok (Response.mk data None)) as Erm.
  { rewrite <-(app_nil_r (Response.WriteMessage _)) at 1. apply ProtocolFacts.ReadMessage_data. lens. }
  rewrite Erm. cbn [Response.Err_ go_ret Response.Data].
  rewrite bool_decide_false; cycle 1.
  { intros Hd%nil_length_inv%Row.encode_rows_nil_inv. done. }
  destruct (ReaderFacts.chunks_data (length data) data) as [Hsd Hse]; [done|].
  assert (LogReader.ReadStream (LogReader.bytes_reader data) = Ret (Ok (r :: suf))) as Ers.
  { unfold LogReader.ReadStream, LogReader.bytes_reader.
    rewrite (ReaderFacts.read_parses _ (r :: suf) []); [by rewrite Hse|].
    rewrite Hsd. by apply ReaderFacts.parses_rows. }
  unfold LogReader.lift, go_bind at 1. rewrite Ers. cbn [values omap list_omap Slave.process_stream].
  destruct (Hlog (r :: suf)) as [l Hl0]; [by exists pre|by cbn; rewrite Hr|].
  destruct (SlaveFacts.processRows_ok logWriter ctx (r :: suf)
    (Slave.mk (Slave.st s) (Slave.log s) m' (Slave.syncInterval s) (Slave.lastLsnWritten s)) z l)
    as (s' & Es & Hwf' & Ha & Hcl & Hls & Hl & Hsi); [done..|].
  unfold go_bind. rewrite Es. exists s'. do 3 (split; [done|]). rewrite Hcl.
  split; [done|]. split; [done|]. split; [done|]. split; [by rewrite Hls|].
  rewrite Hrows, last_app_cons, Hz, Hl. by split.
Qed.

Lemma getUpdates_missing L (s : slave) :
  let lsn := (Slave.lastLsnWritten s + 1)%N in
  MasterFacts.serves walDir L (Slave.cl s) -> (lsn < 2 ^ 64)%N -> (lsn ∉ Row.lsnID <$> rows_of L) ->
  Slave.getUpdates logWriter link ctx s = (Ret (Err ErrNoNewLogs), s).
Proof using All.
  intros lsn Hs Hlsn Hni.
  pose proof (MasterFacts.Handle_missing env walDir Hquiet ctx lsn L (Slave.cl s) Hctx Hs) as E.
  unfold Slave.getUpdates. rewrite Hctx. unfold go_get. unfold go_bind at 1.
  unfold u64. rewrite N.mod_small by done. unfold Slave.sendReq. rewrite Hctx.
  unfold Slave.on_cl, go_zoom. unfold go_bind at 1. unfold go_bind at 1.
  assert (link ctx (Request.Marshal (Request.mk (Slave.lastLsnWritten s + 1))) (Slave.cl s) =
    (Ret (Ok (cut (Response.WriteMessage (Response.mk [] (Some ErrNoNewLogs))))), Slave.cl s)) as ->.
  { unfold link, MasterFacts.request in *. fold lsn. rewrite E by (done || lia). done. }
  cbn [fst snd]. rewrite Hcut.
  assert (forall e, Response.ReadMessage (Response.WriteMessage (Response.mk [] (Some ErrNoNewLogs))) e =
    Ok (Response.mk [] (Some (ErrorString (Error ErrNoNewLogs))))) as Erm.
  { intros e. rewrite <-(app_nil_r (Response.WriteMessage _)). by apply ProtocolFacts.ReadMessage_error. }
  rewrite Erm. cbn [Response.Err_]. rewrite bool_decide_true by done. by destruct s.
Qed.

(** ** Properties *)

(** The log's rows are numbered from one, in the order they are stored. *)
Definition numbered (rows : list Row.t) : Prop :=
  forall i r, rows !! i = Some r -> Row.lsnID r = (N.of_nat i + 1)%N.

(** The slave has all rows: a round changes nothing. *)
Lemma round_done (L : layout) (s : slave) :
  MasterFacts.serves walDir L (Slave.cl s) -> numbered (rows_of L) ->
  Slave.lastLsnWritten s = N.of_nat (length (rows_of L)) -> (N.of_nat (length (rows_of L)) + 1 < 2 ^ 64)%N ->
  Slave.getUpdates logWriter link ctx s = (Ret (Err ErrNoNewLogs), s).
Proof using All.
  intros Hserves Hnum Hlast Hlen. apply (getUpdates_missing L); [done|rewrite Hlast; lia|]. rewrite Hlast.
  intros (r & Hr & Hin)%list_elem_of_fmap. apply list_elem_of_lookup in Hin as [i Hi].
  pose proof (lookup_lt_Some _ _ _ Hi). apply Hnum in Hi. lia.
Qed.

End replication.

Section own.
Context {M : Type} `{!SegmentManager M} `{!SegmentManagerLaws M} `{!IndexSource M} `{!IndexSourceLaws M}.
Context {K : Type} `{!KVStore K} `{!KVLaws K}.
Context {LG : Type}.
Context (env : Env) (walDir : gostring) (cut : bytes -> reader).
Hypothesis Hcut : forall b, stream_data (cut b) = b.
Hypothesis Hquiet : forall i, done env i = None.
Context (own : option (own_log LG)) (ctx : Context.t).
Hypothesis Hctx : Context.ctx_Err ctx = None.

Abbreviation slave := (Slave.t K LG M).
Abbreviation getUpdates := (Slave.getUpdates (own_writer own) (link env walDir cut) ctx).

(** A round that finds its row, with what becomes of the slave's own log. *)
Lemma getUpdates_own L (s : slave) rs n :
  let lsn := (Slave.lastLsnWritten s + 1)%N in
  MasterFacts.serves walDir L (Slave.cl s) -> replicable L -> kv_wf (Slave.st s) ->
  (lsn < 2 ^ 64)%N -> lsn ∈ Row.lsnID <$> rows_of L -> own_holds own (Slave.log s) rs n ->
  (forall rows, suffix rows (rows_of L) -> Row.lsnID <$> head rows = Some lsn ->
    (ManagerFacts.volume (rs ++ rows) < 2 ^ 63)%Z /\ length rows <= n) ->
  exists pre r suf s', rows_of L = pre ++ r :: suf /\ Row.lsnID r = lsn /\
    getUpdates s = (Ret (Ok tt), s') /\ MasterFacts.serves walDir L (Slave.cl s') /\ kv_wf (Slave.st s') /\
    kv_abs (Slave.st s') = replay (r :: suf) (kv_abs (Slave.st s)) /\
    own_holds own (Slave.log s') (rs ++ r :: suf) (n - length (r :: suf)) /\
    Row.lsnID <$> last (rows_of L) = Some (Slave.lastLsnWritten s') /\
    Slave.syncInterval s' = Slave.syncInterval s.
Proof using All.
  intros lsn Hs Hrepl Hwf Hlsn Hin Hh Hroom.
  pose proof (MasterFacts.rows_wf walDir L _ (MasterFacts.sv_log _ _ _ Hs)) as Hrwf.
  assert (forall rows, suffix rows (rows_of L) -> Row.lsnID <$> head rows = Some lsn ->
    exists l, SlaveFacts.log_takes (own_writer own) rows (Slave.log s) l /\
      own_holds own l (rs ++ rows) (n - length rows)) as Htake.
  { intros rows Hsuf Hhead. destruct (Hroom rows Hsuf Hhead). apply own_takes; try done.
    destruct Hsuf as [pre E]. rewrite E in Hrwf. by apply Forall_app in Hrwf as [_ ?]. }
  destruct (getUpdates_found env walDir cut Hcut Hquiet (own_writer own) ctx Hctx L s)
    as (pre & r & suf & s' & Hrows & Hr & E & Hs' & Hwf' & Ha & Htk & Hl); try done.
  { intros rows Hsuf Hhead. destruct (Htake rows Hsuf Hhead) as (l & ? & _). eauto. }
  exists pre, r, suf, s'. do 6 (split; [done|]). split; [|done].
  destruct (Htake (r :: suf)) as (l & Hl1 & Hl2); [by exists pre|by cbn; rewrite Hr|].
  by rewrite (log_takes_fun own _ _ _ _ Htk Hl1).
Qed.

(** The slave has the first [k] rows: a round brings the others. *)
Lemma round_news (L : layout) (k : nat) (s : slave) rs n :
  MasterFacts.serves walDir L (Slave.cl s) -> replicable L -> numbered (rows_of L) -> kv_wf (Slave.st s) ->
  (k < length (rows_of L))%nat -> Slave.lastLsnWritten s = N.of_nat k ->
  (N.of_nat (length (rows_of L)) + 1 < 2 ^ 64)%N ->
  kv_abs (Slave.st s) = replay (take k (rows_of L)) ∅ -> own_holds own (Slave.log s) rs n ->
  (ManagerFacts.volume (rs ++ drop k (rows_of L)) < 2 ^ 63)%Z -> length (drop k (rows_of L)) <= n ->
  exists s', getUpdates s = (Ret (Ok tt), s') /\
    kv_abs (Slave.st s') = replay (rows_of L) ∅ /\
    Slave.lastLsnWritten s' = N.of_nat (length (rows_of L)) /\
    own_holds own (Slave.log s') (rs ++ drop k (rows_of L)) (n - length (drop k (rows_of L))) /\
    MasterFacts.serves walDir L (Slave.cl s') /\ kv_wf (Slave.st s') /\
    Slave.syncInterval s' = Slave.syncInterval s.
Proof using All.
  intros Hserves Hrepl Hnum Hwf Hk Hlast Hlen Hst Hown Hvol Hn.
  destruct (lookup_lt_is_Some_2 (rows_of L) k) as [r0 Hr0]; [lia|].
  assert (forall pre rows, rows_of L = pre ++ rows -> Row.lsnID <$> head rows = Some (N.of_nat k + 1)%N ->
    length pre = k /\ rows = drop k (rows_of L)) as Hdrop.
  { intros pre [|r rows] E Hr; [done|]. cbn in Hr. injection Hr as Hr.
    assert (rows_of L !! length pre = Some r) as Hi by (rewrite E; by apply list_lookup_middle).
    apply Hnum in Hi. assert (length pre = k) as <- by lia. split; [done|]. rewrite E. by rewrite drop_app_length. }
  destruct (getUpdates_own L s rs n) as (pre & r & suf & s' & Hrows & Hr & E & Hs' & Hwf' & Ha & Hh & Hl & Hsi); try done.
  { rewrite Hlast. lia. }
  { rewrite Hlast, <-(Hnum k r0 Hr0). eapply list_elem_of_fmap_2, list_elem_of_lookup_2. done. }
  { intros rows [pre E] Hhead. rewrite Hlast in Hhead. by destruct (Hdrop pre rows E Hhead) as [_ ->]. }
  rewrite Hlast in Hr. destruct (Hdrop pre (r :: suf) Hrows) as [Hpre Hd]; [by cbn; rewrite Hr|].
  exists s'. split; [done|]. rewrite Hd in Ha, Hh. split; [|split; [|done]].
  - rewrite Ha, Hst, <-replay_app. by rewrite take_drop.
  - destruct (last (rows_of L)) as [z|] eqn:Hz; [|done]. injection Hl as <-.
    rewrite last_lookup in Hz. apply Hnum in Hz. rewrite Hz.
    pose proof (lookup_lt_Some _ _ _ Hr0). lia.
Qed.

(** C7: a replica catches up.  Let the master serve a log of write commands
    whose rows are numbered from one in the order they are stored, as a log
    written by one client at a time is, and which is below 2^31 bytes and so
    fits one message; and let the slave have applied its first [k] rows.  Then
    one round of replication leaves the slave's storage equal to the replay of
    the whole log and its position at the end; when the slave is already
    there, the round answers [ErrNoNewLogs] and changes nothing.  The slave
    has its WAL on, as ReadMe.md asks, and its own log has room (2^63 bytes, a
    name for each new file, no failing system call): then that log has just
    the rows from [k] on appended; or it has its WAL off, which the code
    allows.  The answer may be cut into reads in any way; the connection
    does not fail and no context ends. *)
Theorem replica_catches_up (L : layout) (k : nat) (s : slave) (rs : list Row.t) (n : nat)
    (Hserves : MasterFacts.serves walDir L (Slave.cl s)) (Hrepl : replicable L)
    (Hnum : numbered (rows_of L)) (Hwf : kv_wf (Slave.st s)) (Hk : (k <= length (rows_of L))%nat)
    (Hlast : Slave.lastLsnWritten s = N.of_nat k)
    (Hlen : (N.of_nat (length (rows_of L)) + 1 < 2 ^ 64)%N)
    (Hst : kv_abs (Slave.st s) = replay (take k (rows_of L)) ∅)
    (Hown : own_holds own (Slave.log s) rs n)
    (Hvol : (ManagerFacts.volume (rs ++ drop k (rows_of L)) < 2 ^ 63)%Z)
    (Hroom : length (drop k (rows_of L)) <= n) :
  exists s',
    Slave.getUpdates (own_writer own) (link env walDir cut) ctx s =
      (Ret (if bool_decide (k = length (rows_of L)) then Err ErrNoNewLogs else Ok tt), s') /\
    kv_abs (Slave.st s') = replay (rows_of L) ∅ /\
    Slave.lastLsnWritten s' = N.of_nat (length (rows_of L)) /\
    own_holds own (Slave.log s') (rs ++ drop k (rows_of L)) (n - length (drop k (rows_of L))) /\
    MasterFacts.serves walDir L (Slave.cl s') /\ kv_wf (Slave.st s').
Proof using All.
  case_bool_decide as Hkn.
  - exists s. rewrite (round_done env walDir cut Hcut Hquiet (own_writer own) ctx Hctx L) by (done || congruence).
    split; [done|]. split; [by rewrite Hst, Hkn, firstn_all|]. split; [by rewrite Hlast, Hkn|].
    rewrite Hkn, drop_all, app_nil_r. cbn [length]. by rewrite Nat.sub_0_r.
  - destruct (round_news L k s rs n) as (s' & H1 & H2 & H3 & H4 & H5 & H6 & _); try done; [lia|]. by exists s'.
Qed.

(** C40: the slave trusts the master's log to be ordered by sequence number.
    When the last row of the log has a number whose successor is stored
    before it, as two concurrent writers can leave it, a slave that has
    reached the end never learns that there are no new logs: every round
    fetches and applies the rows from that successor on once more, appends
    them to its own log, if it has one with room, and leaves the slave's
    position where it was.  The log consists of write commands and is below
    2^31 bytes; no connection fails and no context ends. *)
Theorem replica_refetches (L : layout) (s : slave) (rounds : nat) (rs : list Row.t) (n : nat)
    (Hserves : MasterFacts.serves walDir L (Slave.cl s)) (Hrepl : replicable L)
    (Hwf : kv_wf (Slave.st s))
    (Hlast : Row.lsnID <$> last (rows_of L) = Some (Slave.lastLsnWritten s))
    (Hlsn : (Slave.lastLsnWritten s + 1 < 2 ^ 64)%N)
    (Hswap : (Slave.lastLsnWritten s + 1)%N ∈ Row.lsnID <$> rows_of L)
    (Hown : own_holds own (Slave.log s) rs n)
    (Hvol : (ManagerFacts.volume rs + Z.of_nat (S rounds) * ManagerFacts.volume (rows_of L) < 2 ^ 63)%Z)
    (Hroom : S rounds * length (rows_of L) <= n) :
  exists s', Slave.startReplication (own_writer own) (link env walDir cut) rounds ctx s = (Ret tt, s') /\
    Slave.lastLsnWritten s' = Slave.lastLsnWritten s /\
    exists r suf, Row.lsnID r = (Slave.lastLsnWritten s + 1)%N /\
      suffix (r :: suf) (rows_of L) /\
      exists s'' rs' n', getUpdates s' = (Ret (Ok tt), s'') /\
        Slave.lastLsnWritten s'' = Slave.lastLsnWritten s /\
        kv_abs (Slave.st s'') = replay (r :: suf) (kv_abs (Slave.st s')) /\
        own_holds own (Slave.log s') rs' n' /\ own_holds own (Slave.log s'') (rs' ++ r :: suf) (n' - length (r :: suf)).
Proof using All.
  assert (forall rows, suffix rows (rows_of L) -> length rows <= length (rows_of L) /\
    (0 <= ManagerFacts.volume rows <= ManagerFacts.volume (rows_of L))%Z) as Hsz.
  { intros rows [pre E]. rewrite E, length_app, ManagerFacts.volume_app.
    assert (0 <= ManagerFacts.volume pre /\ 0 <= ManagerFacts.volume rows)%Z by (unfold ManagerFacts.volume; lens). lia. }
  destruct (Hsz (rows_of L)) as [_ [H0 _]]; [done|].
  revert s rs n Hserves Hwf Hlast Hlsn Hswap Hown Hvol Hroom.
  induction rounds as [|rounds IH]; intros s rs n Hs Hwf Hlast Hlsn Hswap Hown Hvol Hroom;
    (destruct (getUpdates_own L s rs n) as (pre & r & suf & s' & Hrows & Hr & E & Hs' & Hwf' & Ha & Hh & Hl & _);
     [done..| |]; [intros rows Hsuf _; destruct (Hsz rows Hsuf); rewrite ManagerFacts.volume_app; nia|]).
  - exists s. split; [done|]. split; [done|]. exists r, suf. split; [done|].
    split; [by exists pre|]. exists s', rs, n. split_and!; try done. congruence.
  - assert (Slave.lastLsnWritten s' = Slave.lastLsnWritten s) as Hl' by congruence.
    destruct (Hsz (r :: suf)) as [Hn1 Hv1]; [by exists pre|].
    destruct (IH s' (rs ++ r :: suf) (n - length (r :: suf))) as (s'' & E'' & Hl'' & r' & suf' & Hr' & H');
      try done; rewrite ?Hl', ?ManagerFacts.volume_app in *; try done; [lia|cbn [Nat.mul] in Hroom |- *; lia|].
    exists s''. cbn [Slave.startReplication]. rewrite Hctx. unfold go_bind. rewrite E.
    split; [done|]. split; [congruence|]. by exists r', suf'.
Qed.

End own.

(** A manager whose index updates have all run serves its log. *)
Lemma serves_manager {I : Type} `{!IndexManager I} `{!IndexLaws I} d B dir L (s : Manager.st I) :
  resolve dir = Some d -> ManagerFacts.log_on d B L s -> ManagerFacts.idx_on L s ->
  Manager.pending (Manager.mgr s) = [] -> MasterFacts.serves dir L s.
Proof.
  intros Hd Hl [Hs Hc] Hp. constructor.
  - by exists d, B.
  - intros lsn e He. apply Hs. by left.
  - intros r Hr. destruct (Hc r Hr) as [e [He|(es & Hin & _)]]; [by exists e|].
    rewrite Hp in Hin. by apply not_elem_of_nil in Hin.
Qed.

Module ReplicationWitnesses.
Import Manager ManagerFacts Examples.

(** A master that has written the given rows in one batch and indexed them. *)
Definition ex_master (rows : list Row.t) : Manager.st Mutex.t :=
  snd (run [EWrite rows; EIndex 0; EIndex 0; EIndex 0] (Witnesses.started example_world)).

Lemma ex_master_log (rows : list Row.t) :
  Forall Row.wf rows -> (length rows <= 3)%nat -> (volume rows < 1000)%Z ->
  pending (mgr (ex_master rows)) = [] ->
  exists L, rows_of L = rows /\ MasterFacts.serves (str "data") L (ex_master rows).
Proof.
  intros Hwf Hlen Hvol Hp. destruct example_start as (w & seg & E & _ & _ & Hn & Hl & Hi).
  destruct (run_on example_dir 1000 [EWrite rows; EIndex 0; EIndex 0; EIndex 0] _ _ Hl Hi)
    as (L & s1 & E1 & Hl1 & Hi1 & _ & Hr & _).
  - repeat constructor. exact Hwf.
  - cbn. rewrite app_nil_r. lia.
  - cbn in *. rewrite app_nil_r. lia.
  - cbn in Hr. rewrite app_nil_r in Hr. exists L. split; [done|].
    assert (ex_master rows = s1) as Es.
    { unfold ex_master, Witnesses.started. by rewrite E, E1. }
    rewrite Es in *. by eapply (serves_manager example_dir 1000).
Qed.

Definition ex_slave (rows : list Row.t) (last : N) : Slave.t (Storage.t MemEngine.t) unit (Manager.st Mutex.t) :=
  Slave.mk (Storage.New (MemEngine.NewEngine 4)) tt (ex_master rows) 0 last.

(** A slave with a log of its own, which holds the first of the master's rows. *)
Definition ex_slave_log : Manager.st Mutex.t := ex_master [ex_row 1].

Lemma ex_slave_holds : own_holds (Some (slave_log example_dir 1000)) ex_slave_log [ex_row 1] 900.
Proof.
  destruct example_start as (w & seg & E & _ & _ & Hn & Hl & Hi).
  destruct (run_on example_dir 1000 [EWrite [ex_row 1]; EIndex 0; EIndex 0; EIndex 0] _ _ Hl Hi)
    as (L & s1 & E1 & Hl1 & Hi1 & _ & Hr & Hc).
  - apply (bool_decide_unpack _). vm_compute. exact Logic.I.
  - vm_compute. reflexivity.
  - cbn in *. lia.
  - exists L. assert (ex_slave_log = s1) as ->.
    { unfold ex_slave_log, ex_master, Witnesses.started. by rewrite E, E1. }
    split; [done|]. split; [done|]. split; [exact Hr|]. cbn in *. lia.
Qed.

Definition ex_logging_slave (last : N) (k : Storage.t MemEngine.t)
  : Slave.t (Storage.t MemEngine.t) (Manager.st Mutex.t) (Manager.st Mutex.t) :=
  Slave.mk k ex_slave_log (ex_master [ex_row 1; ex_row 2]) 0 last.

(** A slave that has the first row in its storage and in its log, and one that
    has nothing and keeps no log. *)
Lemma replica_catches_up_witness :
  (exists k s', kv_abs k = replay [ex_row 1] ∅ /\
    Slave.getUpdates (Some slave_writer) (link quiet (str "data") LogReader.bytes_reader) Context.Background
      (ex_logging_slave 1 k) = (Ret (Ok tt), s') /\
    kv_abs (Slave.st s') = replay [ex_row 1; ex_row 2] ∅ /\ Slave.lastLsnWritten s' = 2%N /\
    own_holds (Some (slave_log example_dir 1000)) (Slave.log s') [ex_row 1; ex_row 2] 899) /\
  (exists s', Slave.getUpdates None (link quiet (str "data") LogReader.bytes_reader) Context.Background
      (ex_slave [ex_row 1; ex_row 2] 0) = (Ret (Ok tt), s') /\
    kv_abs (Slave.st s') = replay [ex_row 1; ex_row 2] ∅ /\ Slave.lastLsnWritten s' = 2%N).
Proof.
  destruct (ex_master_log [ex_row 1; ex_row 2]) as (L & HL & Hs).
  { apply (bool_decide_unpack _). vm_compute. exact Logic.I. }
  { simpl. lia. }
  { reflexivity. }
  { vm_compute. reflexivity. }
  assert (replicable L) as Hrepl.
  { split; rewrite HL; [|reflexivity]. do 2 (apply Forall_cons_2; [left; by do 3 eexists|]). apply Forall_nil_2. }
  assert (numbered [ex_row 1; ex_row 2]) as Hnum by (intros [|[|i]] r Hr; [by injection Hr as <-..|done]).
  destruct (NewStorage_wf 4) as [Hwf Habs]. split.
  - destruct (kv_Set_law Context.Background (str "key") (str "value") (Storage.New (MemEngine.NewEngine 4)) Hwf)
      as (k & _ & Hk & Hka). exists k.
    assert (kv_abs k = replay [ex_row 1] ∅) as Hk1 by (rewrite Hka, Habs; reflexivity).
    destruct (replica_catches_up quiet (str "data") LogReader.bytes_reader
      (fun b => proj1 (ReaderFacts.chunks_data (length b) b (Nat.le_refl _))) (fun _ => eq_refl)
      (Some (slave_log example_dir 1000)) Context.Background eq_refl L 1 (ex_logging_slave 1 k) [ex_row 1] 900 Hs Hrepl)
      as (s' & E & Ha & Hl & Hh & _); rewrite ?HL in *.
    + exact Hnum.
    + exact Hk.
    + cbn. lia.
    + reflexivity.
    + reflexivity.
    + exact Hk1.
    + exact ex_slave_holds.
    + vm_compute. reflexivity.
    + cbn. lia.
    + exists s'. split; [exact Hk1|]. split; [exact E|]. split; [exact Ha|]. split; [exact Hl|exact Hh].
  - destruct (replica_catches_up quiet (str "data") LogReader.bytes_reader
      (fun b => proj1 (ReaderFacts.chunks_data (length b) b (Nat.le_refl _))) (fun _ => eq_refl)
      None Context.Background eq_refl L 0 (ex_slave [ex_row 1; ex_row 2] 0) [] 2 Hs Hrepl)
      as (s' & E & Ha & Hl & _); rewrite ?HL in *.
    + exact Hnum.
    + exact Hwf.
    + lia.
    + reflexivity.
    + reflexivity.
    + exact Habs.
    + exact Logic.I.
    + vm_compute. reflexivity.
    + cbn. lia.
    + exists s'. split; [exact E|]. split; [exact Ha|exact Hl].
Defined.

(** A slave with a log, whose master has its two rows in the wrong order. *)
Definition ex_stuck_slave : Slave.t (Storage.t MemEngine.t) (Manager.st Mutex.t) (Manager.st Mutex.t) :=
  Slave.mk (Storage.New (MemEngine.NewEngine 4)) ex_slave_log (ex_master [ex_row 2; ex_row 1]) 0 1.

Lemma replica_refetches_witness :
  exists s' s'' rs n, Slave.startReplication (Some slave_writer) (link quiet (str "data") LogReader.bytes_reader) 5
      Context.Background ex_stuck_slave = (Ret tt, s') /\ Slave.lastLsnWritten s' = 1%N /\
    Slave.getUpdates (Some slave_writer) (link quiet (str "data") LogReader.bytes_reader) Context.Background s' =
      (Ret (Ok tt), s'') /\
    own_holds (Some (slave_log example_dir 1000)) (Slave.log s'') (rs ++ [ex_row 2; ex_row 1]) n.
Proof.
  destruct (ex_master_log [ex_row 2; ex_row 1]) as (L & HL & Hs).
  - apply (bool_decide_unpack _). vm_compute. exact Logic.I.
  - simpl. lia.
  - reflexivity.
  - vm_compute. reflexivity.
  - destruct (NewStorage_wf 4) as [Hwf _].
    destruct (replica_refetches quiet (str "data") LogReader.bytes_reader
      (fun b => proj1 (ReaderFacts.chunks_data (length b) b (Nat.le_refl _))) (fun _ => eq_refl)
      (Some (slave_log example_dir 1000)) Context.Background eq_refl L ex_stuck_slave 5 [ex_row 1] 900 Hs)
      as (s' & E & Hl & r & suf & Hr & [pre Hsuf] & s'' & rs & n & E2 & _ & _ & _ & Hh); rewrite ?HL in *.
    + split; rewrite HL; [|reflexivity]. do 2 (apply Forall_cons_2; [left; by do 3 eexists|]). apply Forall_nil_2.
    + exact Hwf.
    + reflexivity.
    + reflexivity.
    + by left.
    + exact ex_slave_holds.
    + vm_compute. reflexivity.
    + cbn. lia.
    + assert (r :: suf = [ex_row 2; ex_row 1]) as Er.
      { apply (f_equal (fun l => (l, Row.lsnID <$> tail l))) in Hsuf. destruct pre as [|r1 [|r2 pre]].
        - apply (f_equal fst) in Hsuf. symmetry. exact Hsuf.
        - apply (f_equal snd) in Hsuf. cbn [snd tail app fmap list_fmap] in Hsuf. rewrite Hr in Hsuf. discriminate Hsuf.
        - apply (f_equal (fun p => length (snd p))) in Hsuf. cbn in Hsuf. rewrite length_fmap, length_app in Hsuf.
          cbn in Hsuf. lia. }
      rewrite Er in Hh. exists s', s'', rs. eexists. split; [exact E|]. split; [exact Hl|]. split; [exact E2|exact Hh].
Defined.

End ReplicationWitnesses.
