(* ===== verification/WalShutdown.v ===== *)
(** * The end of the write-ahead log's worker

    When the context of [startInfileWALWorker] ends, the worker empties the
    channel, flushes once more and returns.  Here: with no call of [Write] in
    progress it does return, after a number of steps known beforehand, with
    every row in the log and every future answered; a call that is still
    between its number and its row is left behind for good. *)

From S2P Require Import Prelude Utils Query WalRecord SegmentManager Concurrency Retry Wal.

Module ShutdownFacts.
Import WAL WalFacts.

Section facts.
Context {LG : Type} (writer : list Row.t -> Go LG (option error)) (env : Env).

(** No call of [Write] is in progress. *)
Definition settled (w : t LG) : Prop :=
  forall c pc, clients w !! c = Some pc -> exists err, pc = CReturned err.

(** The worker is on its way out. *)
Definition leaving (pc : worker) : bool :=
  match pc with
  | Draining | Flushing true | Collecting _ true | Answering _ _ true | Exited => true
  | _ => false
  end.

(** The steps to its end: the rows to drain, the write, the collection, the
    answers, the return. *)
Definition steps_left (w : t LG) : nat :=
  match wk w with
  | Draining => length (Chan.buf (queryCh w)) + 4 + length (futureResp w)
  | Flushing _ => 3 + length (futureResp w)
  | Collecting _ _ => 2 + length (futureResp w)
  | Answering resp _ _ => 1 + length resp
  | _ => 0
  end.

Lemma settled_step w l w' :
  settled w -> step writer env w l w' -> clients w' = clients w /\ forall r, l <> Sent r.
Proof.
  intros Hs Hstep. destruct Hstep; cbn; try done;
    try (match goal with H : clients _ !! _ = Some _ |- _ => apply Hs in H as [? [=]] end).
  split; [done|]. by destruct err.
Qed.

Lemma leaving_step w l w' :
  settled w -> leaving (wk w) = true -> step writer env w l w' ->
  leaving (wk w') = true /\ steps_left w = S (steps_left w').
Proof.
  intros Hs Hl Hstep. unfold steps_left. destruct Hstep;
    try (match goal with H : clients _ !! _ = Some _ |- _ => apply Hs in H as [? [=]] end);
    match goal with H : wk _ = _ |- _ => rewrite H in *; cbn in * end;
    try discriminate; try (destruct quit; [|discriminate]); (split; [done|]); try lia.
  - match goal with H : Chan.recv _ = _ |- _ => apply recv_Some in H; rewrite H end. cbn. lia.
  - match goal with H : Chan.buf _ = _ |- _ => rewrite H end. cbn. lia.
Qed.

(** A run of a worker on its way out. *)
Lemma leaving_reach w ls w' :
  settled w -> leaving (wk w) = true -> reach writer env w ls w' ->
  settled w' /\ leaving (wk w') = true /\ (length ls + steps_left w' = steps_left w)%nat /\
  clients w' = clients w /\ sent ls = [].
Proof.
  intros Hs Hl Hr. induction Hr as [|ls w1 l w2 _ (H1 & H2 & H3 & H4 & H5) Hstep]; [done|].
  destruct (settled_step _ _ _ H1 Hstep) as [Hc Hn].
  destruct (leaving_step _ _ _ H1 H2 Hstep) as [Hl' Hd].
  split; [unfold settled; by rewrite Hc|]. split; [done|]. split; [rewrite length_app; cbn; lia|].
  split; [congruence|]. rewrite sent_snoc, H5. destruct l; try done. by destruct (Hn r).
Qed.

(** Past the draining the channel is empty, past the collection no future
    waits. *)
Definition emptied (w : t LG) : Prop :=
  match wk w with
  | Draining => True
  | Flushing _ | Collecting _ _ => Chan.buf (queryCh w) = []
  | _ => Chan.buf (queryCh w) = [] /\ futureResp w = []
  end.

Lemma emptied_reach w ls w' :
  settled w -> wk w = Draining -> reach writer env w ls w' -> emptied w'.
Proof.
  intros Hs Hd Hr. assert (leaving (wk w) = true) as Hl by (by rewrite Hd).
  induction Hr as [|ls w1 l w2 Hr IH Hstep]; [by unfold emptied; rewrite Hd|].
  destruct (leaving_reach _ _ _ Hs Hl Hr) as (H1 & H2 & _). unfold emptied in *.
  destruct Hstep;
    try (match goal with H : clients _ !! _ = Some _ |- _ => apply H1 in H as [? [=]] end);
    match goal with H : wk _ = _ |- _ => rewrite H in *; cbn in * end; try done.
  by destruct quit.
Qed.

(** The worker on its way out is never held up, if the writer returns. *)
Lemma leaving_moves w :
  leaving (wk w) = true -> wk w <> Exited ->
  (exists err lg, flush_write writer env (queryBuf w) (disk w) = (Ret err, lg)) ->
  exists l w', step writer env w l w'.
Proof.
  intros Hl Hne Hw. destruct (wk w) as [| |quit|err quit|[|c resp] err quit|] eqn:E; try done.
  - destruct (Chan.buf (queryCh w)) as [|r b] eqn:Eb; [eexists _, _; by apply step_drained|].
    eexists _, _. eapply step_drain; [done|]. unfold Chan.recv. by rewrite Eb.
  - destruct Hw as (err & lg & Ew). eexists _, _. by eapply step_write.
  - eexists _, _. by eapply step_collect.
  - eexists _, _. by eapply step_answered.
  - eexists _, _. by eapply step_answer.
Qed.

Lemma reach_app w0 ls1 w1 ls2 w2 :
  reach writer env w0 ls1 w1 -> reach writer env w1 ls2 w2 -> reach writer env w0 (ls1 ++ ls2) w2.
Proof.
  intros H1 H2. induction H2 as [|ls w l w' _ IH Hs]; [by rewrite app_nil_r|].
  rewrite (assoc_L (++)). by eapply reach_step.
Qed.

(** Without a failed flush every answer is a success. *)
Definition all_ok (w : t LG) : Prop :=
  (forall c e, answers w !! c = Some e -> e = None) /\
  match wk w with Collecting e _ | Answering _ e _ => e = None | _ => True end.

Lemma all_ok_step w l w' :
  all_ok w -> step writer env w l w' -> (forall e, l <> Failed e) -> all_ok w'.
Proof.
  intros [Ha Hp] Hs Hl. destruct Hs; unfold all_ok; cbn in *; try done;
    try (match goal with H : wk _ = _ |- _ => rewrite H in * end; done).
  - split; [done|]. by destruct (_ <=? _)%Z.
  - split; [done|]. destruct err as [e|]; [|done]. by destruct (Hl e).
  - match goal with H : wk _ = _ |- _ => rewrite H in Hp end. subst err. split; [|done].
    intros c' e. destruct (decide (c = c')) as [<-|Hne]; [rewrite lookup_insert_eq; by intros [= <-]|].
    rewrite lookup_insert_ne by done. apply Ha.
  - split; [done|]. by destruct quit.
Qed.

Lemma all_ok_reach w0 ls w :
  all_ok w0 -> reach writer env w0 ls w -> no_failure ls -> all_ok w.
Proof.
  intros H0 Hr. induction Hr as [|ls w l w' _ IH Hs]; [done|].
  intros [Hls Hl]%no_failure_snoc. eapply all_ok_step; [by apply IH|done..].
Qed.

Lemma fut_inv_reach w0 ls w : fut_inv w0 -> reach writer env w0 ls w -> fut_inv w.
Proof. intros H Hr. induction Hr; [done|]. by eapply fut_inv_step. Qed.

(** A new log. *)
Lemma NewWAL_fields c (lg : LG) calls (w0 : t LG) :
  NewWAL c lg calls = Ret w0 ->
  queryBuf w0 = [] /\ Chan.buf (queryCh w0) = [] /\ wk w0 = Loop /\ disk w0 = lg /\
  futureResp w0 = [] /\ answers w0 = ∅ /\ clients w0 = calls.
Proof. unfold NewWAL. destruct (_ <? 0)%Z; [done|]. by intros [= <-]. Qed.

Lemma NewWAL_fut_inv c (lg : LG) calls (w0 : t LG) :
  NewWAL c lg calls = Ret w0 -> (forall i pc, calls !! i = Some pc -> is_start pc = true) -> fut_inv w0.
Proof.
  intros (_ & _ & Hwk & _ & Hfr & Hans & Hc)%NewWAL_fields Hstart.
  constructor; rewrite ?Hfr, ?Hans, ?Hwk, ?Hc; cbn.
  - constructor.
  - by intros i ?%not_elem_of_nil.
  - intros i e. by rewrite lookup_empty.
  - intros i Hi. by apply Hstart in Hi.
Qed.

End facts.
End ShutdownFacts.

(** ** Properties *)

Section properties.
Import WAL WalFacts ShutdownFacts.
Context {LG : Type} (writer : list Row.t -> Go LG (option error)) (env : Env).

(** C20: the worker ends and loses nothing.  When the context has ended and no
    call of [Write] is in progress, every run of the worker takes at most the
    number of steps known beforehand (one for each row in the channel, one for
    each waiting future, four more); where it stops it has returned, every row
    ever sent is in the log, after what the log held at the start and in the
    order of sending, and every call that was accepted has been told of its
    success.  The conditions are those under which the segment manager writes
    without an error ([LogTarget]): every row sent fits the record format
    (fewer than 65536 arguments, none above 65535 bytes), the log stays below
    2^63 bytes, the clock has a name for every new file and no system call
    fails; with one oversized row the last flush fails and every waiting call
    is told so ([WAL_poisoned]). *)
Theorem WAL_shutdown_drains `{!LogTarget LG writer} (conf : Settings.config) (lg : LG)
    (calls : gmap nat client) (w0 w : t LG) (ls : list label) (D0 : list Row.t) (n0 : nat)
    (Hnew : NewWAL conf lg calls = Ret w0)
    (Hcalls : forall c pc, calls !! c = Some pc -> is_start pc = true)
    (Hdisk : tg_holds lg D0 n0) (Hrun : reach writer env w0 ls w)
    (Hwf : Forall Row.wf (D0 ++ sent ls))
    (Hsize : (ManagerFacts.volume (D0 ++ sent ls) < 2 ^ 63)%Z)
    (Hroom : (length (sent ls) <= n0)%nat)
    (Hdone : wk w = Draining) (Hidle : settled w) (ls' : list label) (w' : t LG)
    (Hrun' : reach writer env w ls' w') :
  (length ls' <= length (Chan.buf (queryCh w)) + length (futureResp w) + 4)%nat /\
  ((exists l w'', step writer env w' l w'') \/
   wk w' = Exited /\ (exists n, tg_holds (disk w') (D0 ++ sent ls) n) /\
   forall c, clients w !! c = Some (CReturned None) -> answers w' !! c = Some None).
Proof.
  destruct (NewWAL_fields _ _ _ _ Hnew) as (Hb & Hch & Hwk & Hd & _ & Hans & _). subst lg.
  assert (leaving (wk w) = true) as Hl by (by rewrite Hdone).
  destruct (leaving_reach writer env w ls' w' Hidle Hl Hrun') as (Hs' & Hl' & Hlen & Hcl & Hsent).
  pose proof (reach_app _ _ _ _ _ _ _ Hrun Hrun') as Hall.
  assert (sent (ls ++ ls') = sent ls) as Hse by (unfold sent in *; by rewrite omap_app, Hsent, app_nil_r).
  destruct (log_inv_reach writer env D0 n0 w0 _ w' Hb Hch Hwk Hdisk Hall) as [(D & n & Hh & Hn & Hf) Hok Ho];
    rewrite ?Hse; try done. rewrite Hse in Hf.
  assert (steps_left w = length (Chan.buf (queryCh w)) + 4 + length (futureResp w))%nat as Hw
    by (unfold steps_left; by rewrite Hdone).
  split; [lia|]. pose proof (f_equal length Hf) as Hfl. rewrite !length_app in Hfl.
  assert (wk w' = Exited \/ wk w' <> Exited) as [Hx|Hx] by (destruct (wk w'); auto; right; discriminate).
  - right. split; [done|]. pose proof (emptied_reach _ _ _ _ _ Hidle Hdone Hrun') as He.
    unfold emptied in He. rewrite Hx in He. destruct He as [He Hfe].
    rewrite Ho, He, !app_nil_r in Hf by (by rewrite Hx). split; [exists n; by rewrite <-Hf|].
    intros c Hc. rewrite <-Hcl in Hc.
    pose proof (fut_inv_reach _ _ _ _ _ (NewWAL_fut_inv _ _ _ _ Hnew Hcalls) Hall) as Hfut.
    destruct (fi_all _ Hfut c Hc) as [Hin|[e He']].
    { rewrite Hfe, Hx in Hin. by apply not_elem_of_nil in Hin. }
    rewrite He'. f_equal. eapply (all_ok_reach writer env w0); [|done..|exact He'].
    split; [|by rewrite Hwk]. intros i e'. by rewrite Hans, lookup_empty.
  - left. apply leaving_moves; [done..|].
    destruct (flush_write_ok writer env (queryBuf w') (disk w') (D0 ++ D) n Hh) as (lg' & E & _).
    + rewrite <-Hf in Hwf. apply Forall_app in Hwf as [_ [_ [Hwf _]%Forall_app]%Forall_app]. done.
    + rewrite <-Hf, !(assoc_L (++)), ManagerFacts.volume_app in Hsize. unfold ManagerFacts.volume in *. lens.
    + lia.
    + eauto.
Qed.

End properties.

Section runs.
Import WAL WalFacts ShutdownFacts Runs.

Ltac done_ R := run_step R ltac:(eapply step_done; reflexivity).
Ltac drained R := run_step R ltac:(eapply step_drained; reflexivity).

(** A write may be left behind.  A call that has its number when the worker
    returns still sends its row and registers its future: the call returns
    without an error, the row stays in the channel and nobody will ever answer
    the future. *)
Theorem WAL_late_write_lost :
  exists ls w, reach list_writer quiet (new_wal one_call) ls w /\
    clients w !! 1%nat = Some (CReturned None) /\ wk w = Exited /\ disk w = [] /\
    Chan.buf (queryCh w) = [row_a] /\ answers w !! 1%nat = None /\
    forall l w', ~ step list_writer quiet w l w'.
Proof.
  pose proof (reach_start list_writer quiet (new_wal one_call)) as R.
  number R 1%nat. done_ R. drained R. write R. collect R. answered R. send R 1%nat. register R 1%nat.
  eexists _, _. split; [exact R|]. do 5 (split; [reflexivity|]).
  intros l w' Hs. idle_step Hs.
Qed.

(** A run to the point where the context ends: one row in the channel, its
    future registered. *)
Lemma WAL_shutdown_drains_witness :
  exists ls (w : t (list Row.t)), reach list_writer quiet (new_wal one_call) ls w /\ sent ls = [row_a] /\
    wk w = Draining /\ forall ls' w', reach list_writer quiet w ls' w' ->
      (length ls' <= 6)%nat /\
      ((exists l w'', step list_writer quiet w' l w'') \/
       wk w' = Exited /\ (exists n, tg_holds (LogTarget := list_target) (disk w') [row_a] n)).
Proof.
  pose proof (reach_start list_writer quiet (new_wal one_call)) as R.
  number R 1%nat. send R 1%nat. register R 1%nat. done_ R.
  eexists _, _. split; [exact R|]. split; [reflexivity|]. split; [reflexivity|]. intros ls' w' R'.
  assert (tg_holds (LogTarget := list_target) (disk (new_wal one_call)) [] 10%nat) as Hd by reflexivity.
  destruct (fun Hc Hf Hs Hr Hi => WAL_shutdown_drains list_writer quiet (Settings.mkConfig true 0 0 0 [])
    [] one_call (new_wal one_call) _ _ [] 10%nat eq_refl Hc Hd R Hf Hs Hr eq_refl Hi ls' w' R') as [Hlen Hrest].
  - intros c pc. unfold one_call. intros [<- <-]%lookup_singleton_Some. done.
  - apply (bool_decide_unpack _). vm_compute. exact Logic.I.
  - reflexivity.
  - simpl. lia.
  - intros c pc. cbn. unfold one_call.
    rewrite !insert_insert_eq, insert_singleton. intros [<- <-]%lookup_singleton_Some. eauto.
  - split; [exact Hlen|]. destruct Hrest as [H|(H1 & H2 & _)]; [by left|right]. by split.
Defined.

End runs.
