(* ===== verification/Database.v ===== *)
(** * The database

    [internal/database/database.go]: [Execute] logs a write, checks the role
    of the instance and runs the command on the storage; [NewDatabase]
    replays the log.

    The database talks to its storage through [KVStore] and to its log
    through [WALOps].  [w_Await] is [GetResponseWithDeadline] on the future
    that [Write] returned, with the one-second context of [setInWal]; other
    goroutines may move in between, which is why it is an operation of the
    log and not a pure function. *)

From S2P Require Import Prelude Utils Query Storage WalRecord FileSystem Concurrency Wal.

(** ** The interface [WAL] *)

Class WALOps (WL : Type) := {
  w_future : Type;
  w_IsEnable : WL -> bool;
  w_Write : Context.t -> Query -> Go WL (result w_future);
  w_Await : w_future -> Context.t -> Go WL (result (option error));
  w_RestoreStream : Go WL (list (list Query))
}.

Module Database.
Section database.
Context {K : Type} `{!KVStore K}.
Context {WL : Type} `{!WALOps WL}.

Record t := mk { st : K; wal : WL; isMaster : bool }.

Definition on_st {A} (c : Go K A) : Go t A := go_zoom st (fun k s => mk k (wal s) (isMaster s)) c.
Definition on_wal {A} (c : Go WL A) : Go t A := go_zoom wal (fun w s => mk (st s) w (isMaster s)) c.

Definition exec (ctx : Context.t) (q : Query) : Go t (result gostring) :=
  let args := GetArgs q in
  let method := MethodID q in
  if (method =? GetMethodID)%N then
    let! k := go_index args GetKeyIdx in
    on_st (kv_Get ctx k)
  else if (method =? SetMethodID)%N then
    let! k := go_index args SetKeyIdx in
    let! v := go_index args SetValueIdx in
    try! u := on_st (kv_Set ctx k v) in
    go_ret (Ok (str "OK"))
  else if (method =? DelMethodID)%N then
    let! k := go_index args DelKeyIdx in
    try! u := on_st (kv_Delete ctx k) in
    go_ret (Ok (str "OK"))
  else go_ret (Err (ErrorString (str "unknown command ID: " ++ FormatInt (Z.of_N method)))).

Definition setInWal (ctx : Context.t) (q : Query) : Go t (result unit) :=
  if (MethodID q =? GetMethodID)%N then go_ret (Ok tt)
  else
    try! resp := on_wal (w_Write ctx q) in
    let! r := on_wal (w_Await resp ctx) in
    match r with
    | Ok (Some errV) => go_ret (Err errV)
    | Ok None => go_ret (Ok tt)
    | Err e => go_ret (Err e)
    end.

Definition Execute (ctx : Context.t) (q : Query) : Go t (result gostring) :=
  let! enabled := go_get (fun s => w_IsEnable (wal s)) in
  let! r := if enabled then setInWal ctx q else go_ret (Ok tt) in
  match r with
  | Err e => go_ret (Err e)
  | Ok _ =>
      let! master := go_get isMaster in
      if negb master && negb (MethodID q =? GetMethodID)%N then go_ret (Err ErrNonReadOpSlave)
      else exec ctx q
  end.

(** A request, one that does not parse included. *)
Definition execute_request (ctx : Context.t) (rq : result Query) : Go t (result gostring) :=
  match rq with Ok q => Execute ctx q | Err e => go_ret (Err e) end.

(** The requests of one caller after the other, up to one that does not
    return: the answers, and how the last one ended. *)
Fixpoint execute_all (ctx : Context.t) (rqs : list (result Query)) (s : t) : list (result gostring) * (outcome unit * t) :=
  match rqs with
  | [] => ([], (Ret tt, s))
  | rq :: rqs' =>
      match execute_request ctx rq s with
      | (Ret r, s1) => let '(rs, o) := execute_all ctx rqs' s1 in (r :: rs, o)
      | (Panics, s1) => ([], (Panics, s1))
      | (Blocks, s1) => ([], (Blocks, s1))
      end
  end.

(** The loop over the queries of one batch. *)
Fixpoint exec_batch (qs : list Query) : Go t (result unit) :=
  match qs with
  | [] => go_ret (Ok tt)
  | q :: qs' =>
      let! r := exec Context.Background q in
      match r with
      | Err e => go_ret (Err (Wrapped (str "execute query") e))
      | Ok _ => exec_batch qs'
      end
  end.

(** The loop over the batches the stream delivers. *)
Fixpoint exec_batches (batches : list (list Query)) : Go t (result unit) :=
  match batches with
  | [] => go_ret (Ok tt)
  | qs :: batches' => try! u := exec_batch qs in exec_batches batches'
  end.

Definition restoreFromWal : Go t (result unit) :=
  let! enabled := go_get (fun s => w_IsEnable (wal s)) in
  if negb enabled then go_ret (Ok tt)
  else
    let! qStream := on_wal w_RestoreStream in
    exec_batches qStream.

Definition NewDatabase (st : K) (isMaster : bool) (wal : WL) : outcome (result t) :=
  match restoreFromWal (mk st wal isMaster) with
  | (Ret (Ok _), db) => Ret (Ok db)
  | (Ret (Err e), _) => Ret (Err e)
  | (Panics, _) => Panics
  | (Blocks, _) => Blocks
  end.

End database.
Arguments t : clear implicits.
End Database.

(** ** Lemmas *)

(** What a query answers on the contents [m], and the contents after it. *)
Definition query_answer (q : Query) (m : gmap gostring gostring) : gostring :=
  if (MethodID q =? GetMethodID)%N
  then match GetArgs q with k :: _ => default [] (m !! k) | [] => [] end
  else str "OK".

Definition query_apply (q : Query) (m : gmap gostring gostring) : gmap gostring gostring :=
  apply_cmd (MethodID q) (GetArgs q) m.

(** A request: a parsed query, or the error of a line that does not parse. *)
Abbreviation request := (result Query).

(** The answer to a request and the contents after it, [refusal] being the
    error the log has for it, if it has one. *)
Definition spec_request (refusal : option error) (rq : request) (m : gmap gostring gostring)
  : result gostring * gmap gostring gostring :=
  match rq with
  | Err e => (Err e, m)
  | Ok q =>
      match refusal with
      | Some e => (Err e, m)
      | None => (Ok (query_answer q m), query_apply q m)
      end
  end.

(** The same for as many requests as the log has an answer for. *)
Fixpoint spec_requests (refusals : list (option error)) (rqs : list request) (m : gmap gostring gostring)
  : list (result gostring) * gmap gostring gostring :=
  match refusals, rqs with
  | v :: vs, rq :: rqs' =>
      let '(r, m1) := spec_request v rq m in
      let '(rs, m2) := spec_requests vs rqs' m1 in
      (r :: rs, m2)
  | _, _ => ([], m)
  end.

Lemma spec_requests_length vs rqs m :
  length vs <= length rqs -> length (fst (spec_requests vs rqs m)) = length vs.
Proof.
  revert rqs m. induction vs as [|v vs IH]; intros [|rq rqs] m; cbn [spec_requests length]; try done; [lia|].
  intros H. destruct (spec_request v rq m) as [r m1]. specialize (IH rqs m1 ltac:(lia)).
  destruct (spec_requests vs rqs m1). cbn in *. by rewrite IH.
Qed.

(** Queries that all succeed were accepted by the log, and have their effects. *)
Lemma spec_requests_ok vs qs m :
  length vs <= length qs -> Forall (fun r => is_ok r = true) (fst (spec_requests vs (Ok <$> qs) m)) ->
  Forall (fun v => v = None) vs /\
  snd (spec_requests vs (Ok <$> qs) m) = foldl (fun m q => query_apply q m) m (take (length vs) qs).
Proof.
  revert qs m. induction vs as [|v vs IH]; intros [|q qs] m; cbn [length take]; intros H; try (by split); [lia|].
  rewrite fmap_cons. cbn [spec_requests spec_request]. destruct v as [e|].
  { destruct (spec_requests vs (Ok <$> qs) m). by intros [? _]%Forall_cons. }
  specialize (IH qs (query_apply q m) ltac:(lia)).
  destruct (spec_requests vs (Ok <$> qs) (query_apply q m)). cbn [fst snd foldl] in *.
  intros [_ Hf]%Forall_cons. destruct (IH Hf) as [? ->]. split; [by constructor|done].
Qed.

Section log_answers.
Context {WL : Type} `{!WALOps WL}.

(** What the log says to a query, whatever the storage holds. *)
Definition log_answer (ctx : Context.t) (q : Query) : Go WL (option error) :=
  fun w =>
    if negb (w_IsEnable w) || (MethodID q =? GetMethodID)%N then (Ret None, w)
    else
      match w_Write ctx q w with
      | (Ret (Ok f), w1) =>
          match w_Await f ctx w1 with
          | (Ret (Ok r), w2) => (Ret r, w2)
          | (Ret (Err e), w2) => (Ret (Some e), w2)
          | (Panics, w2) => (Panics, w2)
          | (Blocks, w2) => (Blocks, w2)
          end
      | (Ret (Err e), w1) => (Ret (Some e), w1)
      | (Panics, w1) => (Panics, w1)
      | (Blocks, w1) => (Blocks, w1)
      end.

Definition log_request (ctx : Context.t) (rq : request) : Go WL (option error) :=
  match rq with Ok q => log_answer ctx q | Err _ => go_ret None end.

(** Its answers to requests one after the other, up to one that does not
    return. *)
Fixpoint log_answers (ctx : Context.t) (rqs : list request) (w : WL) : list (option error) * (outcome unit * WL) :=
  match rqs with
  | [] => ([], (Ret tt, w))
  | rq :: rqs' =>
      match log_request ctx rq w with
      | (Ret v, w1) => let '(vs, r) := log_answers ctx rqs' w1 in (v :: vs, r)
      | (Panics, w1) => ([], (Panics, w1))
      | (Blocks, w1) => ([], (Blocks, w1))
      end
  end.

Lemma log_answers_length ctx rqs w vs o w' :
  log_answers ctx rqs w = (vs, (o, w')) -> length vs <= length rqs /\ (o = Ret tt -> length vs = length rqs).
Proof.
  revert w vs. induction rqs as [|rq rqs IH]; intros w vs; cbn [log_answers]; [by intros [= <- <- _]|].
  destruct (log_request ctx rq w) as [[v| |] w1]; [|intros [= <- <- _]; cbn; split; [lia|done]..].
  destruct (log_answers ctx rqs w1) as [vs1 [o1 w2]] eqn:E. intros [= <- <- <-].
  destruct (IH _ _ E) as [H1 H2]. cbn. split; [lia|]. intros Ho. by rewrite H2.
Qed.

(** A log that is off answers everything at once. *)
Lemma log_answers_off ctx rqs w :
  w_IsEnable w = false -> log_answers ctx rqs w = (replicate (length rqs) None, (Ret tt, w)).
Proof.
  intros H. induction rqs as [|rq rqs IH]; [done|]. cbn [log_answers].
  assert (log_request ctx rq w = (Ret None, w)) as ->.
  { destruct rq as [q|e]; [|done]. cbn. unfold log_answer. by rewrite H. }
  by rewrite IH.
Qed.

End log_answers.

Module DatabaseFacts.
Import Database.

Section facts.
Context {K : Type} `{!KVStore K} `{!KVLaws K}.
Context {WL : Type} `{!WALOps WL}.

Definition set_st (k : K) (s : t K WL) : t K WL := mk k (wal s) (isMaster s).

(** A parsed query runs without a panic and does what it says. *)
Lemma exec_spec ctx q (s : t K WL) :
  query_wf q -> kv_wf (st s) ->
  exists k, exec ctx q s = (Ret (ctx_result ctx (query_answer q (kv_abs (st s)))), set_st k s) /\
    kv_wf k /\ kv_abs k = ctx_guard ctx (query_apply q (kv_abs (st s))) (kv_abs (st s)).
Proof.
  intros Hq Hwf. unfold exec, query_answer, query_apply, apply_cmd, on_st, go_bind, go_zoom.
  destruct (query_wf_cases q Hq) as [(k & v & r & ->)|[(k & r & ->)|(k & r & ->)]];
    cbn -[kv_Get kv_Set kv_Delete str].
  - destruct (kv_Set_law ctx k v (st s) Hwf) as (s' & -> & H1 & H2). exists s'.
    unfold ctx_result, ctx_guard in *. by destruct (Context.ctx_Err ctx).
  - destruct (kv_Get_law ctx k (st s) Hwf) as (s' & -> & H1 & H2). exists s'.
    unfold ctx_result, ctx_guard in *. by destruct (Context.ctx_Err ctx).
  - destruct (kv_Delete_law ctx k (st s) Hwf) as (s' & -> & H1 & H2). exists s'.
    unfold ctx_result, ctx_guard in *. by destruct (Context.ctx_Err ctx).
Qed.

Lemma exec_batch_spec qs (s : t K WL) :
  Forall query_wf qs -> kv_wf (st s) ->
  exists k, exec_batch qs s = (Ret (Ok tt), set_st k s) /\ kv_wf k /\
    kv_abs k = foldl (fun m q => query_apply q m) (kv_abs (st s)) qs.
Proof.
  intros Hqs. revert s. induction Hqs as [|q qs Hq _ IH]; intros s Hwf.
  { exists (st s). by destruct s. }
  destruct (exec_spec Context.Background q s Hq Hwf) as (k & E & Hk & Ha).
  destruct (IH (set_st k s) Hk) as (k' & E' & Hk' & Ha').
  exists k'. cbn [exec_batch]. rewrite (go_bind_ret _ _ _ _ _ E). cbn [ctx_result Context.ctx_Err].
  split; [exact E'|]. split; [done|]. rewrite Ha'. cbn [set_st st foldl]. by rewrite Ha.
Qed.

Lemma exec_batches_spec batches (s : t K WL) :
  Forall query_wf (concat batches) -> kv_wf (st s) ->
  exists k, exec_batches batches s = (Ret (Ok tt), set_st k s) /\ kv_wf k /\
    kv_abs k = foldl (fun m q => query_apply q m) (kv_abs (st s)) (concat batches).
Proof.
  revert s. induction batches as [|qs batches IH]; intros s Hqs Hwf.
  { exists (st s). by destruct s. }
  cbn [concat] in Hqs. apply Forall_app in Hqs as [H1 H2].
  destruct (exec_batch_spec qs s H1 Hwf) as (k & E & Hk & Ha).
  destruct (IH (set_st k s) H2 Hk) as (k' & E' & Hk' & Ha').
  exists k'. cbn [exec_batches concat]. rewrite (go_bind_ret _ _ _ _ _ E).
  split; [exact E'|]. split; [done|]. rewrite Ha'. cbn [set_st st]. by rewrite foldl_app, Ha.
Qed.

(** Making a database runs what the log restores. *)
Lemma NewDatabase_batches (k : K) master (w w' : WL) batches :
  kv_wf k -> w_IsEnable w = true -> w_RestoreStream w = (Ret batches, w') ->
  Forall query_wf (concat batches) ->
  exists k', NewDatabase k master w = Ret (Ok (mk k' w' master)) /\ kv_wf k' /\
    kv_abs k' = foldl (fun m q => query_apply q m) (kv_abs k) (concat batches).
Proof.
  intros Hwf Henable Hrestore Hqs.
  destruct (exec_batches_spec batches (mk k w' master) Hqs Hwf) as (k' & E & Hk & Ha).
  exists k'. unfold NewDatabase, restoreFromWal, go_get, go_bind, on_wal, go_zoom.
  cbn [wal st isMaster]. rewrite Henable. cbn [negb wal]. cbv beta iota. cbn [wal].
  rewrite Hrestore. cbn [wal st isMaster]. by rewrite E.
Qed.

(** Logging does not touch the storage. *)
Lemma setInWal_store ctx q (s s1 : t K WL) o :
  setInWal ctx q s = (o, s1) -> st s1 = st s /\ isMaster s1 = isMaster s.
Proof.
  unfold setInWal. destruct (_ =? _)%N; [by intros [= _ <-]|]. unfold go_bind, on_wal, go_zoom.
  destruct (w_Write ctx q (wal s)) as [[[f|e]| |] w1]; try by intros [= _ <-].
  cbn [wal st isMaster]. destruct (w_Await f ctx w1) as [[[[e|]|e]| |] w2]; by intros [= _ <-].
Qed.

(** [Execute] on a master is the answer of the log, then the map. *)
Lemma Execute_logged ctx q (s : t K WL) :
  Context.ctx_Err ctx = None -> query_wf q -> kv_wf (st s) -> isMaster s = true ->
  match log_answer ctx q (wal s) with
  | (Ret v, w) => exists k, Execute ctx q s = (Ret (fst (spec_request v (Ok q) (kv_abs (st s)))), mk k w true) /\
      kv_wf k /\ kv_abs k = snd (spec_request v (Ok q) (kv_abs (st s)))
  | (Panics, w) => Execute ctx q s = (Panics, mk (st s) w true)
  | (Blocks, w) => Execute ctx q s = (Blocks, mk (st s) w true)
  end.
Proof.
  intros Hctx Hq Hwf Hm.
  assert (forall w : WL, exists k, exec ctx q (mk (st s) w true) = (Ret (Ok (query_answer q (kv_abs (st s)))), mk k w true) /\
    kv_wf k /\ kv_abs k = query_apply q (kv_abs (st s))) as He.
  { intros w. destruct (exec_spec ctx q (mk (st s) w true) Hq Hwf) as (k & E & Hk & Ha).
    exists k. unfold ctx_result, ctx_guard in *. rewrite Hctx in *. done. }
  destruct s as [x w0 master]. cbn [st wal isMaster] in *. subst master.
  unfold log_answer, Execute, setInWal, go_get, go_bind, on_wal, go_zoom. cbn [wal].
  destruct (w_IsEnable w0); cbn [negb orb]; [|cbn; apply He].
  destruct (MethodID q =? GetMethodID)%N; [cbn; apply He|]. cbv beta iota. cbn [st wal isMaster].
  destruct (w_Write ctx q w0) as [[[f|e]| |] w1]; cbn [st wal isMaster]; [|exists x; by split_and!|done..].
  cbv beta iota. cbn [st wal isMaster].
  destruct (w_Await f ctx w1) as [[[[e|]|e]| |] w2]; cbn [st wal isMaster]; [exists x; by split_and!|cbn; apply He|exists x; by split_and!|done..].
Qed.

(** The requests of one caller on a master are answered as the log and the map
    say. *)
Lemma execute_all_logged ctx rqs (s : t K WL) vs o w :
  Context.ctx_Err ctx = None -> Forall (fun rq => forall q, rq = Ok q -> query_wf q) rqs ->
  kv_wf (st s) -> isMaster s = true -> log_answers ctx rqs (wal s) = (vs, (o, w)) ->
  exists k, execute_all ctx rqs s = (fst (spec_requests vs rqs (kv_abs (st s))), (o, mk k w true)) /\
    kv_wf k /\ kv_abs k = snd (spec_requests vs rqs (kv_abs (st s))).
Proof.
  intros Hctx Hrqs. revert s vs. induction Hrqs as [|rq rqs Hrq _ IH]; intros s vs Hwf Hm; cbn [log_answers execute_all].
  { intros [= <- <- <-]. exists (st s). destruct s as [x w0 master]. cbn in *. by subst. }
  assert (match log_request ctx rq (wal s) with
    | (Ret v, w1) => exists k, execute_request ctx rq s =
        (Ret (fst (spec_request v rq (kv_abs (st s)))), mk k w1 true) /\
        kv_wf k /\ kv_abs k = snd (spec_request v rq (kv_abs (st s)))
    | (Panics, w1) => execute_request ctx rq s = (Panics, mk (st s) w1 true)
    | (Blocks, w1) => execute_request ctx rq s = (Blocks, mk (st s) w1 true)
    end) as H.
  { destruct rq as [q|e]; [by apply Execute_logged, Hm; [|apply Hrq|]|].
    exists (st s). destruct s as [x w0 master]. cbn in *. by subst. }
  destruct (log_request ctx rq (wal s)) as [[v| |] w1].
  - destruct H as (k & -> & Hk & Ha). destruct (log_answers ctx rqs w1) as [vs1 r] eqn:E.
    intros [= <- ->]. destruct (IH (mk k w1 true) vs1 Hk eq_refl E) as (k2 & -> & Hk2 & Ha2).
    cbn [st] in *. exists k2. cbn [spec_requests]. rewrite Ha in *.
    destruct (spec_request v rq (kv_abs (st s))) as [r1 m1]. cbn [fst snd] in *.
    by destruct (spec_requests vs1 rqs m1).
  - rewrite H. intros [= <- <- <-]. by exists (st s).
  - rewrite H. intros [= <- <- <-]. by exists (st s).
Qed.

End facts.

Lemma write_cmd_query_wf r :
  write_cmd (Row.methodID r) (Row.args r) -> query_wf (row_query r).
Proof.
  unfold query_wf, row_query. cbn [MethodID NewQuery q_methodID GetArgs q_args].
  intros [(k & v & rest & -> & ->)|(k & rest & -> & ->)].
  - exists 2. split; [done|]. simpl. lia.
  - exists 1. split; [done|]. simpl. lia.
Qed.

Lemma apply_rows rows m : foldl (fun m q => query_apply q m) m (row_query <$> rows) = replay rows m.
Proof.
  revert m. induction rows as [|r rows IH]; intros m; [done|]. rewrite fmap_cons. apply IH.
Qed.

Lemma RestoreStream_rows batches :
  concat (fst (RestoreStream batches)) = row_query <$> concat batches.
Proof.
  unfold RestoreStream. pose proof (restore_batches_spec batches 0) as H.
  destruct (restore_batches batches 0) as [qs last]. destruct H as (-> & _).
  symmetry. apply concat_map.
Qed.

Lemma RestoreStream_wf batches :
  Forall (fun r => write_cmd (Row.methodID r) (Row.args r)) (concat batches) ->
  Forall query_wf (concat (fst (RestoreStream batches))).
Proof.
  intros H. rewrite RestoreStream_rows. apply Forall_fmap. eapply Forall_impl; [exact H|].
  intros r. apply write_cmd_query_wf.
Qed.

End DatabaseFacts.

(** ** Properties *)

Section properties.
Import Database DatabaseFacts.
Context {K : Type} `{!KVStore K} `{!KVLaws K}.
Context {WL : Type} `{!WALOps WL}.

(** C25: what [Execute] does to a parsed query, once the log has answered with
    [r]: an error of the log is returned and the storage is left alone; a
    slave refuses everything but [GET] and leaves the storage alone;
    otherwise the command runs, answers with the value or [OK], and has its
    effect.  It never panics. *)
Theorem Execute_behaviour (ctx : Context.t) (q : Query) (s s1 : t K WL) (r : result unit)
    (Hq : query_wf q) (Hwf : kv_wf (st s))
    (Hwal : (if w_IsEnable (wal s) then setInWal ctx q s else (Ret (Ok tt), s)) = (Ret r, s1)) :
  exists res k, Execute ctx q s = (Ret res, set_st k s1) /\ kv_wf k /\
    match r with
    | Err e => res = Err e /\ kv_abs k = kv_abs (st s)
    | Ok _ =>
        if negb (isMaster s) && negb (MethodID q =? GetMethodID)%N
        then res = Err ErrNonReadOpSlave /\ kv_abs k = kv_abs (st s)
        else res = ctx_result ctx (query_answer q (kv_abs (st s))) /\
             kv_abs k = ctx_guard ctx (query_apply q (kv_abs (st s))) (kv_abs (st s))
    end.
Proof.
  assert (st s1 = st s /\ isMaster s1 = isMaster s) as [Hst Hm].
  { destruct (w_IsEnable (wal s)); [by eapply setInWal_store|]. by injection Hwal as _ <-. }
  assert (Execute ctx q s =
    (match r with
     | Err e => go_ret (Err e)
     | Ok _ => let! master := go_get isMaster in
         if negb master && negb (MethodID q =? GetMethodID)%N then go_ret (Err ErrNonReadOpSlave)
         else exec ctx q
     end) s1) as ->.
  { unfold Execute, go_get. unfold go_bind at 1. unfold go_bind at 1.
    destruct (w_IsEnable (wal s)); [by rewrite Hwal|]. by injection Hwal as <- <-. }
  destruct r as [[]|e]; cycle 1.
  { exists (Err e), (st s1). split; [by destruct s1|]. by rewrite Hst. }
  unfold go_get, go_bind. rewrite Hm. destruct (negb (isMaster s) && _).
  { exists (Err ErrNonReadOpSlave), (st s1). split; [by destruct s1|]. by rewrite Hst. }
  destruct (exec_spec ctx q s1 Hq) as (k & E & Hk & Ha); [by rewrite Hst|].
  rewrite Hst in *. eauto 10.
Qed.

(** A slave logs the writes it refuses.  [Execute] writes to the log
    before it looks at the role, so on a slave with the log enabled a [SET]
    or [DEL] that the log accepts is in the log when the client is told
    [ErrNonReadOpSlave]. *)
Theorem slave_logs_refused_writes (ctx : Context.t) (q : Query) (s : t K WL) (f : w_future) (w1 w2 : WL)
    (Henable : w_IsEnable (wal s) = true) (Hslave : isMaster s = false)
    (Hwrite : MethodID q <> GetMethodID)
    (Haccept : w_Write ctx q (wal s) = (Ret (Ok f), w1))
    (Hanswer : w_Await f ctx w1 = (Ret (Ok None), w2)) :
  Execute ctx q s = (Ret (Err ErrNonReadOpSlave), mk (st s) w2 false).
Proof.
  unfold Execute, setInWal, go_get, go_bind, on_wal, go_zoom. rewrite Henable.
  destruct (N.eqb_spec (MethodID q) GetMethodID); [done|]. rewrite Haccept. cbn [wal st isMaster].
  rewrite Hanswer. cbn. by rewrite Hslave.
Qed.

(** A restart rebuilds the data.  When the log restores batches of rows
    that are write commands, [NewDatabase] succeeds and its storage holds
    exactly the replay of those rows on what the storage held before. *)
Theorem NewDatabase_replays (k : K) (master : bool) (w w' : WL) (batches : list (list Row.t))
    (Hwf : kv_wf k) (Henable : w_IsEnable w = true)
    (Hrestore : w_RestoreStream w = (Ret (fst (RestoreStream batches)), w'))
    (Hrows : Forall (fun r => write_cmd (Row.methodID r) (Row.args r)) (concat batches)) :
  exists db, NewDatabase k master w = Ret (Ok db) /\ kv_wf (st db) /\ isMaster db = master /\
    kv_abs (st db) = replay (concat batches) (kv_abs k).
Proof.
  destruct (NewDatabase_batches k master w w' _ Hwf Henable Hrestore) as (k' & E & Hk & Ha).
  { by apply RestoreStream_wf. }
  exists (mk k' w' master). split; [done|]. split; [done|]. split; [done|].
  cbn [st]. by rewrite Ha, RestoreStream_rows, apply_rows.
Qed.

(** What the log has accepted so far, of a log that enables, appends what it
    acknowledges and stays enabled. *)
Section agreement.
Context (logged : WL -> list Query).
Hypothesis Hcommit : forall ctx q w f w1 w2,
  w_Write ctx q w = (Ret (Ok f), w1) -> w_Await f ctx w1 = (Ret (Ok None), w2) ->
  logged w2 = logged w ++ [q] /\ w_IsEnable w2 = w_IsEnable w.

(** The calls one client makes, all of which answer without an error. *)
Fixpoint all_ok (calls : list (Context.t * Query)) (s s' : t K WL) : Prop :=
  match calls with
  | [] => s' = s
  | (ctx, q) :: calls' =>
      exists v s1, Execute ctx q s = (Ret (Ok v), s1) /\ all_ok calls' s1 s'
  end.

Definition apply_all (qs : list Query) (m : gmap gostring gostring) : gmap gostring gostring :=
  foldl (fun m q => query_apply q m) m qs.

(** A master whose log holds parsed queries that lead from [m0] to what the
    storage holds. *)
Record agrees (m0 : gmap gostring gostring) (s : t K WL) : Prop := mkAgrees {
  ag_wf : kv_wf (st s);
  ag_master : isMaster s = true;
  ag_enable : w_IsEnable (wal s) = true;
  ag_log : Forall query_wf (logged (wal s));
  ag_abs : kv_abs (st s) = apply_all (logged (wal s)) m0
}.

Lemma Execute_ok_step ctx q (s s1 : t K WL) v m0 :
  query_wf q -> agrees m0 s -> Execute ctx q s = (Ret (Ok v), s1) -> agrees m0 s1.
Proof using Hcommit.
  intros Hq [Hwf Hm He Hl Hag]. unfold Execute, go_get. unfold go_bind at 1. unfold go_bind at 1.
  rewrite He. destruct (setInWal ctx q s) as [[[[]|e]| |] s0] eqn:Ew; try done.
  destruct (setInWal_store _ _ _ _ _ Ew) as [Hst Hm0].
  unfold go_bind. rewrite Hm0, Hm. cbn [negb andb]. intros E.
  destruct (exec_spec ctx q s0 Hq) as (k & E' & Hk & Ha); [by rewrite Hst|].
  rewrite E' in E. assert (Context.ctx_Err ctx = None) as Hctx.
  { unfold ctx_result in E. by destruct (Context.ctx_Err ctx). }
  injection E as _ <-. unfold ctx_guard in Ha. rewrite Hctx, Hst, Hag in Ha.
  unfold setInWal in Ew. destruct (N.eqb_spec (MethodID q) GetMethodID) as [Hget|Hget].
  - injection Ew as <-. split; cbn [set_st st wal isMaster]; try done. rewrite Ha. unfold query_apply, apply_cmd. by rewrite Hget.
  - unfold go_bind, on_wal, go_zoom in Ew.
    destruct (w_Write ctx q (wal s)) as [[[f|e]| |] w1] eqn:E1; try done. cbn [wal st isMaster] in Ew.
    destruct (w_Await f ctx w1) as [[[[e|]|e]| |] w2] eqn:E2; try done.
    injection Ew as <-. destruct (Hcommit _ _ _ _ _ _ E1 E2) as [Hlog Hen].
    split; cbn [set_st st wal isMaster]; rewrite ?Hlog; try done || congruence.
    + apply Forall_app. auto.
    + unfold apply_all. by rewrite foldl_app, Ha.
Qed.

Lemma all_ok_agrees calls (s s' : t K WL) m0 :
  Forall (fun c => query_wf c.2) calls -> agrees m0 s -> all_ok calls s s' -> agrees m0 s'.
Proof using Hcommit.
  intros Hq. revert s. induction Hq as [|[ctx q] calls Hq _ IH]; intros s Hag; cbn [all_ok].
  - by intros ->.
  - intros (v & s1 & E & Hcalls). eapply IH, Hcalls. by eapply Execute_ok_step.
Qed.

(** The log and the storage agree.  On a master with the log enabled,
    after any sequence of calls that all answered without an error, the
    storage holds what replaying the log gives: a restart would restore the
    very same data. *)
Theorem Execute_log_agrees (calls : list (Context.t * Query)) (s s' : t K WL) (m0 : gmap gostring gostring)
    (Hq : Forall (fun c => query_wf c.2) calls) (Hwf : kv_wf (st s)) (Hm : isMaster s = true)
    (He : w_IsEnable (wal s) = true) (Hlog : Forall query_wf (logged (wal s)))
    (Hag : kv_abs (st s) = apply_all (logged (wal s)) m0) (Hcalls : all_ok calls s s') :
  kv_abs (st s') = apply_all (logged (wal s')) m0.
Proof using Hcommit. eapply ag_abs, (all_ok_agrees calls s); done. Qed.

End agreement.
End properties.

(** ** An example

    A log that is a list of queries and acknowledges at once. *)

Module DatabaseWitnesses.
Import Database DatabaseFacts.

#[export] Instance list_wal : WALOps (list Query) := {|
  w_future := unit;
  w_IsEnable := fun _ => true;
  w_Write := fun _ q w => (Ret (Ok tt), w ++ [q]);
  w_Await := fun _ _ w => (Ret (Ok None), w);
  w_RestoreStream := fun w => (Ret [w], w)
|}.

Abbreviation db := (t (Storage.t MemEngine.t) (list Query)).

Definition ex_db (master : bool) : db := mk (Storage.New (MemEngine.NewEngine 4)) [] master.

Definition ex_set : Query := NewQuery SetMethodID [str "k"; str "v"].
Definition ex_get : Query := NewQuery GetMethodID [str "k"].

Lemma ex_set_wf : query_wf ex_set.
Proof. exists 2. split; [reflexivity|]. simpl. lia. Qed.

Lemma ex_get_wf : query_wf ex_get.
Proof. exists 1. split; [reflexivity|]. simpl. lia. Qed.

Lemma Execute_behaviour_witness :
  exists k, Execute Context.Background ex_set (ex_db true) =
    (Ret (Ok (str "OK")), mk k [ex_set] true) /\ kv_abs k = {[ str "k" := str "v" ]}.
Proof.
  destruct (NewStorage_wf 4) as [Hwf Ha].
  destruct (Execute_behaviour Context.Background ex_set (ex_db true)
    (mk (Storage.New (MemEngine.NewEngine 4)) [ex_set] true) (Ok tt) ex_set_wf Hwf)
    as (res & k & E & _ & -> & Hk); [reflexivity|].
  exists k. split; [exact E|]. etransitivity; [exact Hk|].
  change (kv_abs (st (ex_db true))) with (kv_abs (Storage.New (MemEngine.NewEngine 4))).
  rewrite Ha. reflexivity.
Defined.

Lemma slave_logs_refused_writes_witness :
  Execute Context.Background ex_set (ex_db false) =
    (Ret (Err ErrNonReadOpSlave), mk (Storage.New (MemEngine.NewEngine 4)) [ex_set] false).
Proof.
  eapply (slave_logs_refused_writes Context.Background ex_set (ex_db false)); [..|discriminate| |];
    reflexivity.
Defined.

Lemma NewDatabase_replays_witness :
  exists d, NewDatabase (Storage.New (MemEngine.NewEngine 4)) true [ex_set] = Ret (Ok d) /\
    kv_abs (st d) = replay [Row.NewRow 1 SetMethodID [str "k"; str "v"]] ∅.
Proof.
  destruct (NewStorage_wf 4) as [Hwf Ha].
  destruct (NewDatabase_replays (Storage.New (MemEngine.NewEngine 4)) true [ex_set] [ex_set]
    [[Row.NewRow 1 SetMethodID [str "k"; str "v"]]] Hwf) as (d & E & _ & _ & Hd).
  - reflexivity.
  - reflexivity.
  - apply Forall_cons_2; [|apply Forall_nil_2]. left. by do 3 eexists.
  - exists d. split; [exact E|]. rewrite Hd, Ha. reflexivity.
Defined.

Lemma Execute_log_agrees_witness :
  exists s', all_ok [(Context.Background, ex_set); (Context.Background, ex_get)] (ex_db true) s' /\
    kv_abs (st s') = apply_all (wal s') ∅.
Proof.
  assert (exists s', all_ok [(Context.Background, ex_set); (Context.Background, ex_get)]
    (ex_db true) s') as [s' Hs].
  { set (r1 := Execute Context.Background ex_set (ex_db true)).
    set (r2 := Execute Context.Background ex_get (snd r1)).
    exists (snd r2). exists (str "OK"), (snd r1). split.
    { assert (fst r1 = Ret (Ok (str "OK"))) as <- by (vm_compute; reflexivity).
      apply surjective_pairing. }
    exists (str "v"), (snd r2). split; [|reflexivity].
    assert (fst r2 = Ret (Ok (str "v"))) as <- by (vm_compute; reflexivity).
    apply surjective_pairing. }
  exists s'. split; [exact Hs|]. destruct (NewStorage_wf 4) as [Hwf Ha].
  eapply (Execute_log_agrees (fun w => w)); [|..|exact Hs]; try done.
  - intros ctx q w f w1 w2 [= <- <-] [= <-]. split; reflexivity.
  - apply Forall_cons_2; [exact ex_set_wf|]. apply Forall_cons_2; [exact ex_get_wf|apply Forall_nil_2].
Defined.

End DatabaseWitnesses.
