(* ===== verification/Sessions.v ===== *)
(** * Many connections on one database

    [database.go] under concurrent callers: any number of connections execute
    their commands one after the other, all of them on the same log, with its
    worker, and on the same storage.  A call of [Execute] is taken apart into
    the actions other goroutines can come between: the steps of [WAL.Write],
    the wait for the future, the deadline that ends it, and the command on the
    storage, which [Shards] shows to be one.

    The log keeps the order in which rows are sent and the storage the order
    in which commands run, and nothing ties the two together.  The theorems
    say when they agree all the same, and that they need not. *)

From S2P Require Import Prelude Utils Query Storage WalRecord FileSystem SegmentManager Logs Concurrency.
From S2P Require Import Retry Wal Database.

Module Sessions.
Section sessions.
Context {K : Type} `{!KVStore K} {LG : Type}.
Context (writer : list Row.t -> Go LG (option error)) (env : Env) (isMaster : bool).

(** A call of [Execute]; its name is that of the future it makes. *)
Record call := mkCall { id : nat; ctx : Context.t; query : Query }.

(** Where a call has got to: inside [e.wal.Write], in [GetResponseWithDeadline],
    or past [setInWal]. *)
Inductive phase := Logging | Awaiting | Executing.

(** A connection: the calls to come, the one in progress, and the answers. *)
Record session := mkSession {
  todo : list call;
  current : option (call * phase);
  answered : list (call * result gostring)
}.

Record t := mk { st : K; wal : WAL.t LG; sessions : list session }.

Definition is_read (q : Query) : bool := (MethodID q =? GetMethodID)%N.

Definition set_session (i : nat) (se : session) (s : t) : t :=
  mk (st s) (wal s) (<[i := se]> (sessions s)).

(** [Execute] returns [r]. *)
Definition finish (c : call) (r : result gostring) (se : session) : session :=
  mkSession (todo se) None (answered se ++ [(c, r)]).

Definition goes_to (c : call) (ph : phase) (se : session) : session :=
  mkSession (todo se) (Some (c, ph)) (answered se).

(** The calls of all connections, as the log will see them. *)
Definition calls_of (programs : list (list call)) : gmap nat WAL.client :=
  list_to_map ((fun c => (id c, WAL.CStart (ctx c) (query c))) <$>
    filter (fun c => is_read (query c) = false) (concat programs)).

Definition start (k : K) (w : WAL.t LG) (programs : list (list call)) : t :=
  mk k w ((fun p => mkSession p None []) <$> programs).

Inductive step : t -> WAL.label -> t -> Prop :=
(** A call begins; [setInWal] returns at once for a read. *)
| step_begin i c p l s :
    sessions s !! i = Some (mkSession (c :: p) None l) ->
    step s WAL.Quiet
      (set_session i (mkSession p (Some (c, if is_read (query c) then Executing else Logging)) l) s)
(** The log moves: its worker, or one of the calls that are in [Write]. *)
| step_wal l w s :
    WAL.step writer env (wal s) l w ->
    (forall c, WAL.clients w !! c <> WAL.clients (wal s) !! c ->
      exists i se k, sessions s !! i = Some se /\ current se = Some (k, Logging) /\ id k = c) ->
    step s l (mk (st s) w (sessions s))
(** [Write] returns a future, or an error. *)
| step_written i c se s :
    sessions s !! i = Some se -> current se = Some (c, Logging) ->
    WAL.clients (wal s) !! id c = Some (WAL.CReturned None) ->
    step s WAL.Quiet (set_session i (goes_to c Awaiting se) s)
| step_refused i c e se s :
    sessions s !! i = Some se -> current se = Some (c, Logging) ->
    WAL.clients (wal s) !! id c = Some (WAL.CReturned (Some e)) ->
    step s WAL.Quiet (set_session i (finish c (Err e) se) s)
(** [GetResponseWithDeadline]: the worker has answered, or the context ends. *)
| step_logged i c se s :
    sessions s !! i = Some se -> current se = Some (c, Awaiting) ->
    WAL.answers (wal s) !! id c = Some None ->
    step s WAL.Quiet (set_session i (goes_to c Executing se) s)
| step_failed i c e se s :
    sessions s !! i = Some se -> current se = Some (c, Awaiting) ->
    WAL.answers (wal s) !! id c = Some (Some e) ->
    step s WAL.Quiet (set_session i (finish c (Err e) se) s)
| step_late i c e se s :
    sessions s !! i = Some se -> current se = Some (c, Awaiting) ->
    e = DeadlineExceeded \/ e = ContextCanceled ->
    step s WAL.Quiet (set_session i (finish c (Err e) se) s)
(** The check of the role, and the command. *)
| step_slave i c se s :
    sessions s !! i = Some se -> current se = Some (c, Executing) ->
    isMaster = false -> is_read (query c) = false ->
    step s WAL.Quiet (set_session i (finish c (Err ErrNonReadOpSlave) se) s)
| step_exec i c r db se s :
    sessions s !! i = Some se -> current se = Some (c, Executing) ->
    isMaster = true \/ is_read (query c) = true ->
    Database.exec (ctx c) (query c) (Database.mk (st s) (wal s) isMaster) = (Ret r, db) ->
    step s WAL.Quiet (mk (Database.st db) (wal s) (<[i := finish c r se]> (sessions s)))
(** A panic ends the connection. *)
| step_panic i c db se s :
    sessions s !! i = Some se -> current se = Some (c, Executing) ->
    isMaster = true \/ is_read (query c) = true ->
    Database.exec (ctx c) (query c) (Database.mk (st s) (wal s) isMaster) = (Panics, db) ->
    step s WAL.Quiet (mk (Database.st db) (wal s) (<[i := mkSession [] None (answered se)]> (sessions s))).

Inductive reach (s0 : t) : list WAL.label -> t -> Prop :=
| reach_start : reach s0 [] s0
| reach_step ls s l s' : reach s0 ls s -> step s l s' -> reach s0 (ls ++ [l]) s'.

End sessions.
Arguments session : clear implicits.
Arguments t : clear implicits.
End Sessions.

(** ** Commands on one key *)

(** The command changes the key [k]. *)
Definition writes_to (k : gostring) (q : Query) : bool :=
  negb (Sessions.is_read q) && bool_decide (head (GetArgs q) = Some k).

Definition run_queries (qs : list Query) (m : gmap gostring gostring) : gmap gostring gostring :=
  foldl (fun m q => query_apply q m) m qs.

(** The commands among [qs] that change [k]. *)
Definition key_log (k : gostring) (qs : list Query) : list Query := filter (fun q => writes_to k q = true) qs.

Module SessionFacts.
Import Sessions.

Lemma query_apply_other q m k : writes_to k q = false -> query_apply q m !! k = m !! k.
Proof.
  unfold writes_to, is_read, query_apply, apply_cmd.
  destruct (MethodID q =? GetMethodID)%N eqn:E; cbn.
  { intros _. apply N.eqb_eq in E. by rewrite E. }
  intros Hk%bool_decide_eq_false. destruct (_ =? SetMethodID)%N.
  - destruct (GetArgs q) as [|k0 [|v r]]; [done..|]. apply lookup_insert_ne. by intros ->.
  - destruct (_ =? DelMethodID)%N; [|done]. destruct (GetArgs q) as [|k0 r]; [done|].
    apply lookup_delete_ne. by intros ->.
Qed.

Lemma query_apply_local q m1 m2 k : m1 !! k = m2 !! k -> query_apply q m1 !! k = query_apply q m2 !! k.
Proof.
  intros Hm. unfold query_apply, apply_cmd. destruct (_ =? SetMethodID)%N.
  - destruct (GetArgs q) as [|k0 [|v r]]; [done..|].
    destruct (decide (k0 = k)) as [->|Hne]; [by rewrite !lookup_insert_eq|by rewrite !lookup_insert_ne].
  - destruct (_ =? DelMethodID)%N; [|done]. destruct (GetArgs q) as [|k0 r]; [done|].
    destruct (decide (k0 = k)) as [->|Hne]; [by rewrite !lookup_delete_eq|by rewrite !lookup_delete_ne].
Qed.

Lemma key_log_app k qs1 qs2 : key_log k (qs1 ++ qs2) = key_log k qs1 ++ key_log k qs2.
Proof. apply filter_app. Qed.

Lemma key_log_one k q : key_log k [q] = if writes_to k q then [q] else [].
Proof. unfold key_log. rewrite filter_cons, filter_nil. by destruct (writes_to k q). Qed.

Lemma run_queries_snoc qs q m : run_queries (qs ++ [q]) m = query_apply q (run_queries qs m).
Proof. unfold run_queries. by rewrite foldl_app. Qed.

(** Only the commands on a key matter to it. *)
Lemma run_queries_key k qs m : run_queries qs m !! k = run_queries (key_log k qs) m !! k.
Proof.
  induction qs as [|q qs IH] using rev_ind; [done|].
  rewrite key_log_app, key_log_one, run_queries_snoc. destruct (writes_to k q) eqn:E.
  - rewrite run_queries_snoc. by apply query_apply_local.
  - rewrite app_nil_r. by rewrite query_apply_other.
Qed.

(** *** What the log knows of a call *)

(** The moves of a call of [Write] in the log. *)
Inductive moves : WAL.client -> WAL.label -> WAL.client -> Prop :=
| moves_canceled ctx q e : moves (WAL.CStart ctx q) WAL.Quiet (WAL.CReturned (Some e))
| moves_number ctx q n :
    moves (WAL.CStart ctx q) WAL.Quiet (WAL.CSend (Row.NewRow n (MethodID q) (GetArgs q)))
| moves_send r : moves (WAL.CSend r) (WAL.Sent r) (WAL.CRegister r)
| moves_register r : moves (WAL.CRegister r) WAL.Quiet (WAL.CReturned None).

(** A step of the log moves one call, or none and sends nothing. *)
Lemma wal_step_moves {LG} (writer : list Row.t -> Go LG (option error)) env w l w' :
  WAL.step writer env w l w' ->
  (exists c pc pc', WAL.clients w !! c = Some pc /\ moves pc l pc' /\
     WAL.clients w' = <[c := pc']> (WAL.clients w)) \/
  (WAL.clients w' = WAL.clients w /\ WalFacts.sent [l] = []).
Proof.
  destruct 1; cbn [WAL.clients WAL.set_client WAL.set_wk WAL.take_row];
    first [left; eexists _, _, _; split; [eassumption|]; split; [constructor|reflexivity]
          |right; split; [reflexivity|]; try destruct err; reflexivity].
Qed.

Lemma moves_ne pc l pc' : moves pc l pc' -> pc <> pc'.
Proof. by destruct 1. Qed.

(** What the log holds for a call in progress is that call's. *)
Definition is_for (c : call) (pc : WAL.client) : Prop :=
  match pc with
  | WAL.CStart _ q => q = query c
  | WAL.CSend r | WAL.CRegister r => row_query r = query c
  | WAL.CReturned _ => True
  end.

Lemma moves_for c pc l pc' : moves pc l pc' -> is_for c pc -> is_for c pc'.
Proof. destruct 1; cbn; try done. intros <-. by destruct q. Qed.

(** The row of the call has been sent. *)
Definition has_sent (pc : WAL.client) : bool :=
  match pc with WAL.CRegister _ | WAL.CReturned None => true | _ => false end.

Lemma moves_sent c pc l pc' : moves pc l pc' -> is_for c pc ->
  row_query <$> WalFacts.sent [l] = if has_sent pc then [] else if has_sent pc' then [query c] else [].
Proof. destruct 1; intros H; try reflexivity. cbn [is_for] in H. by rewrite <-H. Qed.

Lemma moves_has_sent pc l pc' : moves pc l pc' -> has_sent pc = true -> has_sent pc' = true.
Proof. by destruct 1. Qed.

Lemma replay_run rows m : replay rows m = run_queries (row_query <$> rows) m.
Proof. unfold replay, run_queries. by rewrite foldl_fmap. Qed.

(** *** The invariant *)

Lemma elem_of_concat {A} (ll : list (list A)) j l x : ll !! j = Some l -> x ∈ l -> x ∈ concat ll.
Proof.
  intros Hj Hx. apply list_elem_of_In, in_concat. exists l.
  split; apply list_elem_of_In; [by eapply list_elem_of_lookup_2|done].
Qed.

Lemma NoDup_concat_in {A B} (f : A -> B) ll j l :
  NoDup (f <$> concat ll) -> ll !! j = Some l -> NoDup (f <$> l).
Proof.
  intros Hnd (l1 & l2 & -> & _)%list_elem_of_split_length. revert Hnd.
  rewrite concat_app. cbn [concat]. rewrite !fmap_app.
  intros (_ & _ & (? & _)%NoDup_app)%NoDup_app. done.
Qed.

Lemma NoDup_concat_apart {A B} (f : A -> B) ll j j' l l' x x' :
  NoDup (f <$> concat ll) -> ll !! j = Some l -> ll !! j' = Some l' -> j <> j' ->
  x ∈ l -> x' ∈ l' -> f x <> f x'.
Proof.
  revert j j'. induction ll as [|l0 ll IH]; intros j j' Hnd Hj Hj' Hne Hx Hx' E; [done|].
  cbn [concat] in Hnd. rewrite fmap_app in Hnd. apply NoDup_app in Hnd as (_ & Hap & Hnd).
  assert (forall n (l1 : list A) y, ll !! n = Some l1 -> y ∈ l1 -> f y ∈ f <$> concat ll) as Hin.
  { intros n l1 y Hl1 Hy. apply list_elem_of_fmap_2. by eapply elem_of_concat. }
  destruct j as [|j], j' as [|j']; cbn in Hj, Hj'; [done|..].
  - injection Hj as ->. apply (Hap (f x)); [by apply list_elem_of_fmap_2|]. rewrite E. by eapply Hin.
  - injection Hj' as ->. apply (Hap (f x')); [by apply list_elem_of_fmap_2|]. rewrite <-E. by eapply Hin.
  - eapply (IH j j'); eauto.
Qed.

Definition current_call (se : session) : list call :=
  match current se with Some (c, _) => [c] | None => [] end.

Definition session_calls (se : session) : list call := (answered se).*1 ++ current_call se ++ todo se.

(** What a connection relies on in the log. *)
Definition session_log (cl : gmap nat WAL.client) (se : session) : Prop :=
  (forall c, c ∈ todo se -> is_read (query c) = false ->
    exists x, cl !! id c = Some (WAL.CStart x (query c))) /\
  match current se with
  | None => True
  | Some (c, Logging) => is_read (query c) = false /\ exists pc, cl !! id c = Some pc /\ is_for c pc
  | Some (c, Awaiting) => is_read (query c) = false /\ cl !! id c = Some (WAL.CReturned None)
  | Some (c, Executing) => is_read (query c) = true \/ cl !! id c = Some (WAL.CReturned None)
  end.

Section invariant.
Context {K : Type} `{!KVStore K} `{!KVLaws K} {LG : Type}.
Context (writer : list Row.t -> Go LG (option error)) (env : Env).
Context (programs : list (list call)) (i : nat) (k : gostring) (m0 : gmap gostring gostring).

Hypothesis Hids : NoDup (id <$> concat programs).
Hypothesis Hwf : Forall (fun c => query_wf (query c)) (concat programs).
Hypothesis Hown : forall j p c, programs !! j = Some p -> c ∈ p -> writes_to k (query c) = true -> j = i.

(** The command on [k] that is in the log and not yet run. *)
Definition in_flight (cl : gmap nat WAL.client) (se : session) : list Query :=
  match current se with
  | Some (c, _) =>
      if writes_to k (query c) && from_option has_sent false (cl !! id c) then [query c] else []
  | None => []
  end.

(** No write of [k] has failed. *)
Definition no_failed_write (se : session) : Prop :=
  Forall (fun a => writes_to k (query a.1) = true -> is_ok a.2 = true) (answered se).

Definition run_so_far (se : session) : list Query := key_log k (query <$> (answered se).*1).

(** As long as no write of [k] has failed, the log has of [k] what the owner's
    calls wrote and at most the one in progress besides, and the storage has
    what they wrote. *)
Definition key_ok (ls : list WAL.label) (cl : gmap nat WAL.client) (x : K) (se : session) : Prop :=
  no_failed_write se ->
  key_log k (row_query <$> WalFacts.sent ls) = run_so_far se ++ in_flight cl se /\
  kv_abs x !! k = run_queries (run_so_far se) m0 !! k.

Record inv (ls : list WAL.label) (s : t K LG) : Prop := mkInv {
  iv_calls : session_calls <$> sessions s = programs;
  iv_log : forall j se, sessions s !! j = Some se -> session_log (WAL.clients (wal s)) se;
  iv_wf : kv_wf (st s);
  iv_key : forall se, sessions s !! i = Some se -> key_ok ls (WAL.clients (wal s)) (st s) se
}.

(** A connection goes on while the log stands still. *)
Lemma inv_move ls s j se se' x :
  inv ls s -> sessions s !! j = Some se -> session_calls se' = session_calls se ->
  session_log (WAL.clients (wal s)) se' -> kv_wf x ->
  (j = i -> key_ok ls (WAL.clients (wal s)) x se') ->
  (j <> i -> kv_abs x !! k = kv_abs (st s) !! k) ->
  inv (ls ++ [WAL.Quiet]) (mk x (wal s) (<[j := se']> (sessions s))).
Proof.
  intros [Hc Hl Hw Hk] Hj Hcalls Hlog Hx Hsame Hother. constructor; cbn [st wal sessions].
  - rewrite list_fmap_insert, Hcalls, <-Hc. apply list_insert_id. by rewrite list_lookup_fmap, Hj.
  - intros j' se0. destruct (decide (j = j')) as [<-|Hne].
    + rewrite list_lookup_insert_eq by (by eapply lookup_lt_Some). by intros [= <-].
    + rewrite list_lookup_insert_ne by done. apply Hl.
  - done.
  - intros se0. unfold key_ok. rewrite WalFacts.sent_snoc, app_nil_r. destruct (decide (j = i)) as [->|Hne].
    + rewrite list_lookup_insert_eq by (by eapply lookup_lt_Some). intros [= <-]. by apply Hsame.
    + rewrite list_lookup_insert_ne by done. intros H. rewrite Hother by done. by apply Hk.
Qed.

Lemma inv_programs ls s j se : inv ls s -> sessions s !! j = Some se -> programs !! j = Some (session_calls se).
Proof. intros H Hj. rewrite <-(iv_calls _ _ H), list_lookup_fmap. by rewrite Hj. Qed.

(** A call in progress shares its name with no other call that is not over. *)
Lemma inv_apart ls s j j' se se' c ph c' :
  inv ls s -> sessions s !! j = Some se -> current se = Some (c, ph) -> sessions s !! j' = Some se' ->
  (c' ∈ todo se' \/ j' <> j /\ c' ∈ current_call se') -> id c' <> id c.
Proof.
  intros H Hj Hc Hj' Hc'. pose proof (inv_programs _ _ _ _ H Hj) as Hp. pose proof (inv_programs _ _ _ _ H Hj') as Hp'.
  destruct (decide (j' = j)) as [->|Hne].
  - destruct Hc' as [Hc'|[? _]]; [|done]. rewrite Hj in Hj'. injection Hj' as <-.
    pose proof (NoDup_concat_in _ _ _ _ Hids Hp) as Hnd. unfold session_calls, current_call in Hnd. rewrite Hc in Hnd.
    rewrite !fmap_app in Hnd. apply NoDup_app in Hnd as (_ & _ & (_ & Hap & _)%NoDup_app). intros E.
    apply (Hap (id c)); [by apply list_elem_of_singleton|]. rewrite <-E. by apply list_elem_of_fmap_2.
  - eapply (NoDup_concat_apart id programs j' j); try done; unfold session_calls; rewrite !elem_of_app.
    + destruct Hc' as [?|[_ ?]]; auto.
    + unfold current_call. rewrite Hc. right. left. by apply list_elem_of_singleton.
Qed.

(** A write of [k] in progress is the owner's. *)
Lemma inv_owner ls s j se c ph :
  inv ls s -> sessions s !! j = Some se -> current se = Some (c, ph) -> j <> i -> writes_to k (query c) = false.
Proof.
  intros H Hj Hc Hne. apply not_true_iff_false. intros E. apply Hne. eapply Hown; [by eapply inv_programs| |done].
  unfold session_calls, current_call. rewrite Hc, !elem_of_app, list_elem_of_singleton. auto.
Qed.

(** One call moves in the log. *)
Lemma session_log_move ls s j se c pc pc' l j' se' :
  inv ls s -> sessions s !! j = Some se -> current se = Some (c, Logging) -> moves pc l pc' ->
  WAL.clients (wal s) !! id c = Some pc -> sessions s !! j' = Some se' ->
  session_log (<[id c := pc']> (WAL.clients (wal s))) se'.
Proof.
  intros H Hj Hc Hm Hpc Hj'. destruct (iv_log _ _ H j' se' Hj') as [Ht Hcur].
  assert (forall c', c' ∈ todo se' \/ j' <> j /\ c' ∈ current_call se' -> id c <> id c') as Hap.
  { intros c' Hc' E. symmetry in E. by eapply (inv_apart _ _ _ _ _ _ _ _ _ H Hj Hc Hj'). }
  split.
  - intros c' Hc' Hr. rewrite lookup_insert_ne by auto. by apply Ht.
  - destruct (decide (j' = j)) as [->|Hne].
    + rewrite Hj in Hj'. injection Hj' as <-. rewrite Hc in *. destruct Hcur as (Hr & pc1 & Hpc1 & Hfor).
      rewrite Hpc in Hpc1. injection Hpc1 as <-. split; [done|]. exists pc'. rewrite lookup_insert_eq.
      split; [done|]. by eapply moves_for.
    + unfold current_call in Hap. destruct (current se') as [[c' ph]|]; [|done].
      assert (id c <> id c') by (apply Hap; right; by rewrite list_elem_of_singleton).
      by destruct ph; rewrite lookup_insert_ne.
Qed.

Lemma key_ok_move ls s j se c pc pc' l se' :
  inv ls s -> sessions s !! j = Some se -> current se = Some (c, Logging) -> moves pc l pc' ->
  WAL.clients (wal s) !! id c = Some pc -> sessions s !! i = Some se' ->
  key_ok (ls ++ [l]) (<[id c := pc']> (WAL.clients (wal s))) (st s) se'.
Proof.
  intros H Hj Hc Hm Hpc Hi Hok. destruct (iv_key _ _ H se' Hi Hok) as [Hlog Hst]. split; [|done].
  destruct (iv_log _ _ H j se Hj) as [_ Hfor]. rewrite Hc in Hfor. destruct Hfor as (_ & pc1 & E & Hfor).
  rewrite Hpc in E. injection E as <-. pose proof (moves_sent _ _ _ _ Hm Hfor) as Hsent.
  unfold WalFacts.sent in *. rewrite omap_app, fmap_app, key_log_app, Hlog, Hsent, <-(assoc_L (++)). f_equal.
  unfold in_flight. destruct (decide (j = i)) as [->|Hne].
  - rewrite Hj in Hi. injection Hi as <-. rewrite Hc, Hpc, lookup_insert_eq. cbn [from_option].
    pose proof (moves_has_sent _ _ _ Hm) as Hmono.
    destruct (has_sent pc), (has_sent pc'); rewrite ?key_log_one; destruct (writes_to k (query c)); try done.
    all: by specialize (Hmono eq_refl).
  - pose proof (inv_owner _ _ _ _ _ _ H Hj Hc Hne) as Hw.
    assert (key_log k (if has_sent pc then [] else if has_sent pc' then [query c] else []) = []) as ->.
    { destruct (has_sent pc), (has_sent pc'); try done. by rewrite key_log_one, Hw. }
    rewrite app_nil_r. destruct (current se') as [[c' ph]|] eqn:Hc'; [|done].
    rewrite lookup_insert_ne; [done|]. intros E. symmetry in E. revert E.
    eapply (inv_apart _ _ _ _ _ _ _ _ _ H Hj Hc Hi). right. split; [done|].
    unfold current_call. by rewrite Hc', list_elem_of_singleton.
Qed.

Lemma inv_wal ls s l w :
  inv ls s -> WAL.step writer env (wal s) l w ->
  (forall c, WAL.clients w !! c <> WAL.clients (wal s) !! c ->
    exists j se x, sessions s !! j = Some se /\ current se = Some (x, Logging) /\ id x = c) ->
  inv (ls ++ [l]) (mk (st s) w (sessions s)).
Proof.
  intros H Hs Hgate. destruct (wal_step_moves _ _ _ _ _ Hs) as [(c0 & pc & pc' & Hpc & Hm & Hw)|[Hw Hsent]].
  - destruct (Hgate c0) as (j & se & c & Hj & Hc & <-).
    { rewrite Hw, lookup_insert_eq, Hpc. intros [= E]. by apply (moves_ne _ _ _ Hm). }
    constructor; cbn [st wal sessions]; rewrite ?Hw; [apply H|..].
    + intros j' se' Hj'. exact (session_log_move _ _ _ _ _ _ _ _ _ _ H Hj Hc Hm Hpc Hj').
    + apply H.
    + intros se' Hi. exact (key_ok_move _ _ _ _ _ _ _ _ _ H Hj Hc Hm Hpc Hi).
  - constructor; cbn [st wal sessions]; rewrite ?Hw; [apply H..|].
    intros se' Hi Hok. unfold WalFacts.sent in *. rewrite omap_app, Hsent, app_nil_r. by apply (iv_key _ _ H).
Qed.

(** *** The calls *)

Lemma run_so_far_finish c r se :
  run_so_far (finish c r se) = run_so_far se ++ if writes_to k (query c) then [query c] else [].
Proof. unfold run_so_far, finish. cbn [answered]. rewrite !fmap_app, key_log_app. apply (f_equal (app _)), key_log_one. Qed.

Lemma no_failed_write_finish c r se :
  no_failed_write (finish c r se) ->
  no_failed_write se /\ (writes_to k (query c) = true -> is_ok r = true).
Proof. unfold no_failed_write, finish. cbn [answered]. by intros [? H%Forall_inv]%Forall_app. Qed.

Lemma session_calls_finish c ph r se : current se = Some (c, ph) -> session_calls (finish c r se) = session_calls se.
Proof.
  intros E. unfold session_calls, current_call, finish. cbn [answered current todo]. rewrite E, fmap_app.
  by rewrite <-(assoc_L (++)).
Qed.

(** A call goes on to its next phase. *)
Lemma inv_goes_to ls s j se c ph ph' :
  inv ls s -> sessions s !! j = Some se -> current se = Some (c, ph) ->
  session_log (WAL.clients (wal s)) (goes_to c ph' se) ->
  inv (ls ++ [WAL.Quiet]) (set_session j (goes_to c ph' se) s).
Proof.
  intros H Hj Hc Hlog. eapply inv_move; try done.
  - unfold session_calls, current_call, goes_to. cbn [answered current todo]. by rewrite Hc.
  - apply H.
  - intros -> Hok. destruct (iv_key _ _ H se Hj Hok) as [E1 E2]. split; [|done].
    rewrite E1. f_equal. unfold in_flight, goes_to. cbn [current]. by rewrite Hc.
Qed.

(** A call returns an error before it reaches the storage. *)
Lemma inv_error ls s j se c ph e :
  inv ls s -> sessions s !! j = Some se -> current se = Some (c, ph) ->
  inv (ls ++ [WAL.Quiet]) (set_session j (finish c (Err e) se) s).
Proof.
  intros H Hj Hc. eapply inv_move; try done.
  - by eapply session_calls_finish.
  - destruct (iv_log _ _ H j se Hj) as [Ht _]. by split.
  - apply H.
  - intros -> [Hok Hw]%no_failed_write_finish. destruct (iv_key _ _ H se Hj Hok) as [E1 E2].
    unfold key_ok. rewrite run_so_far_finish. destruct (writes_to k (query c)) eqn:Ew; [by specialize (Hw eq_refl)|].
    rewrite !app_nil_r. split; [|done]. rewrite E1. unfold in_flight. rewrite Hc, Ew. apply app_nil_r.
Qed.

(** A call reaches the storage. *)
Lemma inv_exec ls s j se c r db :
  inv ls s -> sessions s !! j = Some se -> current se = Some (c, Executing) ->
  Database.exec (ctx c) (query c) (Database.mk (st s) (wal s) true) = (r, db) ->
  exists a, r = Ret a /\
  inv (ls ++ [WAL.Quiet]) (mk (Database.st db) (wal s) (<[j := finish c a se]> (sessions s))).
Proof.
  intros H Hj Hc E. assert (query_wf (query c)) as Hq.
  { rewrite Forall_forall in Hwf. apply Hwf. eapply elem_of_concat; [by eapply inv_programs|].
    unfold session_calls, current_call. rewrite Hc, !elem_of_app, list_elem_of_singleton. auto. }
  destruct (DatabaseFacts.exec_spec (ctx c) (query c) (Database.mk (st s) (wal s) true) Hq (iv_wf _ _ H))
    as (x & E' & Hx & Habs). cbn [Database.st] in *. rewrite E in E'. injection E' as -> ->.
  eexists. split; [reflexivity|]. unfold DatabaseFacts.set_st. cbn [Database.st].
  assert (writes_to k (query c) = false -> kv_abs x !! k = kv_abs (st s) !! k) as Hother.
  { intros Hw. rewrite Habs. unfold ctx_guard. destruct (Context.ctx_Err _); [done|]. by apply query_apply_other. }
  eapply inv_move; try done.
  - by eapply session_calls_finish.
  - destruct (iv_log _ _ H j se Hj) as [Ht _]. by split.
  - intros -> [Hok Hw]%no_failed_write_finish. destruct (iv_key _ _ H se Hj Hok) as [E1 E2].
    rewrite run_so_far_finish. destruct (iv_log _ _ H i se Hj) as [_ Hl]. rewrite Hc in Hl.
    unfold in_flight in *. rewrite Hc in E1. cbn [current finish]. rewrite app_nil_r.
    destruct (writes_to k (query c)) eqn:Ew.
    + destruct Hl as [Hr|Hl]; [by unfold writes_to in Ew; rewrite Hr in Ew|]. rewrite Hl in E1.
      split; [done|]. rewrite run_queries_snoc, Habs. unfold ctx_guard, ctx_result in *.
      destruct (Context.ctx_Err (ctx c)); [by specialize (Hw eq_refl)|]. by apply query_apply_local.
    + cbn [andb] in E1. rewrite !app_nil_r in *. split; [done|]. by rewrite Hother.
  - intros Hne. apply Hother. by eapply inv_owner.
Qed.

Lemma inv_begin ls s j c p l :
  inv ls s -> sessions s !! j = Some (mkSession (c :: p) None l) ->
  inv (ls ++ [WAL.Quiet])
    (set_session j (mkSession p (Some (c, if is_read (query c) then Executing else Logging)) l) s).
Proof.
  intros H Hj. destruct (iv_log _ _ H j _ Hj) as [Ht _]. cbn [todo] in Ht. eapply inv_move; try done.
  - split; cbn [todo current]; [intros c' Hc'; apply Ht; by right|].
    destruct (is_read (query c)) eqn:Hr; [by left|]. split; [done|].
    destruct (Ht c) as [x Hx]; [by left|done|]. by exists (WAL.CStart x (query c)).
  - apply H.
  - intros -> Hok. destruct (iv_key _ _ H _ Hj Hok) as [E1 E2]. split; [|done]. rewrite E1. f_equal.
    unfold in_flight. cbn [current]. unfold writes_to. destruct (is_read (query c)) eqn:Hr; [done|].
    destruct (Ht c) as [x Hx]; [by left|done|]. rewrite Hx. by rewrite andb_false_r.
Qed.

Lemma sessions_inv_step ls s l s' : inv ls s -> step writer env true s l s' -> inv (ls ++ [l]) s'.
Proof.
  intros H Hs. destruct Hs as [j c p d s Hj|l w s Hs Hg|j c se s Hj Hc Hr|j c e se s Hj Hc _
    |j c se s Hj Hc _|j c e se s Hj Hc _|j c e se s Hj Hc _|j c se s Hj Hc [=]|j c r db se s Hj Hc _ E
    |j c db se s Hj Hc _ E].
  - by apply inv_begin.
  - by apply inv_wal.
  - eapply inv_goes_to; try done. destruct (iv_log _ _ H j se Hj) as [Ht Hl]. rewrite Hc in Hl.
    split; [done|]. by split; [apply Hl|].
  - by eapply inv_error.
  - eapply inv_goes_to; try done. destruct (iv_log _ _ H j se Hj) as [Ht Hl]. rewrite Hc in Hl.
    split; [done|]. right. apply Hl.
  - by eapply inv_error.
  - by eapply inv_error.
  - by destruct (inv_exec _ _ _ _ _ _ _ H Hj Hc E) as (a & [= ->] & Ha).
  - by destruct (inv_exec _ _ _ _ _ _ _ H Hj Hc E) as (a & [=] & _).
Qed.

Lemma calls_of_lookup c :
  c ∈ concat programs -> is_read (query c) = false ->
  calls_of programs !! id c = Some (WAL.CStart (ctx c) (query c)).
Proof.
  intros Hc Hr. apply elem_of_list_to_map_1.
  - rewrite <-list_fmap_compose. eapply sublist_NoDup; [exact Hids|]. apply (fmap_sublist id), sublist_filter.
  - apply list_elem_of_fmap. exists c. split; [done|]. by apply list_elem_of_filter.
Qed.

(** The invariant holds at first. *)
Lemma inv_start x w :
  kv_wf x -> kv_abs x = m0 -> WAL.clients w = calls_of programs -> inv [] (start x w programs).
Proof.
  intros Hx Hm Hw. constructor; cbn [st wal sessions start].
  - rewrite <-list_fmap_compose. apply list_fmap_id.
  - intros j se Hj. apply list_lookup_fmap_Some in Hj as (p & -> & Hp). rewrite Hw. split; [|done].
    intros c Hc Hr. exists (ctx c). apply calls_of_lookup; [|done]. by eapply elem_of_concat.
  - done.
  - intros se Hi. apply list_lookup_fmap_Some in Hi as (p & -> & Hp). intros _. by rewrite Hm.
Qed.

Lemma sessions_inv_reach s0 ls s : inv [] s0 -> reach writer env true s0 ls s -> inv ls s.
Proof. intros H0. induction 1; [done|]. by eapply sessions_inv_step. Qed.

End invariant.
End SessionFacts.

(** A run of the connections is a run of the log they share. *)
Lemma sessions_wal_reach {K} `{!KVStore K} {LG} (writer : list Row.t -> Go LG (option error)) env master
    (s0 s : Sessions.t K LG) ls :
  Sessions.reach writer env master s0 ls s ->
  exists ls', WAL.reach writer env (Sessions.wal s0) ls' (Sessions.wal s) /\ WalFacts.sent ls' = WalFacts.sent ls.
Proof.
  induction 1 as [|ls s l s' _ (ls' & Hr & Hs) Hstep]; [by exists []; split; [constructor|]|].
  destruct Hstep; try (exists ls'; rewrite WalFacts.sent_snoc, app_nil_r; by split).
  exists (ls' ++ [l]). rewrite !WalFacts.sent_snoc, Hs. split; [|done]. by eapply WAL.reach_step.
Qed.

(** ** Properties *)

Section properties.
Import Sessions SessionFacts.
Context {K : Type} `{!KVStore K} `{!KVLaws K} {LG : Type}.
Context (writer : list Row.t -> Go LG (option error)) (env : Env).

(** C8: log and storage agree on a key with one writer.  Any number of
    connections execute their commands on a master, in any interleaving with
    each other, with the worker of the log and with deadlines that pass.  If
    only one of them writes the key [k], no write of [k] has been answered with
    an error and none is in progress, then the log on disk, with the rows that
    are still on their way to it, restores exactly the value of [k] that the
    storage holds.  The conditions are those of a log without failed flushes:
    the calls are parsed queries whose rows fit the record format, the log
    stays below 2^63 bytes, the clock has a name for every new file and no
    system call fails. *)
Theorem single_writer_log_agrees `{!LogTarget LG writer} (programs : list (list call)) (i : nat) (k : gostring)
    (x : K) (w0 : WAL.t LG) (D0 : list Row.t) (n0 : nat) (ls : list WAL.label) (s : t K LG) (se : session)
    (Hcalls : WAL.clients w0 = calls_of programs) (Hbuf : WAL.queryBuf w0 = [])
    (Hch : Chan.buf (WAL.queryCh w0) = []) (Hwk : WAL.wk w0 = WAL.Loop)
    (Hdisk : tg_holds (WAL.disk w0) D0 n0) (Hx : kv_wf x) (Hm : kv_abs x = replay D0 ∅)
    (Hids : NoDup (id <$> concat programs)) (Hwf : Forall (fun c => query_wf (query c)) (concat programs))
    (Hown : forall j p c, programs !! j = Some p -> c ∈ p -> writes_to k (query c) = true -> j = i)
    (Hrun : reach writer env true (start x w0 programs) ls s)
    (Hrows : Forall Row.wf (D0 ++ WalFacts.sent ls))
    (Hsize : (ManagerFacts.volume (D0 ++ WalFacts.sent ls) < 2 ^ 63)%Z)
    (Hroom : (length (WalFacts.sent ls) <= n0)%nat)
    (Hi : sessions s !! i = Some se) (Hidle : current se = None) (Hok : no_failed_write k se) :
  exists D n, tg_holds (WAL.disk (wal s)) D n /\
    replay (D ++ WAL.queryBuf (wal s) ++ Chan.buf (WAL.queryCh (wal s))) ∅ !! k = kv_abs (st s) !! k.
Proof.
  destruct (sessions_wal_reach _ _ _ _ _ _ Hrun) as (ls' & Hwal & Hs). rewrite <-Hs in Hrows, Hsize, Hroom.
  destruct (WalFacts.log_inv_reach writer env D0 n0 _ ls' _ Hbuf Hch Hwk Hdisk Hwal Hrows Hsize Hroom)
    as [(D & n & Hh & _ & Hf) _ _].
  exists (D0 ++ D), n. split; [done|]. rewrite <-(assoc_L (++)), Hf, Hs, replay_app, <-Hm, replay_run, run_queries_key.
  pose proof (sessions_inv_reach writer env programs i k (kv_abs x) Hids Hwf Hown _ _ _
    (inv_start programs i k (kv_abs x) Hids x w0 Hx eq_refl Hcalls) Hrun) as Hinv.
  destruct (iv_key _ _ _ _ _ _ Hinv se Hi Hok) as [-> ->].
  unfold in_flight. by rewrite Hidle, app_nil_r.
Qed.

End properties.

(** ** Runs *)

Module SessionRuns.
Import Sessions Runs.

Definition set_call (n : nat) (v : gostring) : call :=
  mkCall n Context.Background (NewQuery SetMethodID [str "k"; v]).

Definition c1 : call := set_call 1 (str "1").
Definition c2 : call := set_call 2 (str "2").

Definition row_1 : Row.t := Row.NewRow 1 SetMethodID [str "k"; str "1"].
Definition row_2 : Row.t := Row.NewRow 2 SetMethodID [str "k"; str "2"].

Lemma set_call_wf n v : query_wf (query (set_call n v)).
Proof. exists 2. split; [reflexivity|]. simpl. lia. Qed.

(** One step of a run, and the state after it. *)
Ltac go R tac :=
  eapply reach_step in R; [|tac]; cbv beta delta [set_session goes_to finish] in R;
  cbn [st wal sessions todo current answered app start fmap list_fmap
       insert list_insert WAL.lsnGen WAL.queryCh WAL.queryBuf WAL.futureResp WAL.answers WAL.clients WAL.wk
       WAL.flushBatchSize WAL.disk WAL.set_client WAL.set_wk WAL.take_row new_wal] in R.

Ltac begin_ R j := go R ltac:(eapply (step_begin _ _ _ j); reflexivity).
(** The call [n] of connection [j] moves in the log. *)
Ltac client R j n tac :=
  go R ltac:(eapply step_wal; [tac|];
    let c := fresh in intros c; destruct (decide (n = c)) as [<-|];
    [intros _; exists j; do 2 eexists; repeat split; reflexivity
    |cbn; rewrite lookup_insert_ne by done; by intros []]).
Ltac s_number R j n := client R j n ltac:(eapply (WAL.step_number _ _ n); reflexivity).
Ltac s_send R j n := client R j n ltac:(eapply (WAL.step_send _ _ n); reflexivity).
Ltac s_register R j n := client R j n ltac:(eapply (WAL.step_register _ _ n); reflexivity).
Ltac worker R tac := go R ltac:(eapply step_wal; [tac|cbn; by intros ? []]).
Ltac s_recv R := worker R ltac:(eapply WAL.step_recv; reflexivity).
Ltac s_flush R :=
  worker R ltac:(eapply WAL.step_tick; [reflexivity|discriminate]);
  worker R ltac:(eapply WAL.step_write; reflexivity);
  worker R ltac:(eapply WAL.step_collect; reflexivity).
Ltac s_answer R := worker R ltac:(eapply WAL.step_answer; reflexivity).
Ltac s_answered R := worker R ltac:(eapply WAL.step_answered; reflexivity).
Ltac written R j := go R ltac:(eapply (step_written _ _ _ j); reflexivity).
(** The call [c] of connection [j] runs on a storage that is well-formed by [Hwf]. *)
Ltac exec_ R j c Hwf x' E Hwf' Ha :=
  lazymatch type of R with
  | reach _ _ _ _ _ (mk ?x ?w _) =>
      destruct (DatabaseFacts.exec_spec Context.Background (query c) (Database.mk x w true) (set_call_wf _ _) Hwf)
        as (x' & E & Hwf' & Ha); cbn [Database.st] in Ha;
      go R ltac:(eapply (step_exec _ _ _ j); [reflexivity|reflexivity|left; reflexivity|exact E]);
      cbn [DatabaseFacts.set_st Database.st] in R
  end.
Ltac logged R j := go R ltac:(eapply (step_logged _ _ _ j); reflexivity).

End SessionRuns.

Section runs.
Import Sessions SessionFacts SessionRuns Runs.

(** C37: log and storage may disagree.  Two connections set the same key at the
    same time; both writes are logged, answered and run, but they run in the
    other order: everything is at rest, the storage holds the first value and a
    restart restores the second. *)
Theorem concurrent_writes_diverge (nshards : Z) :
  let w := new_wal (calls_of [[c1]; [c2]]) in
  let x := Storage.New (MemEngine.NewEngine nshards) in
  exists ls s, reach list_writer quiet true (start x w [[c1]; [c2]]) ls s /\
    sessions s = [mkSession [] None [(c1, Ok (str "OK"))]; mkSession [] None [(c2, Ok (str "OK"))]] /\
    WAL.disk (wal s) = [row_1; row_2] /\ WAL.queryBuf (wal s) = [] /\ Chan.buf (WAL.queryCh (wal s)) = [] /\
    kv_abs (st s) !! str "k" = Some (str "1") /\
    replay (WAL.disk (wal s)) ∅ !! str "k" = Some (str "2").
Proof.
  cbv zeta. destruct (NewStorage_wf nshards) as [Hwf Ha].
  pose proof (reach_start list_writer quiet true
    (start (Storage.New (MemEngine.NewEngine nshards)) (new_wal (calls_of [[c1]; [c2]])) [[c1]; [c2]])) as R.
  begin_ R 0. begin_ R 1. s_number R 0 1. s_number R 1 2. s_send R 0 1. s_send R 1 2.
  s_register R 0 1. s_register R 1 2. s_recv R. s_recv R. s_flush R. s_answer R. s_answer R. s_answered R.
  written R 0. written R 1. logged R 0. logged R 1.
  exec_ R 1 c2 Hwf x2 E2 Hwf2 Ha2. exec_ R 0 c1 Hwf2 x1 E1 Hwf1 Ha1.
  eexists _, _. split; [exact R|]. do 4 (split; [reflexivity|]). cbn [st wal WAL.disk]. split.
  - rewrite Ha1. apply lookup_insert_eq.
  - reflexivity.
Qed.

(** A write that was refused may be restored: the deadline of [setInWal]
    passes before the worker flushes, the connection is told of an error and
    the storage does not have the value, but the row is on its way and a
    restart restores it. *)
Theorem late_write_restored (nshards : Z) :
  let w := new_wal (calls_of [[c1]]) in
  let x := Storage.New (MemEngine.NewEngine nshards) in
  exists ls s, reach list_writer quiet true (start x w [[c1]]) ls s /\
    sessions s = [mkSession [] None [(c1, Err DeadlineExceeded)]] /\
    kv_abs (st s) = ∅ /\ replay (WAL.disk (wal s)) ∅ !! str "k" = Some (str "1").
Proof.
  cbv zeta. destruct (NewStorage_wf nshards) as [Hwf Ha].
  pose proof (reach_start list_writer quiet true
    (start (Storage.New (MemEngine.NewEngine nshards)) (new_wal (calls_of [[c1]])) [[c1]])) as R.
  begin_ R 0. s_number R 0 1. s_send R 0 1. s_register R 0 1. written R 0.
  go R ltac:(eapply (step_late _ _ _ 0 _ DeadlineExceeded); [reflexivity|reflexivity|by left]).
  s_recv R. s_flush R.
  eexists _, _. split; [exact R|]. split; [reflexivity|]. split; [exact Ha|reflexivity].
Qed.

(** Two connections, each with a key of its own. *)
Definition c3 : call := mkCall 2 Context.Background (NewQuery SetMethodID [str "b"; str "2"]).

Lemma c3_own j p c :
  [[c1]; [c3]] !! j = Some p -> c ∈ p -> writes_to (str "k") (query c) = true -> j = 0%nat.
Proof. destruct j as [|[|j]]; [done| |done]. by intros [= <-] ->%list_elem_of_singleton. Qed.

Lemma single_writer_log_agrees_witness :
  exists ls (s : t (Storage.t MemEngine.t) (list Row.t)),
    WalFacts.sent ls = [row_b; row_1] /\ kv_abs (st s) !! str "k" = Some (str "1") /\
    exists D n, tg_holds (LogTarget := list_target) (WAL.disk (wal s)) D n /\
      replay (D ++ WAL.queryBuf (wal s) ++ Chan.buf (WAL.queryCh (wal s))) ∅ !! str "k" =
      kv_abs (st s) !! str "k".
Proof.
  destruct (NewStorage_wf 4) as [Hwf Ha].
  pose proof (reach_start list_writer quiet true
    (start (Storage.New (MemEngine.NewEngine 4)) (new_wal (calls_of [[c1]; [c3]])) [[c1]; [c3]])) as R.
  begin_ R 0. begin_ R 1. s_number R 0 1. s_number R 1 2. s_send R 1 2. s_send R 0 1.
  s_register R 0 1. s_recv R. s_recv R. s_flush R. s_answer R. s_answered R. written R 0. logged R 0.
  exec_ R 0 c1 Hwf x1 E1 Hwf1 Ha1.
  assert (tg_holds (LogTarget := list_target) (WAL.disk (new_wal (calls_of [[c1]; [c3]]))) [] 10%nat) as Hd by reflexivity.
  lazymatch type of R with reach _ _ _ _ ?ls ?s => exists ls, s end. split; [|split; [|
    eapply (single_writer_log_agrees (LG := list Row.t) list_writer quiet [[c1]; [c3]] 0 (str "k")
      (Storage.New (MemEngine.NewEngine 4)) (new_wal (calls_of [[c1]; [c3]])) [] 10 _ _ _
      eq_refl eq_refl eq_refl eq_refl Hd Hwf Ha)]].
  5: exact c3_own.
  5: exact R.
  - reflexivity.
  - cbn [st]. rewrite Ha1. apply lookup_insert_eq.
  - by apply (bool_decide_unpack _).
  - apply Forall_cons_2; [apply set_call_wf|]. apply Forall_cons_2; [|done].
    exists 2. split; [reflexivity|]. simpl. lia.
  - by apply (bool_decide_unpack _).
  - reflexivity.
  - simpl. lia.
  - reflexivity.
  - reflexivity.
  - by repeat constructor.
Defined.

End runs.
