(* ===== verification/Transport.v ===== *)
(** * Handlers and transports

    [internal/handlers] and [internal/transport]: a handler reads one line,
    parses it, executes it and writes one line back; the TCP listener calls it
    in a loop on a connection, the CLI listener on the standard input; the
    TCP client sends requests and reconnects.

    The database behind the handler is any state with an [Execute]. *)

From S2P Require Import Prelude Utils Query FileSystem Logs Concurrency Retry Replication.

(** ** [bufio.Reader] *)

Module BufReader.

(** The bytes read ahead and the reads still to come. *)
Record t := mk { ahead : bytes; rest : reader }.

Definition newline : byte := x0a.

(** The bytes up to and with the first newline, and those after it. *)
Fixpoint cut_line (b : bytes) : option (bytes * bytes) :=
  match b with
  | [] => None
  | x :: b' =>
      if bool_decide (x = newline) then Some ([x], b')
      else match cut_line b' with Some (l, r) => Some (x :: l, r) | None => None end
  end.

(** [ReadBytes('\n')]: the line, or what there is and the error that ends the
    stream.  After the last read the stream answers [io.EOF]; an error is
    consumed by the call that reports it. *)
Fixpoint ReadBytes_loop (ahead : bytes) (r : reader) : result bytes * t :=
  match cut_line ahead with
  | Some (l, b) => (Ok l, mk b r)
  | None =>
      match r with
      | [] => (Err EOF, mk [] [])
      | (b, None) :: r' => ReadBytes_loop (ahead ++ b) r'
      | (b, Some e) :: r' =>
          match cut_line (ahead ++ b) with
          | Some (l, b') => (Ok l, mk b' (([], Some e) :: r'))
          | None => (Err e, mk [] r')
          end
      end
  end.

Definition ReadBytes (br : t) : result bytes * t := ReadBytes_loop (ahead br) (rest br).

End BufReader.

(** ** [UniversalHandler] *)

Module UniversalHandler.
Section handler.
Context {D : Type} (Execute : Context.t -> Query -> Go D (result gostring)).

(** The state of a connection: the database, the reader and the writer. *)
Record conn := mkConn { db : D; rd : BufReader.t; wr : BufWriter.t }.

Definition on_db {A} (c : Go D A) : Go conn A := go_zoom db (fun d s => mkConn d (rd s) (wr s)) c.
Definition on_wr {A} (c : Go BufWriter.t A) : Go conn A := go_zoom wr (fun w s => mkConn (db s) (rd s) w) c.

Definition ReadLine : Go conn (result bytes) :=
  fun s => let '(r, rd') := BufReader.ReadBytes (rd s) in (Ret r, mkConn (db s) rd' (wr s)).

Definition write (v : gostring) : Go conn (option error) :=
  let! err := on_wr (BufWriter.Write (v ++ [BufReader.newline])) in
  match err with
  | Some e => go_ret (Some e)
  | None => on_wr BufWriter.Flush
  end.

Definition writeError (e : error) : Go conn (option error) :=
  if errors_Is e EOF then go_ret (Some e) else write (Error e).

Definition Handle (ctx : Context.t) : Go conn (option error) :=
  match Context.ctx_Err ctx with
  | Some e => go_ret (Some e)
  | None =>
      let! inp := ReadLine in
      match inp with
      | Err e => writeError e
      | Ok inp =>
          let! q := Parse inp in
          match q with
          | Err e => writeError e
          | Ok q =>
              let! v := on_db (Execute ctx q) in
              match v with
              | Err e => writeError e
              | Ok v =>
                  let! err := write v in
                  match err with
                  | Some e => writeError e
                  | None => go_ret None
                  end
              end
          end
      end
  end.

End handler.
Arguments conn : clear implicits.
End UniversalHandler.

(** ** The TCP listener *)

(** The settings of [config.TCPServer]; durations in nanoseconds. *)
Record TCPServer := mkTCPServer {
  Address : gostring;
  MaxConn : Z;
  MaxMessageSize : Z;
  IdleTimeout : Z;
  SemWaitTimeout : Z
}.

(** [errors.As(err, &netErr)] with a [*net.OpError]. *)
Fixpoint is_OpError (e : error) : bool :=
  match e with
  | OpError _ => true
  | Wrapped _ e' => is_OpError e'
  | _ => false
  end.

Module tcpListener.
Import UniversalHandler.

Definition defaultAddress : gostring := str "0.0.0.0:8080".
Definition defaultMaxConn : Z := 100.
Definition defaultMaxMsgSize : Z := 4096.
Definition defaultSemWaitTimeout : Z := 5000000000.
Definition defaultIdleTimeout : Z := 300000000000.

Definition or_default (v d : Z) : Z := if bool_decide (v = 0%Z) then d else v.

(** The settings a listener runs with, and its semaphore; a negative number of
    connections panics in [make]. *)
Definition NewListener (c : TCPServer) : outcome (TCPServer * Semaphore.t) :=
  let l := mkTCPServer
    (if bool_decide (Address c = []) then defaultAddress else Address c)
    (or_default (MaxConn c) defaultMaxConn)
    (or_default (MaxMessageSize c) defaultMaxMsgSize)
    (or_default (IdleTimeout c) defaultIdleTimeout)
    (or_default (SemWaitTimeout c) defaultSemWaitTimeout) in
  match Semaphore.NewSemaphore (MaxConn l) with
  | Ret sem => Ret (l, sem)
  | Panics => Panics
  | Blocks => Blocks
  end.

Section listener.
Context {D : Type} (Handle : Context.t -> Go (conn D) (option error)).

(** One iteration of the loop of [handleConnection]: whether it breaks. *)
Definition iteration (ctx : Context.t) : Go (conn D) bool :=
  let! err := Handle ctx in
  match err with
  | Some e =>
      if errors_Is e EOF then go_ret true
      else if is_OpError e then go_ret true
      else go_ret false
  | None => go_ret false
  end.

(** The loop of [handleConnection]; [fuel] is the number of calls of [Handle]
    and running out of it is [Blocks]. *)
Fixpoint handleConnection (fuel : nat) (ctx : Context.t) : Go (conn D) unit :=
  match fuel with
  | O => go_block
  | S f =>
      let! stop := iteration ctx in
      if stop then go_ret tt else handleConnection f ctx
  end.

(** A connection the listener accepted: a goroutine serves it, the goroutine
    has given its slot back and is about to close it, or it is closed. *)
Inductive phase := Running | Closing | Closed.

Record peer := mkPeer { peer_rd : BufReader.t; peer_wr : BufWriter.t; peer_phase : phase }.

(** The database all connections share, the semaphore and the connections in
    the order they were accepted. *)
Record t := mk { shared : D; sem : Semaphore.t; peers : list peer }.

Definition is_running (p : peer) : bool := match peer_phase p with Running => true | _ => false end.
Definition count (ps : list peer) : nat := length (filter (fun p => is_running p = true) ps).
Definition running (l : t) : nat := count (peers l).

(** [writeToConn], whose error is only logged. *)
Definition writeToConn (v : gostring) (w : BufWriter.t) : BufWriter.t :=
  match BufWriter.broken w with
  | Some _ => w
  | None => BufWriter.mk (BufWriter.buf w) (BufWriter.out w ++ v) None
  end.

(** The accept loop and the goroutines it starts.  An iteration of a
    connection runs on the shared database; its deferred function, run after
    the loop or after a panic, releases the semaphore and then closes. *)
Inductive step (ctx : Context.t) : t -> t -> Prop :=
| step_accept d s ps r w fired pick s' :
    Semaphore.AcquireWithDeadline fired pick s = (Ret true, s') ->
    step ctx (mk d s ps) (mk d s' (ps ++ [mkPeer r w Running]))
| step_reject d s ps r w fired pick s' :
    Semaphore.AcquireWithDeadline fired pick s = (Ret false, s') ->
    step ctx (mk d s ps)
      (mk d s' (ps ++ [mkPeer r (writeToConn (str "too many connections") w) Closed]))
| step_serve d s ps i r w c :
    ps !! i = Some (mkPeer r w Running) ->
    iteration ctx (mkConn d r w) = (Ret false, c) ->
    step ctx (mk d s ps) (mk (db c) s (<[i := mkPeer (rd c) (wr c) Running]> ps))
| step_leave d s ps i r w c o s' :
    ps !! i = Some (mkPeer r w Running) ->
    iteration ctx (mkConn d r w) = (o, c) -> o = Ret true \/ o = Panics ->
    Semaphore.Release s = (Ret tt, s') ->
    step ctx (mk d s ps) (mk (db c) s' (<[i := mkPeer (rd c) (wr c) Closing]> ps))
| step_close d s ps i r w :
    ps !! i = Some (mkPeer r w Closing) ->
    step ctx (mk d s ps) (mk d s (<[i := mkPeer r w Closed]> ps)).

End listener.
Arguments t : clear implicits.
End tcpListener.

(** ** The CLI listener *)

Module cliListener.
Import UniversalHandler.
Section cli.
Context {D : Type} (Handle : Context.t -> Go (conn D) (option error)).

(** Every call of [Handle] gets the standard input and output themselves and
    makes a [bufio.Reader] and a [bufio.Writer] of its own, so what the last
    ones held is gone. *)
Definition fresh_buffers : Go (conn D) unit :=
  go_put (fun s => mkConn (db s) (BufReader.mk [] (BufReader.rest (rd s)))
    (BufWriter.mk [] (BufWriter.out (wr s)) (BufWriter.broken (wr s)))).

(** [n] iterations of the loop; the error of [Handle] is only logged. *)
Fixpoint loop (n : nat) (ctx : Context.t) : Go (conn D) unit :=
  match n with
  | O => go_ret tt
  | S n' =>
      match Context.ctx_Err ctx with
      | Some _ => go_ret tt
      | None =>
          do! fresh_buffers in
          do! Handle ctx in
          loop n' ctx
      end
  end.

(** The prompt goes to the standard output directly, and only once. *)
Definition listen (n : nat) (ctx : Context.t) : Go (conn D) unit :=
  do! go_put (fun s : conn D =>
    mkConn (db s) (rd s) (tcpListener.writeToConn (str "laguna db > ") (wr s))) in
  loop n ctx.

End cli.
End cliListener.

(** [transport.NewListener]: which listener a configured type means. *)
Inductive listener_kind := TCP | CLI.

Definition NewListener (type : gostring) : listener_kind :=
  if bool_decide (type = str "tcp") then TCP
  else if bool_decide (type = str "cli") then CLI
  else CLI.

(** ** Lemmas *)

Lemma cut_line_Some a l b :
  BufReader.cut_line a = Some (l, b) ->
  exists l', l = l' ++ [BufReader.newline] /\ (BufReader.newline ∉ l') /\ a = l ++ b.
Proof.
  revert l. induction a as [|x a IH]; intros l; cbn [BufReader.cut_line]; [done|].
  case_bool_decide as Hx.
  - intros [= <- <-]. subst x. exists []. split; [done|]. split; [apply not_elem_of_nil|done].
  - destruct (BufReader.cut_line a) as [[l1 b1]|]; [|done]. intros [= <- <-].
    destruct (IH l1 eq_refl) as (l' & -> & Hl' & ->). exists (x :: l').
    split; [done|]. split; [|done]. by apply not_elem_of_cons.
Qed.

Lemma cut_line_None a : BufReader.cut_line a = None -> BufReader.newline ∉ a.
Proof.
  induction a as [|x a IH]; cbn [BufReader.cut_line]; [intros; apply not_elem_of_nil|].
  case_bool_decide; [done|]. destruct (BufReader.cut_line a) as [[]|]; [done|].
  intros _. apply not_elem_of_cons. auto.
Qed.

(** The bytes a reader without errors still has to give. *)
Definition pending (br : BufReader.t) : bytes :=
  BufReader.ahead br ++ stream_data (BufReader.rest br).

Definition no_errors (br : BufReader.t) : Prop :=
  Forall (fun c => c.2 = None) (BufReader.rest br).

(** Reading a line takes the first line off the bytes to come, however they
    are cut; a last line without a newline is the end of the file. *)
Lemma ReadBytes_line br :
  no_errors br ->
  match BufReader.ReadBytes br with
  | (Ok l, br') => exists l', l = l' ++ [BufReader.newline] /\ (BufReader.newline ∉ l') /\
      pending br = l ++ pending br' /\ no_errors br'
  | (Err e, br') => e = EOF /\ (BufReader.newline ∉ pending br) /\ pending br' = [] /\ no_errors br'
  end.
Proof.
  destruct br as [a r]. unfold no_errors, pending, BufReader.ReadBytes. cbn [BufReader.ahead BufReader.rest].
  revert a. induction r as [|[b e] r IH]; intros a Hr; cbn [BufReader.ReadBytes_loop];
    destruct (BufReader.cut_line a) as [[l b']|] eqn:Ec.
  - apply cut_line_Some in Ec as (l' & -> & Hl' & ->). exists l'. cbn.
    rewrite !app_nil_r. auto.
  - cbn. split; [done|]. rewrite app_nil_r. split; [by apply cut_line_None|]. done.
  - apply cut_line_Some in Ec as (l' & -> & Hl' & ->). exists l'.
    cbn [BufReader.ahead BufReader.rest]. rewrite <-!(assoc_L (++)). auto.
  - apply Forall_cons in Hr as [He Hr]. cbn in He. subst e.
    specialize (IH (a ++ b) Hr). destruct (BufReader.ReadBytes_loop (a ++ b) r) as [[l|e] br'];
      cbn [stream_data]; rewrite (assoc_L (++)); exact IH.
Qed.

(** What the server computes for a line, and the line it sends back. *)
Definition serve {D} (Execute : Context.t -> Query -> Go D (result gostring)) (ctx : Context.t)
    (line : bytes) : Go D (result gostring) :=
  let! q := Parse line in
  match q with
  | Err e => go_ret (Err e)
  | Ok q => Execute ctx q
  end.

Fixpoint serve_all {D} (Execute : Context.t -> Query -> Go D (result gostring)) (ctx : Context.t)
    (lines : list bytes) : Go D (list (result gostring)) :=
  match lines with
  | [] => go_ret []
  | l :: lines' =>
      let! r := serve Execute ctx l in
      let! rs := serve_all Execute ctx lines' in
      go_ret (r :: rs)
  end.

(** The answers up to a line that is not answered, and how that one ended. *)
Fixpoint serve_prefix {D} (Execute : Context.t -> Query -> Go D (result gostring)) (ctx : Context.t)
    (lines : list bytes) (d : D) : list (result gostring) * (outcome unit * D) :=
  match lines with
  | [] => ([], (Ret tt, d))
  | l :: lines' =>
      match serve Execute ctx l d with
      | (Ret r, d1) => let '(rs, o) := serve_prefix Execute ctx lines' d1 in (r :: rs, o)
      | (Panics, d1) => ([], (Panics, d1))
      | (Blocks, d1) => ([], (Blocks, d1))
      end
  end.

(** The answer is sent: it is not an end of file, at which [writeError] only
    returns. *)
Definition is_sent (r : result gostring) : Prop := forall e, r = Err e -> errors_Is e EOF = false.

Lemma parse_spec_sent line e : parse_spec (Fields line) = Err e -> errors_Is e EOF = false.
Proof.
  unfold parse_spec. destruct (Fields line) as [|m [|key rest]]; [by intros [= <-]..|].
  repeat (case_bool_decide; [destruct rest; intros [= <-]; done|]). by intros [= <-].
Qed.

Lemma serve_all_length {D} (Execute : Context.t -> Query -> Go D (result gostring)) ctx lines d rs d' :
  serve_all Execute ctx lines d = (Ret rs, d') -> length rs = length lines.
Proof.
  revert d rs. induction lines as [|l lines IH]; intros d rs; cbn [serve_all]; [by intros [= <- _]|].
  unfold go_bind. destruct (serve Execute ctx l d) as [[r| |] d1]; try done.
  destruct (serve_all Execute ctx lines d1) as [[rs'| |] d2] eqn:E; try done.
  intros [= <- <-]. cbn. f_equal. by eapply IH.
Qed.

Definition reply (r : result gostring) : bytes :=
  match r with Ok v => v | Err e => Error e end ++ [BufReader.newline].

Module TransportFacts.
Import UniversalHandler.

Section facts.
Context {D : Type} (Execute : Context.t -> Query -> Go D (result gostring)) (ctx : Context.t).
Hypothesis Hctx : Context.ctx_Err ctx = None.

Lemma write_ok v (s : conn D) :
  BufWriter.broken (wr s) = None -> BufWriter.buf (wr s) = [] ->
  write v s = (Ret None, mkConn (db s) (rd s)
    (BufWriter.mk [] (BufWriter.out (wr s) ++ v ++ [BufReader.newline]) None)).
Proof using.
  intros Hb He. unfold write, go_bind, on_wr, go_zoom.
  destruct (MasterFacts.Write_Flush (v ++ [BufReader.newline]) (wr s)) as (w1 & -> & E); [done|by rewrite He; simpl; lia|].
  cbn [db rd wr]. rewrite E, He. done.
Qed.

(** One call of [Handle] on a connection with a line to read. *)
Lemma Handle_line line br' (s : conn D) o d' :
  BufWriter.broken (wr s) = None -> BufWriter.buf (wr s) = [] ->
  BufReader.ReadBytes (rd s) = (Ok line, br') -> serve Execute ctx line (db s) = (o, d') ->
  match o with
  | Ret r => is_sent r -> Handle Execute ctx s = (Ret None, mkConn d' br'
      (BufWriter.mk [] (BufWriter.out (wr s) ++ reply r) None))
  | Panics => Handle Execute ctx s = (Panics, mkConn d' br' (wr s))
  | Blocks => Handle Execute ctx s = (Blocks, mkConn d' br' (wr s))
  end.
Proof using Hctx.
  intros Hb He Hr E. unfold serve, go_bind in E. rewrite Parse_fields in E.
  assert (Handle Execute ctx s =
    (match parse_spec (Fields line) with
     | Err e => writeError e
     | Ok q =>
         let! v := on_db (Execute ctx q) in
         match v with
         | Err e => writeError e
         | Ok v => let! err := write v in match err with Some e => writeError e | None => go_ret None end
         end
     end) (mkConn (db s) br' (wr s))) as ->.
  { unfold Handle. rewrite Hctx. unfold go_bind at 1. unfold ReadLine. rewrite Hr.
    unfold go_bind at 1. by rewrite Parse_fields. }
  destruct (parse_spec (Fields line)) as [q|e].
  - unfold go_bind, on_db, go_zoom. cbn [db rd wr]. rewrite E.
    destruct o as [[v|e]| |]; [intros _|intros Hs|done..].
    + by rewrite write_ok.
    + unfold writeError. rewrite (Hs e eq_refl). by rewrite write_ok.
  - injection E as <- <-. intros Hs. unfold writeError. rewrite (Hs e eq_refl). by rewrite write_ok.
Qed.

(** Lines as they arrive, each with its newline. *)
Definition terminated (lines : list bytes) : list bytes := (fun l => l ++ [BufReader.newline]) <$> lines.

(** The first line of what is pending is known. *)
Lemma ReadBytes_next br line more :
  no_errors br -> (BufReader.newline ∉ line) ->
  pending br = line ++ [BufReader.newline] ++ more ->
  exists br', BufReader.ReadBytes br = (Ok (line ++ [BufReader.newline]), br') /\
    pending br' = more /\ no_errors br'.
Proof using.
  intros Hn Hl Hp. pose proof (ReadBytes_line br Hn) as H.
  destruct (BufReader.ReadBytes br) as [[l|e] br'].
  - destruct H as (l' & -> & Hl' & E & Hn'). exists br'.
    rewrite Hp, <-(assoc_L (++)) in E. symmetry in E.
    by apply not_elem_of_app_cons_inv_l in E as (-> & _ & ->).
  - destruct H as (-> & Hnot & _). destruct Hnot. rewrite Hp. apply elem_of_app. right. by left.
Qed.

(** A connection whose reads are used up. *)
Lemma Handle_end tail (s : conn D) :
  no_errors (rd s) -> pending (rd s) = tail -> (BufReader.newline ∉ tail) ->
  exists br', Handle Execute ctx s = (Ret (Some EOF), mkConn (db s) br' (wr s)) /\
    no_errors br' /\ pending br' = [].
Proof using Hctx.
  intros Hn <- Ht. unfold Handle. rewrite Hctx. unfold go_bind, ReadLine.
  pose proof (ReadBytes_line (rd s) Hn) as H. destruct (BufReader.ReadBytes (rd s)) as [[l|e] br'].
  - destruct H as (l' & -> & _ & E & _). destruct Ht. rewrite E, !elem_of_app. left. right. by left.
  - destruct H as (-> & _ & Hp & Hn'). by exists br'.
Qed.

Lemma handleConnection_lines lines tail fuel (s : conn D) rs o d' :
  BufWriter.broken (wr s) = None -> BufWriter.buf (wr s) = [] ->
  no_errors (rd s) -> Forall (fun l => BufReader.newline ∉ l) lines -> (BufReader.newline ∉ tail) ->
  pending (rd s) = concat (terminated lines) ++ tail -> length lines < fuel ->
  serve_prefix Execute ctx (terminated lines) (db s) = (rs, (o, d')) -> Forall is_sent rs ->
  exists br', tcpListener.handleConnection (Handle Execute) fuel ctx s =
    (o, mkConn d' br' (BufWriter.mk [] (BufWriter.out (wr s) ++ concat (reply <$> rs)) None)).
Proof using Hctx.
  revert fuel s rs. induction lines as [|l lines IH]; intros [|fuel] s rs Hb He Hn Hl Ht Hp Hf Hs Hrs; try (cbn in Hf; lia).
  - injection Hs as <- <- <-. destruct (Handle_end tail s Hn Hp Ht) as (br' & E & _). exists br'.
    cbn [tcpListener.handleConnection]. unfold tcpListener.iteration, go_bind. rewrite E.
    cbn. unfold go_ret. rewrite app_nil_r. destruct s as [d r [b w k]]. cbn in *. by subst.
  - apply Forall_cons in Hl as [Hl Hls].
    destruct (ReadBytes_next (rd s) l (concat (terminated lines) ++ tail)) as (br' & E & Hp' & Hn'); [done|done| |].
    { rewrite Hp. cbn. by rewrite <-!(assoc_L (++)). }
    cbn [terminated fmap list_fmap serve_prefix] in Hs.
    destruct (serve Execute ctx (l ++ [BufReader.newline]) (db s)) as [o1 d1] eqn:Es.
    pose proof (Handle_line _ _ s o1 d1 Hb He E Es) as Eh.
    cbn [tcpListener.handleConnection]. unfold tcpListener.iteration. unfold go_bind at 1. unfold go_bind at 1.
    destruct o1 as [r| |].
    + fold (terminated lines) in Hs. destruct (serve_prefix Execute ctx (terminated lines) d1) as [rs1 o2] eqn:Er.
      injection Hs as <- ->. apply Forall_cons in Hrs as [Hr Hrs]. rewrite (Eh Hr). unfold go_ret at 1.
      set (s1 := mkConn d1 br' _).
      destruct (IH fuel s1 rs1) as (br2 & Ec); try done; [cbn in Hf; lia|]. exists br2. rewrite Ec.
      cbn [s1 wr BufWriter.out fmap list_fmap concat]. by rewrite <-(assoc_L (++)).
    + injection Hs as <- <- <-. exists br'. rewrite Eh. cbn. rewrite app_nil_r.
      destruct s as [d r [b w k]]. cbn in *. by subst.
    + injection Hs as <- <- <-. exists br'. rewrite Eh. cbn. rewrite app_nil_r.
      destruct s as [d r [b w k]]. cbn in *. by subst.
Qed.

Lemma cut_line_first line junk :
  (BufReader.newline ∉ line) ->
  BufReader.cut_line (line ++ BufReader.newline :: junk) = Some (line ++ [BufReader.newline], junk).
Proof using.
  induction line as [|x line IH]; intros H; cbn [app BufReader.cut_line].
  - by rewrite bool_decide_true.
  - apply not_elem_of_cons in H as [Hx H]. rewrite bool_decide_false by done. by rewrite IH.
Qed.

(** The reads of a terminal: each begins with a whole line, and whatever else
    it holds comes after it. *)
Definition typed (chunks : list (bytes * bytes)) : reader :=
  (fun c => (c.1 ++ BufReader.newline :: c.2, None)) <$> chunks.

Lemma cli_loop_chunks chunks n (s : conn D) rs d' :
  BufWriter.broken (wr s) = None ->
  Forall (fun c => BufReader.newline ∉ c.1) chunks ->
  BufReader.rest (rd s) = typed chunks -> length chunks <= n ->
  serve_all Execute ctx (terminated (fst <$> chunks)) (db s) = (Ret rs, d') -> Forall is_sent rs ->
  exists s', cliListener.loop (Handle Execute) n ctx s = (Ret tt, s') /\ db s' = d' /\
    BufWriter.out (wr s') = BufWriter.out (wr s) ++ concat (reply <$> rs).
Proof using Hctx.
  revert n s rs. induction chunks as [|[l junk] chunks IH]; intros n s rs Hb Hl Hr Hn Hs Hrs.
  - injection Hs as <- <-. clear Hn. revert s Hb Hr. induction n as [|n IHn]; intros s Hb Hr.
    { exists s. cbn. by rewrite app_nil_r. }
    set (s0 := mkConn (db s) (BufReader.mk [] []) (BufWriter.mk [] (BufWriter.out (wr s)) None)).
    destruct (IHn s0 eq_refl eq_refl) as (s' & E & Hs'). exists s'.
    rewrite <-E in *. split; [|exact Hs']. cbn [cliListener.loop]. rewrite Hctx.
    unfold go_bind, cliListener.fresh_buffers, go_put, Handle. rewrite Hctx, Hr, Hb. done.
  - apply Forall_cons in Hl as [Hl Hls]. destruct n as [|n]; [cbn in Hn; lia|].
    set (s0 := mkConn (db s) (BufReader.mk [] (BufReader.rest (rd s)))
      (BufWriter.mk [] (BufWriter.out (wr s)) (BufWriter.broken (wr s)))).
    assert (BufReader.ReadBytes (rd s0) = (Ok (l ++ [BufReader.newline]), BufReader.mk junk (typed chunks))) as E.
    { unfold BufReader.ReadBytes, s0. cbn [rd BufReader.ahead BufReader.rest]. rewrite Hr.
      cbn [typed fmap list_fmap BufReader.ReadBytes_loop BufReader.cut_line app fst snd].
      destruct chunks; cbn [BufReader.ReadBytes_loop fmap list_fmap]; by rewrite cut_line_first. }
    cbn [terminated fmap list_fmap serve_all fst] in Hs. unfold go_bind at 1 in Hs.
    destruct (serve Execute ctx (l ++ [BufReader.newline]) (db s)) as [[r| |] d1] eqn:Es; try done.
    fold (terminated (fst <$> chunks)) in Hs. unfold go_bind in Hs.
    destruct (serve_all Execute ctx (terminated (fst <$> chunks)) d1) as [[rs1| |] d2] eqn:Er; try done.
    injection Hs as <- <-. apply Forall_cons in Hrs as [Hr1 Hrs].
    pose proof (Handle_line _ _ s0 (Ret r) d1 Hb eq_refl E Es Hr1) as Eh. set (s1 := mkConn d1 _ _) in Eh.
    destruct (IH n s1 rs1 eq_refl Hls eq_refl) as (s' & Ec & Hd & Ho); [cbn in Hn; lia|done|done|].
    exists s'. split; [|split; [done|]].
    + cbn [cliListener.loop]. rewrite Hctx. rewrite (go_bind_ret _ _ s tt s0) by done.
      by rewrite (go_bind_ret _ _ _ _ _ Eh).
    + rewrite Ho. cbn [s1 s0 wr BufWriter.out fmap list_fmap concat]. by rewrite <-(assoc_L (++)).
Qed.

End facts.
End TransportFacts.

(** ** The TCP client *)

(** A connection: what the peer has been sent and, when it is broken, how many
    bytes of a write it still takes and the error it then gives. *)
Record netConn := mkNetConn { sent : bytes; fails : option (nat * error) }.

Definition conn_Write (req : bytes) (c : netConn) : option error * netConn :=
  match fails c with
  | None => (None, mkNetConn (sent c ++ req) None)
  | Some (n, e) => (Some e, mkNetConn (sent c ++ take n req) (Some (n, e)))
  end.

(** The settings of [config.Client]. *)
Record ClientConfig := mkClientConfig {
  MaxRespSize : Z;
  Deadline : Z;
  RetryCount : Z
}.

Module Client.

(** [dials] are the connections that successive calls of [net.Dial] and
    [SetDeadline] will give, [dropped] those the client has replaced. *)
Record t := mk {
  conn : netConn;
  settings : ClientConfig;
  dials : list (result netConn);
  dropped : list netConn
}.

Definition defaultRespSizeB : Z := 4096.
Definition defaultDeadline : Z := 5000000000.
Definition defaultRetryCount : Z := 3.

Definition with_defaults (c : ClientConfig) : ClientConfig :=
  mkClientConfig (tcpListener.or_default (MaxRespSize c) defaultRespSizeB)
    (tcpListener.or_default (Deadline c) defaultDeadline)
    (tcpListener.or_default (RetryCount c) defaultRetryCount).

(** A dial beyond the known ones is refused. *)
Definition refused : error := OpError (str "connect: connection refused").

Definition setConn : Go t (option error) :=
  fun c =>
    match dials c with
    | Ok k :: ds => (Ret None, mk k (settings c) ds (dropped c ++ [conn c]))
    | Err e :: ds => (Ret (Some e), mk (conn c) (settings c) ds (dropped c))
    | [] => (Ret (Some refused), c)
    end.

Definition NewClient (conf : ClientConfig) (ds : list (result netConn)) : result t :=
  match ds with
  | Ok k :: ds' => Ok (mk k (with_defaults conf) ds' [])
  | Err e :: _ => Err e
  | [] => Err refused
  end.

Definition send (req : bytes) : Go t (option error) :=
  fun c => let '(err, k) := conn_Write req (conn c) in
    (Ret err, mk k (settings c) (dials c) (dropped c)).

(** The function [Send] retries. *)
Definition attempt (req : bytes) : Go t (option error) :=
  let! err := send req in
  match err with
  | Some _ =>
      let! errReconnect := setConn in
      match errReconnect with
      | Some e => go_ret (Some e)
      | None => go_ret None
      end
  | None => go_ret None
  end.

(** [Send]; what it returns to read from is the connection it ends with. *)
Definition Send (env : Env) (ctx : Context.t) (req : bytes) : Go (t * list Z) (result netConn) :=
  match Context.ctx_Err ctx with
  | Some e => go_ret (Err e)
  | None =>
      let! n := go_get (fun s => RetryCount (settings (fst s))) in
      let! err := WithRetry env n 200000000 (Some (attempt req)) in
      match err with
      | Some e => go_ret (Err e)
      | None => go_get (fun s => Ok (conn (fst s)))
      end
  end.

End Client.

(** ** Properties of the client *)

Module ClientFacts.
Import Client.

(** What an attempt does: the write succeeds, or the connection is replaced
    by one to which nothing was written, or neither. *)
Lemma attempt_cases req (c : t) :
  exists r c', attempt req c = (Ret r, c') /\
  match fails (conn c) with
  | None => r = None /\ c' = mk (mkNetConn (sent (conn c) ++ req) None) (settings c) (dials c) (dropped c)
  | Some (n, e) =>
      let k := mkNetConn (sent (conn c) ++ take n req) (Some (n, e)) in
      match dials c with
      | Ok k' :: ds => r = None /\ c' = mk k' (settings c) ds (dropped c ++ [k])
      | Err e' :: ds => r = Some e' /\ c' = mk k (settings c) ds (dropped c)
      | [] => r = Some refused /\ c' = mk k (settings c) [] (dropped c)
      end
  end.
Proof.
  destruct c as [[b [[n e]|]] st ds dr]; unfold attempt, send, conn_Write, setConn, go_bind; cbn.
  - destruct ds as [|[k|e'] ds]; cbn; eauto.
  - eauto.
Qed.

(** Failed attempts use up failed dials and leave the broken connection. *)
Lemma failed_attempts req (c c' : t) :
  rtc (fun a b => exists e, attempt req a = (Ret (Some e), b)) c c' ->
  (fails (conn c) = None -> c' = c) /\
  (forall f, fails (conn c) = Some f -> fails (conn c') = Some f /\ dropped c' = dropped c /\
    exists pre, dials c = pre ++ dials c' /\ Forall (fun d => is_ok d = false) pre).
Proof.
  induction 1 as [c|c c1 c2 [e He] _ [_ IH]].
  { split; [done|]. intros f Hf. split; [done|]. split; [done|]. by exists []. }
  destruct (attempt_cases req c) as (r & c1' & E & H). rewrite He in E. injection E as <- <-.
  destruct (fails (conn c)) as [[n e']|]; [|by destruct H]. split; [done|].
  intros f [= <-]. destruct (dials c) as [|[k|e''] ds] eqn:Ed; destruct H as [Hr ->]; [|done|].
  - exact (IH _ eq_refl).
  - destruct (IH _ eq_refl) as (H1 & H2 & pre & H3 & H4). split; [done|]. split; [done|].
    exists (Err e'' :: pre). cbn in H3. split; [by rewrite H3|]. by constructor.
Qed.

Lemma default_retry_pos n : 0 < Z.to_nat (default_retry n).
Proof. unfold default_retry. destruct (Z.leb_spec n 0); lia. Qed.

(** On a working connection the first attempt is the last. *)
Lemma Send_working env ctx req (c : t) ws :
  Context.ctx_Err ctx = None -> fails (conn c) = None ->
  let k := mkNetConn (sent (conn c) ++ req) None in
  Send env ctx req (c, ws) = (Ret (Ok k), (mk k (settings c) (dials c) (dropped c), ws)).
Proof.
  intros Hctx Hc. unfold Send. rewrite Hctx. unfold go_get, go_bind at 1. cbn [fst].
  destruct (attempt_cases req c) as (r & c2 & E & H). rewrite Hc in H. destruct H as [-> ->].
  unfold go_bind, WithRetry. pose proof (default_retry_pos (RetryCount (settings c))).
  destruct (Z.to_nat _) as [|n]; [lia|]. cbn [retry_loop]. unfold go_bind, call, go_zoom.
  cbn [fst snd]. rewrite E. done.
Qed.

End ClientFacts.

Section client_properties.
Import Client ClientFacts.

(** What a successful [Send] means.  On a working connection the request
    is written to it, once and whole, and [Send] returns that connection at
    once.  On a broken one [Send] succeeds only by replacing the connection by
    a dialled one, and the request has not been written to it: the caller that
    then reads the answer reads from a server that was never asked. *)
Theorem Send_success (env : Env) (ctx : Context.t) (req : bytes) (c : t) (ws : list Z)
    (Hctx : Context.ctx_Err ctx = None) :
  match fails (conn c) with
  | None =>
      let k := mkNetConn (sent (conn c) ++ req) None in
      Send env ctx req (c, ws) = (Ret (Ok k), (mk k (settings c) (dials c) (dropped c), ws))
  | Some f =>
      forall k c' ws', Send env ctx req (c, ws) = (Ret (Ok k), (c', ws')) ->
      exists pre ds broken, dials c = pre ++ Ok k :: ds /\ Forall (fun d => is_ok d = false) pre /\
        conn c' = k /\ dials c' = ds /\ dropped c' = dropped c ++ [broken] /\ fails broken = Some f
  end.
Proof.
  destruct (fails (conn c)) as [f|] eqn:Hc.
  - intros k c' ws' Hsend. unfold Send in Hsend. rewrite Hctx in Hsend.
    unfold go_get, go_bind at 1 in Hsend. cbn [fst] in Hsend. unfold go_bind in Hsend.
    destruct (WithRetry env _ _ _ (c, ws)) as [[[e|]| |] [c1 ws1]] eqn:E; try done.
    injection Hsend as <- <- <-. cbn [fst].
    unfold WithRetry in E. apply retry_loop_None in E as (c0 & Hr & Hf).
    2: { pose proof (default_retry_pos (RetryCount (settings c))). lia. }
    destruct (failed_attempts req c c0 Hr) as [_ H2].
    destruct (attempt_cases req c0) as (r & c2 & E & H). rewrite Hf in E. injection E as <- <-.
    destruct (H2 f Hc) as (Hf0 & Hd & pre & Hp & Hall). rewrite Hf0 in H. destruct f as [n e].
    destruct (dials c0) as [|[k|e'] ds]; destruct H as [Hr' ->]; [done| |done].
    exists pre, ds. eexists. cbn. rewrite Hd. auto 10.
  - by apply Send_working.
Qed.

(** A client on a connection the server has reset. *)
Definition ex_client : t :=
  mk (mkNetConn [] (Some (0, OpError (str "broken pipe")))) (with_defaults (mkClientConfig 0 0 0))
    [Err refused; Ok (mkNetConn [] None)] [].

Lemma Send_success_witness :
  exists c' ws' k, Send quiet Context.Background (str "SET a b") (ex_client, []) = (Ret (Ok k), (c', ws')) /\
    sent k = [] /\ length (dropped c') = 1.
Proof.
  destruct (Send quiet Context.Background (str "SET a b") (ex_client, [])) as [o [c' ws']] eqn:E.
  assert (o = Ret (Ok (mkNetConn [] None))) as ->.
  { transitivity (fst (Send quiet Context.Background (str "SET a b") (ex_client, []))); [by rewrite E|].
    vm_compute. reflexivity. }
  exists c', ws', (mkNetConn [] None). split; [reflexivity|].
  pose proof (Send_success quiet Context.Background (str "SET a b") ex_client [] eq_refl) as H.
  destruct (H _ _ _ E) as (pre & ds & broken & _ & _ & _ & _ & -> & _).
  split; reflexivity.
Defined.

End client_properties.

(** ** Properties of the listeners *)

Module ListenerFacts.
Import UniversalHandler tcpListener.
Section facts.
Context {D : Type} (Handle : Context.t -> Go (conn D) (option error)).

(** The slots taken are the goroutines that serve. *)
Record inv (max : nat) (l : t D) : Prop := mkInv {
  inv_open : Chan.closed (sem l) = false;
  inv_cap : Chan.cap (sem l) = max;
  inv_count : length (Chan.buf (sem l)) = running l;
  inv_max : running l <= max
}.

Lemma count_app ps p : count (ps ++ [p]) = count ps + (if is_running p then 1 else 0).
Proof. unfold count. rewrite filter_app, length_app. cbn. by destruct (is_running p). Qed.

Lemma count_insert ps i p q :
  ps !! i = Some p ->
  count (<[i := q]> ps) + (if is_running p then 1 else 0) = count ps + (if is_running q then 1 else 0).
Proof.
  intros Hi. rewrite <-(take_drop_middle ps i p Hi) at 2.
  rewrite insert_take_drop by (by eapply lookup_lt_Some).
  unfold count. rewrite !filter_app, !length_app, !filter_cons.
  destruct (is_running p), (is_running q); repeat case_decide; cbn; done || lia.
Qed.

Ltac solve_inv :=
  split; unfold running in *; cbn [peers sem Chan.closed Chan.cap Chan.buf] in *;
  rewrite ?length_app, ?count_app; cbn [is_running peer_phase length] in *; first [done|lia].

Lemma inv_step max ctx l l' : inv max l -> step Handle ctx l l' -> inv max l'.
Proof.
  intros [Ho Hc Hn Hm] Hs. unfold running in *.
  destruct Hs as [d [cap b cl] ps r w fired pick s' Ha|d [cap b cl] ps r w fired pick s' Ha|
    d s ps i r w c Hi _|d [cap b cl] ps i r w c o s' Hi _ _ Hr|d s ps i r w Hi];
    cbn [sem peers Chan.closed Chan.cap Chan.buf] in *.
  - unfold Semaphore.AcquireWithDeadline, Chan.send in Ha. cbn in Ha. subst cl cap.
    destruct (bool_decide_reflect (length b < max)); [|by destruct fired].
    destruct (fired && pick); [done|]. injection Ha as <-.
    solve_inv.
  - unfold Semaphore.AcquireWithDeadline, Chan.send in Ha. cbn in Ha. subst cl cap.
    assert (s' = Chan.mk max b false) as ->.
    { destruct (bool_decide _); [destruct (fired && pick)|destruct fired]; congruence. }
    solve_inv.
  - pose proof (count_insert ps i _ (mkPeer (rd c) (wr c) Running) Hi).
    solve_inv.
  - pose proof (count_insert ps i _ (mkPeer (rd c) (wr c) Closing) Hi). cbn [is_running peer_phase] in *. subst cl.
    unfold Semaphore.Release, Chan.recv in Hr. cbn in Hr. destruct b as [|u b]; cbn [length] in *; [lia|].
    injection Hr as <-. solve_inv.
  - pose proof (count_insert ps i _ (mkPeer r w Closed) Hi).
    solve_inv.
Qed.

Lemma inv_reach max ctx l l' : inv max l -> rtc (step Handle ctx) l l' -> inv max l'.
Proof. intros Hi Hs. induction Hs as [|? ? ? Hs _ IH]; [done|]. by eapply IH, inv_step. Qed.

Lemma inv_new c cfg sem0 (d : D) :
  tcpListener.NewListener c = Ret (cfg, sem0) ->
  exists max, inv max (mk d sem0 []) /\ Z.of_nat max = MaxConn cfg.
Proof.
  unfold tcpListener.NewListener, Semaphore.NewSemaphore. cbn [MaxConn].
  destruct (Z.ltb_spec (or_default (MaxConn c) defaultMaxConn) 0); [done|]. intros [= <- <-].
  exists (Z.to_nat (or_default (MaxConn c) defaultMaxConn)). split; [|cbn; lia]. split; cbn; done || lia.
Qed.

End facts.
End ListenerFacts.

Section listener_properties.
Import UniversalHandler tcpListener TransportFacts ListenerFacts.
Context {D : Type}.

(** A connection serves its lines in order.  However the bytes of a
    client are cut into reads, [handleConnection] answers every complete line
    with one line, the value or the text of the error, in the order of the
    lines, runs each on the database the one before left, drops a last line
    without a newline, and returns at the end of the stream; at a command that
    panics or does not return it stops there, the answers before it sent. *)
Theorem connection_serves_lines (Execute : Context.t -> Query -> Go D (result gostring)) (ctx : Context.t)
    (lines : list bytes) (tail : bytes) (fuel : nat) (d d' : D) (r : reader) (rs : list (result gostring))
    (o : outcome unit) (Hctx : Context.ctx_Err ctx = None) (Hr : Forall (fun c => c.2 = None) r)
    (Hlines : Forall (fun l => BufReader.newline ∉ l) lines) (Htail : BufReader.newline ∉ tail)
    (Hdata : stream_data r = concat (terminated lines) ++ tail) (Hfuel : length lines < fuel)
    (Hserve : serve_prefix Execute ctx (terminated lines) d = (rs, (o, d'))) (Hsent : Forall is_sent rs) :
  exists br, handleConnection (Handle Execute) fuel ctx (mkConn d (BufReader.mk [] r) (BufWriter.New None)) =
    (o, mkConn d' br (BufWriter.mk [] (concat (reply <$> rs)) None)).
Proof.
  by apply (handleConnection_lines Execute ctx Hctx lines tail fuel
    (mkConn d (BufReader.mk [] r) (BufWriter.New None))).
Qed.

(** The listener keeps within its connections.  Whatever clients come and
    whatever the handler does, panics included, the goroutines that serve are
    as many as the slots taken and never more than [MaxConn]; a new client is
    let in as long as there are fewer, and turned away when its wait is over
    and there are not. *)
Theorem listener_bounds_connections (Handle : Context.t -> Go (conn D) (option error)) (c cfg : TCPServer)
    (sem0 : Semaphore.t) (d : D) (ctx : Context.t) (l : t D)
    (Hnew : tcpListener.NewListener c = Ret (cfg, sem0))
    (Hreach : rtc (step Handle ctx) (mk d sem0 []) l) :
  (Z.of_nat (running l) <= MaxConn cfg)%Z /\ length (Chan.buf (sem l)) = running l /\
  ((Z.of_nat (running l) < MaxConn cfg)%Z ->
    exists s', Semaphore.AcquireWithDeadline false false (sem l) = (Ret true, s')) /\
  (Z.of_nat (running l) = MaxConn cfg ->
    forall pick, Semaphore.AcquireWithDeadline true pick (sem l) = (Ret false, sem l)).
Proof.
  assert (exists max, inv max l /\ Z.of_nat max = MaxConn cfg) as (max & [Ho Hc Hn Hm] & Hmax).
  { destruct (inv_new c cfg sem0 d Hnew) as (max & Hi & Hm). exists max. split; [by eapply inv_reach|done]. }
  split; [lia|]. split; [done|]. destruct (sem l) as [cap b cl]. cbn in Ho, Hc, Hn. subst cl cap.
  unfold Semaphore.AcquireWithDeadline, Chan.send. cbn. split; intros H.
  - rewrite bool_decide_true by lia. by eexists.
  - intros pick. by rewrite bool_decide_false by lia.
Qed.

(** C39: a connection never notices that the server stops.  Once the context
    has ended, [Handle] returns its error without reading; that is neither an
    end of file nor a network error, so the loop of [handleConnection] goes
    round without end, writes nothing, and the connection keeps its slot. *)
Theorem cancelled_connection_spins (Execute : Context.t -> Query -> Go D (result gostring)) (ctx : Context.t)
    (e : error) (Hctx : Context.ctx_Err ctx = Some e) (He : e = ContextCanceled \/ e = DeadlineExceeded) :
  (forall fuel s, handleConnection (Handle Execute) fuel ctx s = (Blocks, s)) /\
  (forall l l' i p, peers l !! i = Some p -> peer_phase p = Running ->
    rtc (step (Handle Execute) ctx) l l' -> peers l' !! i = Some p).
Proof.
  assert (forall s, iteration (Handle Execute) ctx s = (Ret false, s)) as Hit.
  { intros s. unfold iteration, Handle, go_bind. rewrite Hctx. by destruct He as [-> | ->]. }
  split.
  - intros fuel s. induction fuel as [|fuel IH]; [done|]. cbn [handleConnection].
    by rewrite (go_bind_ret _ _ _ _ _ (Hit s)).
  - intros l l' i p Hi Hp Hs. induction Hs as [l|l l1 l2 Hs _ IH]; [done|]. apply IH. clear IH.
    destruct Hs as [d s ps r w f k s' _|d s ps r w f k s' _|d s ps j r w c Hj E|
      d s ps j r w c o s' Hj E Ho _|d s ps j r w Hj]; cbn [peers] in *.
    + by apply lookup_app_l_Some.
    + by apply lookup_app_l_Some.
    + rewrite Hit in E. injection E as <-. cbn [rd wr].
      destruct (decide (i = j)) as [->|Hne]; [|by rewrite list_lookup_insert_ne].
      rewrite Hi in Hj. injection Hj as ->. apply list_lookup_insert_eq. by eapply lookup_lt_Some.
    + rewrite Hit in E. injection E as <- <-. by destruct Ho.
    + destruct (decide (i = j)) as [->|Hne]; [|by rewrite list_lookup_insert_ne].
      rewrite Hi in Hj. by injection Hj as ->.
Qed.

(** The CLI listener serves one line of each read.  When every read of the
    standard input begins with a whole line, the loop answers the first line
    of each read in order, and only those: what a read holds after its first
    line, whole lines included, is lost with the [bufio.Reader] that
    [Handle] made for it.  A terminal, whose reads are single lines, is served
    completely. *)
Theorem cli_serves_first_lines (Execute : Context.t -> Query -> Go D (result gostring)) (ctx : Context.t)
    (chunks : list (bytes * bytes)) (n : nat) (d d' : D) (rs : list (result gostring))
    (Hctx : Context.ctx_Err ctx = None) (Hlines : Forall (fun c => BufReader.newline ∉ c.1) chunks)
    (Hn : length chunks <= n)
    (Hserve : serve_all Execute ctx (terminated (fst <$> chunks)) d = (Ret rs, d')) (Hsent : Forall is_sent rs) :
  exists s', cliListener.listen (Handle Execute) n ctx
      (mkConn d (BufReader.mk [] (typed chunks)) (BufWriter.New None)) = (Ret tt, s') /\
    db s' = d' /\ BufWriter.out (wr s') = str "laguna db > " ++ concat (reply <$> rs).
Proof.
  by apply (cli_loop_chunks Execute ctx Hctx chunks n
    (mkConn d (BufReader.mk [] (typed chunks)) (BufWriter.mk [] (str "laguna db > ") None))).
Qed.

End listener_properties.
