(* ===== verification/ClientWal.v ===== *)
(** * The log as one client meets it

    [wal.go] once more, put behind the interface [WALOps] of the database: a
    goroutine calls [Write] and waits for its future while the worker runs
    beside it.  What the worker does between the actions of the call, and
    whether the deadline of one second of [setInWal] (or the end of the
    caller's context) comes first, is a schedule, and the theorems are about
    every schedule.

    The state is that of [Wal]; [worker_move_sound] and [worker_move_complete]
    show that the moves are exactly the steps of its worker. *)

From S2P Require Import Prelude Encoding Utils Query Storage WalRecord FileSystem Index Segment SegmentManager.
From S2P Require Import Logs Concurrency Retry Wal Database.

Module ClientWal.

(** What the scheduler can let the worker do: take a row, see its ticker or
    the end of its context, or go on with what it is doing. *)
Inductive move := Receive | Tick | Done | Continue.

#[global] Instance move_eq_dec : EqDecision move.
Proof. solve_decision. Defined.

(** Why the wait for a future ends without its answer. *)
Inductive lateness := Deadline | Canceled.

Definition late_error (l : lateness) : error :=
  match l with Deadline => DeadlineExceeded | Canceled => ContextCanceled end.

(** The worker's moves before the call takes its number, sends its row and
    registers its future, and those while it waits; and whether its context is
    seen to end all the same. *)
Record schedule := mkSchedule {
  before_number : list move;
  before_send : list move;
  before_register : list move;
  while_waiting : list move;
  late : option lateness
}.

Section moves.
Context {LG : Type} (writer : list Row.t -> Go LG (option error)) (env : Env).

(** The move, if the worker can make it. *)
Definition worker_move (m : move) (w : WAL.t LG) : option (WAL.label * WAL.t LG) :=
  match m, WAL.wk w with
  | Receive, WAL.Loop =>
      match Chan.recv (WAL.queryCh w) with
      | (Ret (Some r), ch) =>
          Some (WAL.Quiet, WAL.take_row r ch
            (if (WAL.flushBatchSize w <=? len (WAL.queryBuf w ++ [r]))%Z then WAL.Flushing false else WAL.Loop) w)
      | _ => None
      end
  | Tick, WAL.Loop =>
      if bool_decide (WAL.queryBuf w = []) then None else Some (WAL.Quiet, WAL.set_wk (WAL.Flushing false) w)
  | Done, WAL.Loop => Some (WAL.Quiet, WAL.set_wk WAL.Draining w)
  | Continue, WAL.Draining =>
      match Chan.recv (WAL.queryCh w) with
      | (Ret (Some r), ch) => Some (WAL.Quiet, WAL.take_row r ch WAL.Draining w)
      | _ => Some (WAL.Quiet, WAL.set_wk (WAL.Flushing true) w)
      end
  | Continue, WAL.Flushing quit =>
      match WAL.flush_write writer env (WAL.queryBuf w) (WAL.disk w) with
      | (Ret err, lg) =>
          Some (match err with None => WAL.Quiet | Some e => WAL.Failed e end,
            WAL.mk (WAL.lsnGen w) (WAL.queryCh w) (match err with None => [] | Some _ => WAL.queryBuf w end)
              (WAL.futureResp w) (WAL.answers w) (WAL.clients w) (WAL.Collecting err quit) (WAL.flushBatchSize w) lg)
      | _ => None
      end
  | Continue, WAL.Collecting err quit =>
      Some (WAL.Quiet, WAL.mk (WAL.lsnGen w) (WAL.queryCh w) (WAL.queryBuf w) [] (WAL.answers w) (WAL.clients w)
        (WAL.Answering (WAL.futureResp w) err quit) (WAL.flushBatchSize w) (WAL.disk w))
  | Continue, WAL.Answering (c :: resp) err quit =>
      Some (WAL.Quiet, WAL.mk (WAL.lsnGen w) (WAL.queryCh w) (WAL.queryBuf w) (WAL.futureResp w)
        (<[c := err]> (WAL.answers w)) (WAL.clients w) (WAL.Answering resp err quit)
        (WAL.flushBatchSize w) (WAL.disk w))
  | Continue, WAL.Answering [] err quit => Some (WAL.Quiet, WAL.set_wk (if quit then WAL.Exited else WAL.Loop) w)
  | _, _ => None
  end.

(** Moves one after the other; one that cannot be made is not. *)
Fixpoint run_moves (ms : list move) (w : WAL.t LG) : WAL.t LG :=
  match ms with
  | [] => w
  | m :: ms' => run_moves ms' (match worker_move m w with Some (_, w') => w' | None => w end)
  end.

End moves.

Section wal.
Context (env : Env) (sched : nat -> schedule).

Abbreviation LG := (Manager.st Mutex.t).

(** The log, its settings, and the number of calls made on it. *)
Record t := mk { core : WAL.t LG; settings : Settings.config; calls : nat }.

(** A disabled log is made of nothing but that. *)
Definition NewWAL (c : Settings.config) (d : LG) : outcome t :=
  if negb (Settings.Enable c) then
    Ret (mk (WAL.mk Generator.NewIDGenerator (Chan.make 0) [] [] ∅ ∅ WAL.Loop 0 d) c 0)
  else
    match WAL.NewWAL c d ∅ with
    | Ret w => Ret (mk w (Settings.apply_defaults c) 0)
    | Panics => Panics
    | Blocks => Blocks
    end.

Definition IsEnable (w : t) : bool := Settings.Enable (settings w).

Definition disk (w : t) : LG := WAL.disk (core w).

Definition run (ms : list move) (w : WAL.t LG) : WAL.t LG := run_moves manager_writer env ms w.

(** The call number [c] takes its number, sends its row and registers. *)
Definition number (c : nat) (ctx : Context.t) (q : Query) (w : WAL.t LG) : Row.t * WAL.t LG :=
  let '(id, g) := (u64 (Generator.id (WAL.lsnGen w) + 1), Generator.mk (u64 (Generator.id (WAL.lsnGen w) + 1))) in
  let r := Row.NewRow id (MethodID q) (GetArgs q) in
  (r, WAL.mk g (WAL.queryCh w) (WAL.queryBuf w) (WAL.futureResp w) (WAL.answers w)
        (<[c := WAL.CSend r]> (WAL.clients w)) (WAL.wk w) (WAL.flushBatchSize w) (WAL.disk w)).

Definition sent_row (c : nat) (r : Row.t) (ch : Chan.t Row.t) (w : WAL.t LG) : WAL.t LG :=
  WAL.mk (WAL.lsnGen w) ch (WAL.queryBuf w) (WAL.futureResp w) (WAL.answers w)
    (<[c := WAL.CRegister r]> (WAL.clients w)) (WAL.wk w) (WAL.flushBatchSize w) (WAL.disk w).

Definition register (c : nat) (w : WAL.t LG) : WAL.t LG :=
  WAL.mk (WAL.lsnGen w) (WAL.queryCh w) (WAL.queryBuf w) (WAL.futureResp w ++ [c]) (WAL.answers w)
    (<[c := WAL.CReturned None]> (WAL.clients w)) (WAL.wk w) (WAL.flushBatchSize w) (WAL.disk w).

(** The future of a call is known by its number; that of a disabled log has a
    nil channel.  A channel that is full blocks the call. *)
Definition Write (ctx : Context.t) (q : Query) : Go t (result (option nat)) :=
  fun w =>
    if negb (IsEnable w) then (Ret (Ok None), w)
    else
      let c := calls w in
      match Context.ctx_Err ctx with
      | Some e => (Ret (Err e), mk (WAL.set_client c (WAL.CReturned (Some e)) (core w)) (settings w) (S c))
      | None =>
          let w1 := run (before_number (sched c)) (WAL.set_client c (WAL.CStart ctx q) (core w)) in
          let '(r, w2) := number c ctx q w1 in
          let w3 := run (before_send (sched c)) w2 in
          match Chan.send r (WAL.queryCh w3) with
          | (Ret _, ch) =>
              let w4 := run (before_register (sched c)) (sent_row c r ch w3) in
              (Ret (Ok (Some c)), mk (register c w4) (settings w) (S c))
          | (Panics, _) => (Panics, mk w3 (settings w) (S c))
          | (Blocks, _) => (Blocks, mk w3 (settings w) (S c))
          end
      end.

(** [GetResponseWithDeadline]: the worker goes on; then the caller has its
    answer, or its context has ended. *)
Definition Await (fr : option nat) (ctx : Context.t) : Go t (result (option error)) :=
  match fr with
  | None => go_ret (Err DeadlineExceeded)
  | Some c =>
      fun w =>
        let w1 := run (while_waiting (sched c)) (core w) in
        (Ret (match late (sched c), WAL.answers w1 !! c with
              | Some l, _ => Err (late_error l)
              | None, Some err => Ok err
              | None, None => Err DeadlineExceeded
              end), mk w1 (settings w) (calls w))
  end.

Definition on_disk {A} (c : Go LG A) : Go t A :=
  go_zoom disk (fun d w =>
    mk (WAL.mk (WAL.lsnGen (core w)) (WAL.queryCh (core w)) (WAL.queryBuf (core w)) (WAL.futureResp (core w))
          (WAL.answers (core w)) (WAL.clients (core w)) (WAL.wk (core w)) (WAL.flushBatchSize (core w)) d)
      (settings w) (calls w)) c.

Definition set_gen (g : Generator.t) (w : t) : t :=
  mk (WAL.mk g (WAL.queryCh (core w)) (WAL.queryBuf (core w)) (WAL.futureResp (core w)) (WAL.answers (core w))
        (WAL.clients (core w)) (WAL.wk (core w)) (WAL.flushBatchSize (core w)) (WAL.disk (core w)))
    (settings w) (calls w).

(** [RestoreStream]: the queries its caller gets, and the generator. *)
Definition RestoreStream_ : Go t (list (list Query)) :=
  let! dir := go_get (fun w => Settings.Directory (settings w)) in
  let! puts := on_disk (LogReader.RestoreSystemStream dir) in
  let '(qs, g) := RestoreStream (values puts) in
  do! go_put (set_gen g) in
  go_ret qs.

Definition client_wal : WALOps t := {|
  w_future := option nat;
  w_IsEnable := IsEnable;
  w_Write := Write;
  w_Await := Await;
  w_RestoreStream := RestoreStream_
|}.

End wal.
End ClientWal.

(** ** What a query is logged as *)

Definition query_row (id : N) (q : Query) : Row.t := Row.NewRow id (MethodID q) (GetArgs q).

(** It is logged. *)
Definition is_write (q : Query) : Prop := MethodID q <> GetMethodID.

#[export] Instance is_write_dec q : Decision (is_write q) := _.

(** What the record format can hold. *)
Definition storable (q : Query) : Prop :=
  (len (GetArgs q) < 65536)%Z /\ Forall Row.short_arg (GetArgs q).

(** The bytes and rows a query may add to the log. *)
Definition query_volume (q : Query) : Z := ManagerFacts.volume [query_row 0 q].

Lemma volume_query_row id q : ManagerFacts.volume [query_row id q] = query_volume q.
Proof.
  unfold query_volume, ManagerFacts.volume, Row.encode_rows. cbn [fmap list_fmap concat].
  rewrite !app_nil_r. unfold Row.encode. cbn [query_row Row.NewRow Row.lsnID Row.methodID Row.args].
  rewrite !len_app. unfold len at 1 6. rewrite !length_be_bytes. done.
Qed.

Lemma query_row_wf id q : (id < 2 ^ 64)%N -> query_wf q -> storable q -> Row.wf (query_row id q).
Proof.
  intros Hid Hq [Hs1 Hs2]. split; [done|]. split; [|done].
  by destruct (query_wf_cases q Hq) as [(k & v & r & ->)|[(k & r & ->)|(k & r & ->)]].
Qed.

Lemma query_wf_write_cmd q id :
  query_wf q -> MethodID q <> GetMethodID ->
  write_cmd (Row.methodID (query_row id q)) (Row.args (query_row id q)).
Proof.
  intros Hq Hne. destruct (query_wf_cases q Hq) as [(k & v & r & ->)|[(k & r & ->)|(k & r & ->)]]; [|done|].
  - left. by do 3 eexists.
  - right. by do 2 eexists.
Qed.

Lemma row_query_row id q : row_query (query_row id q) = q.
Proof. by destruct q. Qed.

(** ** Lemmas *)

Module ClientWalFacts.
Import ClientWal WalFacts.

Section moves.
Context {LG : Type} (writer : list Row.t -> Go LG (option error)) (env : Env).

Lemma recv_not_Some {A} (ch : Chan.t A) o ch' :
  Chan.recv ch = (o, ch') -> (forall v, o <> Ret (Some v)) -> Chan.buf ch = [].
Proof. unfold Chan.recv. destruct (Chan.buf ch); [done|]. intros [= <- _] H. by destruct (H a). Qed.

(** The moves are steps of the worker, *)
Lemma worker_move_sound m (w w' : WAL.t LG) l :
  worker_move writer env m w = Some (l, w') -> WAL.step writer env w l w'.
Proof.
  unfold worker_move. destruct m, (WAL.wk w) as [| |quit|err quit|[|c resp] err quit|] eqn:Hk; try done.
  - destruct (Chan.recv (WAL.queryCh w)) as [[[r|]| |] ch] eqn:E; try done. intros [= <- <-]. by constructor.
  - case_bool_decide; [done|]. intros [= <- <-]. by constructor.
  - intros [= <- <-]. by constructor.
  - destruct (Chan.recv (WAL.queryCh w)) as [o ch] eqn:E.
    assert ((exists r, o = Ret (Some r)) \/ (forall v, o <> Ret (Some v))) as [[r ->]|Hn].
    { destruct o as [[r|]| |]; [left; eauto|right; done..]. }
    + intros [= <- <-]. by constructor.
    + pose proof (recv_not_Some _ _ _ E Hn). destruct o as [[r|]| |]; [by destruct (Hn r)|..];
        intros [= <- <-]; by apply WAL.step_drained.
  - destruct (WAL.flush_write _ _ _ _) as [[err| |] lg] eqn:E; try done. intros [= <- <-]. by apply WAL.step_write.
  - intros [= <- <-]. by eapply WAL.step_collect.
  - intros [= <- <-]. by eapply WAL.step_answered.
  - intros [= <- <-]. by eapply WAL.step_answer.
Qed.

(** and all of them. *)
Lemma worker_move_complete (w w' : WAL.t LG) l :
  WAL.step writer env w l w' -> WAL.clients w' = WAL.clients w ->
  exists m, worker_move writer env m w = Some (l, w').
Proof.
  intros Hs Hc. destruct Hs; cbn [WAL.clients WAL.set_client] in Hc;
    try (exfalso; match goal with H : WAL.clients _ !! ?c = Some _ |- _ =>
      rewrite <-Hc in H; by rewrite lookup_insert_eq in H end).
  - exists Receive. unfold worker_move. by rewrite H, H0.
  - exists Tick. unfold worker_move. rewrite H. by rewrite bool_decide_false.
  - exists Done. unfold worker_move. by rewrite H.
  - exists Continue. unfold worker_move. by rewrite H, H0.
  - exists Continue. unfold worker_move. rewrite H. unfold Chan.recv. rewrite H0.
    by destruct (Chan.closed (WAL.queryCh w)).
  - exists Continue. unfold worker_move. by rewrite H, H0.
  - exists Continue. unfold worker_move. by rewrite H.
  - exists Continue. unfold worker_move. by rewrite H.
  - exists Continue. unfold worker_move. by rewrite H.
Qed.

(** The worker sends nothing and leaves the calls and the channel alone. *)
Lemma worker_move_frame m (w w' : WAL.t LG) l :
  worker_move writer env m w = Some (l, w') ->
  sent [l] = [] /\ WAL.lsnGen w' = WAL.lsnGen w /\ WAL.clients w' = WAL.clients w /\
  Chan.cap (WAL.queryCh w') = Chan.cap (WAL.queryCh w) /\ Chan.closed (WAL.queryCh w') = Chan.closed (WAL.queryCh w).
Proof.
  assert (forall o ch, Chan.recv (WAL.queryCh w) = (o, ch) ->
    Chan.cap ch = Chan.cap (WAL.queryCh w) /\ Chan.closed ch = Chan.closed (WAL.queryCh w)) as Hr.
  { intros o ch. destruct (WAL.queryCh w) as [cap [|x b] [|]]; cbn; by intros [= _ <-]. }
  unfold worker_move. destruct m, (WAL.wk w) as [| |quit|err quit|[|c resp] err quit|]; try done;
    try (destruct (Chan.recv (WAL.queryCh w)) as [[[r|]| |] ch] eqn:E; try done);
    try (case_bool_decide; [done|]);
    try (destruct (WAL.flush_write _ _ _ _) as [[[e|]| |] lg]; try done);
    intros [= <- <-]; cbn; try (destruct (Hr _ _ eq_refl)); by split_and!.
Qed.

(** *** The rows *)

Context `{!LogTarget LG writer}.

Lemma move_log_inv D0 n0 ls m l (w w' : WAL.t LG) :
  log_inv writer D0 n0 ls w -> worker_move writer env m w = Some (l, w') -> Forall Row.wf (D0 ++ sent ls) ->
  (ManagerFacts.volume (D0 ++ sent ls) < 2 ^ 63)%Z -> length (sent ls) <= n0 ->
  log_inv writer D0 n0 (ls ++ [l]) w' /\ sent (ls ++ [l]) = sent ls.
Proof.
  intros Hi Hm Hwf Hv Hn. destruct (worker_move_frame _ _ _ _ Hm) as [Hs _].
  assert (sent (ls ++ [l]) = sent ls) as E by (unfold sent in *; by rewrite omap_app, Hs, app_nil_r).
  split; [|done]. eapply log_inv_step; [done|by eapply worker_move_sound|by rewrite E..].
Qed.

(** A property of the worker that its moves keep while no flush fails. *)
Lemma run_moves_ind (P : WAL.t LG -> Prop) D0 n0 ms ls (w : WAL.t LG) :
  (forall m l w w', m ∈ ms -> P w -> worker_move writer env m w = Some (l, w') -> (forall e, l <> WAL.Failed e) -> P w') ->
  log_inv writer D0 n0 ls w -> P w -> Forall Row.wf (D0 ++ sent ls) ->
  (ManagerFacts.volume (D0 ++ sent ls) < 2 ^ 63)%Z -> length (sent ls) <= n0 ->
  P (run_moves writer env ms w) /\
  exists ls', log_inv writer D0 n0 ls' (run_moves writer env ms w) /\ sent ls' = sent ls.
Proof.
  revert ls w. induction ms as [|m ms IH]; intros ls w HP Hi Hw Hwf Hv Hn; cbn [run_moves]; [eauto|].
  assert (forall m' l w w', m' ∈ ms -> P w -> worker_move writer env m' w = Some (l, w') ->
    (forall e, l <> WAL.Failed e) -> P w') as HP' by (intros m' l v v' Hm'; apply HP; by right).
  destruct (worker_move writer env m w) as [[l w']|] eqn:E; [|by apply (IH ls)].
  destruct (move_log_inv D0 n0 ls m l w w') as [Hi' Hs]; [done..|].
  rewrite <-Hs in *. apply (IH (ls ++ [l])); [done|done| |done..].
  eapply (HP m l w); [by left|done|done|].
  destruct Hi' as [_ Hok _]. by apply no_failure_snoc in Hok as [_ ?].
Qed.

End moves.

(** *** One call *)

Section calls.
Context (env : Env) (sched : nat -> schedule) (d : FileSystem.path) (B : nat).

Abbreviation LG := (Manager.st Mutex.t).

#[local] Instance target : LogTarget LG manager_writer := manager_log_target d B.
#[local] Instance wal_ops : WALOps ClientWal.t := client_wal env sched.

(** No future of a call from the number [n] on is known. *)
Definition old (n : nat) (w : WAL.t LG) : Prop :=
  (forall c, n <= c -> WAL.answers w !! c = None) /\
  Forall (fun c => c < n) (WAL.futureResp w ++ answering (WAL.wk w)).

Lemma worker_move_old n m l (w w' : WAL.t LG) :
  old n w -> worker_move manager_writer env m w = Some (l, w') -> old n w'.
Proof.
  intros [Ha Hf] Hm. destruct (worker_move_frame _ _ _ _ _ _ Hm) as (_ & _ & Hcl & _).
  apply worker_move_sound in Hm. unfold old.
  destruct Hm; cbn [WAL.answers WAL.futureResp WAL.clients WAL.set_wk WAL.set_client WAL.take_row WAL.wk] in *;
    repeat match goal with H : WAL.wk _ = _ |- _ => rewrite H in * end; cbn [answering] in *;
    rewrite ?app_nil_r in *; try (by split).
  - rewrite <-Hcl, lookup_insert_eq in H. done.
  - split; [done|]. by destruct (_ <=? _)%Z; rewrite app_nil_r.
  - apply Forall_app in Hf as [Hf [Hc Hr]%Forall_cons]. split; [|by apply Forall_app].
    intros c' Hc'. rewrite lookup_insert_ne by lia. by apply Ha.
  - split; [done|]. by destruct quit; rewrite app_nil_r.
Qed.

(** The log has taken the rows [rows], in [n] calls. *)
Record sound (D0 : list Row.t) (n0 : nat) (rows : list Row.t) (n : nat) (w : WAL.t LG) : Prop := {
  so_log : exists ls, log_inv manager_writer D0 n0 ls w /\ sent ls = rows;
  so_open : Chan.closed (WAL.queryCh w) = false;
  so_old : old n w
}.

(** Rows a log with room for [n0] files can take after [D0]. *)
Definition room (D0 : list Row.t) (n0 : nat) (rows : list Row.t) : Prop :=
  Forall Row.wf (D0 ++ rows) /\ (ManagerFacts.volume (D0 ++ rows) < 2 ^ 63)%Z /\ length rows <= n0.

Lemma room_app D0 n0 rows1 rows2 : room D0 n0 (rows1 ++ rows2) -> room D0 n0 rows1.
Proof.
  intros (H1 & H2 & H3). rewrite (assoc_L (++)) in H1, H2. apply Forall_app in H1 as [H1 _].
  split; [done|]. rewrite ManagerFacts.volume_app in H2. rewrite length_app in H3.
  split; [|lia]. unfold ManagerFacts.volume in *. lens.
Qed.

Lemma sound_same D0 n0 rows n (w w' : WAL.t LG) :
  sound D0 n0 rows n w -> WAL.disk w' = WAL.disk w -> WAL.queryBuf w' = WAL.queryBuf w ->
  WAL.queryCh w' = WAL.queryCh w -> WAL.wk w' = WAL.wk w -> WAL.futureResp w' = WAL.futureResp w ->
  WAL.answers w' = WAL.answers w -> sound D0 n0 rows n w'.
Proof.
  intros [(ls & [H1 H2 H3] & Hs) Ho Hold] Ed Eb Ec Ek Ef Ea. constructor; [|by rewrite Ec|].
  - exists ls. split; [|done]. constructor; rewrite ?Ed, ?Eb, ?Ec, ?Ek; done.
  - unfold old in *. by rewrite Ea, Ef, Ek.
Qed.

Lemma run_sound D0 n0 rows n ms (w : WAL.t LG) :
  sound D0 n0 rows n w -> room D0 n0 rows -> sound D0 n0 rows n (run env ms w).
Proof.
  intros [(ls & Hi & Hs) Ho Hold] (Hwf & Hv & Hn). rewrite <-Hs in *.
  destruct (run_moves_ind manager_writer env
    (fun w => Chan.closed (WAL.queryCh w) = false /\ old n w) D0 n0 ms ls w) as [[Ho' Hold'] (ls' & Hi' & Hs')];
    try done.
  - intros m l v v' _ [Hv1 Hv2] Hm _. split; [|by eapply worker_move_old].
    destruct (worker_move_frame _ _ _ _ _ _ Hm) as (_ & _ & _ & _ & ->). done.
  - constructor; eauto.
Qed.

(** The row goes into the channel. *)
Lemma sent_sound D0 n0 rows n c r ch (w : WAL.t LG) :
  sound D0 n0 rows n w -> Chan.send r (WAL.queryCh w) = (Ret tt, ch) ->
  sound D0 n0 (rows ++ [r]) n (sent_row c r ch w).
Proof.
  intros [(ls & [(D & k & H1 & H2 & H3) Hok Hout] & <-) Ho Hold] Hs. constructor; [|..|done].
  - exists (ls ++ [WAL.Sent r]). split; [|by rewrite sent_snoc]. constructor; [|by apply Forall_app; split; [|repeat constructor]|done].
    exists D, k. cbn [sent_row WAL.disk WAL.queryBuf WAL.queryCh]. rewrite (send_Ret _ _ _ Hs), sent_snoc.
    split; [done|]. split; [done|]. by rewrite <-H3, <-!(assoc_L (++)).
  - cbn. revert Hs. unfold Chan.send. rewrite Ho. case_bool_decide; [|done]. by intros [= <-].
Qed.

(** The future is registered. *)
Lemma register_sound D0 n0 rows c (w : WAL.t LG) :
  sound D0 n0 rows c w -> sound D0 n0 rows (S c) (register c w).
Proof.
  intros [(ls & [H1 H2 H3] & Hs) Ho [Ha Hf]]. constructor; [|done|].
  - exists ls. by split.
  - split; cbn [register WAL.answers WAL.futureResp WAL.wk].
    + intros c' Hc'. apply Ha. lia.
    + rewrite <-(assoc_L (++)). apply Forall_app in Hf as [Hf1 Hf2].
      apply Forall_app. split; [eapply Forall_impl; [exact Hf1|]; cbn; lia|].
      apply Forall_app. split; [by apply Forall_singleton; lia|]. eapply Forall_impl; [exact Hf2|]. cbn. lia.
Qed.

Lemma sound_more D0 n0 rows n n' (w : WAL.t LG) : n <= n' -> sound D0 n0 rows n w -> sound D0 n0 rows n' w.
Proof.
  intros Hn [Hl Ho [Ha Hf]]. constructor; [done..|]. split; [intros c Hc; apply Ha; lia|].
  eapply Forall_impl; [exact Hf|]. cbn. lia.
Qed.

Definition good (D0 : list Row.t) (n0 : nat) (rows : list Row.t) (w : ClientWal.t) : Prop :=
  sound D0 n0 rows (calls w) (core w) /\ IsEnable w = true.

(** The channel has no room left. *)
Definition full (w : ClientWal.t) : Prop := Chan.cap (WAL.queryCh (core w)) <= length (Chan.buf (WAL.queryCh (core w))).

(** A write under any schedule: it is logged and has an answer, or the channel
    is full and the call blocks. *)
Lemma log_answer_good D0 n0 rows ctx q (w : ClientWal.t) :
  good D0 n0 rows w -> Context.ctx_Err ctx = None -> query_wf q -> storable q -> MethodID q <> GetMethodID ->
  room D0 n0 (rows ++ [query_row 0 q]) ->
  exists id, (id < 2 ^ 64)%N /\
  match log_answer ctx q w with
  | (Ret v, w') => good D0 n0 (rows ++ [query_row id q]) w'
  | (Blocks, w') => good D0 n0 rows w' /\ full w'
  | (Panics, _) => False
  end.
Proof.
  intros [Hs He] Hctx Hq Hst Hne Hroom. pose proof (room_app _ _ _ _ Hroom) as Hroom0.
  set (c := calls w) in *. set (w1 := run env (before_number (sched c)) (WAL.set_client c (WAL.CStart ctx q) (core w))).
  assert (sound D0 n0 rows c w1) as H1 by (apply run_sound; [by eapply sound_same|done]).
  set (id := u64 (Generator.id (WAL.lsnGen w1) + 1)).
  assert (id < 2 ^ 64)%N as Hid by (apply N.mod_lt; lia).
  exists id. split; [done|].
  assert (room D0 n0 (rows ++ [query_row id q])) as Hroom'.
  { destruct Hroom as (_ & R2 & R3), Hroom0 as [R0 _]. unfold room. rewrite length_app in R3 |- *.
    rewrite (assoc_L (++)), ManagerFacts.volume_app, volume_query_row in R2 |- *. split; [|done].
    apply Forall_app. split; [done|]. apply Forall_singleton. by apply query_row_wf. }
  unfold log_answer. cbn [w_IsEnable w_Write w_Await wal_ops client_wal]. rewrite He. cbn [negb orb].
  destruct (N.eqb_spec (MethodID q) GetMethodID) as [|_]; [done|].
  unfold ClientWal.Write. rewrite He, Hctx. cbn [negb]. fold c w1. unfold number. fold id (query_row id q).
  set (w2 := WAL.mk _ _ _ _ _ _ _ _ _). set (w3 := run env (before_send (sched c)) w2).
  assert (sound D0 n0 rows c w3) as H3 by (apply run_sound; [by apply (sound_same _ _ _ _ w1)|done]).
  destruct (Chan.send (query_row id q) (WAL.queryCh w3)) as [[[]| |] ch] eqn:Esend.
  - pose proof (sent_sound _ _ _ _ c _ _ _ H3 Esend) as H4.
    apply (run_sound _ _ _ _ (before_register (sched c))) in H4; [|done]. apply register_sound in H4.
    apply (run_sound _ _ _ _ (while_waiting (sched c))) in H4; [|done].
    unfold Await. cbn [core settings calls].
    destruct (late (sched c)); [by split|]. 
    match goal with |- context [WAL.answers ?v !! c] => destruct (WAL.answers v !! c) end; by split.
  - revert Esend. unfold Chan.send. rewrite (so_open _ _ _ _ _ H3). by case_bool_decide.
  - split; [split; [|done]|].
    + cbn [core calls]. eapply sound_more; [|exact H3]. lia.
    + revert Esend. unfold Chan.send. rewrite (so_open _ _ _ _ _ H3). unfold full. cbn [core].
      case_bool_decide; [done|lia].
Qed.

(** *** Calls one after the other *)

Definition total_volume (qs : list Query) : Z := foldr (fun q v => (query_volume q + v)%Z) 0%Z qs.

Lemma total_volume_nonneg qs : (0 <= total_volume qs)%Z.
Proof.
  induction qs as [|q qs IH]; [done|]. cbn [total_volume foldr]. fold (total_volume qs).
  unfold query_volume, ManagerFacts.volume. lens.
Qed.

(** The queries fit the record format and the log has room for them. *)
Record takes (D0 : list Row.t) (n0 : nat) (rows : list Row.t) (qs : list Query) : Prop := {
  tk_wf : Forall query_wf qs;
  tk_storable : Forall storable qs;
  tk_rows : Forall Row.wf (D0 ++ rows);
  tk_volume : (ManagerFacts.volume (D0 ++ rows) + total_volume qs < 2 ^ 63)%Z;
  tk_room : length rows + length qs <= n0
}.

Lemma takes_one D0 n0 rows q qs id :
  takes D0 n0 rows (q :: qs) -> (id < 2 ^ 64)%N ->
  room D0 n0 (rows ++ [query_row id q]) /\ takes D0 n0 (rows ++ [query_row id q]) qs /\ takes D0 n0 rows qs.
Proof.
  intros [Hq Hs Hr Hv Hn] Hid. apply Forall_cons in Hq as [Hq Hqs], Hs as [Hs Hss].
  cbn [total_volume foldr length] in Hv, Hn. fold (total_volume qs) in Hv. pose proof (total_volume_nonneg qs).
  assert (Forall Row.wf (D0 ++ rows ++ [query_row id q])) as Hw.
  { rewrite (assoc_L (++)). apply Forall_app. split; [done|]. apply Forall_singleton. by apply query_row_wf. }
  assert (0 <= query_volume q)%Z by (unfold query_volume, ManagerFacts.volume; lens).
  split; [|split]; [split; [done|]|constructor; try done|constructor; try done]; rewrite ?length_app;
    rewrite ?(assoc_L (++)), ?ManagerFacts.volume_app in *; rewrite ?volume_query_row; cbn [length]; lia.
Qed.

Lemma log_answers_good D0 n0 rows ctx qs (w w' : ClientWal.t) vs o :
  good D0 n0 rows w -> Context.ctx_Err ctx = None -> takes D0 n0 rows qs ->
  log_answers ctx (Ok <$> qs) w = (vs, (o, w')) ->
  exists more, good D0 n0 (rows ++ more) w' /\ row_query <$> more = filter is_write (take (length vs) qs) /\
    Forall Row.wf (D0 ++ rows ++ more) /\
    (ManagerFacts.volume (D0 ++ rows ++ more) <= ManagerFacts.volume (D0 ++ rows) + total_volume qs)%Z /\
    (o = Ret tt /\ length vs = length qs \/ o = Blocks /\ full w').
Proof.
  intros Hg Hctx. revert rows w vs Hg. induction qs as [|q qs IH]; intros rows w vs Hg Ht E.
  { injection E as <- <- <-. exists []. rewrite app_nil_r. cbn. destruct Ht. split_and!; try done; [lia|by left]. }
  destruct (takes_one _ _ _ _ _ 0%N Ht) as (Hroom & _ & Ht0); [lia|].
  assert (0 <= query_volume q)%Z by (unfold query_volume, ManagerFacts.volume; lens).
  rewrite fmap_cons in E. cbn [log_answers log_request] in E.
  destruct (decide (is_write q)) as [Hw|Hr].
  - destruct (log_answer_good D0 n0 rows ctx q w Hg Hctx) as (id & Hid & Hl);
      [by destruct Ht as [[? _]%Forall_cons]|by destruct Ht as [_ [? _]%Forall_cons]|done|done|].
    destruct (takes_one _ _ _ _ _ id Ht Hid) as (_ & Ht1 & _).
    destruct (log_answer ctx q w) as [[v| |] w1]; [|done|].
    + destruct (log_answers ctx (Ok <$> qs) w1) as [vs1 r] eqn:E1. injection E as <- ->.
      destruct (IH _ w1 vs1 Hl Ht1 E1) as (more & H1 & H2 & H3 & H4 & H5). exists (query_row id q :: more).
      rewrite <-(assoc_L (++)) in *. cbn [app] in *. split; [done|]. split.
      { rewrite fmap_cons. cbn [length take]. rewrite filter_cons_True by done. by rewrite H2, row_query_row. }
      split; [done|]. split; [|by destruct H5 as [[? ?]|?]; [left; split; [|cbn; f_equal]|right]].
      rewrite !ManagerFacts.volume_app, volume_query_row in H4. rewrite !ManagerFacts.volume_app in *.
      cbn [total_volume foldr]. fold (total_volume qs). lia.
    + injection E as <- <- <-. exists []. rewrite app_nil_r. destruct Hl, Ht. pose proof (total_volume_nonneg (q :: qs)).
      split_and!; try done; [lia|by right].
  - assert (log_answer ctx q w = (Ret None, w)) as El.
    { unfold log_answer. destruct (N.eqb_spec (MethodID q) GetMethodID); [by rewrite orb_true_r|done]. }
    rewrite El in E. destruct (log_answers ctx (Ok <$> qs) w) as [vs1 r] eqn:E1. injection E as <- ->.
    destruct (IH rows w vs1 Hg Ht0 E1) as (more & H1 & H2 & H3 & H4 & H5). exists more. split; [done|].
    split; [cbn [length take]; by rewrite filter_cons_False|]. split; [done|].
    split; [|by destruct H5 as [[? ?]|?]; [left; split; [|cbn; f_equal]|right]].
    cbn [total_volume foldr]. fold (total_volume qs). lia.
Qed.

(** *** When every answer is a success *)

(** Nothing is on its way. *)
Record resting (w : WAL.t LG) : Prop := {
  re_buf : WAL.queryBuf w = [];
  re_ch : Chan.buf (WAL.queryCh w) = [];
  re_fut : WAL.futureResp w = [];
  re_wk : WAL.wk w = WAL.Loop \/ WAL.wk w = WAL.Answering [] None false
}.

(** Where the row [r] of the call [c] is; [reg] are the futures registered by
    now. *)
Inductive stage (c : nat) (reg : list nat) (r : Row.t) (w : WAL.t LG) : Prop :=
| stage_queued : WAL.queryBuf w = [] -> Chan.buf (WAL.queryCh w) = [r] -> WAL.futureResp w = reg ->
    WAL.answers w !! c = None -> WAL.wk w = WAL.Loop \/ WAL.wk w = WAL.Answering [] None false -> stage c reg r w
| stage_taken : WAL.queryBuf w = [r] -> Chan.buf (WAL.queryCh w) = [] -> WAL.futureResp w = reg ->
    WAL.answers w !! c = None -> WAL.wk w = WAL.Loop \/ WAL.wk w = WAL.Flushing false -> stage c reg r w
| stage_written : WAL.queryBuf w = [] -> Chan.buf (WAL.queryCh w) = [] -> WAL.futureResp w = reg ->
    WAL.answers w !! c = None -> WAL.wk w = WAL.Collecting None false -> stage c reg r w
| stage_collected : WAL.queryBuf w = [] -> Chan.buf (WAL.queryCh w) = [] -> WAL.futureResp w = [] ->
    reg = [c] -> WAL.answers w !! c = None -> WAL.wk w = WAL.Answering [c] None false -> stage c reg r w
| stage_missed : WAL.queryBuf w = [] -> Chan.buf (WAL.queryCh w) = [] -> WAL.futureResp w = reg ->
    WAL.answers w !! c = None -> WAL.wk w = WAL.Loop \/ WAL.wk w = WAL.Answering [] None false -> stage c reg r w
| stage_answered : WAL.queryBuf w = [] -> Chan.buf (WAL.queryCh w) = [] -> WAL.futureResp w = [] ->
    reg = [c] -> WAL.wk w = WAL.Loop \/ WAL.wk w = WAL.Answering [] None false -> stage c reg r w.

Lemma run_keeps (P : WAL.t LG -> Prop) D0 n0 rows n ms (w : WAL.t LG) :
  (forall m l w w', m <> Done -> P w -> worker_move manager_writer env m w = Some (l, w') ->
    (forall e, l <> WAL.Failed e) -> P w') ->
  Done ∉ ms -> sound D0 n0 rows n w -> room D0 n0 rows -> P w -> P (run env ms w).
Proof.
  intros HP Hms [(ls & Hi & Hs) _ _] (Hwf & Hv & Hn) Hw. rewrite <-Hs in *.
  destruct (run_moves_ind manager_writer env P D0 n0 ms ls w) as [H _]; try done.
  intros m l v v' Hm. apply HP. by intros ->.
Qed.

Lemma recv_empty (w : WAL.t LG) r ch :
  Chan.buf (WAL.queryCh w) = [] -> Chan.recv (WAL.queryCh w) <> (Ret (Some r), ch).
Proof. unfold Chan.recv. intros ->. by destruct (Chan.closed _). Qed.

(** A worker with nothing to do does nothing. *)
Lemma resting_move m l (w w' : WAL.t LG) :
  m <> Done -> resting w -> worker_move manager_writer env m w = Some (l, w') -> resting w'.
Proof.
  intros Hm [Hb Hc Hf Hk] E. unfold worker_move in E.
  destruct Hk as [Hk|Hk]; rewrite Hk in E; destruct m; try done.
  - destruct (Chan.recv (WAL.queryCh w)) as [[[r|]| |] ch] eqn:Er; try done.
    by apply recv_empty in Er.
  - by rewrite bool_decide_true in E.
  - injection E as <- <-. constructor; try done. by left.
Qed.

(** The row goes from the channel to the disk, and its future with it if it is
    registered in time. *)
Lemma stage_move c reg r m l (w w' : WAL.t LG) :
  reg = [] \/ reg = [c] -> m <> Done -> stage c reg r w ->
  worker_move manager_writer env m w = Some (l, w') -> (forall e, l <> WAL.Failed e) -> stage c reg r w'.
Proof.
  intros Hreg Hm Hs E Hl. unfold worker_move in E.
  destruct Hs as [Hb Hc Hf Ha [Hk|Hk]|Hb Hc Hf Ha [Hk|Hk]|Hb Hc Hf Ha Hk|Hb Hc Hf Hg Ha Hk|Hb Hc Hf Ha [Hk|Hk]|Hb Hc Hf Hg [Hk|Hk]];
    rewrite Hk in E; destruct m; try done;
    try (rewrite Hb, bool_decide_true in E by done; done);
    try match type of E with context [Chan.recv _] =>
      destruct (Chan.recv (WAL.queryCh w)) as [[[r'|]| |] ch] eqn:Er; try done; try (by apply recv_empty in Er) end.
  - apply recv_Some in Er. rewrite Hc in Er. injection Er as <- Er. injection E as <- <-. rewrite Hb.
    apply stage_taken; cbn; [by rewrite Hb|done..|]. destruct (_ <=? _)%Z; auto.
  - injection E as <- <-. apply stage_queued; try done. by left.
  - rewrite bool_decide_false in E by (by rewrite Hb). injection E as <- <-. apply stage_taken; try done. by right.
  - destruct (WAL.flush_write _ _ _ _) as [[[e|]| |] lg]; try done; injection E as <- <-; [by destruct (Hl e)|].
    by apply stage_written.
  - injection E as <- <-. rewrite Hf. destruct Hreg as [->| ->].
    + apply stage_missed; try done. by right.
    + by apply stage_collected.
  - injection E as <- <-. apply stage_answered; try done. by right.
  - injection E as <- <-. apply stage_missed; try done. by left.
  - injection E as <- <-. apply stage_answered; try done. by left.
Qed.

(** The worker's context does not end during the call. *)
Definition keeps_running (sc : schedule) : Prop :=
  (Done ∉ before_number sc) /\ (Done ∉ before_send sc) /\ (Done ∉ before_register sc) /\ (Done ∉ while_waiting sc).

(** A single client that is told of a success after nothing but successes has
    its row on the disk. *)
Lemma log_answer_resting D0 n0 rows ctx q (w w' : ClientWal.t) :
  good D0 n0 rows w -> resting (core w) -> keeps_running (sched (calls w)) ->
  Context.ctx_Err ctx = None -> query_wf q -> storable q -> is_write q ->
  (forall id, (id < 2 ^ 64)%N -> room D0 n0 (rows ++ [query_row id q])) ->
  log_answer ctx q w = (Ret None, w') -> resting (core w').
Proof.
  intros [Hs He] Hrest (Hd1 & Hd2 & Hd3 & Hd4) Hctx Hq Hst Hne Hroom.
  pose proof (room_app _ _ _ _ (Hroom 0%N ltac:(lia))) as Hroom0.
  assert (forall m l v v', m <> Done -> resting v -> worker_move manager_writer env m v = Some (l, v') ->
    (forall e, l <> WAL.Failed e) -> resting v') as Hrm by (intros m l v v' ? ? ? _; by eapply resting_move).
  set (c := calls w) in *. set (w0 := WAL.set_client c (WAL.CStart ctx q) (core w)).
  assert (sound D0 n0 rows c w0) as H0 by (by eapply sound_same).
  set (w1 := run env (before_number (sched c)) w0).
  assert (sound D0 n0 rows c w1 /\ resting w1) as [H1 R1].
  { split; [by apply run_sound|]. eapply run_keeps; try done. by destruct Hrest; constructor. }
  set (id := u64 (Generator.id (WAL.lsnGen w1) + 1)).
  assert (id < 2 ^ 64)%N as Hid by (apply N.mod_lt; lia). specialize (Hroom id Hid).
  unfold log_answer. cbn [w_IsEnable w_Write w_Await wal_ops client_wal]. rewrite He. cbn [negb orb].
  destruct (N.eqb_spec (MethodID q) GetMethodID) as [|_]; [done|].
  unfold ClientWal.Write. rewrite He, Hctx. cbn [negb]. fold c w0 w1. unfold number. fold id (query_row id q).
  set (w2 := WAL.mk _ _ _ _ _ _ _ _ _). assert (sound D0 n0 rows c w2) as H2 by (by apply (sound_same _ _ _ _ w1)).
  set (w3 := run env (before_send (sched c)) w2).
  assert (sound D0 n0 rows c w3 /\ resting w3) as [H3 R3].
  { split; [by apply run_sound|]. eapply run_keeps; try done. by destruct R1; constructor. }
  destruct (Chan.send (query_row id q) (WAL.queryCh w3)) as [[[]| |] ch] eqn:Esend; [|done..].
  pose proof (sent_sound _ _ _ _ c _ _ _ H3 Esend) as H4. apply send_Ret in Esend.
  assert (stage c [] (query_row id q) (sent_row c (query_row id q) ch w3)) as S4.
  { destruct R3 as [Hb Hc Hf Hk]. apply stage_queued; cbn; try done; [by rewrite Esend, Hc|].
    apply (so_old _ _ _ _ _ H3). done. }
  set (w4 := run env (before_register (sched c)) _).
  assert (sound D0 n0 (rows ++ [query_row id q]) c w4 /\ stage c [] (query_row id q) w4) as [H5 S5].
  { split; [by apply run_sound|]. eapply run_keeps; try done.
    intros m l v v' ? ? ?. by eapply stage_move; [left|..]. }
  apply register_sound in H5.
  assert (stage c [c] (query_row id q) (register c w4)) as S6.
  { destruct S5 as [Hb Hc Hf Ha Hk|Hb Hc Hf Ha Hk|Hb Hc Hf Ha Hk|Hb Hc Hf Hg Ha Hk|Hb Hc Hf Ha Hk|Hb Hc Hf Hg Hk]; try done;
      [apply stage_queued|apply stage_taken|apply stage_written|apply stage_missed]; cbn; try done; by rewrite Hf. }
  unfold Await. cbn [core settings calls]. set (w5 := run env (while_waiting (sched c)) _).
  assert (stage c [c] (query_row id q) w5) as S7.
  { eapply run_keeps; [|done|exact H5|done|done]. intros m l v v' ? ? ?. by eapply stage_move; [right|..]. }
  destruct (late (sched c)); [done|]. destruct (WAL.answers w5 !! c) as [err|] eqn:Ea; [|done].
  intros [= -> <-]. cbn [core].
  destruct S7 as [? ? ? Ha|? ? ? Ha|? ? ? Ha|? ? ? ? Ha|? ? ? Ha|]; try congruence. by constructor.
Qed.

Lemma log_answers_resting D0 n0 rows ctx qs (w w' : ClientWal.t) vs o :
  good D0 n0 rows w -> resting (core w) -> (forall c, keeps_running (sched c)) ->
  Context.ctx_Err ctx = None -> takes D0 n0 rows qs ->
  log_answers ctx (Ok <$> qs) w = (vs, (o, w')) -> o = Ret tt -> Forall (fun v => v = None) vs -> resting (core w').
Proof.
  intros Hg Hr Hrun Hctx Ht E Ho. revert rows w vs Hg Hr Ht E. induction qs as [|q qs IH]; intros rows w vs Hg Hr Ht E Hvs.
  { by injection E as <- <- <-. }
  destruct (takes_one _ _ _ _ _ 0%N Ht) as (Hroom & _ & Ht0); [lia|].
  rewrite fmap_cons in E. cbn [log_answers log_request] in E.
  destruct (decide (is_write q)) as [Hw|Hnw].
  - assert (query_wf q /\ storable q) as [Hq Hst]
      by (destruct Ht as [[? _]%Forall_cons [? _]%Forall_cons]; done).
    destruct (log_answer_good D0 n0 rows ctx q w Hg Hctx) as (id & Hid & Hl); [done..|].
    destruct (takes_one _ _ _ _ _ id Ht Hid) as (_ & Ht1 & _).
    destruct (log_answer ctx q w) as [[v| |] w1] eqn:El; [|done|congruence].
    destruct (log_answers ctx (Ok <$> qs) w1) as [vs1 r] eqn:E1. injection E as <- ->.
    apply Forall_cons in Hvs as [-> Hvs]. eapply (IH _ w1); [exact Hl| |done|done|done].
    eapply (log_answer_resting D0 n0 rows ctx q w w1); try done.
    intros id' Hid'. by destruct (takes_one _ _ _ _ _ id' Ht Hid').
  - assert (log_answer ctx q w = (Ret None, w)) as El.
    { unfold log_answer. destruct (N.eqb_spec (MethodID q) GetMethodID); [by rewrite orb_true_r|done]. }
    rewrite El in E. destruct (log_answers ctx (Ok <$> qs) w) as [vs1 r] eqn:E1. injection E as <- ->.
    apply Forall_cons in Hvs as [_ Hvs]. by eapply (IH rows w).
Qed.

(** What is on the disk of a log that has taken [rows]. *)
Lemma good_disk D0 n0 rows (w : ClientWal.t) :
  good D0 n0 rows w -> exists D n, tg_holds (disk w) (D0 ++ D) n /\ length D + n = n0 /\ D `prefix_of` rows /\
    (resting (core w) -> D = rows).
Proof.
  intros [[(ls & [(D & n & Hh & Hn & Hf) _ _] & <-) _ _] _]. exists D, n. split; [done|]. split; [done|].
  split; [rewrite <-Hf; by apply prefix_app_r|]. intros [Hb Hc _ _]. by rewrite <-Hf, Hb, Hc, !app_nil_r.
Qed.

End calls.
End ClientWalFacts.
