(* ===== verification/SlaveSession.v ===== *)
(** * A slave on its connection

    [slave.go] on [tcp/client.go] and the network: the loop of
    [startReplication] with the time it takes, connections that end, and
    dialling anew.  [setConn] gives a connection one deadline for all of its
    life, and after a write that fails [Send] dials but does not send again;
    [Replication] shows what a round does on a connection that works, and here
    is what becomes of the rounds after it.

    Times are nanoseconds.  The master is whatever answers a request; it says
    nothing on its own, but for the listener's word to a connection it has no
    room for. *)

From S2P Require Import Prelude Encoding Utils Query Storage WalRecord FileSystem Index.
From S2P Require Import Segment SegmentManager Logs Concurrency Retry Protocol Wal Replication Transport.

Module SlaveSession.

(** What the network does: how long the master keeps the connection that was
    dialled as number [n], whether its listener turned that one away, whether a
    write at some time is accepted although the master has closed its end, and
    how long an answer to a request sent at some time takes. *)
Record Network := mkNetwork {
  life : nat -> Z;
  rejects : nat -> bool;
  swallows : Z -> bool;
  delay : Z -> Z
}.

(** The client, the time, the time at which the connection ends, the master,
    and the requests that reached it. *)
Record link_state (M : Type) := mkLink {
  client : Client.t;
  now : Z;
  ends : Z;
  master : M;
  asked : list bytes
}.
Arguments mkLink {M}.
Arguments client {M}.
Arguments now {M}.
Arguments ends {M}.
Arguments master {M}.
Arguments asked {M}.

Definition timeout : error := OpError (str "i/o timeout").

(** [time.After] and [time.Sleep] do not wait for a negative time. *)
Definition elapsed (ds : list Z) : Z := foldr (fun d t => (Z.max 0 d + t)%Z) 0%Z ds.

(** A connection that has ended takes no more writes. *)
Definition with_fails (f : option (nat * error)) (c : Client.t) : Client.t :=
  Client.mk (mkNetConn (sent (Client.conn c)) f) (Client.settings c) (Client.dials c) (Client.dropped c).

Section session.
Context {M : Type} (serve : Context.t -> bytes -> Go M (result reader)) (env : Env) (net : Network).

(** The answer to a request that reached the master, if the connection lives
    long enough for it to arrive. *)
Definition exchange (ctx : Context.t) (body : bytes) (c : Client.t) (l : link_state M)
  : outcome (result reader) * link_state M :=
  match serve ctx body (master l) with
  | (Ret (Ok r), m) =>
      let t := (now l + delay net (now l))%Z in
      if (t <? ends l)%Z then (Ret (Ok r), mkLink c t (ends l) m (asked l ++ [body]))
      else (Ret (Ok [([], Some timeout)]), mkLink c (ends l) (ends l) m (asked l ++ [body]))
  | (_, m) => (Ret (Ok [([], Some timeout)]), mkLink c (ends l) (ends l) m (asked l ++ [body]))
  end.

(** What a connection on which nothing was sent brings until it ends. *)
Definition unasked (n : nat) : reader :=
  if rejects net n then [(str "too many connections", None); ([], Some EOF)] else [([], Some timeout)].

(** [Client.Send] at the present time, and the reads of the connection it
    returns until there is a whole answer or the connection ends.  The number
    of the connection is that of the ones dropped before. *)
Definition Send (ctx : Context.t) (body : bytes) : Go (link_state M) (result reader) :=
  fun l =>
    let alive := (now l <? ends l)%Z in
    let c := with_fails (if alive || swallows net (now l) then None else Some (0, timeout)) (client l) in
    let '(o, (c', ws)) := Client.Send env ctx body (c, []) in
    let t := (now l + elapsed ws)%Z in
    match o with
    | Ret (Err e) => (Ret (Err e), mkLink c' t (ends l) (master l) (asked l))
    | Ret (Ok _) =>
        if bool_decide (length (Client.dropped c') = length (Client.dropped c)) then
          if alive then exchange ctx body c' l
          else (Ret (Ok [([], Some EOF)]), mkLink c' t (ends l) (master l) (asked l))
        else
          let n := length (Client.dropped c') in
          let e := (t + Z.min (Deadline (Client.settings c')) (life net n))%Z in
          (Ret (Ok (unasked n)), mkLink c' (Z.max t e) e (master l) (asked l))
    | Panics => (Panics, mkLink c' t (ends l) (master l) (asked l))
    | Blocks => (Blocks, mkLink c' t (ends l) (master l) (asked l))
    end.

Context {K : Type} `{!KVStore K} {LG : Type} (logWriter : option (LogWriter.t LG)).

Definition defaultSleepOnNoNewLogs : Z := 3000000000.

Definition sleep (d : Z) : Go (Slave.t K LG (link_state M)) unit :=
  Slave.on_cl (go_put (fun l => mkLink (client l) (now l + Z.max 0 d) (ends l) (master l) (asked l))).

(** What the master does between two rounds. *)
Definition meanwhile (f : M -> M) : Go (Slave.t K LG (link_state M)) unit :=
  Slave.on_cl (go_put (fun l => mkLink (client l) (now l) (ends l) (f (master l)) (asked l))).

(** The loop of [startReplication], for the iterations that are observed: the
    context each finds, and what the master has done since the one before. *)
Fixpoint startReplication (rounds : list (Context.t * (M -> M))) : Go (Slave.t K LG (link_state M)) unit :=
  match rounds with
  | [] => go_ret tt
  | (ctx, f) :: rounds' =>
      match Context.ctx_Err ctx with
      | Some _ => go_ret tt
      | None =>
          let! d := go_get Slave.syncInterval in
          do! sleep d in
          do! meanwhile f in
          let! err := Slave.getUpdates logWriter Send ctx in
          do! (match err with
               | Err e => if errors_Is e ErrNoNewLogs then sleep defaultSleepOnNoNewLogs else go_ret tt
               | Ok _ => go_ret tt
               end) in
          startReplication rounds'
      end
  end.

End session.
End SlaveSession.

Module SessionLinkFacts.
Import SlaveSession.

Lemma elapsed_nonneg ds : (0 <= elapsed ds)%Z.
Proof. induction ds as [|d ds IH]; [done|]. change (elapsed (d :: ds)) with (Z.max 0 d + elapsed ds)%Z. lia. Qed.

(** Nothing that comes unasked is an answer: the listener's word, read as a
    message, announces more bytes than it has. *)
Lemma ReadMessage_unasked net n :
  exists e, Response.ReadMessage (stream_data (unasked net n)) (Slave.conn_end (unasked net n)) = Err e.
Proof.
  unfold unasked. destruct (rejects net n); [|by eexists]. eexists.
  change (stream_data _) with (str "too many connections"). cbn [Slave.conn_end].
  assert (read_be 4 (drop 1 (str "too many connections")) = Some (1869553773%N, str "any connections")) as E
    by (vm_compute; reflexivity).
  change (str "too many connections") with (x74 :: drop 1 (str "too many connections")).
  unfold Response.ReadMessage. rewrite E.
  change (Response.i32_value 1869553773) with 1869553773%Z. cbn [Z.ltb Z.compare].
  rewrite (proj2 (read_full_None _ _)); [reflexivity|].
  change (length (str "any connections")) with 15. lia.
Qed.

(** *** The client *)

Lemma attempt_settings req c o c' :
  Client.attempt req c = (o, c') -> Client.settings c' = Client.settings c.
Proof.
  intros E. destruct (ClientFacts.attempt_cases req c) as (r & c1 & E' & H). rewrite E in E'.
  injection E' as -> ->. destruct (fails (Client.conn c)) as [[n e]|]; [|by destruct H as [_ ->]].
  destruct (Client.dials c) as [|[k|e'] ds]; by destruct H as [_ ->].
Qed.

(** Retrying what always returns, returns. *)
Lemma WithRetry_returns {S} env retry b (f : Go S (option error)) s :
  (forall s, exists r s', f s = (Ret r, s')) -> rand_ok env -> (3 <= default_delay b)%Z ->
  (2 * (default_delay b * 2 ^ default_retry retry) < 2 ^ 63)%Z ->
  exists r s' ds, WithRetry env retry b (Some f) (s, []) = (Ret r, (s', ds)).
Proof.
  intros Hf Hr Hb Hover. rewrite WithRetry_value.
  assert (0 < default_retry retry)%Z by (unfold default_retry; destruct (Z.leb_spec retry 0); lia).
  destruct (retry_value_loop_spec env (let! e := f in go_ret (tt, e)) (default_delay b) (default_retry retry)
    (Z.to_nat (default_retry retry)) 0 tt None s []) as (es & s1 & s2 & ds & r & E & _); try done.
  - intros s0. destruct (Hf s0) as (r & s' & E). eexists _, _. rewrite (go_bind_ret _ _ _ _ _ E). done.
  - rewrite Nat.add_0_l, Z2Nat.id by lia. done.
  - lia.
  - lia.
  - unfold WithRetryValue, go_bind at 1. rewrite E. by eexists _, _, _.
Qed.

(** The number of retries does not make the delays overflow. *)
Definition retries_ok (c : Client.t) : Prop :=
  (2 * (200000000 * 2 ^ default_retry (RetryCount (Client.settings c))) < 2 ^ 63)%Z.

Lemma client_Send_returns env ctx req c :
  rand_ok env -> retries_ok c ->
  exists r c' ws, Client.Send env ctx req (c, []) = (Ret r, (c', ws)) /\ Client.settings c' = Client.settings c.
Proof.
  intros Hr Hc. unfold Client.Send. destruct (Context.ctx_Err ctx) as [e|]; [by eexists _, _, _|].
  unfold go_get, go_bind at 1. cbn [fst].
  destruct (WithRetry_returns env (RetryCount (Client.settings c)) 200000000 (Client.attempt req) c)
    as (err & c' & ds & E); [|done|done|done|].
  { intros c0. destruct (ClientFacts.attempt_cases req c0) as (r & c1 & E & _). by eexists _, _. }
  assert (Client.settings c' = Client.settings c) as Hs.
  { unfold WithRetry in E.
    apply (retry_loop_inv env (fun x => Client.settings x = Client.settings c) (fun _ => True)) in E as [? _]; try done.
    intros s0 o s1 Hs0 E0. split; [|done]. by rewrite (attempt_settings _ _ _ _ E0). }
  rewrite (go_bind_ret _ _ _ _ _ E). by destruct err; eexists _, _, _.
Qed.

Section facts.
Context {M : Type} (serve : Context.t -> bytes -> Go M (result reader)) (env : Env) (net : Network).
Hypothesis Hrand : rand_ok env.

(** The connection has ended. *)
Definition over (l : link_state M) : Prop := (ends l <= now l)%Z.

(** What a reader brings is no message. *)
Definition no_message (r : reader) : Prop :=
  exists e, Response.ReadMessage (stream_data r) (Slave.conn_end r) = Err e.

(** Sending on a connection that has ended reaches nobody, and ends with a
    connection that has ended. *)
Lemma Send_over ctx body l :
  over l -> retries_ok (client l) ->
  exists r l', Send serve env net ctx body l = (Ret r, l') /\ over l' /\ retries_ok (client l') /\
    asked l' = asked l /\ forall rd, r = Ok rd -> no_message rd.
Proof.
  intros Ho Hc. unfold Send. unfold over in Ho. destruct (Z.ltb_spec (now l) (ends l)) as [|_]; [lia|]. cbn [orb].
  set (c := with_fails _ (client l)).
  destruct (client_Send_returns env ctx body c Hrand) as (r & c' & ws & -> & Hs); [done|].
  pose proof (elapsed_nonneg ws). assert (retries_ok c') by (unfold retries_ok; by rewrite Hs).
  destruct r as [k|e].
  - case_bool_decide.
    + eexists _, _. split; [reflexivity|]. cbn. split; [unfold over; cbn; lia|]. split; [done|]. split; [done|].
      intros rd [= <-]. by eexists.
    + eexists _, _. split; [reflexivity|]. cbn [now ends client asked]. split; [unfold over; cbn [now ends]; lia|].
      split; [done|]. split; [done|]. intros rd [= <-]. apply ReadMessage_unasked.
  - eexists _, _. split; [reflexivity|]. cbn. split; [unfold over; cbn; lia|]. by split.
Qed.

Context {K : Type} `{!KVStore K} {LG : Type} (logWriter : option (LogWriter.t LG)).

Abbreviation slave := (Slave.t K LG (link_state M)).

(** The slave with another state of its connection. *)
Definition set_cl {C C'} (c : C') (s : Slave.t K LG C) : Slave.t K LG C' :=
  Slave.mk (Slave.st s) (Slave.log s) c (Slave.syncInterval s) (Slave.lastLsnWritten s).

(** A round on a connection that has ended changes nothing but the time and the
    connection. *)
Lemma getUpdates_over ctx (s : slave) :
  over (Slave.cl s) -> retries_ok (client (Slave.cl s)) ->
  exists e l', Slave.getUpdates logWriter (Send serve env net) ctx s = (Ret (Err e), set_cl l' s) /\
    over l' /\ retries_ok (client l') /\ asked l' = asked (Slave.cl s).
Proof.
  intros Ho Hc. unfold Slave.getUpdates, Slave.sendReq, go_get.
  destruct (Context.ctx_Err ctx) as [e|] eqn:Hctx.
  { exists e, (Slave.cl s). split; [|done]. by destruct s. }
  unfold go_bind at 1.
  destruct (Send_over ctx (Request.Marshal (Request.mk (u64 (Slave.lastLsnWritten s + 1)))) (Slave.cl s) Ho Hc)
    as (r & l' & E & Ho' & Hc' & Ha & Hr).
  unfold go_bind, Slave.on_cl, go_zoom. rewrite E.
  destruct r as [rd|e]; [|by exists e, l'].
  destruct (Hr rd eq_refl) as [e ->]. by exists e, l'.
Qed.

End facts.

(** *** A connection that works *)

Section blind.
Context {K : Type} `{!KVStore K} {LG : Type}.

(** What a piece of the slave does without its connection. *)
Definition blind {A} (F : forall C, Go (Slave.t K LG C) A) : Prop :=
  forall s : Slave.t K LG unit, exists o (s' : Slave.t K LG unit), forall C (c : C), F C (set_cl c s) = (o, set_cl c s').

Lemma blind_ret {A} (a : A) : blind (fun C => go_ret a).
Proof. intros s. by exists (Ret a), s. Qed.

Lemma blind_bind {A B} (F : forall C, Go (Slave.t K LG C) A) (G : A -> forall C, Go (Slave.t K LG C) B) :
  blind F -> (forall a, blind (G a)) -> blind (fun C => go_bind (F C) (fun a => G a C)).
Proof.
  intros HF HG s. destruct (HF s) as (o & s1 & E1). destruct o as [a| |].
  - destruct (HG a s1) as (o2 & s2 & E2). exists o2, s2. intros C c.
    by rewrite (go_bind_ret _ _ _ _ _ (E1 C c)).
  - exists Panics, s1. intros C c. unfold go_bind. by rewrite E1.
  - exists Blocks, s1. intros C c. unfold go_bind. by rewrite E1.
Qed.

Lemma blind_st {A} (F : Go K A) : blind (fun C => Slave.on_st (C := C) F).
Proof.
  intros s. exists (fst (F (Slave.st s))), (SlaveFacts.set_st (snd (F (Slave.st s))) s).
  intros C c. unfold Slave.on_st, go_zoom. cbn. by destruct (F (Slave.st s)).
Qed.

Lemma blind_log {A} (F : Go LG A) : blind (fun C => Slave.on_log (C := C) F).
Proof.
  intros s. exists (fst (F (Slave.log s))),
    (Slave.mk (Slave.st s) (snd (F (Slave.log s))) tt (Slave.syncInterval s) (Slave.lastLsnWritten s)).
  intros C c. unfold Slave.on_log, go_zoom. cbn. by destruct (F (Slave.log s)).
Qed.

Lemma blind_index {A} (l : list A) i : blind (fun C => go_index l i).
Proof. intros s. unfold go_index. destruct (l !! i) as [a|]; by eexists _, _. Qed.

Lemma blind_execStorage ctx rows : blind (fun C => Slave.execStorage (C := C) ctx rows).
Proof.
  induction rows as [|r rows IH]; cbn [Slave.execStorage]; [apply blind_ret|].
  apply (blind_bind (fun C => Slave.execStorage_row ctx r)
    (fun a C => match a with Ok _ => Slave.execStorage ctx rows | Err e => go_ret (Err e) end)).
  - unfold Slave.execStorage_row. destruct (_ =? SetMethodID)%N; [|destruct (_ =? DelMethodID)%N].
    + apply (blind_bind (fun C => go_index _ _) (fun k C => go_bind (go_index _ _) _)); [apply blind_index|].
      intros k. apply (blind_bind (fun C => go_index _ _) (fun v C => go_bind (Slave.on_st _) _));
        [apply blind_index|]. intros v.
      apply (blind_bind (fun C => Slave.on_st _) (fun a C => go_ret _)); [apply blind_st|].
      intros a. apply blind_ret.
    + apply (blind_bind (fun C => go_index _ _) (fun k C => go_bind (Slave.on_st _) _)); [apply blind_index|].
      intros k. apply (blind_bind (fun C => Slave.on_st _) (fun a C => go_ret _)); [apply blind_st|].
      intros a. apply blind_ret.
    + apply blind_ret.
  - intros [[]|e]; [exact IH|apply blind_ret].
Qed.

Lemma blind_processRows lw ctx rows : blind (fun C => Slave.processRows (C := C) lw ctx rows).
Proof.
  unfold Slave.processRows. case_bool_decide; [apply blind_ret|].
  destruct (Context.ctx_Err ctx); [apply blind_ret|].
  apply (blind_bind (fun C => match lw with Some w => Slave.on_log _ | None => go_ret None end)
    (fun e C => match e with Some e => go_ret (Err e) | None => go_bind (Slave.execStorage _ _) _ end)).
  - destruct lw; [apply blind_log|apply blind_ret].
  - intros [e|]; [apply blind_ret|].
    apply (blind_bind (fun C => Slave.execStorage _ _)
      (fun e C => match e with Ok _ => go_bind (go_index _ _) _ | Err e => go_ret (Err e) end));
      [apply blind_execStorage|]. intros [[]|e]; [|apply blind_ret].
    apply (blind_bind (fun C => go_index _ _) (fun r C => go_bind (go_put _) _)); [apply blind_index|].
    intros r s. eexists (Ret (Ok tt)), (Slave.mk (Slave.st s) (Slave.log s) tt (Slave.syncInterval s) (Row.GetLsnID r)).
    done.
Qed.

Lemma blind_process_stream lw ctx batches : blind (fun C => Slave.process_stream (C := C) lw ctx batches).
Proof.
  induction batches as [|rows batches IH]; cbn [Slave.process_stream]; [apply blind_ret|].
  apply (blind_bind (fun C => Slave.processRows lw ctx rows)
    (fun e C => match e with Ok _ => Slave.process_stream lw ctx batches | Err e => go_ret (Err e) end));
    [apply blind_processRows|]. intros [[]|e]; [exact IH|apply blind_ret].
Qed.

(** A round after its [Send]. *)
Definition after_Send (lw : option (LogWriter.t LG)) (ctx : Context.t) (r : result reader) C
  : Go (Slave.t K LG C) (result unit) :=
  match r with
  | Err e => go_ret (Err e)
  | Ok rd =>
      match Response.ReadMessage (stream_data rd) (Slave.conn_end rd) with
      | Err e => go_ret (Err e)
      | Ok resp =>
          match Response.Err_ resp with
          | Some e => go_ret (Err (if bool_decide (Error e = Error ErrNoNewLogs) then ErrNoNewLogs else e))
          | None =>
              if bool_decide (length (Response.Data resp) = 0) then go_ret (Ok tt)
              else
                let! r := LogReader.lift (LogReader.ReadStream (LogReader.bytes_reader (Response.Data resp))) in
                Slave.process_stream lw ctx (values [r])
          end
      end
  end.

Lemma blind_after_Send lw ctx r : blind (after_Send lw ctx r).
Proof.
  unfold after_Send. destruct r as [rd|e]; [|apply blind_ret].
  destruct (Response.ReadMessage _ _) as [resp|e]; [|apply blind_ret].
  destruct (Response.Err_ resp) as [e|]; [apply blind_ret|]. case_bool_decide; [apply blind_ret|].
  apply (blind_bind (fun C => LogReader.lift _) (fun r C => Slave.process_stream lw ctx (values [r]))).
  - intros s. unfold LogReader.lift. destruct (LogReader.ReadStream _); by eexists _, s.
  - intros v. apply blind_process_stream.
Qed.

Lemma getUpdates_after {C} lw ctx (Send : Context.t -> bytes -> Go C (result reader)) (s : Slave.t K LG C) r c' :
  Context.ctx_Err ctx = None ->
  Send ctx (Request.Marshal (Request.mk (u64 (Slave.lastLsnWritten s + 1)))) (Slave.cl s) = (Ret r, c') ->
  Slave.getUpdates lw Send ctx s = after_Send lw ctx r C (set_cl c' s).
Proof.
  intros Hctx E. unfold Slave.getUpdates, Slave.sendReq, after_Send. rewrite Hctx. unfold go_get.
  unfold go_bind at 1. unfold go_bind at 1. unfold go_bind at 1. unfold Slave.on_cl, go_zoom. rewrite E.
  destruct r as [rd|e]; [|done]. destruct (Response.ReadMessage _ _) as [resp|e]; [|done].
  destruct (Response.Err_ resp) as [e|]; [by destruct (bool_decide _)|]. done.
Qed.

(** On two connections that bring the same reads a round does the same. *)
Lemma getUpdates_same {C1 C2} lw ctx (Send1 : Context.t -> bytes -> Go C1 (result reader))
    (Send2 : Context.t -> bytes -> Go C2 (result reader)) (s : Slave.t K LG C1) c1' c2 c2' r :
  Context.ctx_Err ctx = None ->
  let body := Request.Marshal (Request.mk (u64 (Slave.lastLsnWritten s + 1))) in
  Send1 ctx body (Slave.cl s) = (Ret r, c1') -> Send2 ctx body c2 = (Ret r, c2') ->
  exists o (s' : Slave.t K LG unit), Slave.getUpdates lw Send1 ctx s = (o, set_cl c1' s') /\
    Slave.getUpdates lw Send2 ctx (set_cl c2 s) = (o, set_cl c2' s').
Proof.
  intros Hctx body E1 E2. destruct (blind_after_Send lw ctx r (set_cl tt s)) as (o & s' & H).
  exists o, s'. rewrite (getUpdates_after _ _ _ _ _ _ Hctx E1).
  rewrite (getUpdates_after lw ctx Send2 (set_cl c2 s) r c2' Hctx E2). split; apply H.
Qed.

End blind.
End SessionLinkFacts.

(** ** Properties *)

Section keeping_up.
Import SlaveSession SessionLinkFacts.
Context {M : Type} `{!SegmentManager M} `{!SegmentManagerLaws M} `{!IndexSource M} `{!IndexSourceLaws M}.
Context {K : Type} `{!KVStore K} `{!KVLaws K} {LG : Type}.
Context (env : Env) (walDir : gostring) (cut : bytes -> reader) (net : Network).

Lemma Send_alive ctx body (l : link_state M) r m :
  Context.ctx_Err ctx = None -> (now l < ends l)%Z -> (now l + delay net (now l) < ends l)%Z ->
  link env walDir cut ctx body (master l) = (Ret (Ok r), m) ->
  exists l', Send (link env walDir cut) env net ctx body l = (Ret (Ok r), l') /\ master l' = m /\
    asked l' = asked l ++ [body] /\ ends l' = ends l /\ now l' = (now l + delay net (now l))%Z.
Proof.
  intros Hctx Ha Hd E. unfold Send. destruct (Z.ltb_spec (now l) (ends l)) as [_|]; [|lia]. cbn [orb].
  rewrite ClientFacts.Send_working by done. cbn [with_fails Client.dropped].
  rewrite bool_decide_true by done. unfold exchange. rewrite E.
  destruct (Z.ltb_spec (now l + delay net (now l)) (ends l)) as [_|]; [|lia]. by eexists.
Qed.

(** The master's handler answers every request it is given. *)
Lemma link_answers ctx lsn L (m : M) :
  (forall b, stream_data (cut b) = b) -> (forall i, done env i = None) -> Context.ctx_Err ctx = None ->
  MasterFacts.serves walDir L m -> (0 < lsn < 2 ^ 64)%N ->
  exists r m', link env walDir cut ctx (Request.Marshal (Request.mk lsn)) m = (Ret (Ok r), m').
Proof.
  intros Hcut Hq Hctx Hs Hlsn. unfold link. destruct (decide (lsn ∈ Row.lsnID <$> rows_of L)) as [Hin|Hni].
  - destruct (MasterFacts.Handle_found env walDir ctx lsn L m Hctx Hs Hlsn Hin)
      as (pre & r & suf & m' & _ & _ & _ & E). unfold MasterFacts.request in E. rewrite E. by eexists _, _.
  - pose proof (MasterFacts.Handle_missing env walDir Hq ctx lsn L m Hctx Hs Hlsn Hni) as E.
    unfold MasterFacts.request in E. rewrite E. by eexists _, _.
Qed.

Hypothesis Hcut : forall b, stream_data (cut b) = b.
Hypothesis Hquiet : forall i, done env i = None.
Context (own : option (own_log LG)).

Abbreviation slave := (Slave.t K LG (link_state M)).

(** The slave has the first [k] rows of the master's log, and its own log, if
    it keeps one, holds [rs] and has room for [n] more files. *)
Record follows (rows : list Row.t) (k : nat) (rs : list Row.t) (n : nat) (s : slave) : Prop := {
  fo_wf : kv_wf (Slave.st s);
  fo_st : kv_abs (Slave.st s) = replay (take k rows) ∅;
  fo_last : Slave.lastLsnWritten s = N.of_nat k;
  fo_own : own_holds own (Slave.log s) rs n
}.

(** An iteration of the loop on a connection that lasts until the answer is
    there. *)
Lemma keeps_up_once (ctx : Context.t) (grown : M -> M) (L : layout) (k : nat) (rs : list Row.t) (n : nat) (s : slave)
    rounds :
  Context.ctx_Err ctx = None -> MasterFacts.serves walDir L (grown (master (Slave.cl s))) -> replicable L ->
  numbered (rows_of L) -> k <= length (rows_of L) -> (N.of_nat (length (rows_of L)) + 1 < 2 ^ 64)%N ->
  follows (rows_of L) k rs n s ->
  (ManagerFacts.volume (rs ++ drop k (rows_of L)) < 2 ^ 63)%Z -> length (drop k (rows_of L)) <= n ->
  (let t := (now (Slave.cl s) + Z.max 0 (Slave.syncInterval s))%Z in
    t < ends (Slave.cl s) /\ t + delay net t < ends (Slave.cl s))%Z ->
  exists s', startReplication (link env walDir cut) env net (own_writer own) ((ctx, grown) :: rounds) s =
      startReplication (link env walDir cut) env net (own_writer own) rounds s' /\
    follows (rows_of L) (length (rows_of L)) (rs ++ drop k (rows_of L)) (n - length (drop k (rows_of L))) s' /\
    MasterFacts.serves walDir L (master (Slave.cl s')) /\
    asked (Slave.cl s') = asked (Slave.cl s) ++ [Request.Marshal (Request.mk (N.of_nat k + 1))] /\
    Slave.syncInterval s' = Slave.syncInterval s /\ ends (Slave.cl s') = ends (Slave.cl s) /\
    let t := (now (Slave.cl s) + Z.max 0 (Slave.syncInterval s))%Z in
    (now (Slave.cl s') <= t + delay net t + defaultSleepOnNoNewLogs)%Z.
Proof using Hcut Hquiet KVLaws0 SegmentManagerLaws0 IndexSourceLaws0.
  intros Hctx Hserves Hrepl Hnum Hk Hlen [Hwf Hst Hlast Hown] Hvol Hn Hlives.
  cbv zeta in Hlives. cbn [startReplication]. rewrite Hctx. unfold go_get, go_bind at 1. unfold go_bind at 1.
  cbn [sleep Slave.on_cl go_zoom go_put]. unfold go_bind at 1. cbn [meanwhile Slave.on_cl go_zoom go_put].
  unfold go_bind at 1. lazymatch goal with |- context [Slave.getUpdates _ _ _ ?x] => set (s1 := x) end.
  assert (u64 (Slave.lastLsnWritten s1 + 1) = N.of_nat k + 1)%N as Hlsn.
  { unfold s1. cbn. rewrite Hlast. unfold u64. apply N.mod_small. lia. }
  destruct (link_answers ctx (N.of_nat k + 1) L (master (Slave.cl s1)) Hcut Hquiet Hctx Hserves) as (r & m' & E); [lia|].
  destruct (Send_alive ctx (Request.Marshal (Request.mk (N.of_nat k + 1))) (Slave.cl s1) r m' Hctx)
    as (l' & El & Hm & Ha & He & Ht); [apply Hlives|apply Hlives|exact E|].
  rewrite <-Hlsn in E, El. destruct (getUpdates_same (own_writer own) ctx _ _ s1 l' _ m' _ Hctx El E) as (o & s' & -> & E2).
  set (s2 := set_cl (master (Slave.cl s1)) s1) in E2.
  assert (exists a s3, Slave.getUpdates (own_writer own) (link env walDir cut) ctx s2 = (Ret a, s3) /\
    kv_abs (Slave.st s3) = replay (rows_of L) ∅ /\
    Slave.lastLsnWritten s3 = N.of_nat (length (rows_of L)) /\
    own_holds own (Slave.log s3) (rs ++ drop k (rows_of L)) (n - length (drop k (rows_of L))) /\
    MasterFacts.serves walDir L (Slave.cl s3) /\
    kv_wf (Slave.st s3) /\ Slave.syncInterval s3 = Slave.syncInterval s) as (a & s3 & E3 & H1 & H2 & H3 & H4 & H5 & H6).
  { destruct (decide (k = length (rows_of L))) as [->|Hkn].
    - exists (Err ErrNoNewLogs), s2.
      split; [by apply (round_done env walDir cut Hcut Hquiet (own_writer own) ctx Hctx L)|].
      rewrite drop_all, app_nil_r. cbn [length]. rewrite Nat.sub_0_r. split; [|done].
      transitivity (kv_abs (Slave.st s)); [done|]. by rewrite Hst, firstn_all.
    - destruct (round_news env walDir cut Hcut Hquiet own ctx Hctx L k s2 rs n) as (s3 & E3 & H3);
        try done; [lia|]. exists (Ok tt), s3. done. }
  rewrite E3 in E2. injection E2 as <- ->. cbn [set_cl Slave.st Slave.cl Slave.lastLsnWritten Slave.log Slave.syncInterval] in *.
  assert (exists l, (match a with
    | Err e => if errors_Is e ErrNoNewLogs then sleep defaultSleepOnNoNewLogs else go_ret tt
    | Ok _ => go_ret tt end) (set_cl l' s') = (Ret tt, set_cl l s') /\ master l = master l' /\ asked l = asked l' /\
    ends l = ends l' /\ (now l <= now l' + defaultSleepOnNoNewLogs)%Z) as (l & E4 & Hm4 & Ha4 & He4 & Ht4).
  { unfold defaultSleepOnNoNewLogs. destruct a as [|e]; [|destruct (errors_Is e ErrNoNewLogs)];
      [exists l'|eexists; split; [reflexivity|]; cbn|exists l']; split_and!; try done; lia. }
  rewrite (go_bind_ret _ _ _ _ _ E4). eexists. split; [reflexivity|].
  cbn [set_cl Slave.st Slave.cl Slave.lastLsnWritten Slave.log Slave.syncInterval].
  rewrite Hm4, Ha4, He4, Hm, Ha. split; [|split_and!; [done..|]].
  - constructor; cbn [set_cl Slave.st Slave.cl Slave.lastLsnWritten Slave.log]; try done. by rewrite H1, firstn_all.
  - rewrite Ht in Ht4. exact Ht4.
Qed.

(** A round as it is observed: its context, what the master has done since the
    round before, and the log the master then has. *)
Record round := mkRound { r_ctx : Context.t; r_grown : M -> M; r_log : layout }.

(** The master's log only grows, and stays one that can be replicated. *)
Fixpoint growing (L : layout) (rounds : list round) : Prop :=
  match rounds with
  | [] => True
  | r :: rounds' =>
      Context.ctx_Err (r_ctx r) = None /\ replicable (r_log r) /\ numbered (rows_of (r_log r)) /\
      rows_of L `prefix_of` rows_of (r_log r) /\
      (forall m, MasterFacts.serves walDir L m -> MasterFacts.serves walDir (r_log r) (r_grown r m)) /\
      growing (r_log r) rounds'
  end.

Fixpoint final (L : layout) (rounds : list round) : layout :=
  match rounds with [] => L | r :: rounds' => final (r_log r) rounds' end.

(** A request for the row after the [k]th, then after what each round brought. *)
Fixpoint requests (k : nat) (rounds : list round) : list bytes :=
  match rounds with
  | [] => []
  | r :: rounds' => Request.Marshal (Request.mk (N.of_nat k + 1)) :: requests (length (rows_of (r_log r))) rounds'
  end.

Lemma growing_prefix L rounds : growing L rounds -> rows_of L `prefix_of` rows_of (final L rounds).
Proof using.
  revert L. induction rounds as [|r rounds IH]; intros L; [done|]. intros (_ & _ & _ & Hp & _ & Hg).
  etransitivity; [exact Hp|]. by apply IH.
Qed.

(** C10: a slave on a living connection keeps up, round after round.  The
    master's log grows between the rounds, its rows numbered from one in the
    order they are stored (as those of one client at a time are) and below
    2^31 bytes.  As long as the connection lasts, which it does not beyond its
    deadline, every iteration of the loop of [startReplication], with its
    sleeps, the client, the protocol and the master's handler, asks once, for
    the row after the last the slave has; and after the last iteration the
    slave has the contents of the whole log, its position at the end of it,
    and, if it keeps a log of its own and that has room (2^63 bytes, a name
    for each new file, no failing system call), just the rows it had not yet
    appended to that, each once. *)
Theorem slave_keeps_up (L : layout) (rounds : list round) (s : slave) (rs : list Row.t) (n : nat) (D : Z)
    (Hserves : MasterFacts.serves walDir L (master (Slave.cl s))) (Hgrow : growing L rounds)
    (Hs : follows (rows_of L) (length (rows_of L)) rs n s)
    (Hlen : (N.of_nat (length (rows_of (final L rounds))) + 1 < 2 ^ 64)%N)
    (Hvol : (ManagerFacts.volume (rs ++ drop (length (rows_of L)) (rows_of (final L rounds))) < 2 ^ 63)%Z)
    (Hroom : length (drop (length (rows_of L)) (rows_of (final L rounds))) <= n)
    (Hdelay : forall t, (0 <= delay net t <= D)%Z)
    (Hlives : (now (Slave.cl s) +
      Z.of_nat (length rounds) * (Z.max 0 (Slave.syncInterval s) + D + defaultSleepOnNoNewLogs) < ends (Slave.cl s))%Z) :
  exists s', startReplication (link env walDir cut) env net (own_writer own)
      ((fun r => (r_ctx r, r_grown r)) <$> rounds) s = (Ret tt, s') /\
    kv_abs (Slave.st s') = replay (rows_of (final L rounds)) ∅ /\
    Slave.lastLsnWritten s' = N.of_nat (length (rows_of (final L rounds))) /\
    own_holds own (Slave.log s') (rs ++ drop (length (rows_of L)) (rows_of (final L rounds)))
      (n - length (drop (length (rows_of L)) (rows_of (final L rounds)))) /\
    MasterFacts.serves walDir (final L rounds) (master (Slave.cl s')) /\
    asked (Slave.cl s') = asked (Slave.cl s) ++ requests (length (rows_of L)) rounds.
Proof using Hcut Hquiet KVLaws0 SegmentManagerLaws0 IndexSourceLaws0.
  revert L s rs n Hserves Hgrow Hs Hlen Hvol Hroom Hlives.
  induction rounds as [|[ctx f L1] rounds IH]; intros L s rs n Hserves Hgrow Hs Hlen Hvol Hroom Hlives.
  { destruct Hs as [Hwf Hst Hlast Hown]. exists s. cbn [final requests fmap list_fmap startReplication].
    rewrite drop_all, !app_nil_r, Nat.sub_0_r. rewrite firstn_all in Hst. by split_and!. }
  destruct Hgrow as (Hctx & Hrepl & Hnum & [T ET] & Hf & Hgrow). cbn [r_ctx r_grown r_log final] in *.
  destruct (growing_prefix _ _ Hgrow) as [T2 ET2].
  assert (drop (length (rows_of L)) (rows_of L1) = T) as HT by (rewrite ET; by rewrite drop_app_length).
  assert (drop (length (rows_of L)) (rows_of (final L1 rounds)) = T ++ T2) as HT2
    by (rewrite ET2, ET, <-(assoc_L (++)); by rewrite drop_app_length).
  assert (drop (length (rows_of L1)) (rows_of (final L1 rounds)) = T2) as HT3
    by (rewrite ET2; by rewrite drop_app_length).
  rewrite HT2, length_app in Hroom. rewrite HT2, (assoc_L (++)), ManagerFacts.volume_app in Hvol.
  assert (0 <= ManagerFacts.volume T2)%Z by (unfold ManagerFacts.volume; lens).
  cbn [length] in Hlives. specialize (Hdelay (now (Slave.cl s) + Z.max 0 (Slave.syncInterval s))%Z) as Hd.
  assert (0 < defaultSleepOnNoNewLogs)%Z by done.
  rewrite Nat2Z.inj_succ, Z.mul_succ_l in Hlives.
  assert (0 <= Z.of_nat (length rounds) * (Z.max 0 (Slave.syncInterval s) + D + defaultSleepOnNoNewLogs))%Z by nia.
  destruct (keeps_up_once ctx f L1 (length (rows_of L)) rs n s ((fun r => (r_ctx r, r_grown r)) <$> rounds) Hctx (Hf _ Hserves)
    Hrepl Hnum) as (s1 & E1 & Hs1 & Hsv1 & Ha1 & Hsi1 & He1 & Ht1); rewrite ?HT.
  { rewrite ET, length_app. lia. }
  { rewrite ET2, length_app in Hlen. lia. }
  { destruct Hs as [Hwf Hst Hlast Hown]. constructor; try done. rewrite Hst, ET. by rewrite firstn_all, take_app_length. }
  { lia. }
  { lia. }
  { cbv zeta. lia. }
  rewrite HT in Hs1. cbv zeta in Ht1.
  destruct (IH L1 s1 (rs ++ T) (n - length T)) as (s' & E & Hst & Hl & Hown & Hsv & Ha); try done; rewrite ?HT3.
  { by rewrite ManagerFacts.volume_app. }
  { lia. }
  { rewrite He1, Hsi1. lia. }
  rewrite HT3 in Hown. exists s'. rewrite fmap_cons. cbn [r_ctx r_grown]. rewrite E1, HT2, length_app.
  rewrite <-(assoc_L (++)) in Hown. rewrite Nat.sub_add_distr. split_and!; try done.
  rewrite Ha, Ha1. cbn [requests r_log]. by rewrite <-(assoc_L (++)).
Qed.

End keeping_up.

Section silence.
Import SlaveSession SessionLinkFacts.
Context {M : Type} (serve : Context.t -> bytes -> Go M (result reader)) (env : Env) (net : Network).
Context {K : Type} `{!KVStore K} {LG : Type} (logWriter : option (LogWriter.t LG)).

(** C36: a slave whose connection has ended has replicated for the last time.
    However long the loop of [startReplication] goes on, whatever the master
    logs meanwhile, whether the dials fail or succeed, however long the master
    keeps the new connections and even if it accepts the writes of a connection
    it has closed: no request reaches the master any more, and the slave's
    storage, log and position stay as they are.  Each new connection is only
    read from, until its own deadline has passed. *)
Theorem slave_falls_silent (rounds : list (Context.t * (M -> M))) (s : Slave.t K LG (link_state M))
    (Hrand : rand_ok env) (Hretries : retries_ok (client (Slave.cl s))) (Hover : over (Slave.cl s)) :
  exists l, startReplication serve env net logWriter rounds s = (Ret tt, set_cl l s) /\
    asked l = asked (Slave.cl s) /\ over l.
Proof.
  revert s Hretries Hover. induction rounds as [|[ctx f] rounds IH]; intros s Hc Ho; cbn [startReplication].
  { exists (Slave.cl s). split; [by destruct s|done]. }
  destruct (Context.ctx_Err ctx); [exists (Slave.cl s); split; [by destruct s|done]|].
  unfold go_get, go_bind at 1. unfold go_bind at 1. cbn [sleep Slave.on_cl go_zoom go_put]. unfold go_bind at 1.
  cbn [meanwhile Slave.on_cl go_zoom go_put]. unfold go_bind at 1.
  lazymatch goal with |- context [Slave.getUpdates _ _ _ ?x] => set (s1 := x) end.
  destruct (getUpdates_over serve env net Hrand logWriter ctx s1) as (e & l1 & -> & Ho1 & Hc1 & Ha1); [unfold over in *; cbn; lia|done|].
  assert (exists l2, (if errors_Is e ErrNoNewLogs then sleep defaultSleepOnNoNewLogs else go_ret tt) (set_cl l1 s1) =
    (Ret tt, set_cl l2 s1) /\ over l2 /\ retries_ok (client l2) /\ asked l2 = asked l1) as (l2 & E2 & Ho2 & Hc2 & Ha2).
  { destruct (errors_Is e ErrNoNewLogs); [|by exists l1]. eexists. split; [reflexivity|]. unfold over in *. cbn.
    split; [unfold defaultSleepOnNoNewLogs; lia|done]. }
  rewrite (go_bind_ret _ _ _ _ _ E2). destruct (IH (set_cl l2 s1) Hc2 Ho2) as (l' & -> & Ha' & Ho').
  exists l'. split; [done|]. split; [|done]. rewrite Ha'. cbn [set_cl Slave.cl]. by rewrite Ha2, Ha1.
Qed.

End silence.

(** ** Examples *)

Module SlaveSessionWitnesses.
Import SlaveSession SessionLinkFacts ReplicationWitnesses Examples.

(** A network that answers within ten milliseconds, to a client that has just
    connected with the default deadline and will be accepted again and again. *)
Definition ex_net : Network := mkNetwork (fun _ => 600000000000%Z) (fun _ => false) (fun _ => false) (fun _ => 10000000%Z).

Definition ex_link (t : Z) : link_state (Manager.st Mutex.t) :=
  mkLink (Client.mk (mkNetConn [] None) (Client.with_defaults (mkClientConfig 0 0 0))
      (replicate 100 (Ok (mkNetConn [] None))) [])
    t Client.defaultDeadline (ex_master []) [].

Definition ex_session (t : Z) : Slave.t (Storage.t MemEngine.t) unit (link_state (Manager.st Mutex.t)) :=
  Slave.NewSlave (Storage.New (MemEngine.NewEngine 4)) tt (ex_link t) 0.

Definition ex_grown (_ : Manager.st Mutex.t) : Manager.st Mutex.t := ex_master [ex_row 1; ex_row 2].

(** A slave with a log of its own, and the deadline of ten minutes of the
    configuration in ReadMe.md. *)
Definition ex_logging : Slave.t (Storage.t MemEngine.t) (Manager.st Mutex.t) (link_state (Manager.st Mutex.t)) :=
  Slave.NewSlave (Storage.New (MemEngine.NewEngine 4)) (Witnesses.started example_world)
    (mkLink (Client.mk (mkNetConn [] None) (Client.with_defaults (mkClientConfig 0 600000000000 3)) [] [])
      0 600000000000 (ex_master []) []) 0.

Lemma ex_logging_holds :
  own_holds (Some (slave_log example_dir 1000)) (Witnesses.started example_world) [] 900.
Proof.
  destruct example_start as (w & seg & E & _ & _ & Hn & Hl & Hi). cbv zeta in *.
  exists [(seg_name (10 ^ 15), [])]. unfold Witnesses.started. rewrite E.
  split; [done|]. split; [done|]. split; [done|]. lia.
Qed.

(** Three rounds: a row, another, and nothing new. *)
Lemma slave_keeps_up_witness :
  exists s', startReplication (link quiet (str "data") LogReader.bytes_reader) quiet ex_net (Some slave_writer)
      [(Context.Background, fun _ => ex_master [ex_row 1]); (Context.Background, ex_grown);
       (Context.Background, fun m => m)] ex_logging = (Ret tt, s') /\
    kv_abs (Slave.st s') = replay [ex_row 1; ex_row 2] ∅ /\ Slave.lastLsnWritten s' = 2%N /\
    own_holds (Some (slave_log example_dir 1000)) (Slave.log s') [ex_row 1; ex_row 2] 898 /\
    asked (Slave.cl s') = [Request.Marshal (Request.mk 1); Request.Marshal (Request.mk 2); Request.Marshal (Request.mk 3)].
Proof.
  destruct (ex_master_log []) as (L0 & HL0 & Hs0);
    [apply (bool_decide_unpack _); vm_compute; exact Logic.I|simpl; lia|reflexivity|vm_compute; reflexivity|].
  destruct (ex_master_log [ex_row 1]) as (L1 & HL1 & Hs1);
    [apply (bool_decide_unpack _); vm_compute; exact Logic.I|simpl; lia|reflexivity|vm_compute; reflexivity|].
  destruct (ex_master_log [ex_row 1; ex_row 2]) as (L2 & HL2 & Hs2);
    [apply (bool_decide_unpack _); vm_compute; exact Logic.I|simpl; lia|reflexivity|vm_compute; reflexivity|].
  destruct (NewStorage_wf 4) as [Hwf Habs].
  assert (replicable L1 /\ numbered (rows_of L1)) as [Hr1 Hn1].
  { unfold replicable. rewrite HL1. split; [split; [|reflexivity]|].
    - apply Forall_cons_2; [left; by do 3 eexists|apply Forall_nil_2].
    - intros [|i] r Hr; [by injection Hr as <-|done]. }
  assert (replicable L2 /\ numbered (rows_of L2)) as [Hr2 Hn2].
  { unfold replicable. rewrite HL2. split; [split; [|reflexivity]|].
    - do 2 (apply Forall_cons_2; [left; by do 3 eexists|]). apply Forall_nil_2.
    - intros [|[|i]] r Hr; [by injection Hr as <-..|done]. }
  set (r1 := mkRound (M := Manager.st Mutex.t) Context.Background (fun _ => ex_master [ex_row 1]) L1).
  set (r2 := mkRound (M := Manager.st Mutex.t) Context.Background ex_grown L2).
  set (r3 := mkRound (M := Manager.st Mutex.t) Context.Background (fun m => m) L2).
  destruct (slave_keeps_up quiet (str "data") LogReader.bytes_reader ex_net
    (fun b => proj1 (ReaderFacts.chunks_data (length b) b (Nat.le_refl _))) (fun _ => eq_refl)
    (Some (slave_log example_dir 1000)) L0 [r1; r2; r3] ex_logging [] 900 10000000) as (s' & E & Ha & Hl & Ho & _ & Hask).
  - exact Hs0.
  - cbn [growing r1 r2 r3 r_ctx r_log r_grown]. rewrite HL0, HL1, HL2 in *. split_and!; try done.
    + apply prefix_nil.
    + by exists [ex_row 2].
  - rewrite HL0. constructor; [exact Hwf|exact Habs|reflexivity|exact ex_logging_holds].
  - cbn [final r1 r2 r3 r_log]. rewrite HL2. reflexivity.
  - cbn [final r1 r2 r3 r_log]. rewrite HL0, HL2. vm_compute. reflexivity.
  - cbn [final r1 r2 r3 r_log]. rewrite HL0, HL2. cbn. lia.
  - intros t. cbn. lia.
  - vm_compute. reflexivity.
  - cbn [final requests r1 r2 r3 r_log] in *. rewrite HL0, HL1, HL2 in *.
    exists s'. split; [exact E|]. split; [exact Ha|]. split; [exact Hl|]. split; [exact Ho|exact Hask].
Defined.

Lemma slave_falls_silent_witness :
  exists l, startReplication (link quiet (str "data") LogReader.bytes_reader) quiet ex_net None
      (replicate 100 (Context.Background, ex_grown)) (ex_session Client.defaultDeadline) =
      (Ret tt, set_cl l (ex_session Client.defaultDeadline)) /\ asked l = [].
Proof.
  destruct (slave_falls_silent (link quiet (str "data") LogReader.bytes_reader) quiet ex_net None
    (replicate 100 (Context.Background, ex_grown)) (ex_session Client.defaultDeadline)) as (l & E & Ha & _).
  - intros i n Hn. cbn. lia.
  - reflexivity.
  - unfold over. reflexivity.
  - exists l. split; [exact E|exact Ha].
Defined.

End SlaveSessionWitnesses.
