(* ===== verification/Init.v ===== *)
(** * Starting the server, with its own log

    [internal/database/initialization.go] and
    [internal/database/replication/initialization.go]: how the parts are made
    and connected.  Here the database runs on the write-ahead log of [Wal],
    which writes through the log writer and the segment manager to the files
    of [FileSystem], so that a run of the server, a stop and a start are one
    computation on one disk.

    The log is the one of [ClientWal]: calls of one goroutine after the other,
    with the worker beside them under any schedule. *)

From S2P Require Import Prelude Encoding Utils Query Storage WalRecord FileSystem Index Segment SegmentManager.
From S2P Require Import Logs Concurrency Retry Wal Database Sessions Transport ClientWal.

(** ** [InitDB] and [InitReplication] *)

(** The part of [config.Config] that is used here. *)
Record Config := mkConf {
  EngineType : gostring;
  EngineShards : Z;
  WALConf : Settings.config;
  ReplicationEnable : bool;
  IsMaster : bool;
  ReplicationServer : TCPServer;
  ReplicationClient : ClientConfig
}.

Inductive replication :=
| NoReplication
| ReplicationMaster (listener : TCPServer * Semaphore.t)
| ReplicationSlave (client : Client.t) (withWal : bool).

Definition initMaster (conf : Config) : outcome replication :=
  match tcpListener.NewListener (ReplicationServer conf) with
  | Ret l => Ret (ReplicationMaster l)
  | Panics => Panics
  | Blocks => Blocks
  end.

Definition initSlave (conf : Config) (dials : list (result netConn)) : result replication :=
  match Client.NewClient (ReplicationClient conf) dials with
  | Err e => Err e
  | Ok slaveCl => Ok (ReplicationSlave slaveCl (Settings.Enable (WALConf conf)))
  end.

Definition InitReplication (conf : Config) (dials : list (result netConn)) : outcome (result replication) :=
  if negb (ReplicationEnable conf) then Ret (Ok NoReplication)
  else if IsMaster conf then
    match initMaster conf with
    | Ret r => Ret (Ok r)
    | Panics => Panics
    | Blocks => Blocks
    end
  else Ret (initSlave conf dials).

(** The file segment gets the settings as configured, the log those with the
    defaults. *)
Definition initSegmentManager (conf : Config) : Go World (result (Manager.t Mutex.t)) :=
  let im := Mutex.NewIndexManagerMutex in
  try! fileSegment := FileSegment.NewFileSegment (Settings.Directory (WALConf conf))
    (Settings.MaxSegmentSize (WALConf conf)) in
  go_ret (Ok (Manager.NewSegmentManager im fileSegment)).

Section init.
Context (env : Env) (sched : nat -> ClientWal.schedule).

#[local] Instance init_wal : WALOps ClientWal.t := ClientWal.client_wal env sched.

Abbreviation DB := (Database.t (Storage.t MemEngine.t) ClientWal.t).

Definition InitDB (conf : Config) (dials : list (result netConn)) (w : World)
  : outcome (result (DB * replication)) :=
  match initSegmentManager conf w with
  | (Panics, _) => Panics
  | (Blocks, _) => Blocks
  | (Ret (Err e), _) => Ret (Err e)
  | (Ret (Ok sm), w1) =>
      let eng := NewEngine (EngineType conf) (EngineShards conf) in
      let st := Storage.New eng in
      match ClientWal.NewWAL (WALConf conf) (Manager.mkSt w1 sm) with
      | Panics => Panics
      | Blocks => Blocks
      | Ret walObj =>
          match Database.NewDatabase st (IsMaster conf) walObj with
          | Panics => Panics
          | Blocks => Blocks
          | Ret (Err e) => Ret (Err e)
          | Ret (Ok db) =>
              match InitReplication conf dials with
              | Panics => Panics
              | Blocks => Blocks
              | Ret (Err e) => Ret (Err e)
              | Ret (Ok repl) => Ret (Ok (db, repl))
              end
          end
      end
  end.

(** ** Lemmas *)

(** *** Starting on a disk that holds a log *)

(** A new manager on the directory, after it has restored the log. *)
Lemma restore_on d B L dir max (w : World) :
  ManagerFacts.dir_on d B L w -> resolve dir = Some d -> now_calls w < B ->
  (ManagerFacts.volume (rows_of L) < 2 ^ 63)%Z ->
  exists seg w1 L' s, FileSegment.NewFileSegment dir max w = (Ret (Ok seg), w1) /\
    LogReader.RestoreSystemStream dir (Manager.mkSt w1 (Manager.NewSegmentManager Mutex.NewIndexManagerMutex seg)) =
      (Ret (Ok <$> L'.*2), s) /\
    rows_of L' = rows_of L /\
    tg_holds (LogTarget := manager_log_target d B) s (rows_of L) (B - S (now_calls w)).
Proof.
  intros Hd Hdir HB Hv.
  destruct (ManagerFacts.NewFileSegment_on d B L dir max Mutex.NewIndexManagerMutex w Hd Hdir HB)
    as (w1 & seg & E1 & _ & _ & Hn1 & _ & Hl).
  set (L' := ManagerFacts.opened L w) in *. set (s1 := Manager.mkSt w1 _) in *.
  assert (rows_of L' = rows_of L) as HL.
  { unfold L', ManagerFacts.opened. case_bool_decide as H; [by rewrite H|done]. }
  destruct (LogFacts.RestoreSystemStream_on
    (SegmentManagerLaws0 := manager_segment_laws_at d B [] (now_calls w1)) dir L' s1)
    as (s & E2 & (_ & Hl2 & Hp & Hn2) & Hi).
  { done. }
  { apply Forall_forall. intros [n rs] Hf. apply ManagerFacts.file_volume in Hf. rewrite HL in Hf. cbn [snd]. lia. }
  exists seg, w1, L', s. split; [done|]. split; [done|]. split; [done|].
  exists L'. split; [done|]. split; [|split; [done|cbn in Hn2; lia]].
  cbn in Hi. constructor.
  - intros lsn e [H|(es & H & _)]; [|rewrite Hp in H; by apply not_elem_of_nil in H].
    cbn in H. rewrite Hi in H. eapply LogFacts.restored_sound; [| |exact H]; [done|].
    intros l e'. cbn. by rewrite lookup_empty.
  - intros r Hr. destruct (LogFacts.restored_complete L' ∅ (Row.lsnID r)) as [e He]; [right; eauto|].
    exists e. left. cbn. by rewrite Hi.
Qed.

Lemma values_Ok {T} (l : list T) : values (Ok <$> l) = l.
Proof. induction l as [|x l IH]; [done|]. rewrite fmap_cons. unfold values in *. cbn. f_equal. exact IH. Qed.

Lemma InitReplication_master conf dials :
  IsMaster conf = true -> (0 <= MaxConn (ReplicationServer conf))%Z ->
  exists repl, InitReplication conf dials = Ret (Ok repl).
Proof.
  intros Hm Hc. unfold InitReplication, initMaster. rewrite Hm.
  destruct (ReplicationEnable conf); [|by eexists]. cbn [negb].
  unfold tcpListener.NewListener, Semaphore.NewSemaphore, tcpListener.or_default. cbn [MaxConn].
  case_bool_decide; [by eexists|]. destruct (Z.ltb_spec (MaxConn (ReplicationServer conf)) 0); [lia|].
  by eexists.
Qed.

(** A log on which no call has been made. *)
Record started (s : Manager.st Mutex.t) (w : ClientWal.t) : Prop := {
  sd_enable : ClientWal.IsEnable w = true;
  sd_calls : ClientWal.calls w = 0;
  sd_disk : ClientWal.disk w = s;
  sd_buf : WAL.queryBuf (ClientWal.core w) = [];
  sd_ch : Chan.buf (WAL.queryCh (ClientWal.core w)) = [];
  sd_open : Chan.closed (WAL.queryCh (ClientWal.core w)) = false;
  sd_fut : WAL.futureResp (ClientWal.core w) = [];
  sd_ans : WAL.answers (ClientWal.core w) = ∅;
  sd_wk : WAL.wk (ClientWal.core w) = WAL.Loop
}.

Lemma started_good d B D0 n0 s w :
  started s w -> tg_holds (LogTarget := manager_log_target d B) s D0 n0 ->
  ClientWalFacts.good d B D0 n0 [] w /\ ClientWalFacts.resting (ClientWal.core w).
Proof.
  intros [He Hc Hd Hb Hch Ho Hf Ha Hk] Hh. split; [|constructor; auto]. split; [|done]. constructor; [|done|].
  - exists []. split; [|done]. constructor; [|by constructor|by rewrite Hk]. exists [], n0.
    rewrite Hb, Hch, app_nil_r. unfold ClientWal.disk in Hd. by rewrite Hd.
  - split; [intros c _; by rewrite Ha, lookup_empty|]. rewrite Hf, Hk. constructor.
Qed.

(** A database whose log reader has restored the files [L']. *)
Lemma InitDB_restored L' conf dials repl seg (w w1 : World) s :
  let dir := Settings.Directory (WALConf conf) in
  Settings.Enable (WALConf conf) = true -> dir <> [] ->
  (0 <= Settings.FlushBatchSize (WALConf conf))%Z -> InitReplication conf dials = Ret (Ok repl) ->
  FileSegment.NewFileSegment dir (Settings.MaxSegmentSize (WALConf conf)) w = (Ret (Ok seg), w1) ->
  LogReader.RestoreSystemStream dir (Manager.mkSt w1 (Manager.NewSegmentManager Mutex.NewIndexManagerMutex seg)) =
    (Ret (Ok <$> L'.*2), s) ->
  Forall (fun r => write_cmd (Row.methodID r) (Row.args r)) (rows_of L') ->
  exists db, InitDB conf dials w = Ret (Ok (db, repl)) /\
    kv_wf (Database.st db) /\ Database.isMaster db = IsMaster conf /\
    started s (Database.wal db) /\ kv_abs (Database.st db) = replay (rows_of L') ∅.
Proof.
  intros dir Hen Hne Hfb Hrep E1 E2 Hcmds.
  unfold InitDB, initSegmentManager. fold dir. rewrite (go_bind_ret _ _ _ _ _ E1).
  unfold go_ret at 1. set (s1 := Manager.mkSt w1 _).
  assert (exists walObj, ClientWal.NewWAL (WALConf conf) s1 = Ret walObj /\
    ClientWal.settings walObj = Settings.apply_defaults (WALConf conf) /\ started s1 walObj) as (walObj & -> & Hset & Hst).
  { unfold ClientWal.NewWAL, WAL.NewWAL. rewrite Hen. cbn [negb Settings.apply_defaults Settings.FlushBatchSize].
    destruct (Z.eqb_spec (Settings.FlushBatchSize (WALConf conf)) 0); [by eexists|].
    destruct (Z.ltb_spec (Settings.FlushBatchSize (WALConf conf)) 0); [lia|by eexists]. }
  assert (exists walObj', w_RestoreStream walObj = (Ret (fst (RestoreStream L'.*2)), walObj') /\ started s walObj')
    as (walObj' & Er & Hst').
  { destruct Hst as [He Hc Hd Hb Hch Ho Hf Han Hk]. cbn [w_RestoreStream init_wal ClientWal.client_wal].
    unfold ClientWal.RestoreStream_, go_get. unfold go_bind at 1. rewrite Hset.
    cbn [Settings.apply_defaults Settings.Directory]. rewrite bool_decide_false by done. fold dir.
    unfold ClientWal.on_disk, go_zoom, go_bind. rewrite Hd. unfold s1. rewrite E2, values_Ok.
    destruct (RestoreStream L'.*2) as [qs g]. eexists. split; [reflexivity|]. by constructor. }
  destruct (NewStorage_wf (EngineShards conf)) as [Hwf Ha].
  assert (NewEngine (EngineType conf) (EngineShards conf) = MemEngine.NewEngine (EngineShards conf)) as ->
    by (unfold NewEngine; by destruct (bool_decide _)).
  assert (w_IsEnable walObj = true) as Hew by exact (sd_enable _ _ Hst).
  destruct (DatabaseFacts.NewDatabase_batches _ (IsMaster conf) walObj _ _ Hwf Hew Er) as (k & -> & Hk & Hka);
    [by apply DatabaseFacts.RestoreStream_wf|].
  rewrite Hrep. eexists. split; [reflexivity|]. do 3 (split; [done|]).
  cbn [Database.st]. by rewrite Hka, DatabaseFacts.RestoreStream_rows, DatabaseFacts.apply_rows, Ha.
Qed.

(** A database started on a disk that holds a log, of a master or of a slave. *)
Lemma InitDB_start d B L conf dials repl (w : World) :
  let dir := Settings.Directory (WALConf conf) in
  Settings.Enable (WALConf conf) = true -> dir <> [] ->
  (0 <= Settings.FlushBatchSize (WALConf conf))%Z -> InitReplication conf dials = Ret (Ok repl) ->
  ManagerFacts.dir_on d B L w -> resolve dir = Some d -> now_calls w < B ->
  (ManagerFacts.volume (rows_of L) < 2 ^ 63)%Z ->
  Forall (fun r => write_cmd (Row.methodID r) (Row.args r)) (rows_of L) ->
  exists db s, InitDB conf dials w = Ret (Ok (db, repl)) /\
    kv_wf (Database.st db) /\ Database.isMaster db = IsMaster conf /\ started s (Database.wal db) /\
    tg_holds (LogTarget := manager_log_target d B) s (rows_of L) (B - S (now_calls w)) /\
    kv_abs (Database.st db) = replay (rows_of L) ∅.
Proof.
  intros dir Hen Hne Hfb Hrep Hd Hdir HB Hv Hcmds.
  destruct (restore_on d B L dir (Settings.MaxSegmentSize (WALConf conf)) w Hd Hdir HB Hv)
    as (seg & w1 & L' & s & E1 & E2 & HL & Hh).
  destruct (InitDB_restored L' conf dials repl seg w w1 s) as (db & E & Hwf & Hm & Hs & Ha); try done;
    [by rewrite HL|].
  exists db, s. rewrite Ha, HL. done.
Qed.

(** The same for a master, whose replication needs nothing. *)
Lemma InitDB_on d B L conf dials (w : World) :
  let dir := Settings.Directory (WALConf conf) in
  Settings.Enable (WALConf conf) = true -> IsMaster conf = true -> dir <> [] ->
  (0 <= Settings.FlushBatchSize (WALConf conf))%Z -> (0 <= MaxConn (ReplicationServer conf))%Z ->
  ManagerFacts.dir_on d B L w -> resolve dir = Some d -> now_calls w < B ->
  (ManagerFacts.volume (rows_of L) < 2 ^ 63)%Z ->
  Forall (fun r => write_cmd (Row.methodID r) (Row.args r)) (rows_of L) ->
  exists db repl, InitDB conf dials w = Ret (Ok (db, repl)) /\
    kv_wf (Database.st db) /\ Database.isMaster db = true /\ kv_abs (Database.st db) = replay (rows_of L) ∅ /\
    ClientWalFacts.good d B (rows_of L) (B - S (now_calls w)) [] (Database.wal db) /\
    ClientWalFacts.resting (ClientWal.core (Database.wal db)).
Proof.
  intros dir Hen Hma Hne Hfb Hmc Hd Hdir HB Hv Hcmds.
  destruct (InitReplication_master conf dials Hma Hmc) as [repl Hr].
  destruct (InitDB_start d B L conf dials repl w) as (db & s & E & Hwf & Hm & Hs & Hl & Ha); try done.
  destruct (started_good d B _ _ _ _ Hs Hl) as [Hg Hrest]. exists db, repl. by rewrite Hm.
Qed.

(** The configuration of a master that logs to [dir]. *)
Definition logging_master (dir : gostring) (conf : Config) : Prop :=
  Settings.Enable (WALConf conf) = true /\ IsMaster conf = true /\
  Settings.Directory (WALConf conf) = dir /\ dir <> [] /\
  (0 <= Settings.FlushBatchSize (WALConf conf))%Z /\ (0 <= MaxConn (ReplicationServer conf))%Z.

(** ** Properties *)

(** The log on the disk after the calls, and after further moves of the worker. *)
Definition left_on_disk (after : list ClientWal.move) (s : DB) : World :=
  Manager.world (WAL.disk (ClientWal.run env after (ClientWal.core (Database.wal s)))).

Lemma good_later d B D0 n0 rows after (w : ClientWal.t) :
  ClientWalFacts.good d B D0 n0 rows w -> ClientWalFacts.room D0 n0 rows ->
  ClientWalFacts.good d B D0 n0 rows
    (ClientWal.mk (ClientWal.run env after (ClientWal.core w)) (ClientWal.settings w) (ClientWal.calls w)).
Proof. intros [Hs He] Hr. split; [|done]. by apply ClientWalFacts.run_sound. Qed.

Lemma resting_later d B D0 n0 rows after (w : ClientWal.t) :
  ClientWalFacts.good d B D0 n0 rows w -> ClientWalFacts.room D0 n0 rows ->
  (ClientWal.Done ∉ after) -> ClientWalFacts.resting (ClientWal.core w) ->
  ClientWalFacts.resting (ClientWal.run env after (ClientWal.core w)).
Proof.
  intros [Hs _] Hr Hd Hrest. eapply ClientWalFacts.run_keeps; try done.
  intros m l v v' Hm Hv E _. by eapply ClientWalFacts.resting_move.
Qed.

(** Reads do not matter to the contents, and rows of writes are commands. *)
Lemma run_writes qs m : run_queries (filter is_write qs) m = run_queries qs m.
Proof.
  revert m. induction qs as [|q qs IH]; intros m; [done|]. rewrite filter_cons. destruct (decide _) as [H|H]; [apply IH|].
  rewrite IH. unfold run_queries. cbn [foldl]. f_equal. unfold query_apply, apply_cmd.
  destruct (decide (MethodID q = GetMethodID)) as [-> |?]; [done|by destruct H].
Qed.

Lemma rows_write_cmd rows qs :
  Forall query_wf qs -> row_query <$> rows = filter is_write qs ->
  Forall (fun r => write_cmd (Row.methodID r) (Row.args r)) rows.
Proof.
  intros Hq E. apply Forall_forall. intros r Hr.
  assert (row_query r ∈ filter is_write qs) as [Hw Hin]%list_elem_of_filter
    by (rewrite <-E; by apply list_elem_of_fmap_2).
  rewrite Forall_forall in Hq. exact (query_wf_write_cmd (row_query r) 0 (Hq _ Hin) Hw).
Qed.

(** A start on the disk a run has left. *)
Lemma restart_after d B D0 n0 rows after conf dials (s : DB) :
  let dir := Settings.Directory (WALConf conf) in
  ClientWalFacts.good d B D0 n0 rows (Database.wal s) -> ClientWalFacts.room D0 n0 rows -> length rows < n0 ->
  Forall (fun r => write_cmd (Row.methodID r) (Row.args r)) (D0 ++ rows) ->
  logging_master dir conf -> resolve dir = Some d ->
  exists db' repl' D, InitDB conf dials (left_on_disk after s) = Ret (Ok (db', repl')) /\ D `prefix_of` rows /\
    kv_abs (Database.st db') = run_queries (row_query <$> D) (replay D0 ∅) /\
    ((ClientWal.Done ∉ after) -> ClientWalFacts.resting (ClientWal.core (Database.wal s)) -> D = rows).
Proof.
  intros dir Hg Hroom Hn Hcmds (He & Hma & _ & Hne & Hfb & Hmc) Hdir.
  pose proof (good_later _ _ _ _ _ after _ Hg Hroom) as Hg'.
  destruct (ClientWalFacts.good_disk _ _ _ _ _ _ Hg') as (D & n & (L' & Hl & _ & HL & Hb) & Hlen & Hpre & Hrest).
  assert (now_calls (left_on_disk after s) + n <= B) as Hb' by exact Hb.
  assert (length D <= length rows) as HD by (by apply prefix_length). pose proof Hroom as (_ & Hv & _).
  destruct Hpre as [T ET]. rewrite ET, (assoc_L (++)), ManagerFacts.volume_app in Hv.
  rewrite ET, (assoc_L (++)) in Hcmds. apply Forall_app in Hcmds as [Hcmds _].
  assert (0 <= ManagerFacts.volume T)%Z by (unfold ManagerFacts.volume; lens).
  destruct (InitDB_on d B L' conf dials (left_on_disk after s)) as (db' & repl' & E & _ & _ & Ha & _);
    rewrite ?HL; try done; [apply Hl|lia|lia|].
  exists db', repl', D. split; [done|]. split; [by exists T|].
  split; [by rewrite Ha, HL, replay_app, SessionFacts.replay_run|].
  intros Hd Hr. apply Hrest. by eapply resting_later.
Qed.

(** C2: a server and its restart, under every schedule.  A master starts on a
    disk that holds a log of write commands and restores its replay.  One
    caller after the other executes parsed queries that the record format can
    hold, while the log's worker runs beside them in any way and any
    deadline of a second may pass.  Every query is answered as on one map,
    where a write that the log answers with an error, its deadline included,
    leaves the map alone; a call does not return only while it waits for room
    in the channel.  When the process then stops, a start on the same
    directory, with any engine, shards, segment and batch size, restores the
    old log and then the writes that were sent, up to some point; if every
    answer was a success and the worker's context had not ended, exactly the
    map the queries led to.  (After an error a refused write may be restored
    and a later success lost.)  No system call fails, the log stays below 2^63 bytes and the clock
    gives a new name for every file. *)
Theorem InitDB_restart (conf conf' : Config) (dials dials' : list (result netConn)) (dir : gostring)
    (d : FileSystem.path) (B : nat) (L : layout) (w : World) (ctx : Context.t) (qs : list Query)
    (after : list ClientWal.move)
    (Hconf : logging_master dir conf) (Hconf' : logging_master dir conf')
    (Hdir : resolve dir = Some d) (Hdisk : ManagerFacts.dir_on d B L w)
    (Hlog : Forall (fun r => write_cmd (Row.methodID r) (Row.args r)) (rows_of L))
    (Hctx : Context.ctx_Err ctx = None) (Hq : Forall query_wf qs) (Hst : Forall storable qs)
    (Hvol : (ManagerFacts.volume (rows_of L) + ClientWalFacts.total_volume qs < 2 ^ 63)%Z)
    (Hclock : now_calls w + length qs + 1 < B) :
  let m0 := replay (rows_of L) ∅ in
  exists db repl, InitDB conf dials w = Ret (Ok (db, repl)) /\ kv_abs (Database.st db) = m0 /\
    let '(refusals, _) := log_answers ctx (Ok <$> qs) (Database.wal db) in
    let '(answers, (o, s)) := Database.execute_all ctx (Ok <$> qs) db in
    spec_requests refusals (Ok <$> qs) m0 = (answers, kv_abs (Database.st s)) /\
    (o = Ret tt /\ length answers = length qs \/ o = Blocks /\ ClientWalFacts.full (Database.wal s)) /\
    exists db' repl' restored,
      InitDB conf' dials' (left_on_disk after s) = Ret (Ok (db', repl')) /\
      kv_abs (Database.st db') = run_queries restored m0 /\
      restored `prefix_of` filter is_write (take (length answers) qs) /\
      (o = Ret tt -> Forall (fun r => is_ok r = true) answers ->
       (forall c, ClientWalFacts.keeps_running (sched c)) -> (ClientWal.Done ∉ after) ->
       kv_abs (Database.st db') = kv_abs (Database.st s)).
Proof.
  intros m0. pose proof (ClientWalFacts.total_volume_nonneg qs) as Hp. pose proof Hconf as (He & Hma & <- & Hne & Hfb & Hmc).
  destruct (InitDB_on d B L conf dials w) as (db & repl & E1 & Hwf & Hm & Ha & Hg & Hrest); try done; [lia|lia|].
  exists db, repl. split; [done|]. split; [done|].
  set (n0 := B - S (now_calls w)) in *. set (D0 := rows_of L) in *.
  assert (ClientWalFacts.takes D0 n0 [] qs) as Ht.
  { constructor; rewrite ?app_nil_r; try done; [apply Hdisk|cbn; lia]. }
  destruct (log_answers ctx (Ok <$> qs) (Database.wal db)) as [vs [o w']] eqn:El.
  destruct (DatabaseFacts.execute_all_logged ctx (Ok <$> qs) db vs o w' Hctx) as (k & -> & Hk & Hka); try done.
  { apply Forall_fmap. eapply Forall_impl; [exact Hq|]. intros q Hqw q' [= <-]. done. }
  destruct (ClientWalFacts.log_answers_good env sched d B D0 n0 [] ctx qs _ w' vs o Hg Hctx Ht El)
    as (more & Hg' & Hmore & Hwf' & Hv' & Ho). cbn [app] in Hg', Hwf', Hv'. rewrite app_nil_r in Hv'.
  rewrite Ha in *. fold m0 in Hka |- *.
  assert (length (fst (spec_requests vs (Ok <$> qs) m0)) = length vs) as Hlen.
  { apply spec_requests_length. by destruct (log_answers_length _ _ _ _ _ _ El). }
  destruct (spec_requests vs (Ok <$> qs) m0) as [answers m] eqn:Esp. cbn [fst snd Database.st Database.wal] in *.
  rewrite Hka, Hlen. split; [done|]. split; [done|].
  assert (length more <= length qs) as Hml.
  { rewrite <-(length_fmap row_query more), Hmore. etransitivity; [apply length_filter|]. rewrite length_take. lia. }
  assert (Forall (fun r => write_cmd (Row.methodID r) (Row.args r)) (D0 ++ more)) as Hcmds.
  { apply Forall_app. split; [done|]. apply (rows_write_cmd _ (take (length vs) qs)); [by apply Forall_take|done]. }
  assert (ClientWalFacts.room D0 n0 more) as Hroom by (split; [done|]; split; lia).
  destruct (restart_after d B D0 n0 more after conf' dials' (Database.mk k w' true)) as (db' & repl' & D & E & HD & Hd & Heq);
    try done; [lia|by rewrite (proj1 (proj2 (proj2 Hconf')))..|].
  exists db', repl', (row_query <$> D). split; [done|]. split; [done|]. split.
  { rewrite ?Hlen, <-Hmore. destruct HD as [T ->]. rewrite fmap_app. by apply prefix_app_r. }
  intros -> Hok Hrun Hdone. destruct (log_answers_length _ _ _ _ _ _ El) as [_ Hall].
  rewrite length_fmap in Hall. specialize (Hall eq_refl).
  destruct (spec_requests_ok vs qs m0) as [Hvs Hm']; [lia|by rewrite Esp|]. rewrite Esp in Hm'. cbn [snd] in Hm'.
  rewrite Hd, Heq; [|done|].
  - by rewrite Hmore, run_writes.
  - by eapply (ClientWalFacts.log_answers_resting env sched d B D0 n0 [] ctx qs _ w' vs).
Qed.

End init.

(** ** Examples *)

Module InitWitnesses.

(** A master that logs to [data] in segments of thirty bytes. *)
Definition ex_conf (shards : Z) : Config :=
  mkConf (str "inmemory") shards (Settings.mkConfig true 0 0 30 (str "data")) true true
    (mkTCPServer [] 0 0 0 0) (mkClientConfig 0 0 0).

Definition ex_queries : list Query :=
  [NewQuery SetMethodID [str "a"; str "1"]; NewQuery SetMethodID [str "b"; str "2"];
   NewQuery DelMethodID [str "a"]; NewQuery GetMethodID [str "b"]].

Lemma ex_conf_master shards : logging_master (str "data") (ex_conf shards).
Proof. repeat split; done. Qed.

Lemma ex_queries_wf : Forall query_wf ex_queries.
Proof.
  apply Forall_cons_2; [exists 2; split; [reflexivity|simpl; lia]|].
  apply Forall_cons_2; [exists 2; split; [reflexivity|simpl; lia]|].
  apply Forall_cons_2; [exists 1; split; [reflexivity|simpl; lia]|].
  apply Forall_cons_2; [exists 1; split; [reflexivity|simpl; lia]|apply Forall_nil_2].
Qed.

Lemma ex_queries_run :
  run_queries ex_queries (replay (rows_of []) ∅) = {[ str "b" := str "2" ]}.
Proof.
  change (replay (rows_of []) ∅) with (∅ : gmap gostring gostring).
  unfold ex_queries, run_queries. cbn [foldl].
  assert (forall k v m, query_apply (NewQuery SetMethodID [k; v]) m = <[k := v]> m) as Hs by done.
  assert (forall k m, query_apply (NewQuery DelMethodID [k]) m = delete k m) as Hd by done.
  assert (forall q m, MethodID q = GetMethodID -> query_apply q m = m) as Hga
    by (intros q m E; unfold query_apply, apply_cmd; by rewrite E).
  rewrite (Hga (NewQuery GetMethodID [str "b"])), Hd, !Hs by done.
  by rewrite insert_insert_ne, delete_insert_eq, delete_id by done || by rewrite lookup_insert_ne.
Qed.

(** A worker that takes, flushes and answers while the caller waits, and one
    that does so for all calls but the first, whose deadline passes. *)
Definition prompt : ClientWal.schedule :=
  ClientWal.mkSchedule [] [] []
    [ClientWal.Receive; ClientWal.Tick; ClientWal.Continue; ClientWal.Continue; ClientWal.Continue; ClientWal.Continue] None.
Definition asleep : ClientWal.schedule := ClientWal.mkSchedule [] [] [] [] None.
Definition first_late (c : nat) : ClientWal.schedule := if bool_decide (c = 0) then asleep else prompt.

Lemma prompt_running : ClientWalFacts.keeps_running prompt.
Proof. split_and!; apply (bool_decide_unpack _); vm_compute; exact Logic.I. Qed.

(** The answers of the server started on an empty disk. *)
Definition ex_answers (sched : nat -> ClientWal.schedule) : list (result gostring) * outcome unit :=
  match InitDB quiet sched (ex_conf 4) [] example_world with
  | Ret (Ok (db, _)) =>
      let '(rs, (o, _)) := Database.execute_all (WALOps0 := ClientWal.client_wal quiet sched) Context.Background
        (Ok <$> ex_queries) db in (rs, o)
  | _ => ([], Panics)
  end.

Lemma InitDB_restart_witness :
  (exists db repl s db' repl',
    InitDB quiet (fun _ => prompt) (ex_conf 4) [] example_world = Ret (Ok (db, repl)) /\
    Database.execute_all (WALOps0 := ClientWal.client_wal quiet (fun _ => prompt)) Context.Background (Ok <$> ex_queries) db =
      ([Ok (str "OK"); Ok (str "OK"); Ok (str "OK"); Ok (str "2")], (Ret tt, s)) /\
    InitDB quiet (fun _ => prompt) (ex_conf 7) [] (left_on_disk quiet [ClientWal.Tick] s) = Ret (Ok (db', repl')) /\
    kv_abs (Database.st db') = {[ str "b" := str "2" ]}) /\
  ex_answers first_late = ([Err DeadlineExceeded; Ok (str "OK"); Err DeadlineExceeded; Ok (str "2")], Ret tt).
Proof.
  split; [|vm_compute; reflexivity].
  assert (ex_answers (fun _ => prompt) = ([Ok (str "OK"); Ok (str "OK"); Ok (str "OK"); Ok (str "2")], Ret tt)) as Hex
    by (vm_compute; reflexivity).
  pose proof (InitDB_restart quiet (fun _ => prompt) (ex_conf 4) (ex_conf 7) [] [] (str "data") example_dir 1000 [] example_world
    Context.Background ex_queries [ClientWal.Tick] (ex_conf_master 4) (ex_conf_master 7) eq_refl Examples.example_dir_on) as H.
  destruct H as (db & repl & E1 & _ & H).
  - apply Forall_nil_2.
  - reflexivity.
  - exact ex_queries_wf.
  - apply (bool_decide_unpack _). vm_compute. exact Logic.I.
  - vm_compute. reflexivity.
  - cbn [example_world now_calls ex_queries length]. lia.
  - unfold ex_answers in Hex. rewrite E1 in Hex.
    destruct (log_answers _ _ _) as [vs [o' w']] eqn:El. destruct (Database.execute_all _ _ _) as [rs [o s]] eqn:Ee.
    injection Hex as -> ->. destruct H as (Esp & _ & db' & repl' & restored & E2 & _ & _ & Heq).
    exists db, repl, s, db', repl'. split; [exact E1|]. split; [exact Ee|]. split; [exact E2|].
    rewrite Heq; [|reflexivity|by repeat constructor|intros _; exact prompt_running|].
    + destruct (log_answers_length _ _ _ _ _ _ El) as [Hle _]. rewrite length_fmap in Hle.
      destruct (spec_requests_ok vs ex_queries (replay (rows_of []) ∅) Hle) as [_ Hm].
      { rewrite Esp. by repeat constructor. }
      rewrite Esp in Hm. cbn [snd] in Hm. rewrite Hm, <-ex_queries_run. unfold run_queries. f_equal.
      assert (length vs = 4) as ->; [|reflexivity].
      rewrite <-(spec_requests_length vs (Ok <$> ex_queries) (replay (rows_of []) ∅)); [by rewrite Esp|].
      by rewrite length_fmap.
    + apply (bool_decide_unpack _). vm_compute. exact Logic.I.
Defined.

End InitWitnesses.
