(* ===== verification/Recovery.v ===== *)
(** * The server after a crash

    [Init] and [Crash] together: a master serves, and while its log writes
    further batches, for any clients, the process or the machine stops; the
    server is started again on what is left of the disk. *)

From S2P Require Import Prelude Encoding Utils Query Storage WalRecord FileSystem Index Segment SegmentManager.
From S2P Require Import Logs LogReaders Crash Concurrency Retry Wal Database Sessions Transport ClientWal Init.

(** The log of a database with no write in progress, [lg] being its rows, and
    readers that are about to look up the index. *)
Definition log_of (s : Database.t (Storage.t MemEngine.t) ClientWal.t) (lg : list Row.t) (readers : list N)
  : LogReaders.t Mutex.t :=
  LogReaders.mk (ClientWal.disk (Database.wal s)) LogReaders.WIdle
    ((fun lsn => LogReaders.mkReader lsn 0 LogReaders.RIndex) <$> readers) lg.

Lemma remaining_rows lost (F : layout) (P : Row.t -> Prop) : Forall P (rows_of F) -> Forall P (rows_of (remaining lost F)).
Proof.
  unfold remaining. induction F as [|f F IH]; [done|].
  assert (forall G : layout, rows_of (f :: G) = f.2 ++ rows_of G) as Hc by done.
  rewrite Hc, Forall_app. intros [Hf HF]. rewrite filter_cons. destruct (decide _); [|by apply IH].
  rewrite Hc. apply Forall_app. auto.
Qed.

Section properties.
Import LogReaders LogReadersFacts CrashFacts.
Context (env : Env) (sched : nat -> ClientWal.schedule).

#[local] Instance recovery_wal : WALOps ClientWal.t := ClientWal.client_wal env sched.

(** A log at rest, then a crash, then a start. *)
Lemma crash_resting d B lg n conf' dials' dir rds k t g lost w' (s : Database.t (Storage.t MemEngine.t) ClientWal.t) :
  tg_holds (LogTarget := manager_log_target d B) (ClientWal.disk (Database.wal s)) lg n ->
  Forall (fun r => write_cmd (Row.methodID r) (Row.args r)) lg ->
  logging_master dir conf' -> resolve dir = Some d -> k < n ->
  nsteps (LogReaders.step dir) k (log_of s lg rds) t -> logged t ++ in_progress t = lg ++ g ->
  Forall Row.wf g -> Forall (fun r => write_cmd (Row.methodID r) (Row.args r)) g ->
  (ManagerFacts.volume (lg ++ g) < 2 ^ 63)%Z -> stops d lost t w' ->
  exists db' repl' F g', InitDB env sched conf' dials' w' = Ret (Ok (db', repl')) /\
    rows_of F = lg ++ g' /\ g' `prefix_of` g /\ logged t `prefix_of` (lg ++ g') /\
    entries (nodes (Manager.world (mst t))) d = F.*1 /\
    kv_abs (Database.st db') = replay (rows_of (remaining lost F)) ∅.
Proof.
  intros (L1 & Hl & Hi & HL1 & Hb) Hclg (He' & Hma' & Hd' & Hne & Hfb' & Hmc') Hdir Hk Hrun Hall Hwf Hcmds Hsize Hstops.
  pose proof (ManagerFacts.do_wf _ _ _ _ (ManagerFacts.lo_dir _ _ _ _ Hl)) as Hwl. rewrite HL1 in Hwl.
  assert (fits t) as Hfits by (unfold fits, all_rows; rewrite Hall; split; [by apply Forall_app|done]).
  destruct (run_inv d B _ Hdir L1 k (log_of s lg rds) t) as (C & P & Hinv & Hn); try done; [|cbn; lia|apply Hfits..|].
  { apply Forall_fmap, Forall_true. done. }
  destruct (nsteps_logged _ _ _ _ Hrun) as [g1 Hg1]. cbn [log_of logged] in Hg1.
  destruct (crash_on d _ Hdir B C P t w' (Settings.MaxSegmentSize (WALConf conf')) Mutex.NewIndexManagerMutex lost Hinv Hfits)
    as (seg & w1 & F & L' & sm & x & Es & Er & Hent & HF & Hx & HL' & _); [cbn in Hn; lia|done|].
  assert (rows_of F = lg ++ g1 ++ x /\ (g1 ++ x) `prefix_of` g) as [HF2 Hpre].
  { rewrite HF, Hg1, <-(assoc_L (++)). split; [done|]. rewrite Hg1, <-(assoc_L (++)) in Hall.
    apply app_inv_head in Hall as <-. by apply prefix_app. }
  destruct (InitReplication_master conf' dials' Hma' Hmc') as [repl' Hrep].
  destruct (InitDB_restored env sched L' conf' dials' repl' seg w' w1 sm) as (db' & E & _ & _ & _ & Ha);
    rewrite ?Hd'; try done.
  { rewrite HL'. apply remaining_rows. rewrite HF2. apply Forall_app. split; [done|].
    destruct Hpre as [T ->]. by apply Forall_app in Hcmds as [? _]. }
  exists db', repl', F, (g1 ++ x). split; [done|]. split; [done|]. split; [done|].
  split; [rewrite Hg1, (assoc_L (++)); by apply prefix_app_r|]. split; [done|]. by rewrite Ha, HL'.
Qed.

(** C3: what was answered survives a stop of the process.  A master starts on a
    disk with a log and answers queries of one caller after the other; the
    schedule is any under which they are all answered with a success, before
    the worker's context has ended.  Then the log goes on to write rows [g] in
    any batches, with rotations, index updates and readers in between, and
    everything stops at any point, inside a write too, with unsynced bytes
    lost.  A server started on what is left, with any engine, shards and
    segment size, starts.  When no file is lost, as when
    the process stops, it holds the map of the answered queries with the first
    rows of [g] applied, all the finished ones among them.  When the machine
    stops and loses the directory entries [lost], which the code never syncs,
    it holds the replay of the files that remain, and answered writes may be
    missing.  The queries fit the record format, no system call
    fails, the log stays below 2^63 bytes and the clock gives a new name for
    every new file. *)
Theorem crash_keeps_answers (conf conf' : Config) (dials dials' : list (result netConn)) (dir : gostring)
    (d : FileSystem.path) (B : nat) (L : layout) (w : World) (ctx : Context.t) (qs : list Query)
    (db : Database.t (Storage.t MemEngine.t) ClientWal.t) (repl : replication) (answers : list (result gostring))
    (s : Database.t (Storage.t MemEngine.t) ClientWal.t)
    (Hconf : logging_master dir conf) (Hconf' : logging_master dir conf')
    (Hdir : resolve dir = Some d) (Hdisk : ManagerFacts.dir_on d B L w)
    (Hlog : Forall (fun r => write_cmd (Row.methodID r) (Row.args r)) (rows_of L))
    (Hctx : Context.ctx_Err ctx = None) (Hq : Forall query_wf qs) (Hst : Forall storable qs)
    (Hvol : (ManagerFacts.volume (rows_of L) + ClientWalFacts.total_volume qs < 2 ^ 63)%Z)
    (Hclock : now_calls w + length qs + 1 < B) (Hrunning : forall c, ClientWalFacts.keeps_running (sched c))
    (Hinit : InitDB env sched conf dials w = Ret (Ok (db, repl)))
    (Hserved : Database.execute_all ctx (Ok <$> qs) db = (answers, (Ret tt, s)))
    (Hok : Forall (fun r => is_ok r = true) answers) :
  exists lg, row_query <$> lg = (row_query <$> rows_of L) ++ filter is_write qs /\
    (ManagerFacts.volume lg <= ManagerFacts.volume (rows_of L) + ClientWalFacts.total_volume qs)%Z /\
    forall readers k t g lost w',
      nsteps (LogReaders.step dir) k (log_of s lg readers) t -> now_calls w + length qs + 1 + k < B ->
      logged t ++ in_progress t = lg ++ g -> Forall Row.wf g ->
      Forall (fun r => write_cmd (Row.methodID r) (Row.args r)) g ->
      (ManagerFacts.volume (lg ++ g) < 2 ^ 63)%Z -> stops d lost t w' ->
      exists db' repl' F g', InitDB env sched conf' dials' w' = Ret (Ok (db', repl')) /\
        entries (nodes (Manager.world (mst t))) d = F.*1 /\ rows_of F = lg ++ g' /\
        g' `prefix_of` g /\ logged t `prefix_of` (lg ++ g') /\
        kv_abs (Database.st db') = replay (rows_of (remaining lost F)) ∅ /\
        (lost = [] -> kv_abs (Database.st db') = replay g' (kv_abs (Database.st s))).
Proof.
  pose proof (ClientWalFacts.total_volume_nonneg qs) as Hp. pose proof Hconf as (He & Hma & <- & Hne & Hfb & Hmc).
  destruct (InitDB_on env sched d B L conf dials w) as (db0 & repl0 & E1 & Hwf & Hm & Ha & Hg & Hrest); try done; [lia|lia|].
  rewrite Hinit in E1. injection E1 as <- <-.
  set (n0 := B - S (now_calls w)) in *. set (D0 := rows_of L) in *.
  assert (ClientWalFacts.takes D0 n0 [] qs) as Ht.
  { constructor; rewrite ?app_nil_r; try done; [apply Hdisk|cbn; lia]. }
  destruct (log_answers ctx (Ok <$> qs) (Database.wal db)) as [vs [o w1]] eqn:El.
  destruct (DatabaseFacts.execute_all_logged ctx (Ok <$> qs) db vs o w1 Hctx) as (x & E & Hx & Hxa); try done.
  { apply Forall_fmap. eapply Forall_impl; [exact Hq|]. intros q Hqw q' [= <-]. done. }
  rewrite Hserved in E. injection E as -> <- ->.
  destruct (log_answers_length _ _ _ _ _ _ El) as [_ Hlen]. rewrite length_fmap in Hlen. specialize (Hlen eq_refl).
  destruct (spec_requests_ok vs qs (kv_abs (Database.st db))) as [Hvs Hm']; [lia|done|].
  destruct (ClientWalFacts.log_answers_good env sched d B D0 n0 [] ctx qs _ w1 vs (Ret tt) Hg Hctx Ht El)
    as (more & Hg' & Hmore & Hwf' & Hv' & _). cbn [app] in Hg', Hwf', Hv'. rewrite app_nil_r in Hv'.
  rewrite Hlen, firstn_all in Hmore, Hm'.
  assert (ClientWalFacts.resting (ClientWal.core w1)) as Hrest1
    by (by eapply (ClientWalFacts.log_answers_resting env sched d B D0 n0 [] ctx qs _ w1 vs)).
  destruct (ClientWalFacts.good_disk _ _ _ _ _ _ Hg') as (D & n & Hh & HD & _ & HDr). rewrite (HDr Hrest1) in *.
  assert (length more <= length qs) as Hml by (rewrite <-(length_fmap row_query more), Hmore; apply length_filter).
  assert (Forall (fun r => write_cmd (Row.methodID r) (Row.args r)) (D0 ++ more)) as Hcmds.
  { apply Forall_app. split; [done|]. by apply (rows_write_cmd _ qs). }
  exists (D0 ++ more). rewrite fmap_app, Hmore. split; [done|]. split; [done|].
  intros rds k t g lost w' Hrun Hk Hall Hwfg Hcmdsg Hsize Hstops.
  destruct (crash_resting d B (D0 ++ more) n conf' dials' (Settings.Directory (WALConf conf)) rds k t g lost w'
    (Database.mk x w1 true)) as (db' & repl' & F & g' & E & HF & Hpre & Hl & Hent & Hab); try done; [lia|].
  exists db', repl', F, g'. do 6 (split; [done|]). intros ->.
  rewrite Hab, remaining_all, HF, !replay_app. cbn [Database.st]. rewrite Hxa, Hm', Ha. f_equal.
  by rewrite (SessionFacts.replay_run more), Hmore, run_writes.
Qed.

End properties.

(** ** Examples

    Three writes and a read, then one more row; the machine stops before it is
    synced and its last five bytes are lost. *)

Module RecoveryWitnesses.
Import InitWitnesses Examples LogReaders LogReadersWitnesses.

(** The database after the queries, and its log. *)
Definition served : Database.t (Storage.t MemEngine.t) ClientWal.t :=
  match InitDB quiet (fun _ => prompt) (ex_conf 4) [] example_world with
  | Ret (Ok (db, _)) =>
      snd (snd (Database.execute_all (WALOps0 := ClientWal.client_wal quiet (fun _ => prompt)) Context.Background
        (Ok <$> ex_queries) db))
  | _ => Database.mk (Storage.New (MemEngine.NewEngine 4))
      (ClientWal.mk (WAL.mk Generator.NewIDGenerator (Chan.make 0) [] [] ∅ ∅ WAL.Loop 0 (Witnesses.started example_world))
        (WALConf (ex_conf 4)) 0) true
  end.
Definition m_served : Manager.st Mutex.t := ClientWal.disk (Database.wal served).
Definition m_written : Manager.st Mutex.t := put (Row.encode (ex_row 9)) (snd (Manager.Lock m_served)).

(** The name and the size of the file that is written to. *)
Definition cur_file : gostring := FileSegment.GetName (Manager.curSeg (Manager.mgr m_served)).
Definition cur_size : Z := FileSegment.CurrentOffset (Manager.curSeg (Manager.mgr m_served)).

Definition interrupted (lg : list Row.t) : LogReaders.t Mutex.t :=
  LogReaders.mk m_written (WWriting [ex_row 9] {[ 9%N := mkEntry 0 cur_file cur_size ]} [] 23)
    [mkReader 3 0 RIndex] lg.

Lemma interrupted_run lg : nsteps (LogReaders.step (str "data")) 2 (log_of served lg [3%N]) (interrupted lg).
Proof.
  eapply (write_steps (ex_row 9) (Row.encode (ex_row 9)) _ _ m_served); [evaluated|vm_compute; lia|evaluated..].
Qed.

Lemma interrupted_stops lg : exists w, stops example_dir [] (interrupted lg) w.
Proof.
  set (p := f_path (FileSegment.file (Manager.curSeg (Manager.mgr m_written)))).
  assert (exists b, nodes (Manager.world m_written) !! p = Some (FileNode b)) as [b Hb]
    by (eexists; evaluated).
  eexists. eexists. split; [|reflexivity]. exists b, 5. split; [exact Hb|]. split; [vm_compute; lia|reflexivity].
Qed.

Lemma crash_keeps_answers_witness :
  exists db repl lg w' db' repl' g',
    InitDB quiet (fun _ => prompt) (ex_conf 4) [] example_world = Ret (Ok (db, repl)) /\
    Database.execute_all (WALOps0 := ClientWal.client_wal quiet (fun _ => prompt)) Context.Background (Ok <$> ex_queries) db =
      ([Ok (str "OK"); Ok (str "OK"); Ok (str "OK"); Ok (str "2")], (Ret tt, served)) /\
    stops example_dir [] (interrupted lg) w' /\
    InitDB quiet (fun _ => prompt) (ex_conf 7) [] w' = Ret (Ok (db', repl')) /\
    kv_abs (Database.st db') = replay g' (kv_abs (Database.st served)) /\ g' `prefix_of` [ex_row 9].
Proof.
  assert (ex_answers (fun _ => prompt) = ([Ok (str "OK"); Ok (str "OK"); Ok (str "OK"); Ok (str "2")], Ret tt)) as Hex
    by (vm_compute; reflexivity).
  destruct (InitDB_on quiet (fun _ => prompt) example_dir 1000 [] (ex_conf 4) [] example_world) as (db & repl & E1 & _);
    [reflexivity|reflexivity|done|done|done|exact Examples.example_dir_on|reflexivity| |reflexivity|apply Forall_nil_2|].
  { cbn [example_world now_calls]. lia. }
  unfold ex_answers in Hex. rewrite E1 in Hex.
  destruct (Database.execute_all _ _ _) as [rs [o s]] eqn:E2. injection Hex as -> ->.
  assert (s = served) as ->.
  { unfold served. rewrite E1, E2. reflexivity. }
  destruct (crash_keeps_answers quiet (fun _ => prompt) (ex_conf 4) (ex_conf 7) [] [] (str "data") example_dir 1000 [] example_world
    Context.Background ex_queries db repl [Ok (str "OK"); Ok (str "OK"); Ok (str "OK"); Ok (str "2")] served (ex_conf_master 4) (ex_conf_master 7) eq_refl Examples.example_dir_on)
    as (lg & _ & Hv & H).
  - apply Forall_nil_2.
  - reflexivity.
  - exact ex_queries_wf.
  - apply (bool_decide_unpack _). vm_compute. exact Logic.I.
  - vm_compute. reflexivity.
  - cbn [example_world now_calls ex_queries length]. lia.
  - intros _. exact prompt_running.
  - exact E1.
  - exact E2.
  - by repeat constructor.
  - destruct (interrupted_stops lg) as [w' Hs].
    destruct (H [3%N] 2 (interrupted lg) [ex_row 9] [] w') as (db' & repl' & F & g' & E & _ & _ & Hp & _ & _ & Ha).
    + exact (interrupted_run lg).
    + cbn [example_world now_calls ex_queries length]. lia.
    + reflexivity.
    + apply (bool_decide_unpack _). vm_compute. exact Logic.I.
    + apply Forall_singleton. left. exists (str "key"), (str "value"), []. split; reflexivity.
    + rewrite ManagerFacts.volume_app. assert (ManagerFacts.volume [ex_row 9] = 24%Z) as -> by evaluated.
      assert (ManagerFacts.volume (rows_of []) + ClientWalFacts.total_volume ex_queries <= 1000)%Z as Hb by (vm_compute; discriminate).
      lia.
    + exact Hs.
    + exists db, repl, lg, w', db', repl', g'. split; [exact E1|]. split; [exact E2|]. split; [exact Hs|].
      split; [exact E|]. split; [exact (Ha eq_refl)|exact Hp].
Defined.

End RecoveryWitnesses.
