(* ===== verification/SlaveRestart.v ===== *)
(** * A slave that starts again

    [InitDB] with the role of a slave, on the disk of a slave that has run
    before, and its first round of replication: [initSlave] builds a slave on
    the storage and the segment manager of the database, and neither of its
    constructors asks the log how far it got. *)

From S2P Require Import Prelude Encoding Utils Query Storage WalRecord FileSystem Index Segment SegmentManager.
From S2P Require Import Logs Concurrency Retry Wal Replication Database Transport ClientWal Init.

(** The configuration of a slave that logs to [dir]. *)
Definition logging_slave (dir : gostring) (conf : Config) : Prop :=
  Settings.Enable (WALConf conf) = true /\ ReplicationEnable conf = true /\ IsMaster conf = false /\
  Settings.Directory (WALConf conf) = dir /\ dir <> [] /\ (0 <= Settings.FlushBatchSize (WALConf conf))%Z.

(** A log with room takes the rows the master sends. *)
Lemma take_rows d B (rs : list Row.t) (L : layout) (rows : list Row.t) (lg : Manager.st Mutex.t) (n : nat) :
  tg_holds (LogTarget := manager_log_target d B) lg rs n -> Forall Row.wf (rows_of L) ->
  (ManagerFacts.volume rs + ManagerFacts.volume (rows_of L) < 2 ^ 63)%Z -> (length (rows_of L) <= n)%nat ->
  suffix rows (rows_of L) ->
  exists l, SlaveFacts.log_takes (Some slave_writer) rows lg l /\
    tg_holds (LogTarget := manager_log_target d B) l (rs ++ rows) (n - length rows).
Proof.
  intros Hh Hwf Hv Hn [pre Hs]. rewrite Hs in Hwf, Hv, Hn. apply Forall_app in Hwf as [_ Hwf].
  rewrite ManagerFacts.volume_app in Hv. rewrite length_app in Hn.
  assert (0 <= ManagerFacts.volume pre)%Z by (unfold ManagerFacts.volume; lens).
  apply (tg_write (LogTarget := manager_log_target d B) lg rs n rows); [done|done| |lia].
  rewrite ManagerFacts.volume_app. lia.
Qed.

Section restart.
Context {M : Type} `{!SegmentManager M} `{!SegmentManagerLaws M} `{!IndexSource M} `{!IndexSourceLaws M}.
Context (env : Env) (sched : nat -> ClientWal.schedule) (walDir : gostring) (cut : bytes -> reader).
Hypothesis Hcut : forall b, stream_data (cut b) = b.
Hypothesis Hquiet : forall i, done env i = None.

(** C23: a slave that restarts comes back to the master's data and writes its
    log twice.  The disk of the slave holds the first [k] rows of the master's
    log.  [InitDB] restores their replay and a slave with position zero; its
    first round fetches the whole log of the master, so that its storage is
    again the replay of that log and its position the end of it, but its own
    log now holds the first [k] rows a second time. *)
Theorem slave_restart_duplicates_log (conf : Config) (k : netConn) (dials : list (result netConn)) (dir : gostring)
    (d : FileSystem.path) (B : nat) (Ls L : layout) (w : World) (m : M) (ctx : Context.t) (n syncInterval : _)
    (Hconf : logging_slave dir conf) (Hdir : resolve dir = Some d) (Hdisk : ManagerFacts.dir_on d B Ls w)
    (Hserves : MasterFacts.serves walDir L m) (Hrepl : replicable L) (Hnum : numbered (rows_of L))
    (Hne : rows_of L <> []) (Hpre : rows_of Ls = take n (rows_of L))
    (Hctx : Context.ctx_Err ctx = None)
    (Hvol : (2 * ManagerFacts.volume (rows_of L) < 2 ^ 63)%Z)
    (Hlen : (N.of_nat (length (rows_of L)) + 1 < 2 ^ 64)%N)
    (Hclock : now_calls w + length (rows_of L) + 1 < B) :
  exists db cl s', InitDB env sched conf (Ok k :: dials) w = Ret (Ok (db, ReplicationSlave cl true)) /\
    kv_abs (Database.st db) = replay (take n (rows_of L)) ∅ /\
    Slave.getUpdates (Some slave_writer) (link env walDir cut) ctx
      (Slave.NewSlave (Database.st db) (ClientWal.disk (Database.wal db)) m syncInterval) = (Ret (Ok tt), s') /\
    kv_abs (Slave.st s') = replay (rows_of L) ∅ /\
    Slave.lastLsnWritten s' = N.of_nat (length (rows_of L)) /\
    exists room, tg_holds (LogTarget := manager_log_target d B) (Slave.log s')
      (take n (rows_of L) ++ rows_of L) room.
Proof using All.
  destruct Hconf as (He & Hre & Hma & <- & Hdne & Hfb). destruct Hrepl as [Hcmds Hsize].
  assert (InitReplication conf (Ok k :: dials) =
    Ret (Ok (ReplicationSlave (Client.mk k (Client.with_defaults (ReplicationClient conf)) dials []) true))) as Hrp.
  { unfold InitReplication, initSlave. rewrite Hre, Hma. cbn. by rewrite He. }
  assert (Forall (fun r => write_cmd (Row.methodID r) (Row.args r)) (rows_of Ls)) as Hcs
    by (rewrite Hpre; by apply Forall_take).
  assert (ManagerFacts.volume (rows_of L) = ManagerFacts.volume (take n (rows_of L)) + ManagerFacts.volume (drop n (rows_of L)))%Z as Hsplit
    by (rewrite <-ManagerFacts.volume_app; by rewrite take_drop).
  assert (0 <= ManagerFacts.volume (drop n (rows_of L)))%Z as Hpos by (unfold ManagerFacts.volume; lens).
  assert (0 <= ManagerFacts.volume (take n (rows_of L)))%Z as Hpos' by (unfold ManagerFacts.volume; lens).
  destruct (InitDB_start env sched d B Ls conf (Ok k :: dials) _ w He Hdne Hfb Hrp Hdisk Hdir) as
    (db & sd & Ei & Hwf & _ & Hsd & Hl & Ha); [lia|rewrite Hpre; lia|done|].
  rewrite <-(sd_disk _ _ Hsd) in Hl.
  rewrite Hpre in Hl, Ha. eexists db, _.
  pose proof (MasterFacts.rows_wf walDir L m (MasterFacts.sv_log _ _ _ Hserves)) as Hrwf.
  set (s := Slave.NewSlave _ _ m syncInterval).
  assert (forall rows, suffix rows (rows_of L) -> exists l,
    SlaveFacts.log_takes (Some slave_writer) rows (Slave.log s) l /\
    tg_holds (LogTarget := manager_log_target d B) l (take n (rows_of L) ++ rows) (B - S (now_calls w) - length rows)) as Htake
    by (intros rows Hsuf; apply (take_rows d B _ L rows _ _ Hl Hrwf); [lia|lia|done]).
  destruct (getUpdates_found env walDir cut Hcut Hquiet (Some slave_writer) ctx Hctx L s)
    as (pre & r & suf & s' & Hrows & Hr & E & _ & _ & Hab & Htk & Hlast & _); [done|done|done|done|..].
  { destruct (rows_of L) as [|r0 rows] eqn:Er; [done|].
    change (Slave.lastLsnWritten s + 1)%N with (N.of_nat 0 + 1)%N. rewrite <-(Hnum 0 r0) by done. by left. }
  { intros rows Hsuf _. destruct (Htake rows Hsuf) as (l & ? & _). eauto. }
  assert (pre = []) as ->.
  { assert (rows_of L !! length pre = Some r) as Hi by (rewrite Hrows; by apply list_lookup_middle).
    apply Hnum in Hi. rewrite Hr in Hi. cbn in Hi. apply nil_length_inv. lia. }
  cbn [app] in Hrows. exists s'. split; [exact Ei|]. split; [exact Ha|]. split; [exact E|].
  split; [|split].
  - rewrite Hab, <-Hrows. cbn [s Slave.NewSlave Slave.st]. rewrite Ha, <-replay_app.
    rewrite <-(take_drop n (rows_of L)) at 2 3. apply replay_again. by rewrite take_drop.
  - destruct (last (rows_of L)) as [z|] eqn:Hz; [|done]. injection Hlast as <-.
    rewrite last_lookup in Hz. apply Hnum in Hz. rewrite Hz. rewrite Hrows. cbn. lia.
  - rewrite <-Hrows in Htk.
    destruct (Htake (rows_of L)) as (l & E' & Hh); [done|]. cbn in E', Htk. rewrite Htk in E'. injection E' as ->. eauto.
Qed.

End restart.

(** ** Example

    A slave that has the first of the master's two rows. *)

Module SlaveRestartWitnesses.
Import Manager ManagerFacts Examples ReplicationWitnesses.

Lemma ex_slave_disk :
  exists Ls w, dir_on example_dir 1000 Ls w /\ rows_of Ls = [ex_row 1] /\ now_calls w <= 20.
Proof.
  destruct example_start as (w & seg & _ & _ & _ & Hn & Hl & Hi). cbv zeta in *.
  destruct (run_on example_dir 1000 [EWrite [ex_row 1]] _ _ Hl Hi) as (Ls & s & _ & Hls & _ & _ & Hr & Hc).
  - apply (bool_decide_unpack _). vm_compute. exact Logic.I.
  - reflexivity.
  - cbn in *. lia.
  - exists Ls, (world s). split; [apply Hls|]. split; [exact Hr|]. cbn in *. lia.
Qed.

Definition ex_slave_conf : Config :=
  mkConf (str "inmemory") 4 (Settings.mkConfig true 0 0 30 (str "data")) true false
    (mkTCPServer [] 0 0 0 0) (mkClientConfig 0 0 0).

Lemma slave_restart_duplicates_log_witness :
  exists w db cl s', InitDB quiet (fun _ => InitWitnesses.prompt) ex_slave_conf [Ok (mkNetConn [] None)] w = Ret (Ok (db, ReplicationSlave cl true)) /\
    kv_abs (Database.st db) = replay [ex_row 1] ∅ /\
    Slave.getUpdates (Some slave_writer) (link quiet (str "data") LogReader.bytes_reader) Context.Background
      (Slave.NewSlave (Database.st db) (ClientWal.disk (Database.wal db)) (ex_master [ex_row 1; ex_row 2]) 0) =
      (Ret (Ok tt), s') /\
    kv_abs (Slave.st s') = replay [ex_row 1; ex_row 2] ∅ /\
    exists room, tg_holds (LogTarget := manager_log_target example_dir 1000) (Slave.log s')
      [ex_row 1; ex_row 1; ex_row 2] room.
Proof.
  destruct (ex_master_log [ex_row 1; ex_row 2]) as (L & HL & Hs).
  { apply (bool_decide_unpack _). vm_compute. exact Logic.I. }
  { simpl. lia. }
  { reflexivity. }
  { vm_compute. reflexivity. }
  destruct ex_slave_disk as (Ls & w & Hd & HLs & Hn).
  destruct (slave_restart_duplicates_log quiet (fun _ => InitWitnesses.prompt) (str "data") LogReader.bytes_reader
    (fun b => proj1 (ReaderFacts.chunks_data (length b) b (Nat.le_refl _))) (fun _ => eq_refl)
    ex_slave_conf (mkNetConn [] None) [] (str "data") example_dir 1000 Ls L w (ex_master [ex_row 1; ex_row 2])
    Context.Background 1 0%Z) as (db & cl & s' & E1 & E2 & E3 & E4 & _ & E5); rewrite ?HL, ?HLs in *.
  - by repeat split.
  - reflexivity.
  - exact Hd.
  - exact Hs.
  - split; rewrite HL; [|reflexivity]. do 2 (apply Forall_cons_2; [left; by do 3 eexists|]). apply Forall_nil_2.
  - intros [|[|i]] r Hr; [by injection Hr as <-..|done].
  - done.
  - reflexivity.
  - reflexivity.
  - vm_compute. reflexivity.
  - reflexivity.
  - cbn. lia.
  - exists w, db, cl, s'. split; [exact E1|]. split; [exact E2|]. split; [exact E3|]. split; [exact E4|exact E5].
Defined.

End SlaveRestartWitnesses.
