(* ===== verification/Programs.v ===== *)
(** * The life of the server process

    [main.go] and [slave_instance/main.go], the life of a listener from
    [Listen] to [Close] and that of the replication roles: the order in which
    the parts are started and stopped, and how a process ends. *)

From S2P Require Import Prelude Utils Query Storage WalRecord FileSystem Index Segment SegmentManager.
From S2P Require Import Logs Concurrency Retry Wal Replication Database Transport ClientWal Init.

(** ** A listener from [Listen] to [Close] *)

(** [errors.Is(err, net.ErrClosed)]. *)
Fixpoint is_ErrClosed (e : error) : bool :=
  match e with
  | OpError msg => bool_decide (str "use of closed network connection" `suffix_of` msg)
  | Wrapped _ e' => is_ErrClosed e'
  | _ => false
  end.

Module ListenerLife.
Import UniversalHandler.

(** The field [ls]: nil until [net.Listen] has returned. *)
Inductive socket := NoSocket | Open | ClosedSocket.

(** [Close]: a method call on a nil interface panics; the error of closing a
    second time is only logged. *)
Definition Close : Go socket unit :=
  fun s => match s with NoSocket => (Panics, s) | _ => (Ret tt, ClosedSocket) end.

(** The goroutine of [listen]: before [net.Listen], at the check of the
    context, in [Accept], waiting for a slot for the connection it has, and
    returned. *)
Inductive pc :=
| Starting
| Checking
| Accepting
| Acquiring (r : BufReader.t) (w : BufWriter.t)
| Returned.

Section life.
Context {D : Type} (Handle : Context.t -> Go (conn D) (option error)).

Record t := mk { at_ : pc; ls : socket; ctx : Context.t; base : tcpListener.t D }.

(** What [Accept] gives, and [SetDeadline] on it. *)
Inductive accepted :=
| AcceptError (e : error)
| AcceptConn (deadlineErr : option error) (r : BufReader.t) (w : BufWriter.t).

(** The [select] at the head of the loop. *)
Definition check_ctx (ctx : Context.t) : pc :=
  match Context.ctx_Err ctx with Some _ => Returned | None => Accepting end.

(** Where the loop goes from [Accept].  A connection whose deadline cannot be
    set is not served and not closed. *)
Definition accept (a : accepted) : pc :=
  match a with
  | AcceptError e => if is_ErrClosed e then Returned else Checking
  | AcceptConn (Some _) _ _ => Checking
  | AcceptConn None r w => Acquiring r w
  end.

(** The wait for a slot, for a connection: it is served by a goroutine of its
    own, or turned away. *)
Definition acquire (fired pick : bool) (r : BufReader.t) (w : BufWriter.t) : Go (tcpListener.t D) unit :=
  fun l =>
    match Semaphore.AcquireWithDeadline fired pick (tcpListener.sem l) with
    | (Ret true, s) => (Ret tt, tcpListener.mk (tcpListener.shared l) s
        (tcpListener.peers l ++ [tcpListener.mkPeer r w tcpListener.Running]))
    | (Ret false, s) => (Ret tt, tcpListener.mk (tcpListener.shared l) s
        (tcpListener.peers l ++ [tcpListener.mkPeer r
          (tcpListener.writeToConn (str "too many connections") w) tcpListener.Closed]))
    | (Panics, s) => (Panics, l)
    | (Blocks, s) => (Blocks, l)
    end.

(** The goroutine of [listen], those of its connections and the rest of the
    process; between any two of its actions others may come.  A closed socket
    accepts nothing and answers [net.ErrClosed]. *)
Inductive step : t -> t -> Prop :=
| life_listen c b : step (mk Starting NoSocket c b) (mk Checking Open c b)
| life_check s c b : step (mk Checking s c b) (mk (check_ctx c) s c b)
| life_accept s c b a :
    (s = ClosedSocket -> exists e, a = AcceptError e /\ is_ErrClosed e = true) ->
    step (mk Accepting s c b) (mk (accept a) s c b)
| life_acquire s c b fired pick r w b' :
    acquire fired pick r w b = (Ret tt, b') ->
    step (mk (Acquiring r w) s c b) (mk Checking s c b')
| life_connection p s c b b' :
    tcpListener.step Handle c b b' ->
    length (tcpListener.peers b') = length (tcpListener.peers b) ->
    step (mk p s c b) (mk p s c b')
| life_cancel p s c e b : step (mk p s c b) (mk p s (Context.mk (Some e) (Context.txKey c)) b)
| life_Close p s s' c b : Close s = (Ret tt, s') -> step (mk p s c b) (mk p s' c b).

End life.
Arguments t : clear implicits.
End ListenerLife.

Module ListenerLifeFacts.
Import UniversalHandler ListenerLife.
Section facts.
Context {D : Type} (Handle : Context.t -> Go (conn D) (option error)).

(** The wait lets a connection in or turns it away. *)
Lemma acquire_is_step c fired pick r w b (b' : tcpListener.t D) :
  acquire fired pick r w b = (Ret tt, b') ->
  tcpListener.step Handle c b b' /\ length (tcpListener.peers b') = S (length (tcpListener.peers b)).
Proof.
  unfold acquire. destruct b as [d sm ps]. cbn [tcpListener.sem tcpListener.shared tcpListener.peers].
  destruct (Semaphore.AcquireWithDeadline fired pick sm) as [[[]| |] s] eqn:E; try done; intros [= <-];
    cbn [tcpListener.peers]; rewrite length_app; (split; [|cbn; lia]).
  - by eapply tcpListener.step_accept.
  - by eapply tcpListener.step_reject.
Qed.

Lemma life_inv max (s s' : t D) :
  ListenerFacts.inv max (base s) -> rtc (step Handle) s s' -> ListenerFacts.inv max (base s').
Proof.
  intros Hi Hs. induction Hs as [|s s1 s2 Hs _ IH]; [done|]. apply IH. clear IH.
  destruct Hs as [c b|s c b|s c b a _|s c b fired pick r w b' E|p s c b b' Hs _|p s c e b|p s s' c b _]; cbn [base] in *; try done.
  - apply (acquire_is_step c) in E as [E _]. by eapply ListenerFacts.inv_step.
  - by eapply ListenerFacts.inv_step.
Qed.

(** The connection that has been accepted and has no slot yet. *)
Definition waiting (p : pc) : nat := match p with Acquiring _ _ => 1 | _ => 0 end.

(** Once closed, nobody is accepted any more. *)
Lemma closed_stays (s s' : t D) :
  ls s = ClosedSocket -> rtc (step Handle) s s' ->
  ls s' = ClosedSocket /\
  length (tcpListener.peers (base s')) + waiting (at_ s') = length (tcpListener.peers (base s)) + waiting (at_ s).
Proof.
  intros Hc Hs. induction Hs as [|s s1 s2 Hs _ IH]; [done|].
  assert (ls s1 = ClosedSocket /\ length (tcpListener.peers (base s1)) + waiting (at_ s1) =
    length (tcpListener.peers (base s)) + waiting (at_ s)) as [H1 H2].
  { destruct Hs as [c b|s c b|s c b a Ha|s c b fired pick r w b' E|p s c b b' Hs Hl|p s c e b|p s s' c b E]; cbn [base ls at_] in *; try done.
    - split; [done|]. unfold check_ctx. by destruct (Context.ctx_Err c).
    - split; [done|]. destruct (Ha Hc) as (e & -> & He). cbn. by rewrite He.
    - split; [done|]. apply (acquire_is_step c) in E as [_ ->]. cbn. lia.
    - split; [done|]. by rewrite Hl.
    - subst s. by injection E as <-. }
  destruct (IH H1) as [H3 H4]. split; [done|congruence].
Qed.

End facts.
End ListenerLifeFacts.

Section listener_life.
Import UniversalHandler ListenerLife ListenerLifeFacts.
Context {D : Type} (Handle : Context.t -> Go (conn D) (option error)).

(** C24: a listener over its whole life.  From [Listen] on, through accepted and
    refused connections, failing calls of [Accept], the end of the context and
    [Close], in any order, also between [Accept] and the wait for a slot: there
    are never more than [MaxConn] connections being served and their number is
    that of the slots taken; once [Close] has returned no connection is
    accepted any more, only one that had been accepted by then and waits for
    its slot is still let in or turned away; and the goroutine of [listen] is
    not held up: the wait for a slot ends with its timer, and its next
    [Accept] makes it return. *)
Theorem listener_lifecycle (c cfg : TCPServer) (sem0 : Semaphore.t) (d : D) (ctx0 : Context.t) (s s' : t D)
    (Hnew : tcpListener.NewListener c = Ret (cfg, sem0))
    (Hreach : rtc (step Handle) (mk Starting NoSocket ctx0 (tcpListener.mk d sem0 [])) s)
    (Hreach' : rtc (step Handle) s s') :
  (Z.of_nat (tcpListener.running (base s)) <= MaxConn cfg)%Z /\
  length (Chan.buf (tcpListener.sem (base s))) = tcpListener.running (base s) /\
  (ls s = ClosedSocket ->
    length (tcpListener.peers (base s')) + waiting (at_ s') = length (tcpListener.peers (base s)) + waiting (at_ s) /\
    (forall r w, at_ s' = Acquiring r w -> exists s'', step Handle s' s'' /\ at_ s'' = Checking) /\
    (at_ s' = Checking -> exists s'', step Handle s' s'' /\ (at_ s'' = Accepting \/ at_ s'' = Returned)) /\
    (at_ s' = Accepting -> exists s'', step Handle s' s'' /\ at_ s'' = Returned)).
Proof.
  destruct (ListenerFacts.inv_new c cfg sem0 d Hnew) as (max & Hi & Hmax).
  assert (ListenerFacts.inv max (base s)) as Hinv by (eapply (life_inv Handle max); [|exact Hreach]; done).
  destruct (life_inv Handle max s s' Hinv Hreach') as [Ho' _ _ _]. destruct Hinv as [_ _ Hn Hm].
  split; [lia|]. split; [done|].
  intros Hc. destruct (closed_stays Handle s s' Hc Hreach') as [Hc' Hl]. split; [done|].
  destruct s' as [p sk c1 b]. cbn [at_ ls base] in *. subst sk. split; [|split].
  - intros r w ->. assert (exists b', acquire true true r w b = (Ret tt, b')) as [b' E].
    { unfold acquire, Semaphore.AcquireWithDeadline, Chan.send. rewrite Ho'. case_bool_decide; by eexists. }
    eexists. split; [by eapply life_acquire|done].
  - intros ->. eexists. split; [apply life_check|]. cbn. unfold check_ctx.
    destruct (Context.ctx_Err c1); auto.
  - intros ->. set (e := OpError (str "accept: use of closed network connection")).
    exists (mk Returned ClosedSocket c1 b). split; [|done].
    change Returned with (accept (AcceptError e)). apply life_accept.
    intros _. exists e. split; [done|]. by vm_compute.
Qed.

End listener_life.

(** ** The replication roles *)

Module Roles.

(** A [Master] and its listener, nil until [setTransport]. *)
Record Master := mkMaster { walDir : gostring; listener : option (TCPServer * Semaphore.t) }.

Definition NewMaster (walDir : gostring) : Master := mkMaster walDir None.
Definition setTransport (ls : TCPServer * Semaphore.t) (m : Master) : Master := mkMaster (walDir m) (Some ls).

(** [Start]: whether the listener is started. *)
Definition Start (m : Master) : bool := match listener m with None => false | Some _ => true end.

(** [Close] on the socket of the listener. *)
Definition Close (m : Master) : Go ListenerLife.socket unit :=
  match listener m with None => go_ret tt | Some _ => ListenerLife.Close end.

(** The master [initMaster] builds around a listener. *)
Definition master_of (conf : Config) (tcpLister : TCPServer * Semaphore.t) : Master :=
  setTransport tcpLister (NewMaster (Settings.Directory (WALConf conf))).

End Roles.

(** ** The logger *)

Module Logger.

(** The fields of a message.  [Field] is the zap package's: the type says which
    of the members is meant. *)
Inductive FieldType := ByteStringType | StringType | Int64Type | Uint64Type | OtherType (t : N).

Record Field := mkField { Key : gostring; Type_ : FieldType; Integer_ : Z; String_ : gostring; Interface : option bytes }.

Definition Bytes (key : gostring) (val : bytes) : Field := mkField key ByteStringType 0 [] (Some val).
Definition String (key val : gostring) : Field := mkField key StringType 0 val None.
Definition Integer (key : gostring) (val : Z) : Field := mkField key Int64Type val [] None.
Definition UInteger (key : gostring) (val : N) : Field := mkField key Uint64Type (i64 (Z.of_N val)) [] None.

(** [zap.NamedError] is the package's. *)
Definition ErrorField (NamedError : gostring -> error -> Field) (err : error) : Field := NamedError (str "error") err.

(** The unsigned number is kept in a signed member; seen as unsigned again, as
    the package's encoder does, it is the number that was given. *)
Lemma UInteger_value key val : (val < 2 ^ 64)%N -> (Integer_ (UInteger key val) mod 2 ^ 64)%Z = Z.of_N val.
Proof.
  intros H. cbn [UInteger Integer_]. unfold i64. rewrite Zminus_mod_idemp_l, Z.add_simpl_r.
  apply Z.mod_small. lia.
Qed.

(** [config.Logger]. *)
Record Config := mkConfig { Level : gostring; Out : gostring; DisableStacktrace : bool }.

Inductive level := DebugLevel | InfoLevel | WarnLevel | ErrorLevel | FatalLevel.

Definition defaultZapLevel : level := InfoLevel.
Definition defaultOut : gostring := str "stdout".

(** What [New] sets of the configuration of the zap package. *)
Record zapConfig := mkZap { AtLevel : level; OutputPaths : list gostring; NoStacktrace : bool }.

Definition level_of (l : gostring) : level :=
  if bool_decide (l = str "debug") then DebugLevel
  else if bool_decide (l = str "info") then InfoLevel
  else if bool_decide (l = str "warn") then WarnLevel
  else if bool_decide (l = str "error") then ErrorLevel
  else if bool_decide (l = str "fatal") then FatalLevel
  else defaultZapLevel.

(** [New]; the package's [Build] tells whether it can build a logger, and a
    failure panics. *)
Definition New (Build : zapConfig -> option error) (c : Config) : outcome zapConfig :=
  let cfg := mkZap (level_of (Level c)) [if bool_decide (Out c = []) then defaultOut else Out c] (DisableStacktrace c) in
  match Build cfg with Some _ => Panics | None => Ret cfg end.

End Logger.

(** ** The two programs *)

Module Process.
Section process.
Context (env : Env) (sched : nat -> ClientWal.schedule).

(** The settings [main] uses beside those of [InitDB]. *)
Record Config := mkConfig {
  core : Init.Config;
  TransportType : gostring;
  TransportServer : TCPServer;
  ProfilerEnable : bool;
  LoggerConf : Logger.Config
}.

(** [config.NewConfig] with the yaml package's [Unmarshal]; both of its
    failures end the process by [log.Fatalf]. *)
Definition NewConfig (Unmarshal : bytes -> result Config) (path : gostring) : Go World (result Config) :=
  try! data := ReadFile path in
  go_ret (Unmarshal data).

(** The calls [main] makes, as a log of the process would show them. *)
Inductive call :=
| ReplStart | WalStart | CliListen | CliClose | Listen | StartProfiler | Stopping
| ListenerClose | ReplClose | LogSync.

(** The calls made and the sockets of the listener and of the replication
    master. *)
Record t := mk {
  calls : list call;
  sock : ListenerLife.socket;
  replSock : ListenerLife.socket
}.

Definition fresh : t := mk [] ListenerLife.NoSocket ListenerLife.NoSocket.

Definition note (c : call) : Go t unit := go_put (fun s => mk (calls s ++ [c]) (sock s) (replSock s)).
Definition on_sock {A} (c : Go ListenerLife.socket A) : Go t A :=
  go_zoom sock (fun k s => mk (calls s) k (replSock s)) c.
Definition on_replSock {A} (c : Go ListenerLife.socket A) : Go t A :=
  go_zoom replSock (fun k s => mk (calls s) (sock s) k) c.

(** What happens to a goroutine that calls [net.Listen] by the time the signal
    arrives: it has not come to it, it has succeeded, or it has failed, which
    ends the process by [log.Fatal]. *)
Inductive bind := NotYet | Bound | BindFailed (e : error).

(** Whether a signal arrives, and what the goroutines have done by then. *)
Record surroundings := mkSurroundings {
  signalled : bool;
  listening : bind;
  replListening : bind;
  profilerErr : option error
}.

Definition listener := (listener_kind * option (TCPServer * Semaphore.t))%type.

(** [transport.NewListener]. *)
Definition newListener (conf : Config) : outcome listener :=
  match NewListener (TransportType conf) with
  | CLI => Ret (CLI, None)
  | TCP =>
      match tcpListener.NewListener (TransportServer conf) with
      | Ret l => Ret (TCP, Some l)
      | Panics => Panics
      | Blocks => Blocks
      end
  end.

(** The socket a goroutine of [listen] leaves. *)
Definition run_bind (b : bind) : Go ListenerLife.socket (result unit) :=
  fun s =>
    match b with
    | NotYet => (Ret (Ok tt), s)
    | Bound => (Ret (Ok tt), ListenerLife.Open)
    | BindFailed e => (Ret (Err e), s)
    end.

(** [<-ctx.Done()], with the goroutines that run until then. *)
Definition await (sur : surroundings) (ls : listener) (repl : replication) (profiler : bool) : Go t (result unit) :=
  try! u := match fst ls with TCP => on_sock (run_bind (listening sur)) | CLI => go_ret (Ok tt) end in
  try! u := match repl with
            | ReplicationMaster _ => on_replSock (run_bind (replListening sur))
            | _ => go_ret (Ok tt)
            end in
  match (if profiler then profilerErr sur else None) with
  | Some e => go_ret (Err e)
  | None => if signalled sur then do! note Stopping in go_ret (Ok tt) else go_block
  end.

(** [ls.Close()]. *)
Definition closeListener (ls : listener) : Go t unit :=
  do! note ListenerClose in
  match fst ls with TCP => on_sock ListenerLife.Close | CLI => go_ret tt end.

(** [repl.Close()]: a call on a nil interface panics. *)
Definition closeRepl (conf : Config) (repl : replication) : Go t unit :=
  match repl with
  | NoReplication => go_panic
  | ReplicationMaster l =>
      do! note ReplClose in
      on_replSock (Roles.Close (Roles.master_of (core conf) l))
  | ReplicationSlave _ _ => note ReplClose
  end.

(** [if repl != nil { repl.Start(ctx) }]. *)
Definition startRepl (conf : Config) (repl : replication) : Go t unit :=
  match repl with
  | NoReplication => go_ret tt
  | ReplicationMaster l => if Roles.Start (Roles.master_of (core conf) l) then note ReplStart else go_ret tt
  | ReplicationSlave _ _ => note ReplStart
  end.

(** [wal.Start(ctx)]. *)
Definition startWal (conf : Config) : Go t unit :=
  if Settings.Enable (WALConf (core conf)) then note WalStart else go_ret tt.

(** From the listener on the programs are the same but for the profiler. *)
Definition serve (conf : Config) (sur : surroundings) (repl : replication) (profiler : bool) : Go t (result unit) :=
  match newListener conf with
  | Panics => go_panic
  | Blocks => go_block
  | Ret ls =>
      do! note Listen in
      do! (if profiler then note StartProfiler else go_ret tt) in
      try! u := await sur ls repl profiler in
      do! closeListener ls in
      do! closeRepl conf repl in
      do! note LogSync in
      go_ret (Ok tt)
  end.

(** What both programs begin with: the configuration and the logger, then the
    database; an error is that of a [log.Fatal]. *)
Definition configured (Unmarshal : bytes -> result Config) (Build : Logger.zapConfig -> option error)
    (path : gostring) (dials : list (result netConn)) (w : World)
    (body : Config -> replication -> Go t (result unit)) : Go t (result unit) :=
  match NewConfig Unmarshal path w with
  | (Panics, _) => go_panic
  | (Blocks, _) => go_block
  | (Ret (Err e), _) => go_ret (Err e)
  | (Ret (Ok conf), w1) =>
      match Logger.New Build (LoggerConf conf) with
      | Panics => go_panic
      | Blocks => go_block
      | Ret _ =>
          match InitDB env sched (core conf) dials w1 with
          | Panics => go_panic
          | Blocks => go_block
          | Ret (Err e) => go_ret (Err e)
          | Ret (Ok (_, repl)) => body conf repl
          end
      end
  end.

(** [main] of the server. *)
Definition main (Unmarshal : bytes -> result Config) (Build : Logger.zapConfig -> option error)
    (dials : list (result netConn)) (w : World) (sur : surroundings) : Go t (result unit) :=
  configured Unmarshal Build (str "config.yaml") dials w (fun conf repl =>
    do! startRepl conf repl in
    do! startWal conf in
    do! note CliListen in
    do! note CliClose in
    serve conf sur repl (ProfilerEnable conf)).

(** [main] of the slave instance. *)
Definition slave_main (Unmarshal : bytes -> result Config) (Build : Logger.zapConfig -> option error)
    (dials : list (result netConn)) (w : World) (sur : surroundings) : Go t (result unit) :=
  configured Unmarshal Build (str "/Users/nick/goSelfEducation/laguna/slave_instance/config.yaml") dials w (fun conf repl =>
    do! startRepl conf repl in
    do! startWal conf in
    serve conf sur repl false).

End process.
End Process.

Module ProcessFacts.
Import Process.

(** The sockets that will be closed have been opened. *)
Definition sockets_open (sur : surroundings) (conf : Config) (repl : replication) : bool :=
  match NewListener (TransportType conf), listening sur with TCP, NotYet => false | _, _ => true end &&
  match repl, replListening sur with ReplicationMaster _, NotYet => false | _, _ => true end.

Definition has_replication (repl : replication) : bool := match repl with NoReplication => false | _ => true end.

(** Nothing the process starts fails by itself. *)
Definition calm (sur : surroundings) : Prop :=
  signalled sur = true /\ profilerErr sur = None /\
  (forall e, listening sur <> BindFailed e) /\ (forall e, replListening sur <> BindFailed e).

Lemma serve_ends conf sur repl profiler cs l :
  calm sur -> newListener conf = Ret l ->
  exists s, serve conf sur repl profiler (mk cs ListenerLife.NoSocket ListenerLife.NoSocket) =
      ((if has_replication repl && sockets_open sur conf repl then Ret (Ok tt) else Panics), s) /\
    (cs ++ [Listen] ++ (if profiler then [StartProfiler] else []) ++ [Stopping; ListenerClose]) `prefix_of` calls s /\
    (has_replication repl && sockets_open sur conf repl = true ->
     calls s = cs ++ [Listen] ++ (if profiler then [StartProfiler] else []) ++
       [Stopping; ListenerClose; ReplClose; LogSync]).
Proof.
  intros (Hsig & Hprof & Hb & Hrb) Hl. unfold serve. rewrite Hl.
  assert (fst l = NewListener (TransportType conf)) as Hk.
  { unfold newListener in Hl. destruct (NewListener (TransportType conf)); [|by injection Hl as <-].
    destruct (tcpListener.NewListener _); try done. by injection Hl as <-. }
  unfold sockets_open. rewrite <-Hk. clear Hk Hl.
  unfold await, closeListener, closeRepl, has_replication, Roles.Close, Roles.master_of, Roles.setTransport, Roles.NewMaster, note,
    on_sock, on_replSock, run_bind, ListenerLife.Close, go_put, go_zoom, go_bind, go_panic, go_ret.
  destruct l as [[] lo], (listening sur) as [| |e], repl, (replListening sur) as [| |e'], profiler;
    try (by destruct (Hb e)); try (by destruct (Hrb e'));
    cbn; rewrite ?Hprof, ?Hsig; cbn; eexists;
    (split; [reflexivity|]); cbn; rewrite <-?(assoc_L (++)); cbn;
    (split; [first [done|apply prefix_app; try apply prefix_app_r; repeat apply prefix_cons; apply prefix_nil]|done]).
Qed.

Lemma InitDB_role env sched c dials w db repl :
  InitDB env sched c dials w = Ret (Ok (db, repl)) -> has_replication repl = ReplicationEnable c.
Proof.
  unfold InitDB. destruct (initSegmentManager c w) as [[[sm|]| |] w1]; try done.
  destruct (ClientWal.NewWAL _ _); try done. destruct (Database.NewDatabase _ _ _) as [[d|]| |]; try done.
  unfold InitReplication. destruct (ReplicationEnable c); cbn [negb].
  - destruct (IsMaster c).
    + unfold Init.initMaster. destruct (tcpListener.NewListener _); try done. by intros [= _ <-].
    + unfold initSlave. destruct (Client.NewClient _ _); try done. by intros [= _ <-].
  - by intros [= _ <-].
Qed.

End ProcessFacts.

Section process_properties.
Import Process ProcessFacts.
Context (env : Env) (sched : nat -> ClientWal.schedule).

(** C32: how the programs end.  When the configuration could be read and the
    database has started, nothing fails by
    itself and the signal to stop arrives, the server and the slave instance
    return, having started replication before the log, the log before the
    listener, and stopped the listener before replication, exactly when
    replication is enabled and every listener has opened its socket by then.
    Otherwise they panic: without replication on every stop, because [Close]
    is called on a nil interface, and else when the signal comes before the
    goroutine of a listener has called [net.Listen]. *)
Theorem main_ends (Unmarshal : bytes -> result Config) (Build : Logger.zapConfig -> option error)
    (conf : Config) (zap : Logger.zapConfig) (path : gostring) (dials : list (result netConn)) (w w1 : World)
    (sur : surroundings) (db : Database.t (Storage.t MemEngine.t) ClientWal.t) (repl : replication) (l : listener)
    (Hconf : NewConfig Unmarshal path w = (Ret (Ok conf), w1))
    (Hlog : Logger.New Build (LoggerConf conf) = Ret zap)
    (Hinit : InitDB env sched (core conf) dials w1 = Ret (Ok (db, repl))) (Hcalm : calm sur)
    (Hlistener : newListener conf = Ret l) :
  let ok := ReplicationEnable (core conf) && sockets_open sur conf repl in
  let started := (if ReplicationEnable (core conf) then [ReplStart] else []) ++
    (if Settings.Enable (WALConf (core conf)) then [WalStart] else []) in
  (path = str "config.yaml" ->
   exists s, main env sched Unmarshal Build dials w sur fresh = ((if ok then Ret (Ok tt) else Panics), s) /\
    (ok = true -> calls s = started ++ [CliListen; CliClose; Listen] ++
      (if ProfilerEnable conf then [StartProfiler] else []) ++ [Stopping; ListenerClose; ReplClose; LogSync])) /\
  (path = str "/Users/nick/goSelfEducation/laguna/slave_instance/config.yaml" ->
   exists s, slave_main env sched Unmarshal Build dials w sur fresh = ((if ok then Ret (Ok tt) else Panics), s) /\
    (ok = true -> calls s = started ++ [Listen; Stopping; ListenerClose; ReplClose; LogSync])).
Proof.
  intros ok started. pose proof (InitDB_role _ _ _ _ _ _ _ Hinit) as Hrole. unfold ok, started. rewrite <-Hrole.
  assert (forall (k : Config -> replication -> Go t (result unit)), configured env sched Unmarshal Build path dials w
    (fun conf repl => do! startRepl conf repl in do! startWal conf in k conf repl) fresh =
    k conf repl (mk ((if has_replication repl then [ReplStart] else []) ++
      (if Settings.Enable (WALConf (core conf)) then [WalStart] else [])) ListenerLife.NoSocket ListenerLife.NoSocket)) as Hst.
  { intros k. unfold configured. rewrite Hconf, Hlog, Hinit.
    unfold startRepl, startWal, note, Roles.Start, Roles.master_of, Roles.setTransport, go_bind, go_put, go_ret.
    destruct repl, (Settings.Enable _); done. }
  split; intros ->.
  - unfold main. rewrite (Hst (fun conf repl => do! note CliListen in do! note CliClose in
      serve conf sur repl (ProfilerEnable conf))). set (cs := _ ++ _).
    unfold note, go_put, go_bind at 1. unfold go_bind at 1. cbn [calls sock replSock].
    destruct (serve_ends conf sur repl (ProfilerEnable conf) ((cs ++ [CliListen]) ++ [CliClose]) l Hcalm Hlistener)
      as (s & E & _ & Hc). exists s. split; [exact E|]. intros H. rewrite (Hc H). by rewrite <-!(assoc_L (++)).
  - unfold slave_main. rewrite (Hst (fun conf repl => serve conf sur repl false)). set (cs := _ ++ _).
    destruct (serve_ends conf sur repl false cs l Hcalm Hlistener) as (s & E & _ & Hc). exists s.
    split; [exact E|]. intros H. by rewrite (Hc H).
Qed.

End process_properties.

(** ** Examples *)

Module ProgramWitnesses.
Import Process ProcessFacts.

(** A server without replication that has served its clients and is told to
    stop. *)
Definition ex_process : Config :=
  mkConfig (mkConf (str "inmemory") 4 (Settings.mkConfig true 0 0 30 (str "data")) false true
    (mkTCPServer [] 0 0 0 0) (mkClientConfig 0 0 0)) (str "tcp") (mkTCPServer [] 0 0 0 0) false
    (Logger.mkConfig [] [] false).

Definition ex_calm : surroundings := mkSurroundings true Bound Bound None.

(** A disk with a configuration file and an empty directory for the log. *)
Definition ex_nodes : gmap FileSystem.path node :=
  {[ (false, [str "config.yaml"]) := FileNode []; (false, [str "data"]) := DirNode ]}.

Definition ex_disk (syscalls : nat) : World :=
  mkWorld ex_nodes (fun _ => None) syscalls (fun i => 10 ^ 15 + Z.of_nat i)%Z 0.

Lemma ex_disk_on n : ManagerFacts.dir_on example_dir 1000 [] (ex_disk n).
Proof.
  constructor; try done.
  - intros k Hk. assert (k = 1) as -> by (simpl in Hk; lia). reflexivity.
  - intros i Hi. unfold valid_micro. cbn [clock ex_disk]. split; [lia|].
    split; [|constructor]. lia.
Qed.

Lemma main_ends_witness :
  exists s, main quiet (fun _ => InitWitnesses.prompt) (fun _ => Ok ex_process) (fun _ => None) [] (ex_disk 0) ex_calm fresh = (Panics, s).
Proof.
  destruct (InitDB_start quiet (fun _ => InitWitnesses.prompt) example_dir 1000 [] (core ex_process) [] NoReplication (ex_disk 3))
    as (db & sd & E & _).
  { reflexivity. }
  { discriminate. }
  { done. }
  { reflexivity. }
  { exact (ex_disk_on 3). }
  { reflexivity. }
  { cbn [ex_disk now_calls]. lia. }
  { reflexivity. }
  { apply Forall_nil_2. }
  destruct (main_ends quiet (fun _ => InitWitnesses.prompt) (fun _ => Ok ex_process) (fun _ => None) ex_process
    (Logger.mkZap Logger.InfoLevel [str "stdout"] false) (str "config.yaml") [] (ex_disk 0) (ex_disk 3) ex_calm db NoReplication
    (TCP, Some (mkTCPServer tcpListener.defaultAddress 100 4096 300000000000 5000000000, Chan.make 100)))
    as [Hm _]; [reflexivity|reflexivity|exact E|by repeat split|reflexivity|].
  destruct (Hm eq_refl) as (s & Es & _). exists s. exact Es.
Defined.

(** A client comes, the listener is closed, the loop returns. *)
Lemma listener_lifecycle_witness :
  exists s : ListenerLife.t unit, ListenerLife.ls s = ListenerLife.ClosedSocket /\
    (Z.of_nat (tcpListener.running (ListenerLife.base s)) <= 1)%Z /\
    exists s'', ListenerLife.step (fun _ => go_ret None) s s'' /\ ListenerLife.at_ s'' = ListenerLife.Returned.
Proof.
  set (r := BufReader.mk [] []). set (w := BufWriter.New None).
  set (b := tcpListener.mk tt (Chan.mk 1 [tt] false) [tcpListener.mkPeer r w tcpListener.Running]).
  set (s := ListenerLife.mk ListenerLife.Accepting ListenerLife.ClosedSocket Context.Background b).
  destruct (listener_lifecycle (fun _ => go_ret None) (mkTCPServer [] 1 0 0 0)
    (mkTCPServer tcpListener.defaultAddress 1 4096 300000000000 5000000000) (Chan.make 1) tt
    Context.Background s s eq_refl) as (Hmax & _ & Hc).
  - eapply rtc_l; [apply ListenerLife.life_listen|]. eapply rtc_l; [apply ListenerLife.life_check|].
    eapply rtc_l; [apply (ListenerLife.life_accept _ ListenerLife.Open Context.Background _
      (ListenerLife.AcceptConn None r w)); discriminate|].
    eapply rtc_l; [apply (ListenerLife.life_Close _ (ListenerLife.Acquiring r w) ListenerLife.Open ListenerLife.ClosedSocket); reflexivity|].
    eapply rtc_l; [apply (ListenerLife.life_acquire _ ListenerLife.ClosedSocket Context.Background _ false false r w b); reflexivity|].
    eapply rtc_l; [apply ListenerLife.life_check|].
    apply rtc_refl.
  - apply rtc_refl.
  - exists s. split; [reflexivity|]. split; [exact Hmax|]. by apply Hc.
Defined.

End ProgramWitnesses.
