(* ===== verification/Server.v ===== *)
(** * The server as a client sees it

    A connection of the TCP listener, the handler, the parser, the database
    with its log, the storage and the sharded engine, put together as
    [main.go] does.  What a client sees of all of them is one map from strings
    to strings, and the errors of the log.

    The log is any implementation of [WALOps], whatever it answers; the
    examples run the code's own log ([ClientWal]) as [InitDB] starts it. *)

From S2P Require Import Prelude Utils Query Storage WalRecord FileSystem Logs Concurrency Wal.
From S2P Require Import SegmentManager Retry Replication Database Transport ClientWal Init.

(** ** What a client is promised *)

(** The request a line means.  The line is cut at white space and nowhere
    else: quotes have no meaning. *)
Definition line_request (line : bytes) : request := parse_spec (Fields line).

(** ** Lemmas *)

Lemma line_requests_wf lines :
  Forall (fun rq => forall q, rq = Ok q -> query_wf q) (line_request <$> lines).
Proof. apply Forall_fmap, Forall_true. intros line q. apply parse_spec_wf. Qed.

Section facts.
Import Database DatabaseFacts.
Context {K : Type} `{!KVStore K}.
Context {WL : Type} `{!WALOps WL}.

Lemma serve_request ctx line (s : t K WL) :
  serve Execute ctx line s = execute_request ctx (line_request line) s.
Proof. unfold serve, go_bind. rewrite Parse_fields. unfold line_request. by destruct (parse_spec _). Qed.

(** Serving lines is executing their requests. *)
Lemma serve_prefix_requests ctx lines (s : t K WL) :
  serve_prefix Execute ctx lines s = execute_all ctx (line_request <$> lines) s.
Proof.
  revert s. induction lines as [|l lines IH]; intros s; [done|].
  rewrite fmap_cons. cbn [serve_prefix execute_all]. rewrite serve_request.
  destruct (execute_request ctx (line_request l) s) as [[r| |] s1]; [|done..]. by rewrite IH.
Qed.

Context `{!KVLaws K}.

(** On a master, lines are answered as the log and one map say. *)
Lemma serve_prefix_logged ctx lines (s : t K WL) vs o w :
  Context.ctx_Err ctx = None -> kv_wf (st s) -> isMaster s = true ->
  log_answers ctx (line_request <$> lines) (wal s) = (vs, (o, w)) ->
  exists k, serve_prefix Execute ctx lines s =
      (fst (spec_requests vs (line_request <$> lines) (kv_abs (st s))), (o, mk k w true)) /\
    kv_wf k /\ kv_abs k = snd (spec_requests vs (line_request <$> lines) (kv_abs (st s))).
Proof.
  intros Hctx Hwf Hm E. rewrite serve_prefix_requests.
  apply execute_all_logged; [done|apply line_requests_wf|done..].
Qed.

Lemma serve_logged ctx line (s : t K WL) v w :
  Context.ctx_Err ctx = None -> kv_wf (st s) -> isMaster s = true ->
  log_request ctx (line_request line) (wal s) = (Ret v, w) ->
  exists k, serve Execute ctx line s = (Ret (fst (spec_request v (line_request line) (kv_abs (st s)))), mk k w true) /\
    kv_wf k /\ kv_abs k = snd (spec_request v (line_request line) (kv_abs (st s))).
Proof.
  intros Hctx Hwf Hm E.
  destruct (serve_prefix_logged ctx [line] s [v] (Ret tt) w Hctx Hwf Hm) as (k & Es & Hk & Ha).
  { rewrite fmap_cons. cbn [log_answers]. by rewrite E. }
  exists k. rewrite fmap_cons in Es, Ha. cbn [serve_prefix spec_requests fmap list_fmap] in Es, Ha.
  destruct (spec_request v (line_request line) (kv_abs (st s))) as [r m]. cbn [fst snd] in *.
  destruct (serve Execute ctx line s) as [[r'| |] s1]; [|done..]. by injection Es as -> ->.
Qed.

End facts.

(** The answers are sent when no refusal of the log is an end of file. *)
Definition sendable (v : option error) : Prop := forall e, v = Some e -> errors_Is e EOF = false.

Lemma spec_requests_sent vs lines m :
  Forall sendable vs -> Forall is_sent (fst (spec_requests vs (line_request <$> lines) m)).
Proof.
  intros Hvs. revert lines m. induction Hvs as [|v vs Hv _ IH]; intros [|l lines] m; rewrite ?fmap_cons; try constructor.
  cbn [spec_requests]. unfold spec_request. destruct (line_request l) as [q|e] eqn:El.
  - destruct v as [e|]; [specialize (IH lines m)|specialize (IH lines (query_apply q m))];
      destruct (spec_requests vs _ _); constructor; try done; intros e' [= <-]. by apply Hv.
  - specialize (IH lines m). destruct (spec_requests vs _ _). constructor; [|done].
    intros e' [= <-]. by eapply parse_spec_sent.
Qed.

(** *** Lines *)

(** What a server holds and sends: strings without a newline. *)
Definition is_line (v : gostring) : Prop := BufReader.newline ∉ v.
Definition line_map (m : gmap gostring gostring) : Prop := map_Forall (fun k v => is_line k /\ is_line v) m.

Definition text (r : result gostring) : gostring := match r with Ok v => v | Err e => Error e end.

Lemma parse_spec_Err tokens e :
  parse_spec tokens = Err e -> e ∈ [ErrWrongQuery; ErrWrongArgsLen; ErrUnknowMethod].
Proof.
  unfold parse_spec. destruct tokens as [|m [|key rest]]; [intros [= <-]; set_solver..|].
  repeat (case_bool_decide; [destruct rest; try done; intros [= <-]; set_solver|]).
  intros [= <-]. set_solver.
Qed.

Lemma query_apply_lines q m :
  Forall is_line (GetArgs q) -> line_map m -> line_map (query_apply q m).
Proof.
  intros Hq Hm. unfold query_apply, apply_cmd. destruct (_ =? _)%N.
  - destruct Hq as [|k args Hk [|v args' Hv _]]; [done..|]. by apply map_Forall_insert_2.
  - destruct (_ =? _)%N; [|done]. destruct Hq as [|k args Hk _]; [done|]. by apply map_Forall_delete.
Qed.

Lemma query_answer_line q m : line_map m -> is_line (query_answer q m).
Proof.
  intros Hm. unfold query_answer, is_line. destruct (_ =? _)%N; [|by apply (bool_decide_unpack _); vm_compute].
  destruct (GetArgs q) as [|k args]; [apply not_elem_of_nil|].
  destruct (m !! k) as [v|] eqn:E; [|apply not_elem_of_nil]. by apply (Hm k v E).
Qed.

(** A refusal of the log is one line. *)
Definition line_refusal (v : option error) : Prop := forall e, v = Some e -> is_line (Error e).

Lemma spec_request_lines v line m :
  line_refusal v -> line_map m ->
  is_line (text (fst (spec_request v (line_request line) m))) /\ line_map (snd (spec_request v (line_request line) m)).
Proof.
  intros Hv Hm. unfold spec_request, line_request.
  destruct (parse_spec (Fields line)) as [q|e] eqn:E; [destruct v as [e|]|]; cbn [fst snd text].
  - split; [by apply Hv|done].
  - split; [by apply query_answer_line|]. apply query_apply_lines; [|done].
    apply (parse_spec_no_space _ line); [|done..]. by apply (bool_decide_unpack _); vm_compute.
  - split; [|done]. apply parse_spec_Err in E.
    repeat (apply elem_of_cons in E as [->|E]; [by apply (bool_decide_unpack _); vm_compute|]).
    by apply not_elem_of_nil in E.
Qed.

Lemma spec_requests_lines vs lines m :
  Forall line_refusal vs -> line_map m ->
  Forall (fun r => is_line (text r)) (fst (spec_requests vs (line_request <$> lines) m)) /\
  line_map (snd (spec_requests vs (line_request <$> lines) m)).
Proof.
  intros Hvs. revert lines m. induction Hvs as [|v vs Hv _ IH]; intros [|l lines] m Hm; rewrite ?fmap_cons;
    cbn [spec_requests]; try (by split).
  destruct (spec_request_lines v l m Hv Hm) as [Hr Hm']. destruct (spec_request v (line_request l) m) as [r m1].
  cbn [fst snd] in *. destruct (IH lines m1 Hm') as [Hrs Hm2]. destruct (spec_requests vs _ m1) as [rs m2].
  cbn [fst snd] in *. split; [by constructor|done].
Qed.

(** ** Properties *)

Section properties.
Import Database DatabaseFacts UniversalHandler TransportFacts.
Context {WL : Type} `{!WALOps WL}.

(** C1: the whole server is a map behind its log.  A connection to a new
    master, alone on the server, for any engine type, number of shards and log,
    answers the lines of its client, however they are cut into reads, with
    exactly the lines that one map from strings to strings and the answers
    [vs] of the log give: a write the log refuses, its deadline included, with
    the log's error, and the map stays; any other [SET] and [DEL] with [OK],
    [GET] with the value or an empty line, and a line that does not parse with
    its error.  Its storage ends with the contents of that map.  Quotes in a
    line are part of its words, as in the code and against ReadMe.md.  The connection ends when the client has closed it,
    or stays in the first line whose call of the log does not return ([o]);
    with the log off every line is answered.  The client's socket does not
    fail, its deadline does not pass, and no refusal of the log is an end of
    file, which the handler does not send. *)
Theorem server_refines_map (type : gostring) (nshards : Z) (w w' : WL) (ctx : Context.t) (lines : list bytes)
    (tail : bytes) (r : reader) (fuel : nat) (vs : list (option error)) (o : outcome unit)
    (Hctx : Context.ctx_Err ctx = None) (Hr : Forall (fun c => c.2 = None) r)
    (Hlines : Forall (fun l => BufReader.newline ∉ l) lines) (Htail : BufReader.newline ∉ tail)
    (Hdata : stream_data r = concat (terminated lines) ++ tail) (Hfuel : length lines < fuel)
    (Hlog : log_answers ctx (line_request <$> terminated lines) w = (vs, (o, w')))
    (Hvs : Forall sendable vs) :
  let db0 := Database.mk (Storage.New (NewEngine type nshards)) w true in
  let '(rs, m) := spec_requests vs (line_request <$> terminated lines) ∅ in
  exists k br,
    tcpListener.handleConnection (Handle Execute) fuel ctx
      (mkConn db0 (BufReader.mk [] r) (BufWriter.New None)) =
      (o, mkConn (Database.mk k w' true) br (BufWriter.mk [] (concat (reply <$> rs)) None)) /\
    kv_abs k = m /\ length rs = length vs /\ (o = Ret tt -> length vs = length lines) /\
    (w_IsEnable w = false -> o = Ret tt /\ vs = replicate (length lines) None).
Proof.
  cbv zeta. assert (NewEngine type nshards = MemEngine.NewEngine nshards) as ->
    by (unfold NewEngine; by destruct (bool_decide _)).
  set (db0 := Database.mk _ w true). destruct (NewStorage_wf nshards) as [Hwf Ha].
  assert (kv_abs (st db0) = ∅) as H0 by exact Ha.
  destruct (serve_prefix_logged ctx (terminated lines) db0 vs o w' Hctx Hwf eq_refl Hlog) as (k & E & Hk & Hka).
  rewrite H0 in E, Hka. pose proof (spec_requests_sent vs (terminated lines) ∅ Hvs) as Hsent.
  destruct (log_answers_length _ _ _ _ _ _ Hlog) as [Hle Hall].
  pose proof (spec_requests_length _ _ ∅ Hle) as Hlen. unfold terminated in Hall. rewrite !length_fmap in Hall.
  destruct (spec_requests vs (line_request <$> terminated lines) ∅) as [rs m]. cbn [fst snd] in *.
  destruct (handleConnection_lines Execute ctx Hctx lines tail fuel
    (mkConn db0 (BufReader.mk [] r) (BufWriter.New None)) rs o (Database.mk k w' true)) as (br & Ec); try done.
  exists k, br. split; [exact Ec|]. split; [done|]. split; [done|]. split; [done|].
  intros Hoff. rewrite (log_answers_off _ _ _ Hoff) in Hlog. injection Hlog as <- <- _.
  split; [done|]. unfold terminated. by rewrite !length_fmap.
Qed.

(** C22: replies are lines.  Whatever bytes its clients send as lines, a master
    whose keys and values are one line each keeps them so, whatever its log
    answers; and each of its answers, values, errors of the parser and errors
    of the log alike, is a single line, provided the texts of the log's errors
    are: on the connection an answer ends with its newline and nowhere before
    it, so a client can tell the answers apart. *)
Theorem replies_are_lines {K : Type} `{!KVStore K} `{!KVLaws K} (ctx : Context.t) (lines : list bytes)
    (s : Database.t K WL) (vs : list (option error)) (o : outcome unit) (w : WL)
    (Hctx : Context.ctx_Err ctx = None) (Hwf : kv_wf (st s)) (Hmaster : isMaster s = true)
    (Hm : line_map (kv_abs (st s)))
    (Hlog : log_answers ctx (line_request <$> lines) (wal s) = (vs, (o, w))) (Hvs : Forall line_refusal vs) :
  exists rs s', serve_prefix Execute ctx lines s = (rs, (o, s')) /\ length rs = length vs /\
    Forall (fun r => BufReader.cut_line (reply r) = Some (reply r, [])) rs /\ line_map (kv_abs (st s')).
Proof.
  destruct (serve_prefix_logged ctx lines s vs o w Hctx Hwf Hmaster Hlog) as (k & E & _ & Ha).
  destruct (log_answers_length _ _ _ _ _ _ Hlog) as [Hle _].
  destruct (spec_requests_lines vs lines (kv_abs (st s)) Hvs Hm) as [Hr Hm'].
  do 2 eexists. split; [exact E|]. split; [by apply spec_requests_length|]. cbn [st]. rewrite Ha. split; [|done].
  eapply Forall_impl; [exact Hr|]. intros r. apply cut_line_first.
Qed.

End properties.

(** ** Examples

    A client that sends commands and half of one more, in reads that do not
    respect the lines, to a master on the code's own log: the worker sleeps
    through the first write, whose deadline passes. *)

Module ServerWitnesses.
Import Database DatabaseWitnesses UniversalHandler TransportFacts.

Definition nl : bytes := [BufReader.newline].

Definition ex_lines : list bytes := [str "SET k v"; str "GET k"; str "SET k 'w'"; str "GET k"; str "PUT"].
Definition ex_reads : reader :=
  [(str "SET k", None); (str " v" ++ nl ++ str "GET ", None);
   (str "k" ++ nl ++ str "SET k 'w'" ++ nl, None); (str "GET k" ++ nl ++ str "PUT" ++ nl ++ str "DEL", None)].

Lemma ex_lines_ok : Forall (fun l => BufReader.newline ∉ l) ex_lines.
Proof. apply (bool_decide_unpack _). vm_compute. done. Qed.

Lemma ex_reads_ok : Forall (fun c => c.2 = None) ex_reads.
Proof. by repeat constructor. Qed.

(** The log of a server started on an empty disk. *)
Definition ex_log : option ClientWal.t :=
  match InitDB quiet InitWitnesses.first_late (InitWitnesses.ex_conf 4) [] example_world with
  | Ret (Ok (db, _)) => Some (Database.wal db)
  | _ => None
  end.

#[local] Instance ex_wal_ops : WALOps ClientWal.t := ClientWal.client_wal quiet InitWitnesses.first_late.

Definition ex_requests : list request := line_request <$> terminated ex_lines.

Definition ex_refusals : list (option error) := [Some DeadlineExceeded; None; None; None; None].

Lemma ex_log_answers :
  exists w w', ex_log = Some w /\
    log_answers Context.Background ex_requests w = (ex_refusals, (Ret tt, w')).
Proof.
  assert (match ex_log with
    | Some w => let '(vs, (o, _)) := log_answers Context.Background ex_requests w in (vs, o)
    | None => ([], Panics)
    end = (ex_refusals, Ret tt)) as H by (vm_compute; reflexivity).
  destruct ex_log as [w|]; [|done]. destruct (log_answers _ _ w) as [vs [o w']] eqn:E. injection H as -> ->.
  by exists w, w'.
Qed.

Lemma ex_refusals_ok : Forall sendable ex_refusals /\ Forall line_refusal ex_refusals.
Proof.
  split; repeat apply Forall_cons_2; try apply Forall_nil_2; intros e [= <-]; [done|].
  apply (bool_decide_unpack _). vm_compute. done.
Qed.

Definition ex_answers : list (result gostring) :=
  [Err DeadlineExceeded; Ok []; Ok (str "OK"); Ok (str "'w'"); Err ErrWrongQuery].

Lemma ex_spec :
  spec_requests ex_refusals ex_requests ∅ = (ex_answers, {[ str "k" := str "'w'" ]}).
Proof.
  assert (ex_requests = [Ok ex_set; Ok ex_get; Ok (NewQuery SetMethodID [str "k"; str "'w'"]); Ok ex_get;
    Err ErrWrongQuery]) as -> by (vm_compute; reflexivity).
  unfold ex_refusals. cbn [spec_requests spec_request].
  change (query_apply (NewQuery SetMethodID ?l) ?m) with (<[str "k" := str "'w'"]> m).
  change (query_apply ex_get ?m) with m.
  change (query_answer ex_get ?m) with (default [] (m !! str "k")).
  by rewrite lookup_empty, lookup_insert_eq.
Qed.

Lemma server_refines_map_witness :
  exists w w' k br, ex_log = Some w /\
    tcpListener.handleConnection (Handle Execute) 6 Context.Background
      (mkConn (Database.mk (Storage.New (NewEngine (str "inmemory") 4)) w true) (BufReader.mk [] ex_reads) (BufWriter.New None)) =
      (Ret tt, mkConn (Database.mk k w' true) br (BufWriter.mk []
        (str "context deadline exceeded" ++ nl ++ nl ++ str "OK" ++ nl ++ str "'w'" ++ nl ++ Error ErrWrongQuery ++ nl) None)) /\
    kv_abs k = {[ str "k" := str "'w'" ]}.
Proof.
  destruct ex_log_answers as (w & w' & Ew & El).
  pose proof (server_refines_map (str "inmemory") 4 w w' Context.Background ex_lines (str "DEL") ex_reads 6
    ex_refusals (Ret tt) eq_refl ex_reads_ok ex_lines_ok) as H.
  fold ex_requests in H. rewrite ex_spec in H.
  destruct H as (k & br & E & Hk & _).
  - apply (bool_decide_unpack _). vm_compute. done.
  - vm_compute. reflexivity.
  - repeat constructor.
  - exact El.
  - apply ex_refusals_ok.
  - exists w, w', k, br. split; [exact Ew|]. split; [exact E|exact Hk].
Defined.

Lemma replies_are_lines_witness :
  exists w rs s', ex_log = Some w /\
    serve_prefix Execute Context.Background (terminated ex_lines)
      (Database.mk (Storage.New (MemEngine.NewEngine 4)) w true) = (rs, (Ret tt, s')) /\ length rs = 5 /\
    Forall (fun r => BufReader.cut_line (reply r) = Some (reply r, [])) rs /\ line_map (kv_abs (st s')).
Proof.
  destruct ex_log_answers as (w & w' & Ew & El). exists w.
  destruct (replies_are_lines Context.Background (terminated ex_lines)
    (Database.mk (Storage.New (MemEngine.NewEngine 4)) w true) ex_refusals (Ret tt) w' eq_refl) as (rs & s' & H).
  - apply (NewStorage_wf 4).
  - reflexivity.
  - change (line_map (kv_abs (Storage.New (MemEngine.NewEngine 4)))). rewrite (proj2 (NewStorage_wf 4)).
    apply map_Forall_empty.
  - exact El.
  - apply ex_refusals_ok.
  - exists rs, s'. split; [exact Ew|exact H].
Defined.

Lemma cancelled_connection_spins_witness :
  let s := mkConn (ex_db true) (BufReader.mk [] ex_reads) (BufWriter.New None) in
  tcpListener.handleConnection (Handle Execute) 1000 (Context.mk (Some ContextCanceled) None) s = (Blocks, s).
Proof.
  intros s. destruct (cancelled_connection_spins (D := DatabaseWitnesses.db) Execute
    (Context.mk (Some ContextCanceled) None) ContextCanceled eq_refl) as [H _].
  - left. reflexivity.
  - apply H.
Defined.

(** Two clients at a listener for one: the second is turned away. *)
Lemma listener_bounds_connections_witness :
  exists l : tcpListener.t unit, tcpListener.running l = 1 /\ length (tcpListener.peers l) = 2 /\
    (Z.of_nat (tcpListener.running l) <= 1)%Z.
Proof.
  set (r := BufReader.mk [] []). set (w := BufWriter.New None).
  exists (tcpListener.mk tt (Chan.mk 1 [tt] false)
    [tcpListener.mkPeer r w tcpListener.Running;
     tcpListener.mkPeer r (tcpListener.writeToConn (str "too many connections") w) tcpListener.Closed]).
  split; [reflexivity|]. split; [reflexivity|].
  refine (proj1 (listener_bounds_connections (fun _ => go_ret None) (mkTCPServer [] 1 0 0 0)
    (mkTCPServer tcpListener.defaultAddress 1 4096 300000000000 5000000000) (Chan.make 1) tt
    Context.Background _ eq_refl _)).
  eapply rtc_l; [apply (tcpListener.step_accept _ _ tt (Chan.make 1) [] r w false false); reflexivity|].
  eapply rtc_l; [|apply rtc_refl].
  apply (tcpListener.step_reject _ _ tt (Chan.mk 1 [tt] false) [tcpListener.mkPeer r w tcpListener.Running] r w true false).
  reflexivity.
Defined.

End ServerWitnesses.
