(* ===== verification/ClientMain.v ===== *)
(** * The command line client

    [client/client.go]: a loop that prompts, reads a line of the standard
    input, sends it, reads one line of the answer and prints it.  The other
    end of the connection is whatever makes reads of what it is sent; below it
    is a connection of the server, and the session as a whole is that of one
    map. *)

From S2P Require Import Prelude Utils Query Storage WalRecord FileSystem Logs Concurrency Retry Wal.
From S2P Require Import Replication Database Transport ClientWal Init Server.

(** [errors.Is(err, syscall.EPIPE)]: the text of a network error ends with that
    of the system call's. *)
Fixpoint is_EPIPE (e : error) : bool :=
  match e with
  | OpError msg => bool_decide (str "broken pipe" `suffix_of` msg)
  | Wrapped _ e' => is_EPIPE e'
  | _ => false
  end.

Module LagunaClient.
Section client.

(** The other end: the reads it gives for bytes it is sent, [fresh] when the
    connection they are sent on is a new one, and the error of a read when it
    has given all (the end of the stream when it has closed the connection,
    the deadline of the connection otherwise). *)
Context {N : Type} (deliver : bool -> bytes -> Go N (list bytes)) (silence : N -> error).

(** The reader and the writer of the terminal, the client with the waits of
    its retries, the reads that have arrived, the other end. *)
Record t := mk {
  stdin : BufReader.t;
  stdout : BufWriter.t;
  cli : Client.t * list Z;
  inbox : list bytes;
  net : N
}.

Definition on_stdout {A} (c : Go BufWriter.t A) : Go t A :=
  go_zoom stdout (fun w s => mk (stdin s) w (cli s) (inbox s) (net s)) c.
Definition on_cli {A} (c : Go (Client.t * list Z) A) : Go t A :=
  go_zoom cli (fun c s => mk (stdin s) (stdout s) c (inbox s) (net s)) c.
Definition on_net {A} (c : Go N A) : Go t A :=
  go_zoom net (fun n s => mk (stdin s) (stdout s) (cli s) (inbox s) n) c.

Definition write (p : bytes) : Go t (option error) :=
  let! err := on_stdout (BufWriter.Write p) in
  match err with
  | Some e => go_ret (Some e)
  | None => on_stdout BufWriter.Flush
  end.

Definition writeError (e : error) : Go t unit :=
  let! err := on_stdout (BufWriter.Write (Error e)) in
  match err with
  | Some _ => go_ret tt
  | None => do! on_stdout BufWriter.Flush in go_ret tt
  end.

(** [readLine(r)]: [r] is a [bufio.Reader] of the standard size already, and
    [bufio.NewReader] returns it. *)
Definition readLine_stdin : Go t (result bytes) :=
  fun s =>
    let '(r, br) := BufReader.ReadBytes (stdin s) in
    (Ret r, mk br (stdout s) (cli s) (inbox s) (net s)).

(** [readLine(resp)]: a new [bufio.Reader] on the connection; what it has read
    beyond the line is lost with it. *)
Definition readLine_conn : Go t (result bytes) :=
  fun s =>
    let '(r, br) := BufReader.ReadBytes (BufReader.mk [] ((fun b => (b, None)) <$> inbox s)) in
    (Ret (match r with Ok l => Ok l | Err _ => Err (silence (net s)) end),
     mk (stdin s) (stdout s) (cli s) (fst <$> BufReader.rest br) (net s)).

(** [cli.Send(ctx, line)].  The other end reacts to what has been written to
    the connection that is in use afterwards. *)
Definition Send (env : Env) (ctx : Context.t) (line : bytes) : Go t (result unit) :=
  let! before := go_get (fun s => fst (cli s)) in
  let! r := on_cli (Client.Send env ctx line) in
  match r with
  | Err e => go_ret (Err e)
  | Ok k =>
      let! after := go_get (fun s => fst (cli s)) in
      let fresh := negb (length (Client.dropped after) =? length (Client.dropped before))%nat in
      let! reads := on_net (deliver fresh
        (if fresh then sent k else drop (length (sent (Client.conn before))) (sent k))) in
      do! go_put (fun s => mk (stdin s) (stdout s) (cli s)
        (if fresh then reads else inbox s ++ reads) (net s)) in
      go_ret (Ok tt)
  end.

(** One iteration of the loop of [main]: whether it breaks. *)
Definition iteration (env : Env) (ctx : Context.t) : Go t bool :=
  do! write (str "> ") in
  let! line := readLine_stdin in
  match line with
  | Err e => do! writeError e in go_ret false
  | Ok line =>
      let! resp := Send env ctx line in
      match resp with
      | Err e =>
          if is_EPIPE e then go_ret true
          else do! writeError e in go_ret false
      | Ok _ =>
          let! l := readLine_conn in
          match l with
          | Err e => do! writeError e in go_ret false
          | Ok l =>
              let! err := write l in
              match err with
              | Some e => do! writeError e in go_ret false
              | None => go_ret false
              end
          end
      end
  end.

(** As many iterations as there are contexts: each is the context of [main] at
    the time it is looked at, with the environment of the retries. *)
Fixpoint loop (its : list (Env * Context.t)) : Go t bool :=
  match its with
  | [] => go_ret false
  | (env, ctx) :: its' =>
      let! stop := iteration env ctx in
      if stop then go_ret true else loop its'
  end.

(** [main] with the flags [size] and [deadline]; a client that cannot connect
    panics. *)
Definition main (size deadline : Z) (dials : list (result netConn)) (its : list (Env * Context.t))
    (inp : BufReader.t) (n : N) : outcome (bool * t) :=
  match Client.NewClient (mkClientConfig size deadline 0) dials with
  | Err _ => Panics
  | Ok c =>
      match loop its (mk inp (BufWriter.New None) (c, []) [] n) with
      | (Ret b, s) => Ret (b, s)
      | (Panics, _) => Panics
      | (Blocks, _) => Blocks
      end
  end.

End client.
Arguments t : clear implicits.
End LagunaClient.

(** ** The server at the other end *)

Module ServerEnd.
Import UniversalHandler.
Section server.
Context {D : Type} (Execute : Context.t -> Query -> Go D (result gostring)) (ctx : Context.t).

(** How the network cuts what is sent. *)
Context (split_in split_out : bytes -> list bytes).

(** The loop of [handleConnection] while it has whole lines to read. *)
Fixpoint serve_lines (n : nat) (s : conn D) : conn D :=
  match n with
  | O => s
  | S n' =>
      match tcpListener.iteration (Handle Execute) ctx s with
      | (Ret false, s') => serve_lines n' s'
      | (_, s') => s'
      end
  end.

Definition whole_lines (b : bytes) : nat := length (filter (fun x => x = BufReader.newline) b).

(** Bytes arrive at the server, at a goroutine of its own when the connection
    is new; what the server then writes arrives at the client. *)
Definition deliver (fresh : bool) (b : bytes) : Go (conn D) (list bytes) :=
  fun s =>
    let s := if fresh then mkConn (db s) (BufReader.mk [] []) (BufWriter.New None) else s in
    let rd1 := BufReader.mk (BufReader.ahead (rd s))
      (BufReader.rest (rd s) ++ ((fun c => (c, None)) <$> split_in b)) in
    let s' := serve_lines (whole_lines (pending rd1)) (mkConn (db s) rd1 (wr s)) in
    (Ret (split_out (drop (length (BufWriter.out (wr s))) (BufWriter.out (wr s')))), s').

End server.
End ServerEnd.

(** ** Lemmas *)

(** Reads that are only data. *)
Lemma data_reads (bs : list bytes) :
  Forall (fun c => c.2 = None) ((fun b => (b, None)) <$> bs : reader) /\
  stream_data ((fun b => (b, None)) <$> bs) = concat bs.
Proof.
  induction bs as [|b bs [IH1 IH2]]; [done|]. split; [by constructor|].
  cbn [fmap list_fmap stream_data concat]. by rewrite IH2.
Qed.

Lemma reads_data (r : reader) :
  Forall (fun c => c.2 = None) r -> (fun b => (b, None)) <$> (fst <$> r) = r.
Proof. induction 1 as [|[b e] r He _ IH]; [done|]. cbn in *. by rewrite IH, He. Qed.

Lemma stream_data_app (r1 r2 : reader) :
  Forall (fun c => c.2 = None) r1 -> stream_data (r1 ++ r2) = stream_data r1 ++ stream_data r2.
Proof.
  induction 1 as [|[b e] r He _ IH]; [done|]. cbn in He. subst e. cbn [app stream_data].
  by rewrite IH, (assoc_L (++)).
Qed.

Lemma whole_lines_one line :
  (BufReader.newline ∉ line) -> ServerEnd.whole_lines (line ++ [BufReader.newline]) = 1.
Proof.
  intros H. unfold ServerEnd.whole_lines. rewrite filter_app, length_app.
  assert (filter (fun x => x = BufReader.newline) line = []) as ->; [|done].
  induction line as [|x line IH]; [done|]. apply not_elem_of_cons in H as [Hx H].
  rewrite filter_cons_False by done. auto.
Qed.

Module ClientMainFacts.
Import UniversalHandler TransportFacts LagunaClient.

(** A connection that waits for the next line. *)
Definition idle {D} (s : conn D) : Prop :=
  no_errors (rd s) /\ pending (rd s) = [] /\ BufWriter.broken (wr s) = None /\ BufWriter.buf (wr s) = [].

Section terminal.
Context {N : Type}.

(** A terminal that can be written to. *)
Definition printing (s : t N) : Prop :=
  BufWriter.broken (stdout s) = None /\ BufWriter.buf (stdout s) = [].

Definition print (p : bytes) (s : t N) : t N :=
  mk (stdin s) (BufWriter.mk [] (BufWriter.out (stdout s) ++ p) None) (cli s) (inbox s) (net s).

Lemma client_write_ok p (s : t N) : printing s -> write p s = (Ret None, print p s).
Proof.
  intros [Hb He]. unfold write, go_bind, on_stdout, go_zoom.
  destruct (MasterFacts.Write_Flush p (stdout s)) as (w & -> & E); [done|by rewrite He; simpl; lia|].
  cbn [stdin stdout cli inbox net]. by rewrite E, He.
Qed.

Lemma client_writeError_ok e (s : t N) : printing s -> writeError e s = (Ret tt, print (Error e) s).
Proof.
  intros [Hb He]. unfold writeError, go_bind, on_stdout, go_zoom.
  destruct (MasterFacts.Write_Flush (Error e) (stdout s)) as (w & -> & E); [done|by rewrite He; simpl; lia|].
  cbn [stdin stdout cli inbox net]. by rewrite E, He.
Qed.

End terminal.

Section session.
Context {D : Type} (Execute : Context.t -> Query -> Go D (result gostring)) (sctx : Context.t).
Hypothesis Hsctx : Context.ctx_Err sctx = None.
Context (split_in split_out : bytes -> list bytes) (silence : conn D -> error).
Hypothesis Hin : forall b, concat (split_in b) = b.
Hypothesis Hout : forall b, concat (split_out b) = b.

#[local] Abbreviation deliver := (ServerEnd.deliver Execute sctx split_in split_out).

(** The server serves a line that arrives at an idle connection. *)
Lemma deliver_line line (s : conn D) r d' :
  idle s -> (BufReader.newline ∉ line) ->
  serve Execute sctx (line ++ [BufReader.newline]) (db s) = (Ret r, d') -> is_sent r ->
  exists s', deliver false (line ++ [BufReader.newline]) s = (Ret (split_out (reply r)), s') /\ idle s' /\ db s' = d'.
Proof using Hsctx Hin.
  intros (Hn & Hp & Hb & He) Hl Es Hr. set (b := line ++ [BufReader.newline]).
  set (rd1 := BufReader.mk (BufReader.ahead (rd s))
    (BufReader.rest (rd s) ++ ((fun c => (c, None)) <$> split_in b))).
  destruct (data_reads (split_in b)) as [Hd1 Hd2]. rewrite Hin in Hd2.
  assert (no_errors rd1) as Hn1 by (apply Forall_app; by split).
  assert (pending rd1 = b) as Hp1.
  { unfold pending, rd1 in *. cbn [BufReader.ahead BufReader.rest] in *.
    rewrite stream_data_app, (assoc_L (++)), Hp, Hd2 by done. done. }
  destruct (ReadBytes_next rd1 line [] Hn1 Hl) as (br & Er & Hpb & Hnb); [by rewrite Hp1|].
  pose proof (Handle_line Execute sctx Hsctx _ br (mkConn (db s) rd1 (wr s)) (Ret r) d' Hb He Er Es Hr) as Eh.
  exists (mkConn d' br (BufWriter.mk [] (BufWriter.out (wr s) ++ reply r) None)).
  split; [|split; [|done]].
  - unfold ServerEnd.deliver. cbn [db rd wr]. fold rd1. rewrite Hp1. unfold b. rewrite whole_lines_one by done.
    cbn [ServerEnd.serve_lines]. unfold tcpListener.iteration, go_bind. rewrite Eh. cbn [go_ret].
    unfold go_ret. cbn [wr BufWriter.out]. by rewrite drop_app_length.
  - by repeat split.
Qed.

(** The client is connected and nothing is on its way to it. *)
Definition connected (s : t (conn D)) : Prop :=
  fails (Client.conn (fst (cli s))) = None /\ concat (inbox s) = [].

(** An iteration of the client with a line to read: the answer of the server
    is printed and both ends are ready for the next. *)
Lemma session_line env ctx line more (s : t (conn D)) r d' :
  Context.ctx_Err ctx = None -> printing s -> connected s -> idle (net s) ->
  no_errors (stdin s) -> (BufReader.newline ∉ line) -> pending (stdin s) = line ++ [BufReader.newline] ++ more ->
  serve Execute sctx (line ++ [BufReader.newline]) (db (net s)) = (Ret r, d') -> is_sent r -> is_line (text r) ->
  exists s', iteration deliver silence env ctx s = (Ret false, s') /\
    BufWriter.out (stdout s') = BufWriter.out (stdout s) ++ str "> " ++ reply r /\
    printing s' /\ connected s' /\ idle (net s') /\ db (net s') = d' /\
    no_errors (stdin s') /\ pending (stdin s') = more.
Proof using Hsctx Hin Hout.
  intros Hctx Hpr [Hc Hib] Hidle Hn Hl Hp Hsv Hsent Htext.
  destruct (ReadBytes_next (stdin s) line more Hn Hl Hp) as (br & Er & Hpb & Hnb).
  destruct (deliver_line line (net s) r d' Hidle Hl Hsv Hsent) as (n' & Ed & Hidle' & Hdb).
  set (reads := inbox s ++ split_out (reply r)).
  destruct (data_reads reads) as [Hr1 Hr2].
  destruct (ReadBytes_next (BufReader.mk [] ((fun b => (b, None)) <$> reads)) (text r) [] Hr1 Htext)
    as (br' & Er' & Hpb' & Hnb').
  { unfold pending. cbn [BufReader.ahead BufReader.rest]. rewrite app_nil_l, Hr2. unfold reads.
    rewrite concat_app, Hib, Hout. done. }
  destruct s as [inp out [c ws] ib n]. cbn [stdin stdout cli inbox net fst] in *.
  set (c' := Client.mk (mkNetConn (sent (Client.conn c) ++ line ++ [BufReader.newline]) None)
    (Client.settings c) (Client.dials c) (Client.dropped c)).
  set (s1 := mk br (BufWriter.mk [] (BufWriter.out out ++ str "> ") None) (c', ws) (fst <$> BufReader.rest br') n').
  exists (print (reply r) s1).
  split; [|split; [cbn; by rewrite <-(assoc_L (++))|]].
  - unfold iteration. rewrite (go_bind_ret _ _ _ _ _ (client_write_ok (str "> ") _ Hpr)).
    unfold go_bind at 1. unfold readLine_stdin, print. cbn [stdin stdout cli inbox net]. rewrite Er.
    unfold go_bind at 1. unfold Send, go_get. unfold go_bind at 1. unfold go_bind at 1.
    unfold on_cli, go_zoom. cbn [stdin stdout cli inbox net fst].
    rewrite ClientFacts.Send_working by done. cbn [Client.dropped sent fst]. unfold go_bind at 1.
    rewrite Nat.eqb_refl. cbn [negb]. unfold go_bind at 1. unfold on_net, go_zoom.
    cbn [stdin stdout cli inbox net]. rewrite drop_app_length, Ed. unfold go_put, go_bind at 1.
    cbn [stdin stdout cli inbox net]. unfold go_ret at 1. unfold go_bind at 1. unfold readLine_conn.
    cbn [stdin stdout cli inbox net]. fold reads. rewrite Er'. cbn [stdin stdout cli inbox net].
    unfold go_bind at 1. fold (reply r). change (text r ++ [BufReader.newline]) with (reply r).
    fold c' s1. rewrite (client_write_ok (reply r) s1) by done. done.
  - split; [done|]. split; [|by split_and!].
    split; [done|]. cbn [print s1 inbox]. destruct (data_reads (fst <$> BufReader.rest br')) as [_ E].
    rewrite <-E, reads_data by exact Hnb'. unfold pending in Hpb'. by apply app_nil in Hpb' as [_ ?].
Qed.

End session.

(** *** Leaving the loop *)

(** No dial will fail with a broken pipe. *)
Definition no_EPIPE_dials (c : Client.t) : Prop := forall e, Err e ∈ Client.dials c -> is_EPIPE e = false.

(** An attempt that fails reports the failure of its dial, not that of its
    write. *)
Lemma attempt_error req (c c' : Client.t) o :
  no_EPIPE_dials c -> Client.attempt req c = (o, c') ->
  no_EPIPE_dials c' /\ forall e, o = Ret (Some e) -> is_EPIPE e = false.
Proof.
  intros Hd. destruct (ClientFacts.attempt_cases req c) as (r & c1 & -> & H). intros [= <- <-].
  unfold no_EPIPE_dials in *. destruct (fails (Client.conn c)) as [[n e']|]; [|by destruct H as [-> ->]].
  destruct (Client.dials c) as [|[k|e''] ds] eqn:Ed; destruct H as [-> ->]; cbn [Client.dials].
  - split; [done|]. by intros e [= <-].
  - split; [|done]. intros e He. apply Hd. by right.
  - split; [|intros e [= <-]; apply Hd; by left]. intros e He. apply Hd. by right.
Qed.

Lemma Send_error env ctx req (c : Client.t) ws o c' ws' :
  no_EPIPE_dials c -> (forall e, Context.ctx_Err ctx = Some e -> is_EPIPE e = false) ->
  (forall j e, done env j = Some e -> is_EPIPE e = false) ->
  Client.Send env ctx req (c, ws) = (o, (c', ws')) ->
  no_EPIPE_dials c' /\ forall e, o = Ret (Err e) -> is_EPIPE e = false.
Proof.
  intros Hc Hctx Hdone. unfold Client.Send. destruct (Context.ctx_Err ctx) as [e|].
  { intros [= <- <- _]. split; [done|]. intros e' [= <-]. by apply Hctx. }
  unfold go_get, go_bind at 1. unfold go_bind at 1. cbn [fst].
  destruct (WithRetry env _ _ _ (c, ws)) as [o1 [c1 ws1]] eqn:E. unfold WithRetry in E.
  eapply (retry_loop_inv env no_EPIPE_dials (fun e => is_EPIPE e = false)) in E as [Hc1 Hq]; try done.
  2: { intros s o0 s'. apply attempt_error. }
  destruct o1 as [[e|]| |]; intros [= <- <- _]; split; try done.
  intros e' [= <-]. by apply Hq.
Qed.

Section leaving.
Context {N : Type} (deliver : bool -> bytes -> Go N (list bytes)) (silence : N -> error).

(** The steps of an iteration that do not touch the client. *)
Lemma write_cli p (s : t N) o s' : write p s = (o, s') -> cli s' = cli s.
Proof.
  unfold write, go_bind, on_stdout, go_zoom. destruct (BufWriter.Write p (stdout s)) as [[[e|]| |] w];
    try (by intros [= <- <-]).
  destruct (BufWriter.Flush _) as [o1 w1]. by intros [= <- <-].
Qed.

Lemma writeError_cli e (s : t N) o s' : writeError e s = (o, s') -> cli s' = cli s.
Proof.
  unfold writeError, go_bind, on_stdout, go_zoom. destruct (BufWriter.Write _ (stdout s)) as [[[e'|]| |] w];
    try (by intros [= <- <-]).
  destruct (BufWriter.Flush _) as [[] w1]; by intros [= <- <-].
Qed.

(** An iteration that ends with [writeError] does not break. *)
Lemma report_false e (s : t N) s' : (do! writeError e in go_ret false) s <> (Ret true, s').
Proof. unfold go_bind. by destruct (writeError e s) as [[]]. Qed.

Lemma report_cli e (s : t N) o s' : (do! writeError e in go_ret false) s = (o, s') -> cli s' = cli s.
Proof.
  unfold go_bind. destruct (writeError e s) as [o1 s1] eqn:E. apply writeError_cli in E.
  destruct o1; by intros [= <- <-].
Qed.

Lemma client_Send_error env ctx line (s : t N) o s' :
  no_EPIPE_dials (fst (cli s)) -> (forall e, Context.ctx_Err ctx = Some e -> is_EPIPE e = false) ->
  (forall j e, done env j = Some e -> is_EPIPE e = false) ->
  Send deliver env ctx line s = (o, s') ->
  no_EPIPE_dials (fst (cli s')) /\ forall e, o = Ret (Err e) -> is_EPIPE e = false.
Proof.
  intros Hc Hctx Hdone. unfold Send, go_get. unfold go_bind at 1. unfold go_bind at 1. unfold on_cli, go_zoom.
  destruct s as [inp out [c ws] ib n]. cbn [stdin stdout cli inbox net fst] in *.
  destruct (Client.Send env ctx line (c, ws)) as [o1 [c1 ws1]] eqn:E.
  apply Send_error in E as [Hc1 Hq]; [|done..].
  destruct o1 as [[k|e]| |]; try (by intros [= <- <-]); [|].
  - unfold go_bind at 1. unfold go_bind at 1. unfold on_net, go_zoom. cbn [stdin stdout cli inbox net fst].
    destruct (deliver _ _ n) as [[reads| |] n1]; unfold go_bind, go_put; by intros [= <- <-].
  - intros [= <- <-]. split; [done|]. intros e' [= <-]. by apply Hq.
Qed.

Lemma iteration_stays env ctx (s : t N) o s' :
  no_EPIPE_dials (fst (cli s)) -> (forall e, Context.ctx_Err ctx = Some e -> is_EPIPE e = false) ->
  (forall j e, done env j = Some e -> is_EPIPE e = false) ->
  iteration deliver silence env ctx s = (o, s') -> o <> Ret true /\ no_EPIPE_dials (fst (cli s')).
Proof.
  intros Hc Hctx Hdone. unfold iteration. unfold go_bind at 1.
  destruct (write (str "> ") s) as [o1 s1] eqn:E1. apply write_cli in E1. rewrite <-E1 in Hc. clear E1.
  destruct o1 as [err| |]; [|by intros [= <- <-]..].
  unfold go_bind at 1, readLine_stdin at 1. destruct (BufReader.ReadBytes (stdin s1)) as [[line|e] br].
  2: { intros E. split; [intros ->; by apply report_false in E|]. apply report_cli in E. by rewrite E. }
  unfold go_bind at 1. destruct (Send deliver env ctx line _) as [o2 s2] eqn:E2.
  apply client_Send_error in E2 as [Hc2 Hq]; [|done..].
  destruct o2 as [[[]|e]| |]; [| |by intros [= <- <-]..].
  2: { rewrite (Hq e eq_refl). intros E. split; [intros ->; by apply report_false in E|].
       apply report_cli in E. by rewrite E. }
  unfold go_bind at 1, readLine_conn at 1. destruct (BufReader.ReadBytes _) as [[l|e] br2].
  2: { intros E. split; [intros ->; by apply report_false in E|]. apply report_cli in E. by rewrite E. }
  unfold go_bind at 1. destruct (write l _) as [o3 s3] eqn:E3. apply write_cli in E3. cbn [cli] in E3. rewrite <-E3 in Hc2.
  destruct o3 as [[e|]| |]; [|by intros [= <- <-]..].
  intros E. split; [intros ->; by apply report_false in E|]. apply report_cli in E. by rewrite E.
Qed.

Lemma loop_stays its (s : t N) o s' :
  no_EPIPE_dials (fst (cli s)) ->
  Forall (fun it => (forall e, Context.ctx_Err it.2 = Some e -> is_EPIPE e = false) /\
    (forall j e, done it.1 j = Some e -> is_EPIPE e = false)) its ->
  loop deliver silence its s = (o, s') -> o <> Ret true.
Proof.
  intros Hc Hits. revert s Hc. induction Hits as [|[env ctx] its [H1 H2] _ IH]; intros s Hc; cbn [loop].
  { by intros [= <- _]. }
  unfold go_bind. destruct (iteration deliver silence env ctx s) as [o1 s1] eqn:E.
  apply iteration_stays in E as [Hne Hc1]; [|done..].
  destruct o1 as [[]| |]; [done| |by intros [= <- _]..]. by apply IH.
Qed.

(** At the end of the input an iteration prints the prompt and the error. *)
Lemma iteration_EOF env ctx (s : t N) :
  printing s -> no_errors (stdin s) -> (BufReader.newline ∉ pending (stdin s)) ->
  exists br, no_errors br /\ pending br = [] /\
    iteration deliver silence env ctx s =
      (Ret false, mk br (BufWriter.mk [] (BufWriter.out (stdout s) ++ str "> EOF") None) (cli s) (inbox s) (net s)).
Proof.
  intros Hp Hn Hl. pose proof (ReadBytes_line (stdin s) Hn) as H.
  destruct (BufReader.ReadBytes (stdin s)) as [[l|e] br] eqn:E.
  - destruct H as (l' & -> & _ & Hd & _). destruct Hl. rewrite Hd, !elem_of_app. left. right. by left.
  - destruct H as (-> & _ & Hpb & Hnb). exists br. split; [done|]. split; [done|].
    unfold iteration. rewrite (go_bind_ret _ _ _ _ _ (client_write_ok (str "> ") s Hp)).
    unfold go_bind at 1, readLine_stdin, print. cbn [stdin stdout cli inbox net]. rewrite E.
    unfold go_bind. rewrite client_writeError_ok by done. unfold print, go_ret. cbn [stdin stdout cli inbox net BufWriter.out].
    by rewrite <-(assoc_L (++)).
Qed.

Lemma loop_EOF its (s : t N) :
  printing s -> no_errors (stdin s) -> (BufReader.newline ∉ pending (stdin s)) ->
  exists s', loop deliver silence its s = (Ret false, s') /\
    BufWriter.out (stdout s') = BufWriter.out (stdout s) ++ concat (replicate (length its) (str "> EOF")) /\
    cli s' = cli s /\ net s' = net s.
Proof.
  revert s. induction its as [|[env ctx] its IH]; intros s Hp Hn Hl; cbn [loop].
  { exists s. cbn. by rewrite app_nil_r. }
  destruct (iteration_EOF env ctx s Hp Hn Hl) as (br & Hnb & Hpb & E).
  rewrite (go_bind_ret _ _ _ _ _ E). set (s1 := mk br _ _ _ _).
  destruct (IH s1) as (s' & El & Ho & Hc & Hs); [done|done| |].
  { cbn [s1 stdin]. rewrite Hpb. apply not_elem_of_nil. }
  exists s'. split; [done|]. split; [|done]. rewrite Ho. cbn [s1 stdout BufWriter.out length replicate concat].
  by rewrite <-!(assoc_L (++)).
Qed.

End leaving.
End ClientMainFacts.

(** ** Properties *)

Section properties.
Import Database DatabaseFacts UniversalHandler TransportFacts LagunaClient ClientMainFacts.
Context {WL : Type} `{!WALOps WL}.
Context (sctx : Context.t) (Hsctx : Context.ctx_Err sctx = None).
Context (split_in split_out : bytes -> list bytes).
Context (Hin : forall b, concat (split_in b) = b) (Hout : forall b, concat (split_out b) = b).

(** The session from any point where both ends wait for the next line. *)
Lemma session_lines {K : Type} `{!KVStore K} `{!KVLaws K} (silence : conn (Database.t K WL) -> error)
    (its : list (Env * Context.t)) (lines : list bytes) (tail : bytes) (s : LagunaClient.t (conn (Database.t K WL)))
    (vs : list (option error)) (o : outcome unit) (w : WL) :
  Forall (fun it => Context.ctx_Err it.2 = None) its -> length its = length vs ->
  Forall (fun l => BufReader.newline ∉ l) lines -> printing s -> connected s -> idle (net s) ->
  kv_wf (st (db (net s))) -> isMaster (db (net s)) = true -> line_map (kv_abs (st (db (net s)))) ->
  log_answers sctx (line_request <$> terminated lines) (wal (db (net s))) = (vs, (o, w)) ->
  Forall sendable vs -> Forall line_refusal vs ->
  no_errors (stdin s) -> pending (stdin s) = concat (terminated lines) ++ tail ->
  let '(rs, m) := spec_requests vs (line_request <$> terminated lines) (kv_abs (st (db (net s)))) in
  exists s', loop (ServerEnd.deliver Execute sctx split_in split_out) silence its s = (Ret false, s') /\
    BufWriter.out (stdout s') = BufWriter.out (stdout s) ++ concat ((fun r => str "> " ++ reply r) <$> rs) /\
    kv_abs (st (db (net s'))) = m.
Proof using Hsctx Hin Hout.
  intros Hits Hlen Hlines. revert its s vs Hits Hlen.
  induction Hlines as [|l lines Hl _ IH]; intros its s vs Hits Hlen Hpr Hcn Hid Hwf Hma Hm.
  { intros [= <- _ _] _ _ _ _. destruct its; [|done]. cbn. exists s. by rewrite app_nil_r. }
  change (terminated (l :: lines)) with ((l ++ [BufReader.newline]) :: terminated lines). rewrite fmap_cons.
  cbn [log_answers]. destruct (log_request sctx _ (wal (db (net s)))) as [[v| |] w1] eqn:Ev;
    [|intros [= <- _ _] _ _ _ _; destruct its; [|done]; cbn; exists s; by rewrite app_nil_r..].
  destruct (log_answers sctx (line_request <$> terminated lines) w1) as [vs1 ow] eqn:El.
  intros [= <- ->] Hsn Hln Hn Hp. destruct its as [|[env ctx] its]; [done|].
  apply Forall_cons in Hits as [Hctx Hits], Hsn as [Hv Hsn], Hln as [Hv' Hln]. cbn [snd] in Hctx.
  set (line := l ++ [BufReader.newline]) in *.
  destruct (serve_logged sctx line (db (net s)) v w1 Hsctx Hwf Hma Ev) as (k & Es & Hk & Ha).
  destruct (spec_request_lines v line _ Hv' Hm) as [Ht Hm1].
  pose proof (spec_requests_sent [v] [line] (kv_abs (st (db (net s)))) ltac:(by apply Forall_singleton)) as Hsent.
  rewrite fmap_cons in Hsent. cbn [spec_requests fmap list_fmap] in Hsent |- *.
  destruct (spec_request v (line_request line) (kv_abs (st (db (net s))))) as [r m1]. cbn [fst snd] in *.
  apply Forall_cons in Hsent as [Hsent _].
  assert (pending (stdin s) = l ++ [BufReader.newline] ++ concat (terminated lines) ++ tail) as Hp'
    by (rewrite Hp; cbn; unfold line; by rewrite <-!(assoc_L (++))).
  destruct (session_line Execute sctx Hsctx split_in split_out silence Hin Hout env ctx l
    (concat (terminated lines) ++ tail) s _ _ Hctx Hpr Hcn Hid Hn Hl Hp' Es Hsent Ht)
    as (s1 & Ei & Ho1 & Hpr1 & Hcn1 & Hid1 & Hd1 & Hn1 & Hp1).
  specialize (IH its s1 vs1 Hits ltac:(by injection Hlen) Hpr1 Hcn1 Hid1). rewrite Hd1 in IH. cbn [st wal isMaster] in IH.
  rewrite Ha in IH. specialize (IH Hk eq_refl Hm1 El Hsn Hln Hn1 Hp1).
  destruct (spec_requests vs1 (line_request <$> terminated lines) m1) as [rs m2]. destruct IH as (s' & Eloop & Ho & Ha').
  exists s'. cbn [loop]. rewrite (go_bind_ret _ _ _ _ _ Ei), Eloop. split; [done|]. split; [|done].
  rewrite Ho, Ho1. cbn [fmap list_fmap concat]. by rewrite <-!(assoc_L (++)).
Qed.

(** C13: from the terminal to the shards and back.  A user types lines into the
    client program, however the terminal and the network cut them, and its
    connection to a new master, which it has alone, works and does not reach
    its deadline.  For each line up to the first whose call of the log does
    not return, the terminal shows the prompt and exactly the answer that one
    map from strings to strings and the answers [vs] of the log give, a
    refused write with the log's error; and that map is what the shards of the
    server hold then.  No answer is taken for that of another line, although
    the client throws away what it has read beyond a line.  Quotes in a line
    are part of its words, as in the code and against ReadMe.md.  The texts of
    the log's errors are single lines and none is an end of file. *)
Theorem client_session_refines_map (silence : conn (Database.t (Storage.t MemEngine.t) WL) -> error) (type : gostring) (nshards : Z)
    (w w' : WL) (size deadline : Z) (k : netConn) (dials : list (result netConn)) (its : list (Env * Context.t))
    (lines : list bytes) (tail : bytes) (r : reader) (vs : list (option error)) (o : outcome unit)
    (Hk : fails k = None)
    (Hits : Forall (fun it => Context.ctx_Err it.2 = None) its) (Hlen : length its = length vs)
    (Hr : Forall (fun c => c.2 = None) r)
    (Hlines : Forall (fun l => BufReader.newline ∉ l) lines)
    (Hdata : stream_data r = concat (terminated lines) ++ tail)
    (Hlog : log_answers sctx (line_request <$> terminated lines) w = (vs, (o, w')))
    (Hvs : Forall sendable vs) (Hvs' : Forall line_refusal vs) :
  let db0 := Database.mk (Storage.New (NewEngine type nshards)) w true in
  let '(rs, m) := spec_requests vs (line_request <$> terminated lines) ∅ in
  exists s', main (ServerEnd.deliver Execute sctx split_in split_out) silence size deadline (Ok k :: dials) its
      (BufReader.mk [] r) (mkConn db0 (BufReader.mk [] []) (BufWriter.New None)) = Ret (false, s') /\
    BufWriter.out (stdout s') = concat ((fun r => str "> " ++ reply r) <$> rs) /\
    kv_abs (st (db (net s'))) = m /\ length rs = length vs /\ (o = Ret tt -> length rs = length lines).
Proof using Hsctx Hin Hout.
  cbv zeta. assert (NewEngine type nshards = MemEngine.NewEngine nshards) as ->
    by (unfold NewEngine; by destruct (bool_decide _)).
  destruct (NewStorage_wf nshards) as [Hwf Ha]. unfold main. cbn [Client.NewClient].
  set (s0 := LagunaClient.mk _ _ _ _ _).
  assert (kv_abs (st (db (net s0))) = ∅) as H0 by exact Ha.
  pose proof (session_lines silence its lines tail s0 vs o w' Hits Hlen Hlines) as H. rewrite H0 in H.
  destruct (log_answers_length _ _ _ _ _ _ Hlog) as [Hle Hall].
  pose proof (spec_requests_length _ _ ∅ Hle) as Hrs. unfold terminated in Hall. rewrite !length_fmap in Hall.
  destruct (spec_requests vs (line_request <$> terminated lines) ∅) as [rs m]. cbn [fst] in Hrs.
  destruct H as (s' & E & Ho & Hm); try done; [split; [by apply Forall_nil_2|done]|].
  exists s'. rewrite E, Hrs. by split_and!.
Qed.

End properties.

Section leaving.
Import LagunaClient ClientMainFacts.
Context {N : Type} (deliver : bool -> bytes -> Go N (list bytes)) (silence : N -> error).

(** C33: the client never leaves its loop.  It means to leave when a write finds
    the connection closed, but [Send] hides that error by dialling anew: unless
    a dial or a context itself fails with a broken pipe, no number of
    iterations breaks the loop, whatever the user types and the connections
    do; and at the end of the input it goes on printing the prompt and the
    end-of-file error, as often as it is run, and does nothing else. *)
Theorem client_never_leaves (s : t N) (its : list (Env * Context.t))
    (Hits : Forall (fun it => (forall e, Context.ctx_Err it.2 = Some e -> is_EPIPE e = false) /\
      (forall j e, done it.1 j = Some e -> is_EPIPE e = false)) its)
    (Hdials : no_EPIPE_dials (fst (cli s))) :
  (forall s', loop deliver silence its s <> (Ret true, s')) /\
  (printing s -> no_errors (stdin s) -> (BufReader.newline ∉ pending (stdin s)) ->
   exists s', loop deliver silence its s = (Ret false, s') /\
     BufWriter.out (stdout s') = BufWriter.out (stdout s) ++ concat (replicate (length its) (str "> EOF")) /\
     cli s' = cli s /\ net s' = net s).
Proof.
  split; [|by apply loop_EOF].
  intros s' E. eapply loop_stays in E; done.
Qed.

End leaving.

(** ** Examples *)

Module ClientMainWitnesses.
Import Database DatabaseWitnesses UniversalHandler TransportFacts LagunaClient ClientMainFacts ServerWitnesses.

(** A network that delivers every byte on its own. *)
Definition bytewise (b : bytes) : list bytes := (fun x => [x]) <$> b.

Lemma bytewise_concat b : concat (bytewise b) = b.
Proof. induction b as [|x b IH]; [done|]. unfold bytewise in *. rewrite fmap_cons. cbn [concat app]. by rewrite IH. Qed.

Definition timeout {D} (_ : conn D) : error := OpError (str "i/o timeout").

#[local] Instance ex_wal_ops : WALOps ClientWal.t := ClientWal.client_wal quiet InitWitnesses.first_late.

Lemma client_session_refines_map_witness :
  exists w s', ex_log = Some w /\
    main (ServerEnd.deliver Execute Context.Background bytewise bytewise) timeout 1024 0
      [Ok (mkNetConn [] None)] (replicate 5 (quiet, Context.Background))
      (BufReader.mk [] ex_reads) (mkConn (Database.mk (Storage.New (NewEngine (str "inmemory") 4)) w true)
        (BufReader.mk [] []) (BufWriter.New None)) = Ret (false, s') /\
    BufWriter.out (stdout s') =
      str "> context deadline exceeded" ++ nl ++ str "> " ++ nl ++ str "> OK" ++ nl ++ str "> 'w'" ++ nl ++
      str "> " ++ Error ErrWrongQuery ++ nl /\
    kv_abs (st (db (net s'))) = {[ str "k" := str "'w'" ]}.
Proof.
  destruct ex_log_answers as (w & w' & Ew & El).
  pose proof (client_session_refines_map Context.Background eq_refl bytewise bytewise
    bytewise_concat bytewise_concat timeout (str "inmemory") 4 w w' 1024 0 (mkNetConn [] None) []
    (replicate 5 (quiet, Context.Background)) ex_lines (str "DEL") ex_reads ex_refusals (Ret tt) eq_refl) as H.
  fold ex_requests in H. rewrite ex_spec in H.
  destruct H as (s' & E & Ho & Hm & _).
  - by repeat constructor.
  - reflexivity.
  - exact ex_reads_ok.
  - exact ex_lines_ok.
  - vm_compute. reflexivity.
  - exact El.
  - apply ex_refusals_ok.
  - apply ex_refusals_ok.
  - exists w, s'. split; [exact Ew|]. split; [exact E|]. split; [exact Ho|exact Hm].
Defined.

(** The standard input ends in the middle of a line: the client goes on. *)
Definition gone : LagunaClient.t unit :=
  LagunaClient.mk (BufReader.mk [] [(str "GET k", None)]) (BufWriter.New None) (ex_client, []) [] tt.

Lemma client_never_leaves_witness :
  exists s', loop (fun _ _ => go_ret []) (fun _ => EOF) [(quiet, Context.Background); (quiet, Context.Background)] gone =
      (Ret false, s') /\ BufWriter.out (stdout s') = str "> EOF> EOF".
Proof.
  destruct (client_never_leaves (fun _ _ => go_ret []) (fun _ => EOF) gone
    [(quiet, Context.Background); (quiet, Context.Background)]) as [_ H].
  - by repeat constructor.
  - intros e He. cbn in He. apply elem_of_cons in He as [[= ->]|He]; [reflexivity|].
    apply list_elem_of_singleton in He. discriminate.
  - destruct H as (s' & E & Ho & _).
    + by split.
    + by repeat constructor.
    + by apply (bool_decide_unpack _).
    + exists s'. split; [exact E|exact Ho].
Defined.

End ClientMainWitnesses.
