(* ===== verification/LoadTest.v ===== *)
(** * The load test

    [system_load_testing/system_load_testing.go]: ten connections to a server,
    and at a fixed rate a random one of eight commands on the next of them, in
    turn, until the time is over.  It never reads an answer, so the buffers of
    a connection can fill up and a [Flush] can wait for ever.

    Below are what each connection is sent and, put together with a connection
    of [Transport] and the database behind it, what a master answers. *)

From S2P Require Import Prelude Utils Query Storage WalRecord FileSystem Logs Concurrency Retry Wal.
From S2P Require Import Replication Database Transport ClientWal Init Server.

Module LoadTest.

(** The flags; [rps] and [duration], in nanoseconds, are signed 64-bit
    integers. *)
Record Flags := mkFlags { rps : Z; address : gostring; duration : Z }.

Definition defaultFlags : Flags := mkFlags 1000 (str "localhost:8080") (600 * 10 ^ 9).

Definition nl (s : gostring) : gostring := s ++ [BufReader.newline].

Definition commands : list gostring :=
  [ nl (str "GET user"); nl (str "SET user 1"); nl (str "SET user 2"); nl (str "SET user hello world");
    nl (str "DEL user"); nl (str "DEL user 1"); nl (str "GET key123"); nl (str "SET key123 foobar") ].

Definition connectionCount : nat := 10.

(** A connection: its [bufio.Writer] and, once the network has set a limit, how
    many bytes it still takes and what becomes of a write that has more: it
    fails with the error, or it waits for ever. *)
Record link := mkLink { bw : BufWriter.t; limit : option (nat * option error) }.

Definition on_bw {A} (c : Go BufWriter.t A) : Go link A := go_zoom bw (fun w l => mkLink w (limit l)) c.

(** [Flush] on such a connection; a write that waits and then goes on is only a
    late one. *)
Definition Flush : Go link (option error) :=
  fun c =>
    match limit c with
    | None => on_bw BufWriter.Flush c
    | Some (n, e) =>
        let b := BufWriter.buf (bw c) in
        if bool_decide (length b <= n) then
          let '(r, c') := on_bw BufWriter.Flush c in (r, mkLink (bw c') (Some (n - length b, e)))
        else
          let out := BufWriter.out (bw c) ++ take n b in
          match e with
          | Some err => (Ret (Some err), mkLink (BufWriter.mk (drop n b) out (Some err)) (Some (0, e)))
          | None => (Blocks, mkLink (BufWriter.mk b out None) (Some (0, None)))
          end
    end.

(** The writers of the connections, [mu], the variable [connIndex], and whether
    the connections have been closed. *)
Record t := mk { writers : list link; locked : bool; connIndex : nat; closed : bool }.

(** How the program ends: [log.Fatalf] of a dial, or a return. *)
Inductive ended :=
| DialError (i : nat) (e : error)
| TestFinished
| WriteError (e : error)
| FlushError (e : error).

(** What the [select] of the loop gets: the end of the time, or a tick of the
    ticker; with a tick comes what the random source holds for it.  Between two
    of them the network may limit a connection. *)
Inductive event :=
| Stop
| Tick (random : nat)
| Limit (i n : nat) (e : option error).

(** [rand.Intn(n)]: some number below [n]. *)
Definition Intn (random n : nat) : nat := random mod n.

(** The loop that dials; [dials i] is the error of the dial number [i]. *)
Fixpoint dial (dials : nat -> option error) (i n : nat) (ws : list link) : ended + list link :=
  match n with
  | O => inr ws
  | S n' =>
      match dials i with
      | Some err => inl (DialError i err)
      | None => dial dials (i + 1) n' (ws ++ [mkLink (BufWriter.New None) None])
      end
  end.

(** [time.NewTicker(time.Second / time.Duration( *rps))]: the division panics
    for zero, [NewTicker] for an interval that is not positive. *)
Definition newTicker (rps : Z) : outcome Z :=
  if (rps =? 0)%Z then Panics
  else
    let d := i64 (Z.quot (10 ^ 9) rps) in
    if (d <=? 0)%Z then Panics else Ret d.

Definition Lock : Go t unit :=
  fun s => if locked s then (Blocks, s) else (Ret tt, mk (writers s) true (connIndex s) (closed s)).
Definition Unlock : Go t unit := fun s => (Ret tt, mk (writers s) false (connIndex s) (closed s)).

(** A call of the writer number [i]. *)
Definition on_writer {A} (i : nat) (c : Go link A) : Go t A :=
  fun s =>
    match writers s !! i with
    | None => (Panics, s)
    | Some w => let '(r, w') := c w in (r, mk (<[i := w']> (writers s)) (locked s) (connIndex s) (closed s))
    end.

(** The case of a tick; [w] is the index of the writer that is taken, and
    taking one that does not exist panics. *)
Definition tick (random : nat) : Go t (option ended) :=
  let! cmd := go_index commands (Intn random (length commands)) in
  do! Lock in
  let! w := go_get connIndex in
  do! on_writer w (go_ret tt) in
  do! (fun s => (Ret tt, mk (writers s) (locked s) ((connIndex s + 1) mod connectionCount) (closed s))) in
  do! Unlock in
  let! err := on_writer w (on_bw (BufWriter.Write cmd)) in
  match err with
  | Some e => go_ret (Some (WriteError e))
  | None =>
      let! err := on_writer w Flush in
      match err with
      | Some e => go_ret (Some (FlushError e))
      | None => go_ret None
      end
  end.

(** From now on connection [i] takes [n] bytes more. *)
Definition set_limit (i n : nat) (e : option error) (s : t) : t :=
  mk (alter (fun c => mkLink (bw c) (Some (n, e))) i (writers s)) (locked s) (connIndex s) (closed s).

(** The loop; it has not ended when the events are used up. *)
Fixpoint loop (es : list event) : Go t (option ended) :=
  match es with
  | [] => go_ret None
  | Stop :: _ => go_ret (Some TestFinished)
  | Limit i n e :: es' => fun s => loop es' (set_limit i n e s)
  | Tick random :: es' =>
      let! r := tick random in
      match r with
      | Some e => go_ret (Some e)
      | None => loop es'
      end
  end.

(** The deferred function. *)
Definition closeAll (s : t) : t := mk (writers s) (locked s) (connIndex s) true.

(** [main]: how it ends, if it does, and the connections after it.  The
    deferred function runs at a return and at a panic. *)
Definition main (f : Flags) (dials : nat -> option error) (es : list event) : outcome (option ended) * t :=
  match dial dials 0 connectionCount [] with
  | inl e => (Ret (Some e), mk [] false 0 false)
  | inr ws =>
      let s := mk ws false 0 false in
      match newTicker (rps f) with
      | Ret _ =>
          match loop es s with
          | (Ret (Some e), s') => (Ret (Some e), closeAll s')
          | (Panics, s') => (Panics, closeAll s')
          | (r, s') => (r, s')
          end
      | Panics => (Panics, closeAll s)
      | Blocks => (Blocks, s)
      end
  end.

End LoadTest.

Module LoadTestFacts.
Import LoadTest TransportFacts.

(** The command of a tick. *)
Definition command (random : nat) : gostring := default [] (commands !! Intn random (length commands)).

(** The commands of the ticks that come to connection [i], the next tick going
    to connection [c]. *)
Fixpoint dealt (i c : nat) (ticks : list nat) : list gostring :=
  match ticks with
  | [] => []
  | x :: ticks' =>
      (if bool_decide (c = i) then [command x] else []) ++ dealt i ((c + 1) mod connectionCount) ticks'
  end.

Lemma command_lookup x : commands !! Intn x (length commands) = Some (command x).
Proof.
  unfold command. destruct (lookup_lt_is_Some_2 commands (Intn x (length commands))) as [c E].
  - by apply Nat.mod_upper_bound.
  - by rewrite E.
Qed.

Lemma commands_facts : Forall (fun c => 0 < length c <= BufWriter.size /\
  (exists l, c = l ++ [BufReader.newline] /\ BufReader.newline ∉ l) /\
  exists q, parse_spec (Fields c) = Ok q) commands.
Proof.
  repeat (apply Forall_cons; split); [..|apply Forall_nil; done]; (split; [vm_compute; lia|]);
    (split; [eexists; split; [reflexivity|apply (bool_decide_unpack _); vm_compute; done]
            |eexists; vm_compute; reflexivity]).
Qed.

Lemma command_facts x :
  0 < length (command x) <= BufWriter.size /\
  (exists l, command x = l ++ [BufReader.newline] /\ BufReader.newline ∉ l) /\
  exists q, parse_spec (Fields (command x)) = Ok q.
Proof.
  pose proof commands_facts as F. rewrite Forall_lookup in F. apply (F _ _ (command_lookup x)).
Qed.

Lemma dial_ok dials n i ws :
  (forall k, i <= k < i + n -> dials k = None) -> dial dials i n ws = inr (ws ++ replicate n (mkLink (BufWriter.New None) None)).
Proof.
  revert i ws. induction n as [|n IH]; intros i ws H; cbn [dial]; [by rewrite app_nil_r|].
  rewrite (H i) by lia. rewrite IH by (intros; apply H; lia). by rewrite <-(assoc_L (++)).
Qed.

Lemma newTicker_ok rps : (1 <= rps <= 10 ^ 9)%Z -> exists d, newTicker rps = Ret d.
Proof.
  intros H. unfold newTicker. destruct (Z.eqb_spec rps 0) as [->|_]; [lia|].
  rewrite Z.quot_div_nonneg by lia.
  assert (1 <= 10 ^ 9 / rps <= 10 ^ 9)%Z as Hd.
  { split; [apply Z.div_le_lower_bound; lia|]. apply Z.div_le_upper_bound; nia. }
  rewrite i64_id by lia. destruct (Z.leb_spec (10 ^ 9 / rps) 0); [lia|]. by eexists.
Qed.

Lemma newTicker_panics rps : (- 2 ^ 63 <= rps < 2 ^ 63)%Z -> ~ (1 <= rps <= 10 ^ 9)%Z -> newTicker rps = Panics.
Proof.
  intros Hr H. unfold newTicker. destruct (Z.eqb_spec rps 0) as [->|Hz]; [done|].
  assert (- 10 ^ 9 <= Z.quot (10 ^ 9) rps <= 0)%Z as Hq.
  { destruct (decide (rps < 0)%Z) as [Hn|Hp].
    - replace rps with (- - rps)%Z by lia. rewrite Z.quot_opp_r, Z.quot_div_nonneg by lia.
      assert (0 <= 10 ^ 9 / - rps <= 10 ^ 9)%Z; [|lia].
      split; [apply Z.div_pos; lia|]. apply Z.div_le_upper_bound; nia.
    - rewrite Z.quot_small by lia. lia. }
  rewrite i64_id by lia. destruct (Z.leb_spec (Z.quot (10 ^ 9) rps) 0); [done|lia].
Qed.

(** The connections between two ticks: nothing is buffered. *)
Definition empty_link (c : link) : Prop := BufWriter.buf (bw c) = [] /\ BufWriter.broken (bw c) = None.

Definition idle (s : t) : Prop :=
  locked s = false /\ connIndex s < connectionCount /\ length (writers s) = connectionCount /\
  Forall empty_link (writers s).

Definition unlimited (s : t) : Prop := Forall (fun c => limit c = None) (writers s).

(** A connection on which a write may wait for ever. *)
Definition may_wait (s : t) : Prop := exists c n, c ∈ writers s /\ limit c = Some (n, None).

Definition sent (i : nat) (s : t) : option bytes := (fun c => BufWriter.out (bw c)) <$> writers s !! i.

(** A command written to a connection between two ticks: it arrives, whole or
    its first bytes. *)
Lemma Flush_command cmd (c : link) :
  empty_link c -> 0 < length cmd ->
  exists o c' b, Flush (mkLink (BufWriter.mk cmd (BufWriter.out (bw c)) None) (limit c)) = (o, c') /\
    BufWriter.out (bw c') = BufWriter.out (bw c) ++ b /\ b `prefix_of` cmd /\
    (o = Ret None -> b = cmd /\ empty_link c' /\ forall n, limit c' = Some (n, None) -> exists n0, limit c = Some (n0, None)) /\
    (limit c = None -> o = Ret None /\ limit c' = None) /\
    o <> Panics /\ (o = Blocks -> exists n, limit c = Some (n, None)).
Proof.
  intros [Hb Hbr] Hpos. unfold Flush, on_bw, go_zoom, BufWriter.Flush.
  destruct (limit c) as [[n e]|]; cbn [limit bw BufWriter.buf BufWriter.broken BufWriter.out];
    rewrite (bool_decide_false (cmd = [])) by (by intros ->; cbn in Hpos; lia); [case_bool_decide|].
  - do 3 eexists. split; [reflexivity|]. split; [done|]. split; [done|]. split; [|done].
    intros _. split_and!; [done|done|]. cbn [limit]. intros n' [= _ ->]. by exists n.
  - destruct e as [e|]; do 3 eexists; (split; [reflexivity|]); (split; [done|]); (split; [apply prefix_take|]);
      split_and!; try done. intros _. by exists n.
  - do 3 eexists. split; [reflexivity|]. split; [done|]. split; [done|]. by split_and!.
Qed.

(** A tick sends its command on the next connection. *)
Lemma tick_spec x s :
  idle s -> exists c o c', writers s !! connIndex s = Some c /\
    Flush (mkLink (BufWriter.mk (command x) (BufWriter.out (bw c)) None) (limit c)) = (o, c') /\
    tick x s = (match o with Ret None => Ret None | Ret (Some e) => Ret (Some (FlushError e)) | Panics => Panics | Blocks => Blocks end,
      mk (<[connIndex s := c']> (writers s)) false ((connIndex s + 1) mod connectionCount) (closed s)).
Proof.
  intros (Hl & Hc & Hlen & Hbuf). destruct (lookup_lt_is_Some_2 (writers s) (connIndex s)) as [c Hw]; [lia|].
  pose proof Hbuf as Hb. rewrite Forall_lookup in Hb. destruct (Hb _ _ Hw) as [He Hbr].
  destruct (command_facts x) as ([Hpos Hsize] & _).
  destruct (Flush (mkLink (BufWriter.mk (command x) (BufWriter.out (bw c)) None) (limit c))) as [o c'] eqn:Ef.
  exists c, o, c'. split; [done|]. split; [done|].
  assert (on_bw (BufWriter.Write (command x)) c =
    (Ret None, mkLink (BufWriter.mk (command x) (BufWriter.out (bw c)) None) (limit c))) as Ewr.
  { unfold on_bw, go_zoom, BufWriter.Write. rewrite He, Hbr. cbn [length]. by rewrite Nat.sub_0_r, bool_decide_true by done. }
  destruct s as [ws lk k cl]. cbn [locked connIndex writers closed] in *. subst lk.
  unfold tick. rewrite (go_index_Some _ _ _ (command_lookup x)).
  unfold go_bind, Lock, Unlock, go_get, on_writer. cbn [locked connIndex writers closed go_ret].
  rewrite Hw. unfold go_ret. cbn [locked connIndex writers closed]. rewrite list_insert_id by done.
  rewrite Hw, Ewr. cbn [locked connIndex writers closed].
  rewrite list_lookup_insert_eq by lia. rewrite Ef.
  destruct o as [[e|]| |]; cbn; by rewrite list_insert_insert_eq.
Qed.

(** The ticks before the end of the time. *)
Fixpoint ticks_of (es : list event) : list nat :=
  match es with
  | [] | Stop :: _ => []
  | Limit _ _ _ :: es' => ticks_of es'
  | Tick x :: es' => x :: ticks_of es'
  end.

(** Every connection takes what it is sent. *)
Definition calm (es : list event) : Prop := Forall (fun e => match e with Limit _ _ _ => False | _ => True end) es.

(** What a tick, the next to go to connection [c], sends to connection [i]. *)
Definition dealt_now (i c x : nat) : list gostring := if bool_decide (c = i) then [command x] else [].

Lemma tick_idle x s :
  idle s -> exists o s', tick x s = (o, s') /\ o <> Panics /\ (o = Blocks -> may_wait s) /\
    (unlimited s -> o = Ret None /\ unlimited s') /\
    (o = Ret None -> idle s' /\ connIndex s' = (connIndex s + 1) mod connectionCount /\ (may_wait s' -> may_wait s)) /\
    forall i, exists b, b `prefix_of` concat (dealt_now i (connIndex s) x) /\
      (o = Ret None -> b = concat (dealt_now i (connIndex s) x)) /\ sent i s' = (fun a => a ++ b) <$> sent i s.
Proof.
  intros Hi. destruct (tick_spec x s Hi) as (c & o & c' & Hw & Ef & Et).
  destruct Hi as (Hl & Hc & Hlen & Hbuf). pose proof (list_elem_of_lookup_2 _ _ _ Hw) as Hin.
  pose proof (lookup_lt_Some _ _ _ Hw) as Hlt. pose proof Hbuf as Hb. rewrite Forall_lookup in Hb.
  destruct (Flush_command (command x) c (Hb _ _ Hw)) as (o' & c1 & b & Ef' & Ho & Hp & Hn & Hu & Hnp & Hbl);
    [apply command_facts|]. rewrite Ef in Ef'. injection Ef' as <- <-.
  do 2 eexists. split; [exact Et|]. split; [by destruct o as [[]| |]|].
  split; [intros E; destruct Hbl as [n Hn']; [by destruct o as [[]| |]|]; by exists c, n|].
  split; [|split].
  - unfold unlimited. intros Hun. pose proof Hun as Hun'. rewrite Forall_lookup in Hun'.
    destruct (Hu (Hun' _ _ Hw)) as [-> Hc']. split; [done|]. by apply Forall_insert.
  - intros E. destruct Hn as (-> & He & Hm); [by destruct o as [[]| |]|]. split; [|split; [done|]].
    + split; [done|]. split; [by apply Nat.mod_upper_bound|]. cbn. rewrite length_insert. split; [done|]. by apply Forall_insert.
    + intros (l & n & Hl' & Hlim). cbn [writers] in Hl'. apply list_elem_of_lookup in Hl' as [j Hj].
      apply list_lookup_insert_Some in Hj as [(<- & <- & _)|(_ & Hj)].
      * destruct (Hm n Hlim) as [n0 ?]. by exists c, n0.
      * exists l, n. split; [by eapply list_elem_of_lookup_2|done].
  - intros i. unfold sent, dealt_now. cbn [writers]. case_bool_decide as Hd.
    + subst i. exists b. cbn [concat]. rewrite app_nil_r. split; [done|].
      split; [intros E; apply Hn; by destruct o as [[]| |]|].
      rewrite list_lookup_insert_eq, Hw by done. cbn. by rewrite Ho.
    + exists []. split; [done|]. split; [done|]. rewrite list_lookup_insert_ne by done.
      destruct (writers s !! i); [|done]. cbn. by rewrite app_nil_r.
Qed.

Lemma set_limit_idle i n e s :
  idle s -> idle (set_limit i n e s) /\ (forall j, sent j (set_limit i n e s) = sent j s) /\
  (may_wait (set_limit i n e s) -> may_wait s \/ e = None).
Proof.
  intros (Hl & Hc & Hlen & Hbuf). split; [|split].
  - split; [done|]. split; [done|]. cbn. rewrite length_alter. split; [done|]. by apply Forall_alter.
  - intros j. unfold sent. cbn. destruct (decide (i = j)) as [<-|Hne].
    + rewrite list_lookup_alter_eq. by destruct (writers s !! i).
    + by rewrite list_lookup_alter_ne.
  - intros (c & k & Hin & Hk). cbn [set_limit writers] in Hin. apply list_elem_of_lookup in Hin as [j Hj].
    destruct (decide (i = j)) as [<-|Hne].
    + rewrite list_lookup_alter_eq in Hj. destruct (writers s !! i); [|done]. injection Hj as <-. injection Hk as _ ->. by right.
    + rewrite list_lookup_alter_ne in Hj by done. left. exists c, k. split; [by eapply list_elem_of_lookup_2|done].
Qed.

(** The loop never panics and waits for ever only on a connection that makes
    it; each connection is sent the first bytes of the commands dealt to it,
    all of them when none is limited. *)
Lemma loop_sent es s :
  idle s -> exists o s', loop es s = (o, s') /\ o <> Panics /\
    (o = Blocks -> may_wait s \/ exists i n, Limit i n None ∈ es) /\
    (unlimited s -> calm es -> Stop ∈ es -> o = Ret (Some TestFinished)) /\
    forall i, exists b, b `prefix_of` concat (dealt i (connIndex s) (ticks_of es)) /\
      (unlimited s -> calm es -> b = concat (dealt i (connIndex s) (ticks_of es))) /\
      sent i s' = (fun a => a ++ b) <$> sent i s.
Proof.
  assert (forall i s, sent i s = (fun a => a ++ []) <$> sent i s) as Hnil
    by (intros i s0; destruct (sent i s0); [|done]; cbn; by rewrite app_nil_r).
  revert s. induction es as [|[|x|j n e] es IH]; intros s Hi; cbn [loop ticks_of dealt].
  - do 2 eexists. split; [done|]. split; [done|]. split; [done|]. split; [by intros _ _ ?%not_elem_of_nil|].
    intros i. by exists [].
  - do 2 eexists. split; [done|]. split; [done|]. split; [done|]. split; [done|]. intros i. by exists [].
  - destruct (tick_idle x s Hi) as (o1 & s1 & E1 & Hnp & Hbl & Hu1 & Hn1 & Hs1).
    unfold go_bind. rewrite E1. destruct o1 as [[e|]| |]; [|..].
    2: {
      destruct (Hn1 eq_refl) as (Hi1 & Hc1 & Hw1). destruct (IH s1 Hi1) as (o & s' & E & Hp & Hb & Hr & Hd).
      exists o, s'. split; [done|]. split; [done|]. split.
      { intros Ho. destruct (Hb Ho) as [Hw|(i & n & Hl)]; [left; auto|right; exists i, n; by right]. }
      split.
      { intros Hu [_ Hca]%Forall_cons Hst. apply Hr; [by apply Hu1|done|]. by apply elem_of_cons in Hst as [?|?]. }
      intros i. destruct (Hd i) as (b & Hpb & Hall & Hs). destruct (Hs1 i) as (b1 & _ & Hb1 & Hsi).
      specialize (Hb1 eq_refl). rewrite Hc1 in Hpb, Hall. exists (b1 ++ b).
      rewrite concat_app. fold (dealt_now i (connIndex s) x). rewrite <-Hb1. split; [by apply prefix_app|]. split.
      { intros Hu [_ Hca]%Forall_cons. by rewrite Hall by (done || by apply Hu1). }
      rewrite Hs, Hsi. destruct (sent i s); [|done]. cbn. by rewrite <-(assoc_L (++)). }
    all: do 2 eexists; split; [reflexivity|]; split; [done|]; (split; [auto|]);
      (split; [intros Hu; by destruct (Hu1 Hu)|]); intros i; destruct (Hs1 i) as (b & Hpb & _ & Hsi); exists b;
      (split; [rewrite concat_app; fold (dealt_now i (connIndex s) x); by apply prefix_app_r|]);
      (split; [intros Hu; by destruct (Hu1 Hu)|done]).
  - destruct (set_limit_idle j n e s Hi) as (Hi1 & Hs1 & Hw1). destruct (IH _ Hi1) as (o & s' & E & Hp & Hb & _ & Hd).
    assert (~ calm (Limit j n e :: es)) as Hnc by (by intros [? _]%Forall_cons).
    exists o, s'. split; [done|]. split; [done|]. split.
    { intros Ho. destruct (Hb Ho) as [[Hw| ->]%Hw1|(i & k & Hl)]; [by left|right; exists j, n; by left|right; exists i, k; by right]. }
    split; [done|]. intros i. destruct (Hd i) as (b & Hpb & _ & Hs). exists b. rewrite Hs1 in Hs. by split_and!.
Qed.

Lemma main_sent f dials es :
  (1 <= rps f <= 10 ^ 9)%Z -> (forall k, k < connectionCount -> dials k = None) ->
  exists o s', main f dials es = (o, s') /\ o <> Panics /\ (o = Blocks -> exists i n, Limit i n None ∈ es) /\
    (calm es -> Stop ∈ es -> o = Ret (Some TestFinished) /\ closed s' = true) /\
    forall i, i < connectionCount -> exists b, b `prefix_of` concat (dealt i 0 (ticks_of es)) /\
      (calm es -> b = concat (dealt i 0 (ticks_of es))) /\ sent i s' = Some b.
Proof.
  intros Hr Hd. destruct (newTicker_ok (rps f) Hr) as [d Et]. unfold main.
  rewrite dial_ok by (intros k Hk; apply Hd; unfold connectionCount in *; lia). rewrite Et.
  change ([] ++ ?l) with l. set (ws := replicate connectionCount _). set (s0 := mk ws false 0 false).
  assert (idle s0 /\ unlimited s0) as [Hi Hu].
  { split; [|by apply Forall_replicate]. split; [done|]. split; [by apply Nat.lt_0_succ|].
    split; [done|]. by apply Forall_replicate. }
  destruct (loop_sent es s0 Hi) as (o & s' & E & Hnp & Hbl & Hst & Hs). rewrite E.
  exists o, (match o with Ret (Some _) => closeAll s' | _ => s' end).
  split; [by destruct o as [[]| |]|]. split; [done|]. split.
  { intros Ho. destruct (Hbl Ho) as [(c & n & Hin & Hlim)|?]; [|done].
    unfold unlimited in Hu. rewrite Forall_forall in Hu. specialize (Hu c Hin). congruence. }
  split; [intros Hca Hin; by rewrite (Hst Hu Hca Hin)|].
  intros i Hlt. destruct (Hs i) as (b & Hp & Hall & Es). exists b. split; [done|]. split; [by intros; apply Hall|].
  assert (sent i s0 = Some []) as E0 by (unfold sent, s0; cbn [writers]; unfold ws; by rewrite lookup_replicate_2).
  rewrite E0 in Es. unfold sent in *. by destruct o as [[]| |].
Qed.

(** The first bytes of what is dealt are whole commands, that is lines that
    parse, and a part of one more. *)
Lemma dealt_lines i c ticks b :
  b `prefix_of` concat (dealt i c ticks) ->
  exists lines tail, b = concat (terminated lines) ++ tail /\ (BufReader.newline ∉ tail) /\
    terminated lines `prefix_of` dealt i c ticks /\
    Forall (fun x => BufReader.newline ∉ x) lines /\
    Forall (fun x => exists q, line_request x = Ok q) (terminated lines).
Proof.
  assert (Forall (fun x => exists k, x = command k) (dealt i c ticks)) as F.
  { revert c. induction ticks as [|x ticks IH]; intros c; cbn [dealt]; [done|].
    apply Forall_app. split; [|done]. case_bool_decide; [|done]. apply Forall_singleton. by exists x. }
  revert b. induction F as [|x l [k ->] F IH]; intros b; cbn [concat].
  { intros ->%prefix_nil_inv. exists [], []. split_and!; try done. apply not_elem_of_nil. }
  destruct (command_facts k) as (_ & (line & Ek & Hnl) & Hq). intros [T ET].
  destruct (decide (length b < length (command k))) as [Hlt|Hge].
  - exists [], b. split; [done|]. split; [|split; [apply prefix_nil|done]].
    assert (b `prefix_of` line) as [T' E]; [|intros Hb; apply Hnl; rewrite E; apply elem_of_app; by left].
    rewrite Ek, length_app in Hlt. cbn in Hlt. rewrite Ek, <-(assoc_L (++)) in ET.
    exists (take (length line - length b) T). transitivity (take (length line) (line ++ [BufReader.newline] ++ concat l)).
    { by rewrite take_app_length. }
    rewrite ET. by rewrite take_app_ge by lia.
  - assert (exists b', b = command k ++ b') as [b' ->].
    { exists (drop (length (command k)) b). transitivity (take (length (command k)) b ++ drop (length (command k)) b).
      { by rewrite take_drop. }
      f_equal. rewrite <-(take_app_le b T) by lia. by rewrite <-ET, take_app_length. }
    rewrite <-(assoc_L (++)) in ET. apply app_inv_head in ET.
    destruct (IH b') as (lines & tail & -> & Ht & Hp & H1 & H2); [by exists T|].
    exists (line :: lines), tail. cbn [terminated fmap list_fmap concat]. rewrite <-Ek.
    split; [by rewrite (assoc_L (++))|]. split; [done|]. split; [by apply prefix_cons|]. split; by constructor.
Qed.

(** Nothing but whole lines: there is no tail. *)
Lemma all_lines lines tail lines' :
  (BufReader.newline ∉ tail) -> terminated lines `prefix_of` terminated lines' ->
  concat (terminated lines) ++ tail = concat (terminated lines') -> lines = lines'.
Proof.
  intros Ht. revert lines'. induction lines as [|l lines IH]; intros [|l' lines'] Hp E.
  - done.
  - cbn in E. destruct Ht. rewrite E, !elem_of_app. left. right. by left.
  - by apply prefix_nil_not in Hp.
  - cbn [terminated fmap list_fmap concat] in Hp, E. pose proof (prefix_cons_inv_1 _ _ _ _ Hp) as El.
    apply prefix_cons_inv_2 in Hp. apply app_inj_tail in El as [-> _]. f_equal.
    rewrite <-(assoc_L (++)) in E. apply app_inv_head in E. by apply IH.
Qed.

(** The answers to requests that parse are those of the log. *)
Definition answer_of (v : option error) (r : result gostring) : Prop :=
  match v with Some e => r = Err e | None => exists a, r = Ok a end.

Lemma spec_requests_answers vs rqs m :
  length vs <= length rqs -> Forall (fun rq => exists q, rq = Ok q) rqs ->
  Forall2 answer_of vs (fst (spec_requests vs rqs m)).
Proof.
  intros Hl F. revert vs m Hl. induction F as [|rq rqs [q ->] F IH]; intros [|v vs] m Hl; cbn [length] in Hl; try lia;
    cbn [spec_requests]; try constructor.
  destruct v as [e|]; cbn [spec_request]; [specialize (IH vs m)|specialize (IH vs (query_apply q m))];
    destruct (spec_requests vs rqs _); cbn [fst] in *; constructor; try (apply IH; lia); [done|by eexists].
Qed.

End LoadTestFacts.

Section properties.
Import LoadTest LoadTestFacts Database DatabaseFacts UniversalHandler TransportFacts.
Context {K : Type} `{!KVStore K} `{!KVLaws K} {WL : Type} `{!WALOps WL}.


End properties.

Section errors.
Import LoadTest LoadTestFacts.

(** A rate the flag accepts and the program does not: for zero, a negative one
    or one above [10^9] it panics after it has made its connections, and sends
    nothing. *)
Theorem load_test_rate_panics (f : Flags) (dials : nat -> option error) (es : list event)
    (Hdials : forall k, k < connectionCount -> dials k = None)
    (Hint : (- 2 ^ 63 <= rps f < 2 ^ 63)%Z) (Hrate : ~ (1 <= rps f <= 10 ^ 9)%Z) :
  main f dials es = (Panics, mk (replicate connectionCount (mkLink (BufWriter.New None) None)) false 0 true).
Proof.
  unfold main. rewrite dial_ok by (intros k Hk; apply Hdials; unfold connectionCount in *; lia).
  by rewrite newTicker_panics.
Qed.

End errors.

(** ** Examples

    Eleven ticks: the first connection gets two commands. *)

Module LoadTestWitnesses.
Import Database DatabaseWitnesses ServerWitnesses UniversalHandler TransportFacts LoadTest LoadTestFacts.

Definition ex_events : list event := Tick 1 :: (Tick <$> seq 3 9) ++ [Tick 8; Stop].

(** The same with a connection that has filled up after its first command. *)
Definition ex_full : list event := Tick 1 :: Limit 0 5 None :: (Tick <$> seq 3 9) ++ [Tick 8; Stop].

#[local] Instance ex_wal_ops : WALOps ClientWal.t := ClientWal.client_wal quiet InitWitnesses.first_late.

Lemma ex_refused :
  exists w w', ex_log = Some w /\
    log_answers Context.Background (line_request <$> [nl (str "SET user 1"); nl (str "GET user")]) w =
      ([Some DeadlineExceeded; None], (Ret tt, w')).
Proof.
  assert (match ex_log with
    | Some w => let '(vs, (o, _)) := log_answers Context.Background
        (line_request <$> [nl (str "SET user 1"); nl (str "GET user")]) w in (vs, o)
    | None => ([], Panics)
    end = ([Some DeadlineExceeded; None], Ret tt)) as H by (vm_compute; reflexivity).
  destruct ex_log as [w|]; [|done]. destruct (log_answers _ _ w) as [vs [o w']] eqn:E. injection H as -> ->. by exists w, w'.
Qed.


Lemma load_test_rate_panics_witness :
  main (mkFlags 0 (str "localhost:8080") 1) (fun _ => None) ex_events =
    (Panics, LoadTest.mk (replicate connectionCount (mkLink (BufWriter.New None) None)) false 0 true).
Proof.
  apply load_test_rate_panics.
  - done.
  - vm_compute. by split.
  - cbn. lia.
Defined.

End LoadTestWitnesses.
